(** * Creative automation pipeline: ratio policy, composition and compliance

    A shallow embedding of the image composition and variation engine
    ([src/creative_composer.py]), of the aspect-ratio policy
    ([src/constants.py]) and of the compliance scoring
    ([src/compliance_checker.py]), followed by the properties proved of
    them.

    Conventions.
    - A Python [int] is a [Z]; a Python [float] is a binary64 [float] of the
      kernel, so every arithmetic step rounds as CPython's does.
    - A Python [str] is a [string]: a sequence of code points below 256.
    - A Python [dict] literal is an association list in insertion order
      (the order is observable through [keys()]).
    - [None] is [None]; a tri-state verdict is an [option bool].
    - An exception is the [Raise] result of [Exn]; code that allocates or
      mutates images, or touches the disk, runs in the state monad [IO]
      over a [World] (object heap and file system).
    - Pillow's pixel work (resampling, drawing, alpha blending, font
      metrics) is the interface [Pillow]: the composer is verified for
      every implementation of it.  NumPy's colour search is the interface
      [NumPy], and the platform's [pow] and [round] on floats the
      interface [PyFloat]. *)

From Stdlib Require Import ZArith List String Ascii Bool Lia.
From Stdlib Require Import Floats Uint63.
From Stdlib Require Import Reals Lra.
From stdpp Require Import gmap strings.

Set Warnings "-inexact-float".
Arguments String.append !s1 s2 : simpl nomatch.

Import ListNotations.
Local Open Scope string_scope.
Local Open Scope Z_scope.

(** ** Python primitives *)

Module Py.

(** Result of a computation that may raise. *)
Inductive Exn (A : Type) : Type :=
| Ok (a : A)
| Raise (e : string).
Arguments Ok {A} a.
Arguments Raise {A} e.

Definition bindE {A B : Type} (c : Exn A) (k : A -> Exn B) : Exn B :=
  match c with
  | Ok a => k a
  | Raise e => Raise e
  end.

Declare Scope exn_scope.
Delimit Scope exn_scope with exn.
Notation "x <- c ;; k" := (bindE c (fun x => k))
  (at level 100, c at next level, right associativity) : exn_scope.

(** [d.get(key, default)] on a dict literal. *)
Fixpoint dict_get {V : Type} (d : list (string * V)) (key : string) (default : V) : V :=
  match d with
  | [] => default
  | (k, v) :: d' => if String.eqb k key then v else dict_get d' key default
  end.

(** [list(d.keys())]. *)
Definition dict_keys {V : Type} (d : list (string * V)) : list string :=
  List.map fst d.

(** [d[key] = v]: the value of a key of the dict is replaced where it is, a
    new key is added last. *)
Fixpoint dict_set {V : Type} (d : list (string * V)) (key : string) (v : V)
    : list (string * V) :=
  match d with
  | [] => [(key, v)]
  | (k, v') :: d' =>
      if String.eqb k key then (k, v) :: d' else (k, v') :: dict_set d' key v
  end.

(** [d.get(key)]: [None] for an absent key. *)
Fixpoint dict_lookup {V : Type} (d : list (string * V)) (key : string) : option V :=
  match d with
  | [] => None
  | (k, v) :: d' => if String.eqb k key then Some v else dict_lookup d' key
  end.

(** [float(n)], exact below 2^53 and correctly rounded below 2^63 (pixel
    sizes are far smaller). *)
Definition float_of_int (n : Z) : float :=
  if n <? 0 then PrimFloat.opp (PrimFloat.of_uint63 (Uint63.of_Z (- n)))
  else PrimFloat.of_uint63 (Uint63.of_Z n).

(** [int(x)]: truncation toward zero; a NaN or an infinity raises. *)
Definition int_of_float (x : float) : Exn Z :=
  match Prim2SF x with
  | S754_zero _ => Ok 0
  | S754_finite s m e =>
      let a := match e with
               | Zneg p => Z.shiftr (Zpos m) (Zpos p)
               | _ => Z.shiftl (Zpos m) e
               end in
      Ok (if s then - a else a)
  | S754_infinity _ => Raise "OverflowError: cannot convert float infinity to integer"
  | S754_nan => Raise "ValueError: cannot convert float NaN to integer"
  end.

(** [a / b] on two ints: the correctly rounded quotient. *)
Definition truediv (a b : Z) : Exn float :=
  if b =? 0 then Raise "ZeroDivisionError: division by zero"
  else Ok (PrimFloat.div (float_of_int a) (float_of_int b)).

(** [c.isspace()] for a code point below 256. *)
Definition isspace (c : ascii) : bool :=
  let n := N_of_ascii c in
  (((9 <=? n) && (n <=? 13)) || ((28 <=? n) && (n <=? 32))
   || (n =? 133) || (n =? 160))%N.

(** [s.split()]: maximal runs of non-whitespace, [cur] being the run read
    so far. *)
Fixpoint split_from (cur : string) (s : string) : list string :=
  match s with
  | EmptyString => if String.eqb cur "" then [] else [cur]
  | String c s' =>
      if isspace c
      then (if String.eqb cur "" then split_from "" s' else cur :: split_from "" s')
      else split_from (cur ++ String c "") s'
  end.

Definition split (s : string) : list string := split_from "" s.

(** [sep.join(l)]. *)
Fixpoint join (sep : string) (l : list string) : string :=
  match l with
  | [] => ""
  | [w] => w
  | w :: l' => w ++ sep ++ join sep l'
  end.

(** [c.lower()] for a code point below 256. *)
Definition lower_char (c : ascii) : ascii :=
  let n := N_of_ascii c in
  if (((65 <=? n) && (n <=? 90))
      || ((192 <=? n) && (n <=? 222) && negb (n =? 215)))%N
  then ascii_of_N (n + 32) else c.

Fixpoint lower (s : string) : string :=
  match s with
  | EmptyString => EmptyString
  | String c s' => String (lower_char c) (lower s')
  end.

(** [needle in hay]. *)
Fixpoint contains (needle hay : string) : bool :=
  String.prefix needle hay
  || match hay with
     | EmptyString => false
     | String _ hay' => contains needle hay'
     end.

(** ** [pathlib.PurePosixPath], a path being held as its [str()] *)

(** The components of a path string: split on the slash, empty and ["."]
    components dropped; [cur] is the component read so far. *)
Fixpoint path_parts_from (cur : string) (s : string) : list string :=
  let close := if String.eqb cur "" || String.eqb cur "." then [] else [cur] in
  match s with
  | EmptyString => close
  | String c s' =>
      if Ascii.eqb c "/" then (close ++ path_parts_from "" s')%list
      else path_parts_from (cur ++ String c "") s'
  end.

Definition path_root (s : string) : string :=
  match s with
  | String "/" (String "/" (String "/" _)) => "/"
  | String "/" (String "/" _) => "//"
  | String "/" _ => "/"
  | _ => ""
  end.

(** [str(Path(s))]. *)
Definition Path (s : string) : string :=
  let body := join "/" (path_parts_from "" s) in
  let r := path_root s in
  if String.eqb r "" && String.eqb body "" then "." else r ++ body.

Fixpoint ends_with_slash (s : string) : bool :=
  match s with
  | EmptyString => false
  | String c EmptyString => Ascii.eqb c "/"
  | String _ s' => ends_with_slash s'
  end.

(** [str(Path(s).parent)]: the path without its last part; the working
    directory and the roots are their own parents. *)
Definition path_parent (s : string) : string :=
  match path_parts_from "" s with
  | [] => Path s
  | parts =>
      let body := join "/" (List.removelast parts) in
      let r := path_root s in
      if String.eqb r "" && String.eqb body "" then "." else r ++ body
  end.

(** [p / s]: an absolute [s] replaces [p]. *)
Definition path_div (p s : string) : string :=
  match s with
  | String "/" _ => Path s
  | EmptyString => Path p
  | _ => if ends_with_slash p then Path (p ++ s) else Path (p ++ "/" ++ s)
  end.

End Py.
Export Py.

(** ** [src/constants.py]: the aspect-ratio policy *)

Module AspectRatios.

Definition SQUARE := "1x1".
Definition PORTRAIT_STORY := "9x16".
Definition LANDSCAPE_FEED := "16x9".

Definition OUTPUT_DIMENSIONS : list (string * (Z * Z)) :=
  [ ("1x1", (1080, 1080));
    ("9x16", (1080, 1920));
    ("16x9", (1920, 1080));
    ("4x5", (1080, 1350));
    ("2x3", (1080, 1620)) ].

Definition GENERATION_DIMENSIONS : list (string * (Z * Z)) :=
  [ ("1x1", (1024, 1024));
    ("9x16", (1080, 1920));
    ("16x9", (1920, 1080));
    ("4x3", (1024, 768));
    ("3x4", (768, 1024)) ].

Definition FLUX_FORMATS : list (string * string) :=
  [ ("1x1", "square");
    ("9x16", "portrait_16_9");
    ("16x9", "landscape_16_9");
    ("4x3", "landscape_4_3");
    ("3x4", "portrait_3_4") ].

Definition get_output_size (format_name : string) : Z * Z :=
  dict_get OUTPUT_DIMENSIONS format_name (1080, 1080).

Definition get_generation_size (format_name : string) : Z * Z :=
  dict_get GENERATION_DIMENSIONS format_name (1920, 1080).

Definition get_flux_format (format_name : string) : string :=
  dict_get FLUX_FORMATS format_name "landscape_16_9".

Definition all_formats : list string :=
  dict_keys OUTPUT_DIMENSIONS.

End AspectRatios.

(** ** The imaging library and the world the composer runs in *)

Module Imaging.

(** What Pillow computes on pixel buffers and fonts.  A [Raster] is the
    pixel buffer of a decoded image; sizes are [(width, height)], boxes
    [(left, upper, right, lower)], colours tuples of channel values. *)
Class Pillow := {
  Raster : Type;
  Font : Type;
  (** [Image.convert(mode)] on the pixels: old mode, new mode. *)
  convert_raster : Raster -> string -> string -> Raster;
  (** [Image.resize(size, LANCZOS)] on the pixels: old size, new size. *)
  lanczos : Raster -> Z * Z -> Z * Z -> Raster;
  (** [Image.crop(box)] on the pixels of an image of a given size. *)
  crop_raster : Raster -> Z * Z -> Z * Z * Z * Z -> Raster;
  (** [dest.paste(src, pos, src)]: [src] blended through its own alpha;
      destination pixels, size and mode, then source pixels, size and mode. *)
  paste_raster :
    Raster -> Z * Z -> string -> Raster -> Z * Z -> string -> Z * Z -> Raster;
  (** [ImageDraw.Draw(im, 'RGBA').rectangle(box, fill)]. *)
  rectangle_raster : Raster -> Z * Z -> string -> Z * Z * Z * Z -> list Z -> Raster;
  (** [ImageDraw.Draw(im, 'RGBA').text(pos, text, font, fill)]. *)
  text_raster : Raster -> Z * Z -> string -> Z * Z -> string -> Font -> list Z -> Raster;
  (** [draw.textbbox((0, 0), text, font)]. *)
  textbbox : Font -> string -> Z * Z * Z * Z;
  (** [ImageFont.truetype(path, size)] and [ImageFont.load_default()]. *)
  truetype : string -> Z -> Exn Font;
  load_default : Exn Font;
  (** [ImageColor.getrgb(color)]: a 3- or 4-tuple, or [ValueError]. *)
  getrgb : string -> Exn (list Z);
  (** The sizes of the images [Image.resize] can create: it raises for a
      side that does not fit a C [int], and for more pixels than the memory
      holds.  An image as large as the largest output fits the memory. *)
  can_create : Z * Z -> bool;
  can_create_int : forall w h : Z, can_create (w, h) = true -> w < 2 ^ 31 /\ h < 2 ^ 31;
  can_create_output : forall w h : Z,
    1 <= w <= 1920 -> 1 <= h <= 1920 -> can_create (w, h) = true;
}.

Section World.
Context `{Pillow}.

(** A [PIL.Image.Image] object. *)
Record Image := {
  width : Z;
  height : Z;
  mode : string;
  raster : Raster;
}.

(** What the header of an image file announces: [size] and [mode]. *)
Record Header := {
  header_width : Z;
  header_height : Z;
  header_mode : string;
}.

(** A file: the image it decodes to, if it does; for a file that is
    identified as an image but whose pixel data does not decode (a
    truncated file), what its header announces; a directory or not; and its
    modification time. *)
Record File := {
  file_image : option Image;
  file_header : option Header;
  file_is_dir : bool;
  st_mtime : Z;
}.

(** The mutable state.  [heap] holds the image objects whose pixels are
    loaded or load; [unloaded] the objects opened from a file whose pixel
    data does not decode (their size and mode are known, loading them
    raises).  [disk] holds the files the process can reach, keyed by path;
    a path that is not on it is absent, or refused by the operating system
    (a name too long, a folder the process may not search), and then
    [stat_error] gives the [OSError] raised.  [clock] stamps the written
    files, and [read_only] tells the paths the process may not create or
    write. *)
Record World := {
  heap : gmap positive Image;
  unloaded : gmap positive Header;
  disk : gmap string File;
  clock : Z;
  read_only : string -> bool;
  stat_error : string -> option string;
}.

Definition IO (A : Type) : Type := World -> Exn A * World.

Definition ret {A : Type} (a : A) : IO A := fun w => (Ok a, w).

Definition raise {A : Type} (e : string) : IO A := fun w => (Raise e, w).

Definition bind {A B : Type} (c : IO A) (k : A -> IO B) : IO B :=
  fun w =>
    match c w with
    | (Ok a, w') => k a w'
    | (Raise e, w') => (Raise e, w')
    end.

(** [try: body except Exception as e: handler(e)]; what the body mutated
    before raising stays mutated. *)
Definition try_except {A : Type} (body : IO A) (handler : string -> IO A) : IO A :=
  fun w =>
    match body w with
    | (Ok a, w') => (Ok a, w')
    | (Raise e, w') => handler e w'
    end.

Definition lift {A : Type} (c : Exn A) : IO A := fun w => (c, w).

Definition set_heap (h : gmap positive Image) (w : World) : World :=
  {| heap := h; unloaded := unloaded w; disk := disk w; clock := clock w;
     read_only := read_only w; stat_error := stat_error w |}.

Definition set_unloaded (u : gmap positive Header) (w : World) : World :=
  {| heap := heap w; unloaded := u; disk := disk w; clock := clock w;
     read_only := read_only w; stat_error := stat_error w |}.

Definition set_disk (d : gmap string File) (w : World) : World :=
  {| heap := heap w; unloaded := unloaded w; disk := d; clock := clock w;
     read_only := read_only w; stat_error := stat_error w |}.

(** A new object. *)
Definition alloc (im : Image) : IO positive :=
  fun w =>
    let r := fresh (dom (heap w) ∪ dom (unloaded w)) in
    (Ok r, set_heap (<[r := im]> (heap w)) w).

(** A new object whose pixels do not load. *)
Definition alloc_unloaded (header : Header) : IO positive :=
  fun w =>
    let r := fresh (dom (heap w) ∪ dom (unloaded w)) in
    (Ok r, set_unloaded (<[r := header]> (unloaded w)) w).

(** An object with its pixels, through its reference: what [image.load()]
    gives, which every operation on the pixels starts with. *)
Definition deref (r : positive) : IO Image :=
  fun w =>
    match heap w !! r with
    | Some im => (Ok im, w)
    | None =>
        match unloaded w !! r with
        | Some _ => (Raise "OSError: image file is truncated", w)
        | None => (Raise "ReferenceError", w)
        end
    end.

(** [image.size] and [image.mode], which load no pixel. *)
Definition image_attrs (r : positive) : IO Header :=
  fun w =>
    match heap w !! r with
    | Some im =>
        (Ok {| header_width := width im; header_height := height im;
               header_mode := mode im |}, w)
    | None =>
        match unloaded w !! r with
        | Some header => (Ok header, w)
        | None => (Raise "ReferenceError", w)
        end
    end.

(** In-place update of the pixels of an object. *)
Definition set_raster (r : positive) (px : Raster) : IO unit :=
  fun w =>
    match heap w !! r with
    | Some im =>
        (Ok tt,
         set_heap (<[r := {| width := width im; height := height im;
                             mode := mode im; raster := px |}]> (heap w)) w)
    | None => (Raise "ReferenceError", w)
    end.

End World.

Declare Scope io_scope.
Delimit Scope io_scope with io.
Notation "x <- c ;; k" := (bind c (fun x => k))
  (at level 100, c at next level, right associativity) : io_scope.
Notation "c ;;; k" := (bind c (fun _ => k))
  (at level 100, right associativity) : io_scope.

Section Operations.
Context `{Pillow}.
Local Open Scope io_scope.

(** The error of a system call on a path that is not on the disk. *)
Definition missing (w : World) (p : string) : string :=
  match stat_error w p with
  | Some e => e
  | None => "FileNotFoundError"
  end.

(** [Path(p).exists()]: [False] for an absent path; the [OSError] of a path
    that the operating system refuses is raised. *)
Definition path_exists (p : string) : IO bool :=
  fun w =>
    match disk w !! p with
    | Some _ => (Ok true, w)
    | None =>
        match stat_error w p with
        | Some e => (Raise e, w)
        | None => (Ok false, w)
        end
    end.

(** [Image.open(p)]: the file is identified by its header; its pixels are
    read when they are first needed. *)
Definition image_open (p : string) : IO positive :=
  fun w =>
    match disk w !! p with
    | None => (Raise (missing w p), w)
    | Some f =>
        match file_image f with
        | Some im => alloc im w
        | None =>
            match file_header f with
            | Some header => alloc_unloaded header w
            | None =>
                (Raise (if file_is_dir f then "IsADirectoryError"
                        else "UnidentifiedImageError"), w)
            end
        end
    end.

(** [image.copy()]. *)
Definition image_copy (image : positive) : IO positive :=
  im <- deref image ;; alloc im.

(** [image.convert(m)]. *)
Definition image_convert (image : positive) (m : string) : IO positive :=
  im <- deref image ;;
  alloc {| width := width im; height := height im; mode := m;
           raster := convert_raster (raster im) (mode im) m |}.

(** [image.resize(size, Image.Resampling.LANCZOS)]. *)
Definition image_resize (image : positive) (size : Z * Z) : IO positive :=
  im <- deref image ;;
  if (fst size <? 1) || (snd size <? 1)
  then raise "ValueError: height and width must be > 0"
  else if negb (can_create (fst size, snd size))
  then raise (if (2 ^ 31 <=? fst size) || (2 ^ 31 <=? snd size)
              then "OverflowError: signed integer is greater than maximum"
              else "MemoryError")
  else alloc {| width := fst size; height := snd size; mode := mode im;
                raster := lanczos (raster im) (width im, height im) size |}.

(** [image.crop((left, upper, right, lower))]. *)
Definition image_crop (image : positive) (box : Z * Z * Z * Z) : IO positive :=
  im <- deref image ;;
  let '(x0, y0, x1, y1) := box in
  if x1 <? x0 then raise "ValueError: Coordinate 'right' is less than 'left'"
  else if y1 <? y0 then raise "ValueError: Coordinate 'lower' is less than 'upper'"
  else alloc {| width := x1 - x0; height := y1 - y0; mode := mode im;
                raster := crop_raster (raster im) (width im, height im) box |}.

(** [dest.paste(src, pos, src)]. *)
Definition image_paste (dest src : positive) (pos : Z * Z) : IO unit :=
  d <- deref dest ;;
  s <- deref src ;;
  set_raster dest
    (paste_raster (raster d) (width d, height d) (mode d)
                  (raster s) (width s, height s) (mode s) pos).

(** [ImageDraw.Draw(image, 'RGBA')]: the image is RGB or RGBA, any other
    mode is a mismatch. *)
Definition draw_new (image : positive) : IO unit :=
  im <- deref image ;;
  if String.eqb (mode im) "RGB" || String.eqb (mode im) "RGBA" then ret tt
  else raise "ValueError: mode mismatch".

(** The colours a drawing call takes on an RGB or RGBA image: tuples of
    one, three or four elements. *)
Definition ink (fill : list Z) : bool :=
  match List.length fill with
  | 1%nat | 3%nat | 4%nat => true
  | _ => false
  end.

(** [draw.rectangle(box, fill=fill)] for [draw = ImageDraw.Draw(image, 'RGBA')]. *)
Definition draw_rectangle (image : positive) (box : Z * Z * Z * Z) (fill : list Z) : IO unit :=
  im <- deref image ;;
  if negb (ink fill)
  then raise "TypeError: color must be int, or tuple of one, three or four elements"
  else set_raster image
         (rectangle_raster (raster im) (width im, height im) (mode im) box fill).

(** [draw.text(pos, text, font=font, fill=fill)]. *)
Definition draw_text (image : positive) (pos : Z * Z) (text : string) (font : Font)
    (fill : list Z) : IO unit :=
  im <- deref image ;;
  if negb (ink fill)
  then raise "TypeError: color must be int, or tuple of one, three or four elements"
  else set_raster image
         (text_raster (raster im) (width im, height im) (mode im) pos text font fill).

(** The working directory and the roots, which are always there. *)
Definition is_anchor (p : string) : bool :=
  String.eqb p "." || String.eqb p "/" || String.eqb p "//".

(** Whether something is at [p]: the [os.stat] of the system calls. *)
Definition present (w : World) (p : string) : bool :=
  match disk w !! p with
  | Some _ => true
  | None => is_anchor p
  end.

(** [Path(p).is_dir()]. *)
Definition is_dir (w : World) (p : string) : bool :=
  match disk w !! p with
  | Some f => file_is_dir f
  | None => is_anchor p
  end.

(** Why the entry [p] cannot be made or written in its folder, if so: the
    path is refused, its parent is missing or is no folder, or the process
    may not write there. *)
Definition create_error (w : World) (p : string) : option string :=
  match stat_error w p with
  | Some e => Some e
  | None =>
      if negb (present w (path_parent p)) then Some "FileNotFoundError"
      else if negb (is_dir w (path_parent p)) then Some "NotADirectoryError"
      else if read_only w p then Some "PermissionError"
      else None
  end.

(** [os.mkdir(p)]. *)
Definition os_mkdir (p : string) : IO unit :=
  fun w =>
    if present w p then (Raise "FileExistsError", w)
    else
      match create_error w p with
      | Some e => (Raise e, w)
      | None =>
          (Ok tt,
           set_disk (<[p := {| file_image := None; file_header := None;
                               file_is_dir := true; st_mtime := clock w |}]> (disk w)) w)
      end.

(** [p.mkdir(exist_ok=True)]: an error of [os.mkdir] other than a missing
    parent is dropped when the folder is there. *)
Definition mkdir_exist_ok (p : string) : IO unit :=
  fun w =>
    match os_mkdir p w with
    | (Ok tt, w') => (Ok tt, w')
    | (Raise e, w') =>
        if String.eqb e "FileNotFoundError" then (Raise e, w')
        else if is_dir w' p then (Ok tt, w')
        else (Raise e, w')
    end.

(** [p.mkdir(parents=True, exist_ok=True)]: a missing parent is made by
    the same call on it, then the folder itself without [parents];
    [levels] bounds the parents made. *)
Fixpoint mkdir_parents (levels : nat) (p : string) : IO unit :=
  fun w =>
    match os_mkdir p w with
    | (Ok tt, w') => (Ok tt, w')
    | (Raise e, w') =>
        if String.eqb e "FileNotFoundError" then
          match levels with
          | O => (Raise e, w')
          | S levels' =>
              if String.eqb (path_parent p) p then (Raise e, w')
              else (mkdir_parents levels' (path_parent p) ;;; mkdir_exist_ok p) w'
          end
        else if is_dir w' p then (Ok tt, w')
        else (Raise e, w')
    end.

(** [folder.mkdir(parents=True, exist_ok=True)]: a path has no more
    parents to make than it has parts. *)
Definition mkdir (p : string) : IO unit :=
  mkdir_parents (List.length (path_parts_from "" p)) p.

(** [image.save(p, 'PNG', quality=95)]. *)
Definition image_save (image : positive) (p : string) : IO unit :=
  im <- deref image ;;
  fun w =>
    if read_only w p then (Raise "PermissionError", w)
    else
      match disk w !! p with
      | Some f =>
          if file_is_dir f then (Raise "IsADirectoryError", w)
          else (Ok tt,
                set_disk (<[p := {| file_image := Some im; file_header := None;
                                    file_is_dir := false;
                                    st_mtime := clock w |}]> (disk w)) w)
      | None =>
          if is_anchor p then (Raise "IsADirectoryError", w)
          else
            match create_error w p with
            | Some e => (Raise e, w)
            | None =>
                (Ok tt,
                 set_disk (<[p := {| file_image := Some im; file_header := None;
                                     file_is_dir := false;
                                     st_mtime := clock w |}]> (disk w)) w)
            end
      end.

End Operations.

End Imaging.
Export Imaging.

(** ** [src/creative_composer.py]: the composer *)

Module CreativeComposer.

(** The brand configuration dict; an absent key is [None]. *)
Record BrandConfig := {
  cfg_logo_path : option string;
  cfg_primary_color : option string;
  cfg_secondary_color : option string;
  cfg_font_color : option string;
}.

(** The local variables of [add_text_overlay] that fix the background
    panel: the wrapped lines, the panel size and its top-left corner. *)
Record TextBlock := {
  tb_lines : list string;
  tb_line_height : Z;
  tb_bg_width : Z;
  tb_bg_height : Z;
  tb_x : Z;
  tb_y : Z;
}.

(** [min(a, b)] and [max(a, b)] on floats: the first argument unless the
    second is strictly smaller (larger). *)
Definition float_min (a b : float) : float := if PrimFloat.ltb b a then b else a.

Definition font_paths : list string :=
  [ "/usr/share/fonts/truetype/dejavu/DejaVuSans-Bold.ttf";
    "C:\Windows\Fonts\arialbd.ttf";
    "/System/Library/Fonts/Helvetica.ttc" ].

(** The offsets of the outline stamps, in the order of the two loops. *)
Definition outline_offsets : list (Z * Z) :=
  List.filter (fun o => negb ((fst o =? 0) && (snd o =? 0)))
    (List.flat_map (fun ox => List.map (fun oy => (ox, oy)) [-2; -1; 0; 1; 2])
       [-2; -1; 0; 1; 2]).

Section Composer.
Context `{Pillow}.
Local Open Scope io_scope.

(** A [CreativeComposer] object after [__init__]. *)
Record Composer := {
  brand_config : BrandConfig;
  logo : option positive;
  primary_color : string;
  secondary_color : string;
  font_color : string;
}.

Definition _load_logo (cfg : BrandConfig) : IO (option positive) :=
  try_except
    (match cfg_logo_path cfg with
     | None => raise "TypeError"
     | Some p =>
         let logo_path := Path p in
         found <- path_exists logo_path ;;
         if negb found then ret None
         else
           opened <- image_open logo_path ;;
           lg <- image_attrs opened ;;
           rgba <- (if negb (String.eqb (header_mode lg) "RGBA")
                    then image_convert opened "RGBA" else ret opened) ;;
           lg <- image_attrs rgba ;;
           let max_logo_size := 150 in
           rw <- lift (truediv max_logo_size (header_width lg)) ;;
           rh <- lift (truediv max_logo_size (header_height lg)) ;;
           let ratio := float_min rw rh in
           nw <- lift (int_of_float (PrimFloat.mul (float_of_int (header_width lg)) ratio)) ;;
           nh <- lift (int_of_float (PrimFloat.mul (float_of_int (header_height lg)) ratio)) ;;
           resized <- image_resize rgba (nw, nh) ;;
           ret (Some resized)
     end)
    (fun _ => ret None).

(** [CreativeComposer(brand_config)]. *)
Definition init (cfg : BrandConfig) : IO Composer :=
  lg <- (match cfg_logo_path cfg with
         | Some (String _ _) => _load_logo cfg
         | _ => ret None
         end) ;;
  ret {| brand_config := cfg;
         logo := lg;
         primary_color := default "#FF5733" (cfg_primary_color cfg);
         secondary_color := default "#3498DB" (cfg_secondary_color cfg);
         font_color := default "#FFFFFF" (cfg_font_color cfg) |}.

(** The size handed to [resize]: the cover-fit scaling of an image of size
    [(w, h)] for a target of size [(target_width, target_height)]. *)
Definition scaled_size (w h target_width target_height : Z) : Exn (Z * Z) :=
  (target_ratio <- truediv target_width target_height ;;
   current_ratio <- truediv w h ;;
   if PrimFloat.ltb target_ratio current_ratio
   then
     scale <- truediv target_height h ;;
     new_width <- int_of_float (PrimFloat.mul (float_of_int w) scale) ;;
     Ok (new_width, target_height)
   else
     scale <- truediv target_width w ;;
     new_height <- int_of_float (PrimFloat.mul (float_of_int h) scale) ;;
     Ok (target_width, new_height))%exn.

Definition resize_for_ratio (image : positive) (ratio : string) : IO positive :=
  let '(target_width, target_height) := AspectRatios.get_output_size ratio in
  im <- deref image ;;
  new_size <- lift (scaled_size (width im) (height im) target_width target_height) ;;
  let '(new_width, new_height) := new_size in
  resized <- image_resize image (new_width, new_height) ;;
  let left_ := (new_width - target_width) / 2 in
  let top := (new_height - target_height) / 2 in
  let right_ := left_ + target_width in
  let bottom := top + target_height in
  image_crop resized (left_, top, right_, bottom).

(** The font probing of [add_text_overlay]: the first existing font file,
    else (or on any error) the built-in font. *)
Fixpoint first_font (paths : list string) (font_size : Z) : IO (option Font) :=
  match paths with
  | [] => ret None
  | font_path :: rest =>
      found <- path_exists (Path font_path) ;;
      if found
      then (font <- lift (truetype font_path font_size) ;; ret (Some font))
      else first_font rest font_size
  end.

Definition load_font (font_size : Z) : IO Font :=
  try_except
    (font <- first_font font_paths font_size ;;
     match font with
     | Some f => ret f
     | None => lift load_default
     end)
    (fun _ => lift load_default).

(** [bbox[2] - bbox[0]] for [bbox = draw.textbbox((0, 0), s, font=font)]. *)
Definition text_width (font : Font) (s : string) : Z :=
  let '(x0, _, x1, _) := textbbox font s in x1 - x0.

(** One turn of the word-wrap loop on the pair [(lines, current_line)]. *)
Definition wrap_step (font : Font) (max_text_width : Z)
    (st : list string * list string) (word : string) : list string * list string :=
  let '(lines, current_line) := st in
  let test_line := join " " (current_line ++ [word]) in
  let test_width := text_width font test_line in
  if test_width <=? max_text_width
  then (lines, (current_line ++ [word])%list)
  else
    match current_line with
    | _ :: _ => ((lines ++ [join " " current_line])%list, [word])
    | [] => ((lines ++ [word])%list, current_line)
    end.

(** The word wrap of [add_text_overlay]: the loop over [text.split()] and
    the flush of the last line. *)
Definition wrap_text (font : Font) (max_text_width : Z) (text : string) : list string :=
  let words := split text in
  let '(lines, current_line) :=
    List.fold_left (wrap_step font max_text_width) words ([], []) in
  match current_line with
  | _ :: _ => (lines ++ [join " " current_line])%list
  | [] => lines
  end.

(** The corner of the panel before the clamp. *)
Definition anchor (w h bg_width bg_height : Z) (position : string) : Exn (Z * Z) :=
  (aspect_ratio <- truediv w h ;;
   if String.eqb position "bottom" then
     let x := (w - bg_width) / 2 in
     bottom_margin <-
       (if PrimFloat.ltb aspect_ratio 0.7%float
        then int_of_float (PrimFloat.mul (float_of_int h) 0.05%float)
        else Ok 50) ;;
     Ok (x, h - bg_height - bottom_margin)
   else if String.eqb position "top" then
     Ok ((w - bg_width) / 2, 50)
   else
     Ok ((w - bg_width) / 2, (h - bg_height) / 2))%exn.

(** The layout of [add_text_overlay] for an image of size [(w, h)], once
    the font is chosen. *)
Definition text_block (w h : Z) (font : Font) (font_size max_text_width : Z)
    (text position : string) : Exn TextBlock :=
  (let lines := wrap_text font max_text_width text in
   line_height <- int_of_float (PrimFloat.mul (float_of_int font_size) 1.3%float) ;;
   let total_text_height := Z.of_nat (List.length lines) * line_height in
   let max_line_width :=
     List.fold_left (fun acc line => Z.max acc (text_width font line)) lines 0 in
   let padding_x := 30 in
   let padding_y := 25 in
   let bg_width := max_line_width + padding_x * 2 in
   let bg_height := total_text_height + padding_y * 2 in
   xy <- anchor w h bg_width bg_height position ;;
   let x := Z.max 20 (Z.min (fst xy) (w - bg_width - 20)) in
   let y := Z.max 20 (Z.min (snd xy) (h - bg_height - 20)) in
   Ok {| tb_lines := lines; tb_line_height := line_height;
         tb_bg_width := bg_width; tb_bg_height := bg_height;
         tb_x := x; tb_y := y |})%exn.

(** [ImageColor.getrgb(color)] with the fallback of its [except]. *)
Definition color_or (color : string) (fallback : list Z) (alpha : list Z) : list Z :=
  match getrgb color with
  | Ok rgb => (rgb ++ alpha)%list
  | Raise _ => fallback
  end.

Fixpoint stamp (image : positive) (at_ : Z * Z) (offsets : list (Z * Z))
    (line : string) (font : Font) (fill : list Z) : IO unit :=
  match offsets with
  | [] => ret tt
  | (ox, oy) :: rest =>
      draw_text image (fst at_ + ox, snd at_ + oy) line font fill ;;;
      stamp image at_ rest line font fill
  end.

(** The rendering loop over the lines: shadow, outline, fill. *)
Fixpoint draw_lines (image : positive) (font : Font) (lines : list string)
    (x bg_width text_y line_height : Z) (text_color : list Z) : IO unit :=
  match lines with
  | [] => ret tt
  | line :: rest =>
      let line_width := text_width font line in
      let text_x := x + (bg_width - line_width) / 2 in
      let shadow_color := [0; 0; 0; 180] in
      let outline_color := [0; 0; 0; 255] in
      draw_text image (text_x + 3, text_y + 3) line font shadow_color ;;;
      stamp image (text_x, text_y) outline_offsets line font outline_color ;;;
      draw_text image (text_x, text_y) line font text_color ;;;
      draw_lines image font rest x bg_width (text_y + line_height) line_height text_color
  end.

Definition add_text_overlay (self : Composer) (image : positive) (text position : string)
    : IO positive :=
  img_with_text <- image_copy image ;;
  draw_new img_with_text ;;;
  im <- deref image ;;
  let min_dimension := Z.min (width im) (height im) in
  max_text_width <- lift (int_of_float (PrimFloat.mul (float_of_int (width im)) 0.85%float)) ;;
  font_size <- lift (int_of_float (PrimFloat.mul (float_of_int min_dimension) 0.08%float)) ;;
  font <- load_font font_size ;;
  tb <- lift (text_block (width im) (height im) font font_size max_text_width text position) ;;
  let bg_color := color_or (primary_color self) [255; 87; 51; 200] [200] in
  draw_rectangle img_with_text
    (tb_x tb, tb_y tb, tb_x tb + tb_bg_width tb, tb_y tb + tb_bg_height tb) bg_color ;;;
  let padding_y := 25 in
  let text_y := tb_y tb + padding_y in
  let text_color := color_or (font_color self) [255; 255; 255] [] in
  draw_lines img_with_text font (tb_lines tb) (tb_x tb) (tb_bg_width tb) text_y
    (tb_line_height tb) text_color ;;;
  ret img_with_text.

Definition add_logo_overlay (self : Composer) (image : positive) (position : string)
    : IO positive :=
  match logo self with
  | None => ret image
  | Some logo_ =>
      img_with_logo <- image_copy image ;;
      im <- deref image ;;
      lg <- deref logo_ ;;
      let padding := 30 in
      let xy :=
        if String.eqb position "top-right" then
          (width im - width lg - padding, padding)
        else if String.eqb position "top-left" then
          (padding, padding)
        else if String.eqb position "bottom-right" then
          (width im - width lg - padding, height im - height lg - padding)
        else
          (padding, height im - height lg - padding) in
      image_paste img_with_logo logo_ xy ;;;
      ret img_with_logo
  end.

(** The loop of [create_variations] over the ratios, [generated_paths]
    being the list appended to. *)
Fixpoint variations_loop (self : Composer) (hero_image : positive)
    (campaign_message product_folder : string) (ratios : list string)
    (generated_paths : list string) : IO (list string) :=
  match ratios with
  | [] => ret generated_paths
  | ratio :: rest =>
      copied <- image_copy hero_image ;;
      resized <- resize_for_ratio copied ratio ;;
      with_text <- add_text_overlay self resized campaign_message "bottom" ;;
      final <- (match logo self with
                | Some _ => add_logo_overlay self with_text "top-right"
                | None => ret with_text
                end) ;;
      let output_path := path_div product_folder (ratio ++ ".png") in
      image_save final output_path ;;;
      variations_loop self hero_image campaign_message product_folder rest
        (generated_paths ++ [output_path])%list
  end.

Definition create_variations (self : Composer) (hero_image_path campaign_message
    product_id output_folder : string) (ratios : option (list string))
    : IO (list string) :=
  let ratios := match ratios with
                | None => AspectRatios.all_formats
                | Some l => l
                end in
  try_except
    (opened <- image_open hero_image_path ;;
     hi <- image_attrs opened ;;
     hero_image <- (if negb (String.eqb (header_mode hi) "RGB")
                    then image_convert opened "RGB" else ret opened) ;;
     let product_folder := path_div output_folder product_id in
     mkdir product_folder ;;;
     variations_loop self hero_image campaign_message product_folder ratios [])
    (fun e => raise e).

(** The loop of [batch_create_variations] over [hero_images.items()],
    [results] being the dict filled. *)
Fixpoint batch_loop (self : Composer) (items : list (string * string))
    (campaign_message output_folder : string) (ratios : option (list string))
    (results : list (string * list string)) : IO (list (string * list string)) :=
  match items with
  | [] => ret results
  | (product_id, hero_path) :: rest =>
      paths <- try_except
                 (create_variations self hero_path campaign_message product_id
                    output_folder ratios)
                 (fun _ => ret []) ;;
      batch_loop self rest campaign_message output_folder ratios
        (dict_set results product_id paths)
  end.

Definition batch_create_variations (self : Composer) (hero_images : list (string * string))
    (campaign_message output_folder : string) (ratios : option (list string))
    : IO (list (string * list string)) :=
  batch_loop self hero_images campaign_message output_folder ratios [].

End Composer.

End CreativeComposer.

(** ** [src/compliance_checker.py]: the compliance checker *)

Module ComplianceChecker.

Export CreativeComposer.

(** What NumPy and the float library compute for the checker. *)
Class NumPy `{Pillow} := {
  (** [np.unique(np.array(logo).reshape(-1, 3), axis=0)]: the distinct
      colours of an image, sorted. *)
  unique_colors : Image -> list (Z * Z * Z);
  (** [np.min(np.sqrt(np.sum((img_colors - color) ** 2, axis=1))) < t] for
      [color] a row of a [uint8] array. *)
  near_row : Image -> Z * Z * Z -> Z -> Exn bool;
  (** The same for [color = np.array(target_rgb)], a tuple of ints. *)
  near_tuple : Image -> Z * Z * Z -> Z -> Exn bool;
  (** [int(s, 16)]. *)
  int_base16 : string -> Exn Z;
}.

(** [x ** y] and [round(x, ndigits)] on floats. *)
Class PyFloat := {
  float_pow : float -> float -> float;
  float_round : float -> Z -> float;
}.

Definition PROHIBITED_WORDS : list string :=
  [ "free"; "guarantee"; "guaranteed"; "miracle"; "cure"; "cures";
    "certified"; "approved"; "winner"; "best"; "number one"; "#1";
    "risk-free"; "no risk"; "proven"; "scientific breakthrough";
    "secret"; "banned"; "illegal"; "FDA approved" ].

Record Violation := {
  term : string;
  reason : string;
  severity : string;
}.

Record LegalResult := {
  compliant : bool;
  violations : list Violation;
  text_checked : string;
}.

(** The loop of [check_legal_content] over the prohibited words. *)
Fixpoint scan_words (words : list string) (text_lower : string)
    (violations : list Violation) : list Violation :=
  match words with
  | [] => violations
  | word :: rest =>
      scan_words rest text_lower
        (if contains word text_lower
         then (violations ++ [{| term := word;
                                 reason := "Prohibited marketing claim";
                                 severity := "high" |}])%list
         else violations)
  end.

Definition check_legal_content (text : string) : LegalResult :=
  let text_lower := lower text in
  let violations := scan_words PROHIBITED_WORDS text_lower [] in
  {| compliant := Nat.eqb (List.length violations) 0;
     violations := violations;
     text_checked := text |}.

Record LogoResult := {
  detected : option bool;
  confidence : float;
  logo_message : string;
}.

Record ColorResult := {
  colors_compliant : option bool;
  brand_colors_checked : list string;
  colors_detected : list string;
  detection_rate : float;
  colors_message : string;
}.

Record Report := {
  report_image : string;
  timestamp : Z;
  legal_content : LegalResult;
  logo_presence : LogoResult;
  brand_colors : ColorResult;
  overall_compliant : bool;
}.

(** [v is not False]. *)
Definition is_not_False (v : option bool) : bool :=
  match v with
  | Some false => false
  | _ => true
  end.

(** [s.lstrip('#')]. *)
Fixpoint lstrip_hash (s : string) : string :=
  match s with
  | String "#" s' => lstrip_hash s'
  | _ => s
  end.

(** [s[i:j]] for [0 <= i <= j]. *)
Definition slice (s : string) (i j : nat) : string :=
  String.substring i (j - i) s.

Section Checker.
Context `{NumPy}.
Local Open Scope io_scope.

(** The count of logo colours found in the image. *)
Fixpoint count_matches (image : Image) (colors : list (Z * Z * Z)) (color_matches : Z)
    : Exn Z :=
  match colors with
  | [] => Ok color_matches
  | color :: rest =>
      (found <- near_row image color 50 ;;
       count_matches image rest (if found then color_matches + 1 else color_matches))%exn
  end.

Definition check_logo_presence (brand : BrandConfig) (image_path : string)
    (logo_path : option string) : IO LogoResult :=
  let logo_path := match logo_path with
                   | None => cfg_logo_path brand
                   | Some p => Some p
                   end in
  let unavailable := {| detected := None; confidence := 0%float;
                        logo_message := "Logo template not available for checking" |} in
  match logo_path with
  | None | Some EmptyString => ret unavailable
  | Some p =>
      found <- path_exists (Path p) ;;
      if negb found then ret unavailable
      else
        try_except
          (image0 <- image_open image_path ;;
           image <- image_convert image0 "RGB" ;;
           logo0 <- image_open p ;;
           logo <- image_convert logo0 "RGB" ;;
           im <- deref image ;;
           lg <- deref logo ;;
           if PrimFloat.leb (PrimFloat.mul (float_of_int (width im)) 0.3%float)
                (float_of_int (width lg))
           then ret {| detected := None; confidence := 0%float;
                       logo_message := "Logo template too large for detection" |}
           else
             let unique_logo_colors := unique_colors lg in
             color_matches <- lift (count_matches im (List.firstn 10 unique_logo_colors) 0) ;;
             conf <- lift (truediv color_matches
                             (Z.min 10 (Z.of_nat (List.length unique_logo_colors)))) ;;
             let found := PrimFloat.ltb 0.5%float conf in
             ret {| detected := Some found; confidence := conf;
                    logo_message := if found then "Logo likely present"
                                    else "Logo may not be present" |})
          (fun e => ret {| detected := None; confidence := 0%float;
                           logo_message := "Error during detection: " ++ e |})
  end.

(** The loop of [validate_brand_colors] over the hex colours. *)
Fixpoint find_colors (image : Image) (colors : list string) (colors_found : list string)
    : Exn (list string) :=
  match colors with
  | [] => Ok colors_found
  | hex_color :: rest =>
      (let hex_color := lstrip_hash hex_color in
       r <- int_base16 (slice hex_color 0 2) ;;
       g <- int_base16 (slice hex_color 2 4) ;;
       b <- int_base16 (slice hex_color 4 6) ;;
       found <- near_tuple image (r, g, b) 80 ;;
       find_colors image rest
         (if found then (colors_found ++ [hex_color])%list else colors_found))%exn
  end.

(** The truthy entries of a list of optional strings. *)
Definition truthy (l : list (option string)) : list string :=
  List.flat_map (fun c => match c with
                          | Some (String a s) => [String a s]
                          | _ => []
                          end) l.

Definition validate_brand_colors (brand : BrandConfig) (image_path : string)
    (colors : option (list string)) : IO ColorResult :=
  let colors := match colors with
                | None => truthy [cfg_primary_color brand; cfg_secondary_color brand]
                | Some l => l
                end in
  match colors with
  | [] => ret {| colors_compliant := None; brand_colors_checked := [];
                 colors_detected := []; detection_rate := 0%float;
                 colors_message := "No brand colors configured for checking" |}
  | _ :: _ =>
      try_except
        (image0 <- image_open image_path ;;
         image <- image_convert image0 "RGB" ;;
         im <- deref image ;;
         colors_found <- lift (find_colors im colors []) ;;
         rate <- lift (truediv (Z.of_nat (List.length colors_found))
                         (Z.of_nat (List.length colors))) ;;
         ret {| colors_compliant := Some (0 <? Z.of_nat (List.length colors_found));
                brand_colors_checked := colors;
                colors_detected := colors_found;
                detection_rate := rate;
                colors_message := "" |})
        (fun e => ret {| colors_compliant := None; brand_colors_checked := [];
                         colors_detected := []; detection_rate := 0%float;
                         colors_message := "Error during validation: " ++ e |})
  end.

(** [Path(p).stat().st_mtime]. *)
Definition stat_mtime (p : string) : IO Z :=
  fun w =>
    match disk w !! p with
    | Some f => (Ok (st_mtime f), w)
    | None => (Raise (missing w p), w)
    end.

Definition run_full_compliance_check (brand : BrandConfig) (image_path campaign_message : string)
    : IO Report :=
  mtime <- stat_mtime image_path ;;
  let legal := check_legal_content campaign_message in
  logo_check <- check_logo_presence brand image_path None ;;
  colors_check <- validate_brand_colors brand image_path None ;;
  let legal_ok := compliant legal in
  let logo_ok := detected logo_check in
  let colors_ok := colors_compliant colors_check in
  ret {| report_image := image_path;
         timestamp := mtime;
         legal_content := legal;
         logo_presence := logo_check;
         brand_colors := colors_check;
         overall_compliant :=
           legal_ok && is_not_False logo_ok && is_not_False colors_ok |}.

End Checker.

Section Contrast.
Context `{PyFloat}.
Local Open Scope float_scope.

(** The inner function [luminance] of [check_text_contrast]. *)
Definition linearize (c : Z) : float :=
  let c := float_of_int c / 255 in
  if c <=? 0.03928 then c / 12.92 else float_pow ((c + 0.055) / 1.055) 2.4.

Definition luminance (color : Z * Z * Z) : float :=
  let '(r, g, b) := color in
  0.2126 * linearize r + 0.7152 * linearize g + 0.0722 * linearize b.

(** The local variable [ratio] of [check_text_contrast]. *)
Definition contrast_ratio (text_color bg_color : Z * Z * Z) : float :=
  let l1 := luminance text_color in
  let l2 := luminance bg_color in
  if l2 <? l1 then (l1 + 0.05) / (l2 + 0.05) else (l2 + 0.05) / (l1 + 0.05).

Record ContrastResult := {
  ratio : float;
  passes_aa : bool;
  passes_aaa : bool;
  recommendation : string;
}.

Definition check_text_contrast (text_color bg_color : Z * Z * Z) : ContrastResult :=
  let ratio := contrast_ratio text_color bg_color in
  {| ratio := float_round ratio 2;
     passes_aa := 4.5 <=? ratio;
     passes_aaa := 7.0 <=? ratio;
     recommendation := if 4.5 <=? ratio then "Compliant" else "Increase contrast" |}.

End Contrast.

End ComplianceChecker.

(** ** [src/asset_manager.py]: the asset manager *)

Module Assets.

Export Imaging.

(** [img.verify()]: Pillow's integrity check of the file an image was
    opened from, which raises on a broken one; it reads the file, and
    decodes no pixel. *)
Class Verifier `{Pillow} := {
  verify : File -> Exn unit;
}.

(** A product of the campaign brief: a dict, here with string values. *)
Definition Product : Type := list (string * string).

Definition extensions : list string := [".png"; ".jpg"; ".jpeg"; ".webp"].

Section Manager.
Context `{Verifier}.
Local Open Scope io_scope.

(** An [AssetManager] object: [asset_folder] is the [str()] of its path. *)
Record AssetManager := {
  asset_folder : string;
}.

(** [img.verify()] for the image [img] just opened from [p]. *)
Definition image_verify (img : positive) (p : string) : IO unit :=
  image_attrs img ;;;
  fun w =>
    match disk w !! p with
    | Some f => (verify f, w)
    | None => (Raise (missing w p), w)
    end.

Definition validate_image (self : AssetManager) (image_path : string) : IO bool :=
  try_except
    (img <- image_open image_path ;;
     image_verify img image_path ;;;
     img <- image_open image_path ;;
     size <- image_attrs img ;;
     let width := header_width size in
     let height := header_height size in
     if (width <? 100) || (height <? 100) then ret false
     else if (10000 <? width) || (10000 <? height) then ret false
     else ret true)
    (fun _ => ret false).

(** The loop of [check_existing_assets] over the extensions, left at the
    first file that exists and validates. *)
Fixpoint find_asset (self : AssetManager) (product_id : string) (exts : list string)
    : IO (option string) :=
  match exts with
  | [] => ret None
  | ext :: rest =>
      let asset_path := path_div (asset_folder self) (product_id ++ ext) in
      found <- path_exists asset_path ;;
      if found
      then
        valid <- validate_image self asset_path ;;
        if valid then ret (Some asset_path) else find_asset self product_id rest
      else find_asset self product_id rest
  end.

(** The loop of [check_existing_assets] over the products, [existing] and
    [missing] being the dict and the list filled. *)
Fixpoint check_loop (self : AssetManager) (products : list Product)
    (existing : list (string * string)) (missing : list Product)
    : IO (list (string * string) * list Product) :=
  match products with
  | [] => ret (existing, missing)
  | product :: rest =>
      match dict_lookup product "id" with
      | None | Some EmptyString => check_loop self rest existing missing
      | Some product_id =>
          found <- find_asset self product_id extensions ;;
          match found with
          | Some asset_path =>
              check_loop self rest (dict_set existing product_id asset_path) missing
          | None => check_loop self rest existing (missing ++ [product])%list
          end
      end
  end.

Definition check_existing_assets (self : AssetManager) (products : list Product)
    : IO (list (string * string) * list Product) :=
  check_loop self products [] [].

(** The loop of [get_asset_path]: the first path that exists. *)
Fixpoint first_existing (self : AssetManager) (product_id : string) (exts : list string)
    : IO (option string) :=
  match exts with
  | [] => ret None
  | ext :: rest =>
      let path := path_div (asset_folder self) (product_id ++ ext) in
      found <- path_exists path ;;
      if found then ret (Some path) else first_existing self product_id rest
  end.

Definition get_asset_path (self : AssetManager) (product_id : string) : IO string :=
  found <- first_existing self product_id extensions ;;
  match found with
  | Some path => ret path
  | None => ret (path_div (asset_folder self) (product_id ++ ".png"))
  end.

End Manager.

End Assets.


(** ** [src/image_generator.py] and [src/providers/flux_provider.py]: the request for an image *)

Module Generation.

Import AspectRatios.

(** What [ImageGenerator.generate] passes to the provider for a format
    name: [width], [height] and [image_size]. *)
Definition generate_arguments (image_size : string) : Z * Z * string :=
  let '(width, height) := get_generation_size image_size in
  let flux_format := get_flux_format image_size in
  (width, height, flux_format).

(** The local variable [image_size] of [FluxProvider.generate_image]: the
    keyword argument when there is one that is not empty, else a preset read
    off the dimensions. *)
Definition flux_image_size (image_size : option string) (width height : Z) : Exn string :=
  match image_size with
  | Some (String c s) => Ok (String c s)
  | _ =>
      (aspect_ratio <- truediv width height ;;
       Ok (if PrimFloat.leb 0.9%float aspect_ratio && PrimFloat.leb aspect_ratio 1.1%float
           then "square"
           else if PrimFloat.ltb 1.5%float aspect_ratio then "landscape_16_9"
           else if PrimFloat.ltb aspect_ratio 0.7%float then "portrait_16_9"
           else "square"))%exn
  end.

End Generation.

(** ** A reference implementation of the interfaces, to run the model *)

Module Fixture.

Import ComplianceChecker.

(** The pixel buffer is the list of the operations applied to a decoded
    file, latest first. *)
Inductive Op :=
| Decoded (name : string)
| Converted (from to : string)
| Resized (from to : Z * Z)
| Cropped (box : Z * Z * Z * Z)
| Pasted (pos : Z * Z) (src_size : Z * Z)
| Rectangle (box : Z * Z * Z * Z) (fill : list Z)
| Text (pos : Z * Z) (text : string) (fill : list Z).

(** A font is its pixel size; every glyph advances by six tenths of it, as
    in a fixed-pitch face. *)
Definition glyph_advance (size : Z) : Z := 6 * size / 10.

Definition fixed_bbox (font : Z) (s : string) : Z * Z * Z * Z :=
  (0, 0, glyph_advance font * Z.of_nat (String.length s), font).

Definition hex_digit (c : ascii) : option Z :=
  let n := Z.of_N (N_of_ascii c) in
  if (48 <=? n) && (n <=? 57) then Some (n - 48)
  else if (65 <=? n) && (n <=? 70) then Some (n - 55)
  else if (97 <=? n) && (n <=? 102) then Some (n - 87)
  else None.

Definition hex_byte (s : string) : Exn Z :=
  match s with
  | String a (String b EmptyString) =>
      match hex_digit a, hex_digit b with
      | Some x, Some y => Ok (16 * x + y)
      | _, _ => Raise "ValueError"
      end
  | _ => Raise "ValueError"
  end.

(** Colours of the form [#rrggbb]. *)
Definition hex_color (c : string) : Exn (list Z) :=
  match c with
  | String "#" rest =>
      if Nat.eqb (String.length rest) 6 then
        (r <- hex_byte (String.substring 0 2 rest) ;;
         g <- hex_byte (String.substring 2 2 rest) ;;
         b <- hex_byte (String.substring 4 2 rest) ;;
         Ok [r; g; b])%exn
      else Raise "ValueError"
  | _ => Raise "ValueError"
  end.

(** The memory holds an image of up to [2 ^ 28] pixels. *)
Definition within_memory (size : Z * Z) : bool :=
  (fst size <? 2 ^ 31) && (snd size <? 2 ^ 31) && (fst size * snd size <=? 2 ^ 28).

#[export, refine] Instance pillow : Pillow := {|
  Raster := list Op;
  Font := Z;
  convert_raster r a b := Converted a b :: r;
  lanczos r a b := Resized a b :: r;
  crop_raster r _ box := Cropped box :: r;
  paste_raster r _ _ _ ssize _ pos := Pasted pos ssize :: r;
  rectangle_raster r _ _ box fill := Rectangle box fill :: r;
  text_raster r _ _ pos text _ fill := Text pos text fill :: r;
  textbbox := fixed_bbox;
  truetype _ size := if size <? 1 then Raise "ValueError" else Ok size;
  load_default := Ok 10;
  getrgb := hex_color;
  can_create := within_memory;
|}.
Proof.
- intros w h Hm. unfold within_memory in Hm. cbn [fst snd] in Hm.
  apply andb_true_iff in Hm as [Hm _]. apply andb_true_iff in Hm as [Hw Hh].
  split; now apply Z.ltb_lt.
- intros w h Hw Hh. unfold within_memory. cbn [fst snd].
  assert (w * h <= 2 ^ 28) by nia.
  repeat (apply andb_true_iff; split); [apply Z.ltb_lt | apply Z.ltb_lt | apply Z.leb_le]; lia.
Defined.

#[export] Instance numpy : NumPy := {|
  unique_colors _ := [(0, 0, 0); (255, 255, 255)];
  near_row _ _ _ := Ok true;
  near_tuple _ _ _ := Ok false;
  int_base16 := hex_byte;
|}.

(** A disk with a 1920x1080 hero image and the first font of the probe
    list, and an empty heap. *)
Definition hero : Image :=
  {| width := 1920; height := 1080; mode := "RGB"; raster := [Decoded "hero"] |}.

Definition world0 : World :=
  {| heap := ∅; unloaded := ∅;
     disk := <[ "assets/hero.png" :=
                  {| file_image := Some hero; file_header := None; file_is_dir := false;
                     st_mtime := 1700000000 |} ]>
             {[ "/usr/share/fonts/truetype/dejavu/DejaVuSans-Bold.ttf" :=
                  {| file_image := None; file_header := None; file_is_dir := false;
                     st_mtime := 1600000000 |} ]};
     clock := 1700000100;
     read_only := fun _ => false;
     stat_error := fun _ => None |}.

Definition brand0 : BrandConfig :=
  {| cfg_logo_path := None; cfg_primary_color := Some "#FF5733";
     cfg_secondary_color := None; cfg_font_color := None |}.

(** The composer that [init brand0] builds. *)
Definition composer0 : Composer :=
  {| brand_config := brand0; logo := None; primary_color := "#FF5733";
     secondary_color := "#3498DB"; font_color := "#FFFFFF" |}.

(** A configuration with nothing to check the image against. *)
Definition no_brand : BrandConfig :=
  {| cfg_logo_path := None; cfg_primary_color := None;
     cfg_secondary_color := None; cfg_font_color := None |}.

(** A 1080x1080 image object, as [resize_for_ratio] makes for ["1x1"]. *)
Definition square : Image :=
  {| width := 1080; height := 1080; mode := "RGB"; raster := [Decoded "square"] |}.

Definition world1 : World :=
  {| heap := {[ 1%positive := square ]}; unloaded := ∅; disk := disk world0;
     clock := 1700000100; read_only := fun _ => false;
     stat_error := fun _ => None |}.

(** The hero image as an object. *)
Definition world2 : World :=
  {| heap := {[ 1%positive := hero ]}; unloaded := ∅; disk := disk world0;
     clock := 1700000100; read_only := fun _ => false;
     stat_error := fun _ => None |}.

Definition short_message : string := "Get fit this spring".

Definition long_message : string :=
  "Discover the all new spring collection today and enjoy exclusive member savings on every single order you place online before the end of this month".

(** The rectangles drawn on a pixel buffer. *)
Definition rectangles (r : list Op) : list Op :=
  List.filter (fun o => match o with Rectangle _ _ => true | _ => false end) r.

(** A 300x100 logo with transparency, a 800x200 banner, and a text file
    next to the hero image; the logo is in the brand configuration. *)
Definition logo_image : Image :=
  {| width := 300; height := 100; mode := "RGBA"; raster := [Decoded "logo"] |}.

Definition banner_image : Image :=
  {| width := 800; height := 200; mode := "RGB"; raster := [Decoded "banner"] |}.

Definition world3 : World :=
  {| heap := ∅; unloaded := ∅;
     disk := <[ "assets/logo.png" :=
                  {| file_image := Some logo_image; file_header := None; file_is_dir := false;
                     st_mtime := 1650000000 |} ]>
             (<[ "assets/banner.png" :=
                   {| file_image := Some banner_image; file_header := None; file_is_dir := false;
                      st_mtime := 1650000001 |} ]>
              (<[ "assets/notes.txt" :=
                    {| file_image := None; file_header := None; file_is_dir := false;
                       st_mtime := 1650000002 |} ]>
               (disk world0)));
     clock := 1700000100;
     read_only := fun _ => false;
     stat_error := fun _ => None |}.

Definition brand_logo : BrandConfig :=
  {| cfg_logo_path := Some "assets/logo.png"; cfg_primary_color := Some "#FF5733";
     cfg_secondary_color := Some "3498DB"; cfg_font_color := None |}.

(** A composer that holds a 150x50 logo as object 2, next to the square
    image. *)
Definition small_logo : Image :=
  {| width := 150; height := 50; mode := "RGBA"; raster := [Decoded "logo"] |}.

Definition world4 : World :=
  {| heap := <[ 2%positive := small_logo ]> {[ 1%positive := square ]}; unloaded := ∅;
     disk := disk world0; clock := 1700000100; read_only := fun _ => false;
     stat_error := fun _ => None |}.

(** A thin image as an object: one pixel wide, three million high. *)
Definition thin : Image :=
  {| width := 1; height := 3000000; mode := "RGB"; raster := [Decoded "thin"] |}.

Definition world5 : World :=
  {| heap := {[ 1%positive := thin ]}; unloaded := ∅; disk := disk world0;
     clock := 1700000100; read_only := fun _ => false;
     stat_error := fun _ => None |}.

(** A disk with a hero image that is cut short: its header is sound, its
    pixel data does not load. *)
Definition world6 : World :=
  {| heap := ∅; unloaded := ∅;
     disk := <[ "assets/cut.png" :=
                  {| file_image := None;
                     file_header := Some {| header_width := 1920; header_height := 1080;
                                            header_mode := "RGB" |};
                     file_is_dir := false; st_mtime := 1700000001 |} ]>
             (disk world0);
     clock := 1700000100;
     read_only := fun _ => false;
     stat_error := fun _ => None |}.

Definition composer_logo : Composer :=
  {| brand_config := brand_logo; logo := Some 2%positive; primary_color := "#FF5733";
     secondary_color := "3498DB"; font_color := "#FFFFFF" |}.

(** Every file passes the integrity check. *)
#[export] Instance verifier : Assets.Verifier := {|
  Assets.verify _ := Ok tt;
|}.

Definition manager : Assets.AssetManager := {| Assets.asset_folder := "assets" |}.

Section Numerics.
Local Open Scope float_scope.

(** A [pow] and a [round] to run the contrast check with: [exp (y * ln x)]
    by series, and rounding half up at [ndigits] decimals. *)
Fixpoint atanh_terms (n : nat) (k p t2 : float) : float :=
  match n with
  | O => 0
  | S n => p / k + atanh_terms n (k + 2) (p * t2) t2
  end.

Definition ln (x : float) : float :=
  let '(m, e) := FloatOps.Z.frexp x in
  let t := (m - 1) / (m + 1) in
  float_of_int e * 0.6931471805599453 + 2 * atanh_terms 30 1 t (t * t).

Fixpoint exp_terms (n : nat) (k term y : float) : float :=
  match n with
  | O => 0
  | S n => term + exp_terms n (k + 1) (term * y / k) y
  end.

Definition exp (y : float) : float :=
  let s := exp_terms 25 1 1 (y / 8) in
  let s2 := s * s in
  let s4 := s2 * s2 in
  s4 * s4.

Definition pow (x y : float) : float :=
  if x =? 1 then 1 else exp (y * ln x).

Definition round_half_up (x : float) (ndigits : Z) : float :=
  let s := float_of_int (10 ^ ndigits) in
  match int_of_float (x * s + 0.5) with
  | Ok k => float_of_int k / s
  | Raise _ => x
  end.

End Numerics.

#[export] Instance pyfloat : PyFloat :=
  {| float_pow := pow; float_round := round_half_up |}.

End Fixture.

(** * Vocabulary of the properties *)

Import AspectRatios ComplianceChecker.

(** ** Words and wrapped lines *)

(** No whitespace in a string. *)
Fixpoint spaceless (s : string) : bool :=
  match s with
  | EmptyString => true
  | String c s' => negb (isspace c) && spaceless s'
  end.

(** A word: not empty, and without whitespace. *)
Definition is_word (s : string) : Prop := s <> "" /\ spaceless s = true.

Section WrapInvariant.
Context `{Pillow}.
Variable font : Font.
Variable max_text_width : Z.

(** The words held by the loop state: those of the closed lines, then
    those of the line being filled. *)
Definition state_words (st : list string * list string) : list string :=
  (List.flat_map split (fst st) ++ snd st)%list.



End WrapInvariant.

(** ** Logos and colours *)

Section LogoState.
Context `{Pillow}.

(** The brand configuration names no logo that loads: no path, an empty
    path, a path that is not on disk, or a file that does not decode. *)
Definition logo_unavailable (cfg : BrandConfig) (w : World) : Prop :=
  match cfg_logo_path cfg with
  | None => True
  | Some p =>
      p = "" \/ disk w !! Path p = None
      \/ exists f, disk w !! Path p = Some f /\ file_image f = None
  end.

(** The logo path of the configuration is one the operating system
    refuses with the error [e]: [exists()] raises on it. *)
Definition logo_refused (cfg : BrandConfig) (w : World) (e : string) : Prop :=
  exists c p, cfg_logo_path cfg = Some (String c p)
    /\ disk w !! Path (String c p) = None
    /\ stat_error w (Path (String c p)) = Some e.

End LogoState.

(** The colours with channels in [0 .. 255]. *)
Definition rgb (color : Z * Z * Z) : Prop :=
  let '(r, g, b) := color in
  (0 <= r <= 255 /\ 0 <= g <= 255 /\ 0 <= b <= 255)%Z.

Section Wcag.
Context `{PyFloat}.
Local Open Scope float_scope.

(** The sRGB linearization of a channel value [c] of [0 .. 255], as WCAG
    defines it: [c / 255 / 12.92] for the eleven darkest values (those
    with [c / 255 <= 0.03928]), the power law
    [((c / 255 + 0.055) / 1.055) ^ 2.4] above. *)
Definition srgb_linear (c : Z) : float :=
  if (c <=? 10)%Z then float_of_int c / 255 / 12.92
  else float_pow ((float_of_int c / 255 + 0.055) / 1.055) 2.4.

(** The relative luminance of a colour: the weighted sum of its linearized
    channels. *)
Definition relative_luminance (color : Z * Z * Z) : float :=
  let '(r, g, b) := color in
  0.2126 * srgb_linear r + 0.7152 * srgb_linear g + 0.0722 * srgb_linear b.

(** The WCAG contrast ratio of a lighter and a darker luminance. *)
Definition wcag_ratio (lighter darker : float) : float :=
  (lighter + 0.05) / (darker + 0.05).

End Wcag.

(** ** Binary64 numbers *)

Module Binary64.

(** The state of the shift register after [k] steps on [M]: the mantissa,
    the last bit shifted out, and whether any earlier one was set. *)
Definition shr_state (M k : Z) (mrs : shr_record) : Prop :=
  shr_m mrs = M / 2 ^ k
  /\ shr_r mrs = (if k =? 0 then false else Z.odd (M / 2 ^ (k - 1)))
  /\ shr_s mrs = (if k =? 0 then false else negb (M mod 2 ^ (k - 1) =? 0)).

(** Where the exact mantissa [M] lies in its cell after [n] bits are cut:
    [K] is the rounded mantissa, [rem] what was cut. *)
Definition nearest_even (M n K : Z) : Prop :=
  let m1 := M / 2 ^ n in
  let rem := M mod 2 ^ n in
  (K = m1 \/ K = m1 + 1)
  /\ (K = m1 + 1 -> 2 ^ n <= 2 * rem)
  /\ (K = m1 -> 2 * rem <= 2 ^ n)
  /\ (2 * rem = 2 ^ n -> Z.even K = true).

(** The real value of a power of two. *)
Definition bpow (e : Z) : R := powerRZ 2 e.

(** The value of the positive float of mantissa [m] and exponent [e]. *)
Definition value (m : positive) (e : Z) : R := (IZR (Zpos m) * bpow e)%R.

(** [x] is the positive normal float of mantissa [m] (53 bits) and
    exponent [e]. *)
Definition normal (x : float) (m : positive) (e : Z) : Prop :=
  Prim2SF x = S754_finite false m e /\ Zpos (digits2_pos m) = 53.

(** The unit roundoff [2 ^ -52] of a faithful rounding. *)
Definition eps : R := (/ 4503599627370496)%R.

Section Values.
Local Open Scope R_scope.

(** The float of mantissa [m] and exponent [e] is nearest to [T] among the
    floats of 53 bits. *)
Definition nearest (m : positive) (e : Z) (T : R) : Prop :=
  forall (g : positive) (eg : Z), (Zpos (digits2_pos g) = 53)%Z ->
    Rabs (value m e - T) <= Rabs (value g eg - T).

(** The value of a float that is zero or positive. *)
Definition fval (x : float) : R :=
  match Prim2SF x with
  | S754_finite false m e => value m e
  | _ => 0
  end.

(** [x] is [+0], or positive and normal with an exponent within [b]. *)
Definition zero_or_normal (b : Z) (x : float) : Prop :=
  x = 0%float \/ exists (m : positive) (e : Z), normal x m e /\ (- b <= e <= b)%Z.

(** Whether [x] is positive and normal with an exponent in [lo .. hi]. *)
Definition normal_in (lo hi : Z) (x : float) : bool :=
  match Prim2SF x with
  | S754_finite false m e =>
      (Zpos (digits2_pos m) =? 53)%Z && (lo <=? e)%Z && (e <=? hi)%Z
  | _ => false
  end.

End Values.

End Binary64.

(** ** Wrapped lines *)

(** A line made of words joined by single spaces. *)
Definition joined (line : string) : Prop :=
  exists ws, ws <> [] /\ Forall is_word ws /\ line = join " " ws.

(** ** Effects on the world *)

Section Effects.
Context `{Pillow}.

(** Every object of [w0] is in [w], as it was. *)
Definition extends (w0 w : World) : Prop :=
  forall r im, heap w0 !! r = Some im -> heap w !! r = Some im.

(** [c] leaves the disk alone, and the objects of [w0] as they are: it
    reads, allocates, and writes only to objects that [w0] does not hold. *)
Definition heap_only {A : Type} (w0 : World) (c : IO A) : Prop :=
  forall w, extends w0 w -> extends w0 (snd (c w)) /\ disk (snd (c w)) = disk w.

(** Two objects of the same size and mode. *)
Definition same_shape (a b : Image) : Prop :=
  width a = width b /\ height a = height b /\ mode a = mode b.

(** The allocating operations return an object that was not there. *)
Definition allocates (c : IO positive) : Prop :=
  forall w w' r, c w = (Ok r, w') -> heap w !! r = None.

(** [c] leaves the objects of [w0] as they are (it may write to the disk). *)
Definition heap_keeps {A : Type} (w0 : World) (c : IO A) : Prop :=
  forall w, extends w0 w -> extends w0 (snd (c w)).

(** [c] writes to the object [r] without changing its size or mode. *)
Definition paints (r : positive) (c : IO unit) : Prop :=
  forall w w' im, c w = (Ok tt, w') -> heap w !! r = Some im ->
  exists im', heap w' !! r = Some im' /\ same_shape im' im.

(** A file that holds an image of the output size of [ratio]. *)
Definition holds_variation (d : gmap string File) (p ratio : string) : Prop :=
  exists f im, d !! p = Some f /\ file_image f = Some im /\ file_is_dir f = false
    /\ (width im, height im) = get_output_size ratio.

(** The paths that [create_variations] returns for a product. *)
Definition variation_paths (output_folder product_id : string) (ratios : option (list string))
    : list string :=
  List.map (fun ratio => path_div (path_div output_folder product_id) (ratio ++ ".png"))
    (match ratios with
     | None => all_formats
     | Some l => l
     end).

(** [c] leaves the policy of the world as it is: what the process may
    write, and what the operating system refuses. *)
Definition keeps_policy {A : Type} (c : IO A) : Prop :=
  forall w, read_only (snd (c w)) = read_only w
            /\ stat_error (snd (c w)) = stat_error w.

(** Drawing on a loaded object succeeds and leaves it loaded. *)
Definition draws (r : positive) (c : IO unit) : Prop :=
  forall w, is_Some (heap w !! r) ->
  exists w', c w = (Ok tt, w') /\ is_Some (heap w' !! r).

(** Pillow can create the image that [resize_for_ratio] resamples an image
    of size [(w, h)] to for the ratio, before the crop. *)
Definition resizable (w h : Z) (ratio : string) : Prop :=
  forall new_width new_height,
    scaled_size w h (fst (get_output_size ratio)) (snd (get_output_size ratio))
    = Ok (new_width, new_height) ->
    can_create (new_width, new_height) = true.

(** The colours of a composer are ones the drawing calls take: the primary
    colour parses without an alpha of its own (the panel adds one) or does
    not parse, the font colour parses with or without one or does not
    parse. *)
Definition paintable (self : Composer) : Prop :=
  (forall color, getrgb (primary_color self) = Ok color -> List.length color = 3%nat)
  /\ (forall color, getrgb (font_color self) = Ok color ->
        List.length color = 3%nat \/ List.length color = 4%nat).

(** A path the process may write an image file to: a file that is there
    and is no folder, or a new entry of a folder that is there. *)
Definition writable (w : World) (p : string) : Prop :=
  read_only w p = false /\ is_anchor p = false
  /\ match disk w !! p with
     | Some f => file_is_dir f = false
     | None => stat_error w p = None /\ is_dir w (path_parent p) = true
     end.

(** Two worlds with the same file system: the same disk, clock and
    policy; their objects may differ. *)
Definition same_files (a w : World) : Prop :=
  disk a = disk w /\ clock a = clock w
  /\ read_only a = read_only w /\ stat_error a = stat_error w.

End Effects.

(** ** The verdict of the logo check *)

Section LogoVerdict.
Context `{NumPy}.

(** The image converted to RGB, as [check_logo_presence] compares it. *)
Definition as_rgb (im : Image) : Image :=
  {| width := width im; height := height im; mode := "RGB";
     raster := convert_raster (raster im) (mode im) "RGB" |}.

(** What [check_logo_presence] returns once both files are decoded. *)
Definition logo_verdict (im lg : Image) : LogoResult :=
  if 3 * width im <=? 10 * width lg
  then {| detected := None; confidence := 0%float;
          logo_message := "Logo template too large for detection" |}
  else
    let n := Z.min 10 (Z.of_nat (List.length (unique_colors (as_rgb lg)))) in
    match count_matches (as_rgb im) (List.firstn 10 (unique_colors (as_rgb lg))) 0 with
    | Raise e => {| detected := None; confidence := 0%float;
                    logo_message := "Error during detection: " ++ e |}
    | Ok m =>
        if n =? 0
        then {| detected := None; confidence := 0%float;
                logo_message := "Error during detection: "
                                ++ "ZeroDivisionError: division by zero" |}
        else {| detected := Some (n <? 2 * m);
                confidence := (float_of_int m / float_of_int n)%float;
                logo_message := if n <? 2 * m then "Logo likely present"
                                else "Logo may not be present" |}
    end.

End LogoVerdict.

(** ** Assets *)

Section AssetVocabulary.
Context `{Assets.Verifier}.

(** The path of the asset of a product with a given extension. *)
Definition asset_at (self : Assets.AssetManager) (product_id ext : string) : string :=
  path_div (Assets.asset_folder self) (product_id ++ ext).

(** What [Image.open] reads off a file: the size and mode of the image,
    whether its pixel data decodes or not. *)
Definition file_attrs (f : File) : option Header :=
  match file_image f with
  | Some im =>
      Some {| header_width := width im; header_height := height im;
              header_mode := mode im |}
  | None => file_header f
  end.

(** A file that [validate_image] accepts: it is identified as an image,
    passes Pillow's integrity check, and each side is from 100 to 10000
    pixels. *)
Definition valid_asset (d : gmap string File) (p : string) : Prop :=
  exists f size, d !! p = Some f /\ file_attrs f = Some size /\ Assets.verify f = Ok tt
    /\ 100 <= header_width size <= 10000 /\ 100 <= header_height size <= 10000.

(** A path that [exists()] answers for: it is on the disk, or is absent
    without the operating system refusing it. *)
Definition reachable (w : World) (p : string) : Prop :=
  disk w !! p = None -> stat_error w p = None.

(** [p] is the asset of the first extension of [exts] that has a valid
    file. *)
Definition first_valid (d : gmap string File) (self : Assets.AssetManager)
    (product_id : string) (exts : list string) (p : string) : Prop :=
  exists pre ext post, exts = (pre ++ ext :: post)%list
    /\ p = asset_at self product_id ext
    /\ valid_asset d p
    /\ forall e, In e pre -> ~ valid_asset d (asset_at self product_id e).

(** No extension of [exts] has a valid file. *)
Definition none_valid (d : gmap string File) (self : Assets.AssetManager)
    (product_id : string) (exts : list string) : Prop :=
  forall e, In e exts -> ~ valid_asset d (asset_at self product_id e).

(** The id of a product, when it has one that is not empty. *)
Definition product_id_of (product : Assets.Product) : option string :=
  match dict_lookup product "id" with
  | Some (String c s) => Some (String c s)
  | _ => None
  end.

End AssetVocabulary.

(** ** Path names *)

(** A string without a slash. *)
Fixpoint slashless (s : string) : bool :=
  match s with
  | EmptyString => true
  | String c s' => negb (Ascii.eqb c "/") && slashless s'
  end.

(** The paths above [p]: [p] and its parents, [levels] of them. *)
Fixpoint ancestor_of (levels : nat) (p q : string) : Prop :=
  q = p
  \/ match levels with
     | O => False
     | S levels' => ancestor_of levels' (path_parent p) q
     end.


(** A component of a path: a name without a slash, neither empty nor the
    dot. *)
Definition component (part : string) : Prop :=
  slashless part = true /\ part <> "" /\ part <> ".".

(** The parts of a path, each followed by a slash. *)
Fixpoint slashed (parts : list string) : string :=
  match parts with
  | [] => ""
  | part :: rest => part ++ "/" ++ slashed rest
  end.

(** * Properties *)

(** ** The ratio policy *)

Lemma dict_get_absent {V : Type} (d : list (string * V)) (key : string) (default : V) :
  ~ In key (dict_keys d) -> dict_get d key default = default.
Proof.
  induction d as [|[k v] d IH]; simpl; intros Hn; [reflexivity|].
  destruct (String.eqb_spec k key) as [->|Hne].
  - exfalso. apply Hn. now left.
  - apply IH. intros Hin. apply Hn. now right.
Qed.

Lemma dict_get_present {V : Type} (d : list (string * V)) (key : string) (v default : V) :
  List.NoDup (dict_keys d) -> In (key, v) d -> dict_get d key default = v.
Proof.
  induction d as [|[k v'] d IH]; simpl; intros Hnd Hin; [contradiction|].
  apply List.NoDup_cons_iff in Hnd as [Hk Hnd].
  destruct Hin as [Heq|Hin].
  - injection Heq as -> ->. now rewrite String.eqb_refl.
  - destruct (String.eqb_spec k key) as [->|Hne].
    + exfalso. apply Hk. change (In key (List.map fst d)).
      apply List.in_map_iff. now exists (key, v).
    + now apply IH.
Qed.

Lemma nodup_keys_decide (l : list string) :
  (forallb (fun k => Nat.eqb (List.count_occ string_dec l k) 1) l = true) -> List.NoDup l.
Proof.
  intros Hall. apply (List.NoDup_count_occ' string_dec). intros k Hin.
  rewrite forallb_forall in Hall. apply Nat.eqb_eq. now apply Hall.
Qed.

Lemma output_keys_nodup : List.NoDup (dict_keys OUTPUT_DIMENSIONS).
Proof. apply nodup_keys_decide. vm_compute. reflexivity. Qed.

Lemma generation_keys_nodup : List.NoDup (dict_keys GENERATION_DIMENSIONS).
Proof. apply nodup_keys_decide. vm_compute. reflexivity. Qed.

Lemma flux_keys_nodup : List.NoDup (dict_keys FLUX_FORMATS).
Proof. apply nodup_keys_decide. vm_compute. reflexivity. Qed.

(** C4, as the code has it.  A name outside a table gets that table's
    default, output size (1080, 1080), generation size (1920, 1080) and
    provider format ["landscape_16_9"]; a name of a table gets its entry,
    which is the only entry under that name. *)
Theorem ratio_lookup_defaults (name : string) :
  (~ In name (dict_keys OUTPUT_DIMENSIONS) -> get_output_size name = (1080, 1080))
  /\ (~ In name (dict_keys GENERATION_DIMENSIONS) ->
      get_generation_size name = (1920, 1080))
  /\ (~ In name (dict_keys FLUX_FORMATS) -> get_flux_format name = "landscape_16_9")
  /\ (forall size, In (name, size) OUTPUT_DIMENSIONS -> get_output_size name = size)
  /\ (forall size, In (name, size) GENERATION_DIMENSIONS ->
      get_generation_size name = size)
  /\ (forall token, In (name, token) FLUX_FORMATS -> get_flux_format name = token).
Proof.
  unfold get_output_size, get_generation_size, get_flux_format.
  repeat split; intros.
  - now apply dict_get_absent.
  - now apply dict_get_absent.
  - now apply dict_get_absent.
  - apply dict_get_present; [apply output_keys_nodup | assumption].
  - apply dict_get_present; [apply generation_keys_nodup | assumption].
  - apply dict_get_present; [apply flux_keys_nodup | assumption].
Qed.

Lemma ratio_lookup_defaults_witness :
  get_output_size "21x9" = (1080, 1080)
  /\ get_generation_size "21x9" = (1920, 1080)
  /\ get_flux_format "21x9" = "landscape_16_9"
  /\ get_output_size "9x16" = (1080, 1920)
  /\ get_generation_size "4x3" = (1024, 768)
  /\ get_flux_format "3x4" = "portrait_3_4".
Proof.
  destruct (ratio_lookup_defaults "21x9") as (Ho & Hg & Hf & _).
  destruct (ratio_lookup_defaults "9x16") as (_ & _ & _ & Ho' & _).
  destruct (ratio_lookup_defaults "4x3") as (_ & _ & _ & _ & Hg' & _).
  destruct (ratio_lookup_defaults "3x4") as (_ & _ & _ & _ & _ & Hf').
  refine (conj (Ho _) (conj (Hg _) (conj (Hf _)
            (conj (Ho' _ _) (conj (Hg' _ _) (Hf' _ _)))))).
  all: vm_compute; intuition discriminate.
Defined.

(** C4 as stated fails: the format token of an unknown name is not
    ["landscape"]. *)
Lemma flux_default_is_not_landscape :
  ~ (forall name, ~ In name (dict_keys FLUX_FORMATS) -> get_flux_format name = "landscape").
Proof.
  intros Hall. specialize (Hall "21x9").
  assert (Hn : ~ In "21x9" (dict_keys FLUX_FORMATS)) by (vm_compute; intuition discriminate).
  apply Hall in Hn. vm_compute in Hn. discriminate.
Qed.

(** ** Legal content *)

Lemma lower_char_not_F (c : ascii) : lower_char c <> "F"%char.
Proof. destruct c as [[] [] [] [] [] [] [] []]; vm_compute; discriminate. Qed.

Lemma prefix_capital_lower (rest s : string) :
  String.prefix (String "F" rest) (lower s) = false.
Proof.
  destruct s as [|c s]; [reflexivity|].
  change (lower (String c s)) with (String (lower_char c) (lower s)).
  change (String.prefix (String "F" rest) (String (lower_char c) (lower s)))
    with (if ascii_dec "F" (lower_char c) then String.prefix rest (lower s) else false).
  destruct (ascii_dec "F" (lower_char c)) as [Heq|Hne]; [|reflexivity].
  exfalso. now apply (lower_char_not_F c).
Qed.

Lemma contains_capital_lower (rest s : string) :
  contains (String "F" rest) (lower s) = false.
Proof.
  induction s as [|c s IH].
  - reflexivity.
  - change (lower (String c s)) with (String (lower_char c) (lower s)).
    change (contains (String "F" rest) (String (lower_char c) (lower s)))
      with (String.prefix (String "F" rest) (lower (String c s))
            || contains (String "F" rest) (lower s)).
    now rewrite prefix_capital_lower, IH.
Qed.

(** The reported terms are the words found in the lowercased text, in the
    order of the list. *)
Lemma scan_words_terms (words : list string) (text_lower : string) (acc : list Violation) :
  List.map term (scan_words words text_lower acc)
  = (List.map term acc ++ List.filter (fun w => contains w text_lower) words)%list.
Proof.
  revert acc. induction words as [|word rest IH]; intros acc; simpl.
  - now rewrite List.app_nil_r.
  - rewrite IH. destruct (contains word text_lower); [|reflexivity].
    rewrite List.map_app. simpl. now rewrite <- List.app_assoc.
Qed.

Lemma legal_terms (text : string) :
  List.map term (violations (check_legal_content text))
  = List.filter (fun w => contains w (lower text)) PROHIBITED_WORDS.
Proof.
  unfold check_legal_content. cbn [violations].
  rewrite scan_words_terms. reflexivity.
Qed.

(** Every violation is tagged with the severity ["high"]. *)
Lemma scan_words_severity (words : list string) (text_lower : string) (acc : list Violation) :
  (forall v, In v acc -> severity v = "high") ->
  forall v, In v (scan_words words text_lower acc) -> severity v = "high".
Proof.
  revert acc. induction words as [|word rest IH]; intros acc Hacc v; simpl; [apply Hacc|].
  apply IH. intros v'. destruct (contains word text_lower); [|apply Hacc].
  rewrite List.in_app_iff. intros [Hin|[<-|[]]]; [now apply Hacc | reflexivity].
Qed.

(** The term ["FDA approved"] is never reported, whatever the text. *)
Lemma fda_term_never_reported (text : string) :
  ~ In "FDA approved" (List.map term (violations (check_legal_content text))).
Proof.
  rewrite legal_terms. intros Hin. apply List.filter_In in Hin as [_ Hc].
  now rewrite contains_capital_lower in Hc.
Qed.

(** C3, at the failing input.  The message ["FDA approved"] matches the
    prohibited term ["FDA approved"] whatever the case, yet the violations
    returned hold the term ["approved"] alone. *)
Theorem legal_check_misses_fda_approved :
  contains (lower "FDA approved") (lower "FDA approved") = true
  /\ In "FDA approved" PROHIBITED_WORDS
  /\ List.map term (violations (check_legal_content "FDA approved")) = ["approved"]
  /\ compliant (check_legal_content "FDA approved") = false.
Proof. vm_compute. intuition. Qed.

(** ** The aggregate of the compliance checks *)

Section Aggregate.
Context `{NumPy}.

(** The logo check raises only where [exists()] does, on a logo path
    that the operating system refuses; everything else is caught. *)
Lemma check_logo_presence_outcome brand image_path w :
  match check_logo_presence brand image_path None w with
  | (Ok _, _) => forall e, ~ logo_refused brand w e
  | (Raise e, w') => w' = w /\ logo_refused brand w e
  end.
Proof.
  unfold check_logo_presence, logo_refused.
  destruct (cfg_logo_path brand) as [[|c p]|].
  - cbn [ret]. intros e (c & p & Hp & _). discriminate Hp.
  - unfold bind at 1, path_exists.
    destruct (disk w !! Path (String c p)) as [f|] eqn:Hf.
    + cbn [negb]. unfold try_except.
      match goal with |- context [match ?b w with _ => _ end] => destruct (b w) as [[r|e] w'] end;
        cbn [ret]; intros e' (c' & p' & Hp & Hd & _); injection Hp as <- <-; congruence.
    + destruct (stat_error w (Path (String c p))) as [e|] eqn:He.
      * split; [reflexivity|]. now exists c, p.
      * cbn [negb ret]. intros e' (c' & p' & Hp & _ & He'). injection Hp as <- <-. congruence.
  - cbn [ret]. intros e (c & p & Hp & _). discriminate Hp.
Qed.

Lemma check_logo_presence_returns brand image_path w :
  (forall e, ~ logo_refused brand w e) ->
  exists r w', check_logo_presence brand image_path None w = (Ok r, w').
Proof.
  intros Hok. pose proof (check_logo_presence_outcome brand image_path w) as Hout.
  destruct (check_logo_presence brand image_path None w) as [[r|e] w'].
  - now exists r, w'.
  - destruct Hout as [_ Href]. now destruct (Hok e).
Qed.

Lemma validate_brand_colors_returns brand image_path colors w :
  exists r w', validate_brand_colors brand image_path colors w = (Ok r, w').
Proof.
  unfold validate_brand_colors.
  destruct (match colors with Some l => l | None => _ end) as [|c l];
    [eexists _, _; reflexivity|].
  unfold try_except.
  match goal with |- context [match ?b w with _ => _ end] => destruct (b w) as [[r|e] w'] end;
    eexists _, _; reflexivity.
Qed.

(** When the full check raises: on the [stat()] of the artifact, or on the
    [exists()] of the logo path. *)
Lemma full_check_outcome brand image_path campaign_message w :
  match run_full_compliance_check brand image_path campaign_message w with
  | (Ok _, _) => is_Some (disk w !! image_path) /\ forall e, ~ logo_refused brand w e
  | (Raise e, w') =>
      w' = w
      /\ ((disk w !! image_path = None /\ e = missing w image_path)
          \/ (is_Some (disk w !! image_path) /\ logo_refused brand w e))
  end.
Proof.
  unfold run_full_compliance_check.
  unfold bind at 1, stat_mtime.
  destruct (disk w !! image_path) as [f|] eqn:Hf.
  2:{ split; [reflexivity|]. left. now split. }
  unfold bind at 1.
  pose proof (check_logo_presence_outcome brand image_path w) as Hout.
  destruct (check_logo_presence brand image_path None w) as [[lr|e] w1] eqn:Hl.
  2:{ destruct Hout as [-> Href]. split; [reflexivity|]. right. split; [now exists f | exact Href]. }
  unfold bind at 1.
  destruct (validate_brand_colors_returns brand image_path None w1) as (cr & w2 & Hc).
  rewrite Hc. unfold ret. split; [now exists f | exact Hout].
Qed.

(** C1.  [run_full_compliance_check] raises only when the artifact is not
    on disk, or when [exists()] raises on the path of the logo template.
    The report it returns holds the results of the three sub-checks, and
    its [overall_compliant] is true exactly when the legal check is
    compliant, the logo verdict is not [False] and the colour verdict is
    not [False]: a verdict [None] passes, each definitive negative alone
    fails the aggregate, and nothing else does. *)
Theorem full_check_aggregate brand image_path campaign_message w :
  match run_full_compliance_check brand image_path campaign_message w with
  | (Raise e, w') =>
      w' = w
      /\ ((disk w !! image_path = None /\ e = missing w image_path)
          \/ (is_Some (disk w !! image_path) /\ logo_refused brand w e))
  | (Ok report, w') =>
      is_Some (disk w !! image_path)
      /\ legal_content report = check_legal_content campaign_message
      /\ (exists w1,
            check_logo_presence brand image_path None w = (Ok (logo_presence report), w1)
            /\ validate_brand_colors brand image_path None w1
               = (Ok (brand_colors report), w'))
      /\ (overall_compliant report = true <->
          compliant (legal_content report) = true
          /\ detected (logo_presence report) <> Some false
          /\ colors_compliant (brand_colors report) <> Some false)
      /\ (compliant (legal_content report) = false -> overall_compliant report = false)
      /\ (detected (logo_presence report) = Some false -> overall_compliant report = false)
      /\ (colors_compliant (brand_colors report) = Some false ->
          overall_compliant report = false)
      /\ overall_compliant report
         = compliant (legal_content report)
           && is_not_False (detected (logo_presence report))
           && is_not_False (colors_compliant (brand_colors report))
      /\ (detected (logo_presence report) = None ->
          colors_compliant (brand_colors report) = None ->
          overall_compliant report = compliant (legal_content report))
      /\ (overall_compliant report = false ->
          compliant (legal_content report) = false
          \/ detected (logo_presence report) = Some false
          \/ colors_compliant (brand_colors report) = Some false)
  end.
Proof.
  unfold run_full_compliance_check.
  generalize (check_legal_content campaign_message) as legal. intros legal.
  unfold bind at 1, stat_mtime.
  destruct (disk w !! image_path) as [f|] eqn:Hf.
  2:{ split; [reflexivity|]. left. now split. }
  unfold bind at 1.
  pose proof (check_logo_presence_outcome brand image_path w) as Hout.
  destruct (check_logo_presence brand image_path None w) as [[lr|e] w1] eqn:Hl.
  2:{ destruct Hout as [-> Href]. split; [reflexivity|]. right. split; [now exists f | exact Href]. }
  unfold bind at 1.
  destruct (validate_brand_colors_returns brand image_path None w1) as (cr & w2 & Hc).
  rewrite Hc. unfold ret.
  cbn [overall_compliant legal_content logo_presence brand_colors].
  split; [now exists f|]. split; [reflexivity|]. split; [now exists w1|].
  destruct (compliant legal), (detected lr) as [[]|], (colors_compliant cr) as [[]|];
    cbn [is_not_False andb];
    (split; [split; [intros E; try discriminate E; repeat split; congruence
                    | intros (E1 & E2 & E3); congruence]|]);
    (split; [congruence|]); (split; [congruence|]); (split; [congruence|]);
    (split; [reflexivity|]); (split; [congruence|]);
    intros E; try discriminate E; auto.
Qed.

End Aggregate.

(** ** Splitting and joining words *)

Lemma string_app_nil_r (s : string) : s ++ "" = s.
Proof. induction s as [|c s IH]; simpl; [reflexivity | now rewrite IH]. Qed.

Lemma string_app_assoc (a b c : string) : (a ++ b) ++ c = a ++ (b ++ c).
Proof. induction a as [|x a IH]; simpl; [reflexivity | now rewrite IH]. Qed.

Lemma string_app_not_nil (a : string) (c : ascii) : a ++ String c "" <> "".
Proof. destruct a; discriminate. Qed.

Lemma spaceless_app (a b : string) :
  spaceless (a ++ b) = spaceless a && spaceless b.
Proof.
  induction a as [|c a IH]; simpl; [reflexivity|].
  rewrite IH. now rewrite andb_assoc.
Qed.

Lemma eqb_empty_false (s : string) : s <> "" -> String.eqb s "" = false.
Proof. intros Hs. now apply String.eqb_neq. Qed.

(** Reading a spaceless run moves it into the accumulator. *)
Lemma split_from_run (w cur rest : string) :
  spaceless w = true -> split_from cur (w ++ rest) = split_from (cur ++ w) rest.
Proof.
  revert cur. induction w as [|c w IH]; intros cur Hw; simpl.
  - now rewrite string_app_nil_r.
  - simpl in Hw. apply andb_true_iff in Hw as [Hc Hw].
    apply negb_true_iff in Hc. rewrite Hc, IH by assumption.
    now rewrite string_app_assoc.
Qed.

Lemma split_from_words (s cur : string) :
  spaceless cur = true -> Forall is_word (split_from cur s).
Proof.
  revert cur. induction s as [|c s IH]; intros cur Hcur; simpl.
  - destruct (String.eqb_spec cur ""); constructor; [now split | constructor].
  - destruct (isspace c) eqn:Hc.
    + destruct (String.eqb_spec cur ""); [now apply IH|].
      constructor; [now split | now apply IH].
    + apply IH. rewrite spaceless_app, Hcur. simpl. now rewrite Hc.
Qed.

(** [text.split()] yields words. *)
Lemma split_words (s : string) : Forall is_word (split s).
Proof. now apply split_from_words. Qed.

Lemma split_word (w : string) : is_word w -> split w = [w].
Proof.
  intros [Hne Hw]. unfold split.
  rewrite <- (string_app_nil_r w) at 1. rewrite split_from_run by assumption.
  simpl. now rewrite eqb_empty_false.
Qed.

(** Splitting a line gives back the words it was joined from. *)
Lemma split_join (ws : list string) : Forall is_word ws -> split (join " " ws) = ws.
Proof.
  induction ws as [|w ws IH]; intros Hws; [reflexivity|].
  apply Forall_cons_iff in Hws as [Hw Hws].
  destruct ws as [|w' ws]; [now apply split_word|].
  change (join " " (w :: w' :: ws)) with (w ++ " " ++ join " " (w' :: ws)).
  destruct Hw as [Hne Hw]. unfold split. rewrite split_from_run by assumption.
  change (split_from ("" ++ w) (" " ++ join " " (w' :: ws)))
    with (if String.eqb w "" then split_from "" (join " " (w' :: ws))
          else w :: split_from "" (join " " (w' :: ws))).
  rewrite eqb_empty_false by assumption.
  f_equal. now apply IH.
Qed.

(** ** The word wrap *)

Section WordWrap.
Context `{Pillow}.
Variable font : Font.
Variable max_text_width : Z.

Lemma flat_map_split_snoc (lines : list string) (line : string) :
  List.flat_map split (lines ++ [line]) = (List.flat_map split lines ++ split line)%list.
Proof. rewrite List.flat_map_app. simpl. now rewrite List.app_nil_r. Qed.

Lemma wrap_step_words (st : list string * list string) (word : string) :
  Forall is_word (snd st) -> is_word word ->
  state_words (wrap_step font max_text_width st word) = (state_words st ++ [word])%list
  /\ Forall is_word (snd (wrap_step font max_text_width st word)).
Proof.
  destruct st as [lines current_line]. unfold wrap_step, state_words.
  intros Hcur Hw. cbn [fst snd] in *.
  destruct (_ <=? max_text_width).
  - cbn [fst snd]. split; [now rewrite List.app_assoc|].
    apply Forall_app. split; [assumption | now constructor].
  - destruct current_line as [|w0 ws].
    + cbn [fst snd]. rewrite flat_map_split_snoc, split_word by assumption.
      split; [now rewrite !List.app_nil_r | constructor].
    + cbn [fst snd]. rewrite flat_map_split_snoc, split_join by assumption.
      split; [now rewrite <- List.app_assoc | now constructor].
Qed.

Lemma wrap_fold_words (words : list string) (st : list string * list string) :
  Forall is_word (snd st) -> Forall is_word words ->
  state_words (List.fold_left (wrap_step font max_text_width) words st)
  = (state_words st ++ words)%list
  /\ Forall is_word (snd (List.fold_left (wrap_step font max_text_width) words st)).
Proof.
  revert st. induction words as [|word words IH]; intros st Hcur Hws; simpl.
  - split; [now rewrite List.app_nil_r | assumption].
  - apply Forall_cons_iff in Hws as [Hw Hws].
    destruct (wrap_step_words st word Hcur Hw) as [Heq Hcur'].
    destruct (IH _ Hcur' Hws) as [Heq' Hfin]. split; [|assumption].
    rewrite Heq', Heq. now rewrite <- List.app_assoc.
Qed.

(** C10.  The words of the wrapped lines, read in order, are the words of
    the text: none is dropped, duplicated or moved. *)
Theorem wrap_text_preserves_words (text : string) :
  List.flat_map split (wrap_text font max_text_width text) = split text.
Proof.
  unfold wrap_text.
  destruct (wrap_fold_words (split text) ([], [])) as [Heq Hcur];
    [constructor | apply split_words |].
  destruct (List.fold_left _ _ _) as [lines current_line].
  unfold state_words in Heq. cbn [fst snd] in *.
  destruct current_line as [|w ws].
  - now rewrite List.app_nil_r in Heq.
  - rewrite flat_map_split_snoc, split_join by assumption. exact Heq.
Qed.






End WordWrap.

(** ** Running in the world *)

Section Frames.
Context `{Pillow}.

Lemma bind_ok {A B : Type} (c : IO A) (k : A -> IO B) (w w' : World) (b : B) :
  bind c k w = (Ok b, w') ->
  exists a w1, c w = (Ok a, w1) /\ k a w1 = (Ok b, w').
Proof.
  unfold bind. destruct (c w) as [[a|e] w1]; intros Hk; [|discriminate].
  now exists a, w1.
Qed.

Lemma try_reraise_ok {A : Type} (body : IO A) (w w' : World) (a : A) :
  try_except body (fun e => raise e) w = (Ok a, w') -> body w = (Ok a, w').
Proof.
  unfold try_except, raise. destruct (body w) as [[a'|e] w1]; intros Hk;
    [assumption | discriminate].
Qed.

(** The reference of a new object is that of no object, loaded or not. *)
Lemma fresh_not_live (w : World) :
  heap w !! fresh (dom (heap w) ∪ dom (unloaded w)) = None
  /\ unloaded w !! fresh (dom (heap w) ∪ dom (unloaded w)) = None.
Proof.
  pose proof (is_fresh (dom (heap w) ∪ dom (unloaded w))) as Hfresh.
  split; apply not_elem_of_dom; intros Hin; apply Hfresh; set_solver.
Qed.

(** A new object never takes the place of a live one. *)
Lemma alloc_frame (im0 : Image) (w : World) (r : positive) (im : Image) :
  heap w !! r = Some im ->
  heap (snd (alloc im0 w)) !! r = Some im
  /\ exists r', fst (alloc im0 w) = Ok r' /\ r' <> r
     /\ heap (snd (alloc im0 w)) !! r' = Some im0.
Proof.
  intros Hr. unfold alloc. cbn [fst snd heap set_heap].
  assert (Hne : fresh (dom (heap w) ∪ dom (unloaded w)) <> r).
  { intros Heq. destruct (fresh_not_live w) as [Hfresh _]. congruence. }
  split; [now rewrite lookup_insert_ne|].
  exists (fresh (dom (heap w) ∪ dom (unloaded w))). split; [reflexivity|].
  split; [assumption|]. apply lookup_insert_eq.
Qed.

Lemma path_exists_present (p : string) (w : World) :
  is_Some (disk w !! p) -> path_exists p w = (Ok true, w).
Proof. intros [f Hf]. unfold path_exists. now rewrite Hf. Qed.

Lemma path_exists_ok (p : string) (w w' : World) (found : bool) :
  path_exists p w = (Ok found, w') ->
  w' = w /\ (if found then is_Some (disk w !! p)
             else disk w !! p = None /\ stat_error w p = None).
Proof.
  unfold path_exists. destruct (disk w !! p) as [f|] eqn:Hf.
  - intros E. injection E as <- <-. split; [reflexivity | now exists f].
  - destruct (stat_error w p); intros E; [discriminate|].
    injection E as <- <-. now repeat split.
Qed.

Lemma lift_ok {A : Type} (c : Exn A) (w w' : World) (a : A) :
  lift c w = (Ok a, w') -> w' = w /\ c = Ok a.
Proof. unfold lift. intros E. injection E as -> <-. now split. Qed.

Lemma image_attrs_ok (r : positive) (w w' : World) (a : Header) :
  image_attrs r w = (Ok a, w') ->
  w' = w
  /\ match heap w !! r with
     | Some im => a = {| header_width := width im; header_height := height im;
                         header_mode := mode im |}
     | None => unloaded w !! r = Some a
     end.
Proof.
  unfold image_attrs. destruct (heap w !! r) as [im|].
  - intros E. injection E as <- <-. now split.
  - destruct (unloaded w !! r) as [hd|]; intros E; [|discriminate].
    injection E as <- <-. now split.
Qed.

(** No pixel of an object that is not loaded can be read. *)
Lemma deref_not_loaded (r : positive) (w : World) :
  heap w !! r = None -> exists e, deref r w = (Raise e, w).
Proof.
  intros Hr. unfold deref. rewrite Hr. destruct (unloaded w !! r); eexists; reflexivity.
Qed.

(** What [Image.open] returns: a loaded object for a file that decodes, an
    object that does not load for a file that only has its header. *)
Lemma image_open_ok (p : string) (w w' : World) (r : positive) :
  image_open p w = (Ok r, w') ->
  exists f, disk w !! p = Some f /\ disk w' = disk w /\ heap w !! r = None
    /\ match file_image f with
       | Some im => heap w' = <[r := im]> (heap w) /\ unloaded w' = unloaded w
       | None =>
           exists header, file_header f = Some header
             /\ heap w' = heap w /\ unloaded w' = <[r := header]> (unloaded w)
       end.
Proof.
  unfold image_open. destruct (disk w !! p) as [f|]; [|discriminate].
  intros E. exists f. split; [reflexivity|].
  destruct (fresh_not_live w) as [Hfresh _].
  destruct (file_image f) as [im|].
  - unfold alloc in E. injection E as <- <-. now repeat split.
  - destruct (file_header f) as [header|]; [|discriminate].
    unfold alloc_unloaded in E. injection E as <- <-.
    split; [reflexivity|]. split; [assumption|]. now exists header.
Qed.

End Frames.

(** Inversion of a successful run, one [bind] at a time. *)
Ltac io_inv H :=
  let a := fresh "a" in
  let w := fresh "w" in
  let Hc := fresh "Hc" in
  apply bind_ok in H as (a & w & Hc & H).

(** ** The panel of the text overlay *)

Section Panel.
Context `{Pillow}.

Lemma max_line_width_ge (font : Font) (lines : list string) (acc : Z) :
  acc <= List.fold_left (fun a line => Z.max a (text_width font line)) lines acc.
Proof.
  revert acc. induction lines as [|line lines IH]; intros acc; simpl; [lia|].
  specialize (IH (Z.max acc (text_width font line))). lia.
Qed.

(** What the clamp of [add_text_overlay] guarantees: the corner is 20px
    inside the image, the panel is at least 60px wide, and the far edges
    keep the 20px margin exactly when the panel leaves room for it. *)
Lemma text_block_clamp (w h : Z) (font : Font) (font_size max_text_width : Z)
    (text position : string) (tb : TextBlock) :
  text_block w h font font_size max_text_width text position = Ok tb ->
  20 <= tb_x tb /\ 20 <= tb_y tb /\ 60 <= tb_bg_width tb
  /\ (tb_x tb + tb_bg_width tb <= w - 20 <-> tb_bg_width tb <= w - 40)
  /\ (tb_y tb + tb_bg_height tb <= h - 20 <-> tb_bg_height tb <= h - 40).
Proof.
  unfold text_block, bindE.
  destruct (int_of_float _) as [line_height|e]; [|discriminate].
  destruct (anchor _ _ _ _ _) as [[x y]|e]; [|discriminate].
  intros Htb. injection Htb as <-. cbn [tb_x tb_y tb_bg_width tb_bg_height fst snd].
  pose proof (max_line_width_ge font (wrap_text font max_text_width text) 0).
  lia.
Qed.

(** C7, at a failing input that needs no font metrics.  For a 64x64 image
    [add_text_overlay] takes the font size 5 and the wrap width 54; the
    panel for the one-word text ["Sale"] then starts at (20, 20) and,
    being at least 60px wide and 50px high, ends beyond the 20px margin
    (indeed beyond the image) on the right and at the bottom, whatever the
    font. *)
Theorem text_panel_overflows_small_image (font : Font) :
  int_of_float (PrimFloat.mul (float_of_int (Z.min 64 64)) 0.08%float) = Ok 5
  /\ int_of_float (PrimFloat.mul (float_of_int 64) 0.85%float) = Ok 54
  /\ exists tb,
       text_block 64 64 font 5 54 "Sale" "bottom" = Ok tb
       /\ tb_x tb = 20 /\ tb_y tb = 20
       /\ 64 - 20 < tb_x tb + tb_bg_width tb
       /\ 64 - 20 < tb_y tb + tb_bg_height tb.
Proof.
  split; [vm_compute; reflexivity|]. split; [vm_compute; reflexivity|].
  unfold text_block.
  replace (int_of_float (PrimFloat.mul (float_of_int 5) 1.3%float)) with (Ok 6 : Exn Z)
    by (vm_compute; reflexivity).
  cbn [bindE].
  set (lines := wrap_text font 54 "Sale").
  assert (Hlen : List.length lines = 1%nat).
  { unfold lines, wrap_text.
    replace (split "Sale") with ["Sale"] by (vm_compute; reflexivity).
    cbn [List.fold_left wrap_step app join].
    destruct (_ <=? 54); reflexivity. }
  rewrite Hlen.
  set (mlw := List.fold_left _ lines 0).
  assert (0 <= mlw) by apply max_line_width_ge.
  unfold anchor.
  replace (truediv 64 64) with (Ok 1%float : Exn float) by (vm_compute; reflexivity).
  cbn [bindE String.eqb Ascii.eqb Bool.eqb].
  replace (PrimFloat.ltb 1 0.7) with false by (vm_compute; reflexivity).
  cbn [bindE].
  eexists. split; [reflexivity|].
  cbn [tb_x tb_y tb_bg_width tb_bg_height fst snd].
  change (Z.of_nat 1) with 1.
  assert ((64 - (mlw + 30 * 2)) `div` 2 <= 20) by (apply Z.div_le_upper_bound; lia).
  lia.
Qed.

End Panel.

(** ** The logo overlay *)

Section Logo.
Context `{Pillow}.

Lemma load_logo_returns (cfg : BrandConfig) (w : World) :
  exists lg w', _load_logo cfg w = (Ok lg, w').
Proof.
  unfold _load_logo, try_except.
  match goal with |- context [match ?b w with _ => _ end] => destruct (b w) as [[r|e] w'] end;
    eexists _, _; reflexivity.
Qed.

Lemma load_logo_unavailable (cfg : BrandConfig) (w : World) (p : string) :
  cfg_logo_path cfg = Some p ->
  disk w !! Path p = None \/ (exists f, disk w !! Path p = Some f /\ file_image f = None) ->
  exists w', _load_logo cfg w = (Ok None, w').
Proof.
  intros Hp Hdisk. unfold _load_logo, try_except. rewrite Hp.
  match goal with
  | |- context [match ?b w with _ => _ end] => destruct (b w) as [[[x|]|e] w'] eqn:E
  end; try (eexists; reflexivity).
  exfalso.
  apply bind_ok in E as (found & w1 & Hex & E).
  unfold path_exists in Hex.
  destruct Hdisk as [Hnone|(f & Hf & Himg)].
  { rewrite Hnone in Hex. destruct (stat_error w (Path p)); [discriminate|].
    injection Hex as <- <-. discriminate E. }
  rewrite Hf in Hex. injection Hex as <- <-. cbn [negb] in E.
  apply bind_ok in E as (opened & w2 & Hopen & E).
  apply image_open_ok in Hopen as (f' & Hf' & _ & Hfresh & Hshape).
  rewrite Hf in Hf'. injection Hf' as <-. rewrite Himg in Hshape.
  destruct Hshape as (header & _ & Hheap & Hun).
  assert (Hop : heap w2 !! opened = None) by now rewrite Hheap.
  destruct (deref_not_loaded opened w2 Hop) as (e & Hraise).
  apply bind_ok in E as (lg & w3 & Hat & E). apply image_attrs_ok in Hat as [-> _].
  apply bind_ok in E as (rgba & w4 & Hconv & E).
  assert (Hsame : rgba = opened /\ w4 = w2).
  { destruct (negb _).
    - unfold image_convert in Hconv. apply bind_ok in Hconv as (im & w5 & Hd & _).
      rewrite Hraise in Hd. discriminate Hd.
    - injection Hconv as <- <-. now split. }
  destruct Hsame as [-> ->].
  apply bind_ok in E as (lg2 & w5 & Hat & E). apply image_attrs_ok in Hat as [-> _].
  do 4 (apply bind_ok in E as (? & ? & Hl & E); apply lift_ok in Hl as [-> _]).
  apply bind_ok in E as (resized & w6 & Hres & _).
  unfold image_resize in Hres. apply bind_ok in Hres as (im & w7 & Hd & _).
  rewrite Hraise in Hd. discriminate Hd.
Qed.

(** [__init__] always returns, and without a logo when none is available. *)
Lemma init_returns (cfg : BrandConfig) (w : World) :
  exists self w', init cfg w = (Ok self, w')
    /\ (logo_unavailable cfg w -> logo self = None).
Proof.
  unfold init, logo_unavailable.
  destruct (cfg_logo_path cfg) as [[|c p]|] eqn:Hp;
    try (unfold bind, ret; eexists _, _; split; [reflexivity | reflexivity]).
  destruct (load_logo_returns cfg w) as (lg & w' & Hl).
  unfold bind at 1. rewrite Hl. unfold ret. eexists _, _. split; [reflexivity|].
  cbn [logo]. intros [Hempty|Hdisk]; [discriminate|].
  destruct (load_logo_unavailable cfg w _ Hp Hdisk) as (w'' & Hl').
  rewrite Hl in Hl'. now injection Hl' as -> _.
Qed.

(** Without a logo the overlay hands back the very object it was given,
    and the world is as it was. *)
Lemma add_logo_overlay_no_logo (self : Composer) (image : positive) (position : string)
    (w : World) :
  logo self = None -> add_logo_overlay self image position w = (Ok image, w).
Proof. intros Hl. unfold add_logo_overlay. now rewrite Hl. Qed.

(** The overlay never writes to the object it was given. *)
Lemma add_logo_overlay_frame (self : Composer) (image : positive) (position : string)
    (w : World) (im : Image) :
  heap w !! image = Some im ->
  heap (snd (add_logo_overlay self image position w)) !! image = Some im.
Proof.
  intros Him. unfold add_logo_overlay.
  destruct (logo self) as [logo_|]; [|exact Him].
  unfold bind at 1, image_copy, bind at 1, deref at 1. rewrite Him.
  destruct (alloc_frame im w image im Him) as (Hkeep & r & Hr & Hne & Hnew).
  destruct (alloc im w) as [res w1]. cbn [fst snd] in *. subst res.
  unfold bind at 1, deref at 1. rewrite Hkeep.
  unfold bind at 1, deref at 1.
  destruct (heap w1 !! logo_) as [lg|] eqn:Hlg;
    [|destruct (unloaded w1 !! logo_); exact Hkeep].
  unfold bind at 1, image_paste, bind at 1, deref at 1. rewrite Hnew.
  unfold bind at 1, deref at 1. rewrite Hlg.
  unfold set_raster. rewrite Hnew. unfold ret. cbn [fst snd heap set_heap].
  now rewrite lookup_insert_ne.
Qed.

(** C9.  A composer built from a configuration whose logo is unavailable
    has no logo; a composer without a logo returns from [add_logo_overlay]
    the image object it was given, every pixel in place, and changes
    nothing; and with or without a logo the image given to
    [add_logo_overlay] keeps its pixels. *)
Theorem logo_overlay_frame (cfg : BrandConfig) (w0 : World) :
  exists self w1,
    init cfg w0 = (Ok self, w1)
    /\ (logo_unavailable cfg w0 -> logo self = None)
    /\ forall (composer : Composer) (image : positive) (position : string) (w : World),
         (logo composer = None ->
          add_logo_overlay composer image position w = (Ok image, w))
         /\ (forall im, heap w !! image = Some im ->
             heap (snd (add_logo_overlay composer image position w)) !! image = Some im).
Proof.
  destruct (init_returns cfg w0) as (self & w1 & Hinit & Hlogo).
  exists self, w1. split; [assumption|]. split; [assumption|].
  intros composer image position w. split.
  - apply add_logo_overlay_no_logo.
  - intros im. apply add_logo_overlay_frame.
Qed.

End Logo.

(** ** The variations *)

Section Variations.
Context `{Pillow}.

Lemma variations_loop_paths (self : Composer) (hero_image : positive)
    (campaign_message product_folder : string) (ratios acc : list string)
    (w w' : World) (paths : list string) :
  variations_loop self hero_image campaign_message product_folder ratios acc w
  = (Ok paths, w') ->
  paths = (acc ++ List.map (fun ratio => path_div product_folder (ratio ++ ".png")) ratios)%list.
Proof.
  revert acc w. induction ratios as [|ratio rest IH]; intros acc w Hrun.
  - cbn [variations_loop] in Hrun. unfold ret in Hrun. injection Hrun as <- _.
    now rewrite List.app_nil_r.
  - cbn [variations_loop] in Hrun.
    do 5 io_inv Hrun.
    apply IH in Hrun. rewrite Hrun. cbn [List.map]. now rewrite <- List.app_assoc.
Qed.

(** C5.  When [create_variations] returns, it returns one path per ratio,
    in the order of the ratios, each the product folder
    [output_folder / product_id] joined with [<ratio>.png]; the ratios are
    the keys of the output table when the argument is omitted. *)
Theorem create_variations_paths (self : Composer)
    (hero_image_path campaign_message product_id output_folder : string)
    (ratios : option (list string)) (w w' : World) (paths : list string) :
  create_variations self hero_image_path campaign_message product_id output_folder ratios w
  = (Ok paths, w') ->
  paths = List.map (fun ratio => path_div (path_div output_folder product_id) (ratio ++ ".png"))
            (match ratios with
             | None => dict_keys OUTPUT_DIMENSIONS
             | Some l => l
             end)
  /\ List.length paths = List.length (match ratios with
                                      | None => dict_keys OUTPUT_DIMENSIONS
                                      | Some l => l
                                      end).
Proof.
  unfold create_variations. intros Hrun.
  apply try_reraise_ok in Hrun.
  do 4 io_inv Hrun.
  apply variations_loop_paths in Hrun. cbn [app] in Hrun.
  split; [exact Hrun|]. rewrite Hrun. apply List.length_map.
Qed.

End Variations.

(** ** The model at work on the reference implementation *)

Section Runs.
Import Fixture.

Example init_brand0 : init brand0 world0 = (Ok composer0, world0).
Proof. reflexivity. Qed.

Example wrap_long_message :
  wrap_text (H := pillow) 86 918 long_message
  = [ "Discover the all"; "new spring"; "collection today"; "and enjoy";
      "exclusive member"; "savings on every"; "single order you";
      "place online"; "before the end of"; "this month" ].
Proof. vm_compute. reflexivity. Qed.

Lemma create_variations_paths_witness :
  [ "outputs/camp/prod1/1x1.png"; "outputs/camp/prod1/16x9.png" ]
  = List.map (fun ratio => path_div (path_div "outputs/camp" "prod1") (ratio ++ ".png"))
      [ "1x1"; "16x9" ].
Proof.
  destruct (create_variations composer0 "assets/hero.png" short_message "prod1"
              "outputs/camp" (Some ["1x1"; "16x9"]) world0) as [res w'] eqn:Hrun.
  assert (Hres : res = Ok ["outputs/camp/prod1/1x1.png"; "outputs/camp/prod1/16x9.png"]).
  { change res with (fst (res, w')). rewrite <- Hrun. vm_compute. reflexivity. }
  subst res.
  exact (proj1 (create_variations_paths _ _ _ _ _ _ _ _ _ Hrun)).
Defined.

(** With the argument omitted, one file per key of the output table. *)
Example create_variations_default :
  fst (create_variations composer0 "assets/hero.png" short_message "prod1"
         "outputs/camp" None world0)
  = Ok [ "outputs/camp/prod1/1x1.png"; "outputs/camp/prod1/9x16.png";
         "outputs/camp/prod1/16x9.png"; "outputs/camp/prod1/4x5.png";
         "outputs/camp/prod1/2x3.png" ].
Proof. vm_compute. reflexivity. Qed.

(** A missing hero image surfaces as the exception of [Image.open]. *)
Example create_variations_missing_hero :
  fst (create_variations composer0 "assets/none.png" short_message "prod1"
         "outputs/camp" None world0)
  = Raise "FileNotFoundError".
Proof. vm_compute. reflexivity. Qed.

(** C7 on a 1080x1080 image: the ten lines of a 147-character message
    make a panel 1160px high, drawn from y = 20 down to y = 1180. *)
Example text_panel_overflows_long_message :
  match add_text_overlay composer0 1%positive long_message "bottom" world1 with
  | (Ok out, w') => option_map (fun im => rectangles (raster im)) (heap w' !! out)
  | (Raise _, _) => None
  end = Some [Rectangle (76, 20, 1003, 1180) [255; 87; 51; 200]].
Proof. vm_compute. reflexivity. Qed.

(** The aggregate on the two messages of the specification, with no brand
    check configured: both image checks are inconclusive. *)
Example full_check_legal_only :
  (match run_full_compliance_check no_brand "assets/hero.png"
           "This is a guaranteed miracle cure" world0 with
   | (Ok report, _) =>
       Some (List.map term (violations (legal_content report)),
             detected (logo_presence report),
             colors_compliant (brand_colors report),
             overall_compliant report)
   | (Raise _, _) => None
   end = Some (["guarantee"; "guaranteed"; "miracle"; "cure"], None, None, false))
  /\ (match run_full_compliance_check no_brand "assets/hero.png" short_message world0 with
      | (Ok report, _) =>
          Some (violations (legal_content report),
                detected (logo_presence report),
                colors_compliant (brand_colors report),
                overall_compliant report)
      | (Raise _, _) => None
      end = Some ([], None, None, true)).
Proof. vm_compute. split; reflexivity. Qed.

End Runs.

(** * Binary64 arithmetic *)

Module Binary64Facts.

Export Binary64.

(** ** Binary64 arithmetic on positive normal numbers *)

Section Digits.

Lemma digits2_pos_bounds (m : positive) :
  2 ^ (Zpos (digits2_pos m) - 1) <= Zpos m < 2 ^ Zpos (digits2_pos m).
Proof.
  induction m as [p IH|p IH|]; cbn [digits2_pos].
  - rewrite Pos2Z.inj_succ, Z.pow_succ_r by lia.
    replace (Z.succ (Zpos (digits2_pos p)) - 1) with (Z.succ (Zpos (digits2_pos p) - 1)) by lia.
    rewrite Z.pow_succ_r by lia. lia.
  - rewrite Pos2Z.inj_succ, Z.pow_succ_r by lia.
    replace (Z.succ (Zpos (digits2_pos p)) - 1) with (Z.succ (Zpos (digits2_pos p) - 1)) by lia.
    rewrite Z.pow_succ_r by lia. lia.
  - simpl. lia.
Qed.

Lemma digits2_pos_unique (m : positive) (d : Z) :
  2 ^ (d - 1) <= Zpos m < 2 ^ d -> Zpos (digits2_pos m) = d.
Proof.
  intros [Hlo Hhi]. pose proof (digits2_pos_bounds m) as [Hlo' Hhi'].
  assert (0 < d).
  { destruct (Z_lt_le_dec 0 d); [assumption|]. exfalso.
    rewrite (Z.pow_neg_r 2 (d - 1)) in Hlo by lia.
    destruct (Z.eq_dec d 0) as [->|]; [simpl in Hhi; lia|].
    rewrite Z.pow_neg_r in Hhi by lia. lia. }
  assert (d - 1 < Zpos (digits2_pos m)).
  { apply (Z.pow_lt_mono_r_iff 2); lia. }
  assert (Zpos (digits2_pos m) - 1 < d).
  { apply (Z.pow_lt_mono_r_iff 2); lia. }
  lia.
Qed.

End Digits.

Section Shift.

Lemma shr_1_m (mrs : shr_record) :
  0 <= shr_m mrs -> shr_m (shr_1 mrs) = shr_m mrs / 2 /\ 0 <= shr_m (shr_1 mrs).
Proof.
  destruct mrs as [m r s]. cbn [shr_m]. intros Hm.
  destruct m as [|[p|p|]|p]; cbn [shr_1 shr_m]; split; try lia.
  - reflexivity.
  - rewrite (Pos2Z.inj_xI p). apply Z.div_unique with (r := 1); lia.
  - rewrite (Pos2Z.inj_xO p). apply Z.div_unique with (r := 0); lia.
  - reflexivity.
Qed.

Lemma iter_shr_1_m (p : positive) (mrs : shr_record) :
  0 <= shr_m mrs ->
  shr_m (SpecFloat.iter_pos shr_1 p mrs) = shr_m mrs / 2 ^ Zpos p
  /\ 0 <= shr_m (SpecFloat.iter_pos shr_1 p mrs).
Proof.
  revert mrs. induction p as [p IH|p IH|]; intros mrs Hm; cbn [SpecFloat.iter_pos].
  - destruct (shr_1_m mrs Hm) as [E1 P1].
    destruct (IH _ P1) as [E2 P2]. destruct (IH _ P2) as [E3 P3].
    split; [|assumption]. rewrite E3, E2, E1.
    rewrite !Z.div_div by lia. f_equal.
    rewrite (Pos2Z.inj_xI p). replace (2 * Zpos p + 1) with (Zpos p + Zpos p + 1) by lia.
    rewrite !Z.pow_add_r by lia. change (2 ^ 1) with 2. ring.
  - destruct (IH _ Hm) as [E2 P2]. destruct (IH _ P2) as [E3 P3].
    split; [|assumption]. rewrite E3, E2.
    rewrite !Z.div_div by lia. f_equal.
    rewrite (Pos2Z.inj_xO p). replace (2 * Zpos p) with (Zpos p + Zpos p) by lia.
    rewrite !Z.pow_add_r by lia. reflexivity.
  - destruct (shr_1_m mrs Hm) as [E1 P1]. split; [|assumption].
    rewrite E1. reflexivity.
Qed.

Lemma shr_record_of_loc_m (m : Z) (l : location) : shr_m (shr_record_of_loc m l) = m.
Proof. destruct l as [|[]]; reflexivity. Qed.

(** A right shift by [n >= 0] bits divides the mantissa by [2 ^ n]. *)
Lemma shr_m_div (m : Z) (l : location) (e n : Z) :
  0 <= m -> 0 <= n ->
  shr_m (fst (shr (shr_record_of_loc m l) e n)) = m / 2 ^ n
  /\ snd (shr (shr_record_of_loc m l) e n) = e + n.
Proof.
  intros Hm Hn. destruct n as [|p|p]; cbn [shr fst snd]; try lia.
  - rewrite shr_record_of_loc_m, Z.div_1_r. split; [reflexivity | lia].
  - split; [|reflexivity].
    destruct (iter_shr_1_m p (shr_record_of_loc m l)) as [E _];
      [rewrite shr_record_of_loc_m; assumption|].
    rewrite E, shr_record_of_loc_m. reflexivity.
Qed.

Lemma round_nearest_even_step (m : Z) (l : location) :
  round_nearest_even m l = m \/ round_nearest_even m l = m + 1.
Proof.
  destruct l as [|[]]; cbn [round_nearest_even]; auto.
  destruct (Z.even m); auto.
Qed.

End Shift.

Section Round.

Local Abbreviation fexp := (SpecFloat.fexp prec emax).

Lemma fexp_normal (e : Z) : -1021 <= e -> fexp e = e - 53.
Proof. intros He. unfold SpecFloat.fexp, emin, prec, emax. lia. Qed.

(** A 53-digit mantissa in the normal range is a float as it stands. *)
Lemma binary_round_aux_exact (mx : positive) (ex : Z) :
  Zpos (digits2_pos mx) = 53 -> -1074 <= ex <= 970 ->
  binary_round_aux prec emax false (Zpos mx) ex loc_Exact = S754_finite false mx ex.
Proof.
  intros Hd He. unfold binary_round_aux, shr_fexp. cbn [Zdigits2]. rewrite Hd.
  rewrite fexp_normal by lia.
  replace (53 + ex - 53 - ex) with 0 by lia.
  cbn [shr shr_record_of_loc shr_m loc_of_shr_record round_nearest_even Zdigits2].
  rewrite Hd, fexp_normal by lia.
  replace (53 + ex - 53 - ex) with 0 by lia.
  cbn [shr shr_record_of_loc shr_m].
  replace (ex <=? emax - prec) with true
    by (symmetry; apply Z.leb_le; unfold emax, prec; lia).
  reflexivity.
Qed.

(** Rounding a mantissa of at least 53 digits in the normal range: the
    mantissa is cut to 53 digits and rounded to [K] by the location of what
    was cut, and renormalised when [K] reaches [2 ^ 53]. *)
Lemma binary_round_aux_cut (mx : positive) (ex : Z) (lx : location) :
  let d := Zpos (digits2_pos mx) in
  let n := d - 53 in
  let mrs1 := fst (shr (shr_record_of_loc (Zpos mx) lx) ex n) in
  let K := round_nearest_even (shr_m mrs1) (loc_of_shr_record mrs1) in
  53 <= d -> -1021 <= d + ex -> d + ex <= 1023 ->
  exists (m : positive) (e : Z),
    binary_round_aux prec emax false (Zpos mx) ex lx = S754_finite false m e
    /\ Zpos (digits2_pos m) = 53
    /\ Zpos m * 2 ^ (e - (ex + n)) = K
    /\ (e = ex + n \/ e = ex + n + 1).
Proof.
  intros d n mrs1 K Hd Hlo Hhi.
  pose proof (digits2_pos_bounds mx) as [Hmlo Hmhi]. fold d in Hmlo, Hmhi.
  set (m1 := Zpos mx / 2 ^ n).
  assert (Hm1 : 2 ^ 52 <= m1 < 2 ^ 53).
  { unfold m1. split.
    - apply Z.div_le_lower_bound; [apply Z.pow_pos_nonneg; lia|].
      rewrite <- Z.pow_add_r by lia. replace (n + 52) with (d - 1) by lia. assumption.
    - apply Z.div_lt_upper_bound; [apply Z.pow_pos_nonneg; lia|].
      rewrite <- Z.pow_add_r by lia. replace (n + 53) with d by lia. assumption. }
  unfold binary_round_aux.
  unfold shr_fexp at 1. cbn [Zdigits2]. fold d.
  rewrite fexp_normal by lia.
  replace (d + ex - 53 - ex) with n by lia.
  destruct (shr_m_div (Zpos mx) lx ex n) as [Hs1 He1]; [lia | lia |].
  fold mrs1 in Hs1. fold m1 in Hs1.
  assert (Hshr : shr (shr_record_of_loc (Zpos mx) lx) ex n = (mrs1, ex + n)).
  { rewrite <- He1. unfold mrs1. apply surjective_pairing. }
  rewrite Hshr. fold K.
  assert (HK : K = m1 \/ K = m1 + 1).
  { unfold K. rewrite Hs1. apply round_nearest_even_step. }
  assert (HKpos : 0 < K) by lia.
  destruct K as [|p2|p2] eqn:Ep2; try lia.
  destruct (Z_lt_le_dec (Zpos p2) (2 ^ 53)) as [Hsmall|Hbig].
  - (* the rounded mantissa still has 53 digits *)
    assert (Hd2 : Zpos (digits2_pos p2) = 53).
    { apply digits2_pos_unique. change (53 - 1) with 52. lia. }
    unfold shr_fexp. cbn [Zdigits2]. rewrite Hd2.
    rewrite fexp_normal by lia.
    replace (53 + (ex + n) - 53 - (ex + n)) with 0 by lia.
    cbn [shr shr_record_of_loc shr_m].
    replace (ex + n <=? emax - prec) with true
      by (symmetry; apply Z.leb_le; unfold emax, prec; lia).
    exists p2, (ex + n). split; [reflexivity|]. split; [assumption|].
    replace (ex + n - (ex + n)) with 0 by lia. rewrite Z.mul_1_r.
    split; [reflexivity | now left].
  - (* the rounded mantissa is 2 ^ 53 and is shifted once more *)
    assert (Hp2 : Zpos p2 = 2 ^ 53) by lia.
    assert (Hd2 : Zpos (digits2_pos p2) = 54).
    { apply digits2_pos_unique. change (54 - 1) with 53. rewrite Hp2.
      split; [lia|]. apply Z.pow_lt_mono_r; lia. }
    unfold shr_fexp. cbn [Zdigits2]. rewrite Hd2.
    rewrite fexp_normal by lia.
    replace (54 + (ex + n) - 53 - (ex + n)) with 1 by lia.
    cbn [shr SpecFloat.iter_pos].
    assert (Ep : p2 = (2 ^ 53)%positive) by (apply Pos2Z.inj; rewrite Hp2; reflexivity).
    rewrite Ep.
    replace (shr_1 (shr_record_of_loc (Zpos (2 ^ 53)) loc_Exact))
      with (Build_shr_record (Zpos (2 ^ 52)) false false) by (vm_compute; reflexivity).
    cbn [shr_m].
    replace (ex + n + 1 <=? emax - prec) with true
      by (symmetry; apply Z.leb_le; unfold emax, prec; lia).
    exists (2 ^ 52)%positive, (ex + n + 1). split; [reflexivity|].
    split; [reflexivity|].
    replace (ex + n + 1 - (ex + n)) with 1 by lia.
    split; [reflexivity | now right].
Qed.

Lemma binary_round_aux_normal (mx : positive) (ex : Z) (lx : location) :
  let d := Zpos (digits2_pos mx) in
  let n := d - 53 in
  let m1 := Zpos mx / 2 ^ n in
  53 <= d -> -1021 <= d + ex -> d + ex <= 1023 ->
  exists (m : positive) (e : Z),
    binary_round_aux prec emax false (Zpos mx) ex lx = S754_finite false m e
    /\ Zpos (digits2_pos m) = 53
    /\ (m1 <= Zpos m * 2 ^ (e - (ex + n)) <= m1 + 1)
    /\ (e = ex + n \/ e = ex + n + 1).
Proof.
  intros d n m1 Hd Hlo Hhi.
  destruct (binary_round_aux_cut mx ex lx Hd Hlo Hhi) as (m & e & Hr & Hdm & HK & He).
  fold d in HK, He. fold n in HK, He.
  exists m, e. split; [assumption|]. split; [assumption|]. split; [|assumption].
  rewrite HK.
  destruct (shr_m_div (Zpos mx) lx ex n) as [Hs1 _]; [lia | lia |].
  rewrite Hs1. fold m1.
  destruct (round_nearest_even_step m1
              (loc_of_shr_record (fst (shr (shr_record_of_loc (Zpos mx) lx) ex n))));
    lia.
Qed.

(** *** The location of the bits cut off *)

Lemma mod_pow2_succ (M j : Z) :
  0 <= j -> M mod 2 ^ (j + 1) = M mod 2 ^ j + 2 ^ j * ((M / 2 ^ j) mod 2).
Proof.
  intros Hj. rewrite Z.pow_add_r by lia. change (2 ^ 1) with 2.
  apply Z.rem_mul_r; [|lia]. apply Z.pow_nonzero; lia.
Qed.

Lemma shr_1_state (M k : Z) (mrs : shr_record) :
  0 <= M -> 0 <= k -> shr_state M k mrs -> shr_state M (k + 1) (shr_1 mrs).
Proof.
  intros HM Hk (Hm & Hr & Hs).
  assert (Hm0 : 0 <= shr_m mrs).
  { rewrite Hm. apply Z.div_pos; [lia | apply Z.pow_pos_nonneg; lia]. }
  destruct (shr_1_m mrs Hm0) as [Hm1 _].
  assert (Hr1 : shr_r (shr_1 mrs) = Z.odd (shr_m mrs)).
  { destruct mrs as [m r s]. cbn [shr_m] in *.
    destruct m as [|[p|p|]|p]; try lia; reflexivity. }
  assert (Hs1 : shr_s (shr_1 mrs) = shr_r mrs || shr_s mrs).
  { destruct mrs as [m r s]. destruct m as [|[p|p|]|[p|p|]]; reflexivity. }
  unfold shr_state.
  replace (k + 1 =? 0) with false by (symmetry; apply Z.eqb_neq; lia).
  replace (k + 1 - 1) with k by lia.
  split; [|split].
  - rewrite Hm1, Hm, Z.div_div by (try apply Z.pow_pos_nonneg; lia).
    f_equal. rewrite Z.pow_add_r by lia. reflexivity.
  - now rewrite Hr1, Hm.
  - rewrite Hs1, Hr, Hs.
    destruct (Z.eqb_spec k 0) as [->|Hk0].
    + rewrite Z.mod_1_r. reflexivity.
    + replace k with ((k - 1) + 1) at 3 by lia.
      rewrite mod_pow2_succ by lia.
      pose proof (Z.mod_pos_bound M (2 ^ (k - 1)) ltac:(apply Z.pow_pos_nonneg; lia)) as Hlow.
      assert (Hpow : 0 < 2 ^ (k - 1)) by (apply Z.pow_pos_nonneg; lia).
      rewrite Zmod_odd.
      destruct (Z.odd (M / 2 ^ (k - 1))); cbn [orb].
      * symmetry. apply negb_true_iff, Z.eqb_neq. lia.
      * rewrite Z.mul_0_r, Z.add_0_r. reflexivity.
Qed.

Lemma iter_shr_1_state (M : Z) (p : positive) (k : Z) (mrs : shr_record) :
  0 <= M -> 0 <= k -> shr_state M k mrs ->
  shr_state M (k + Zpos p) (SpecFloat.iter_pos shr_1 p mrs).
Proof.
  intros HM. revert k mrs.
  induction p as [p IH|p IH|]; intros k mrs Hk Hst; cbn [SpecFloat.iter_pos].
  - replace (k + Zpos p~1) with (k + 1 + Zpos p + Zpos p) by lia.
    apply IH; [lia|]. apply IH; [lia|]. now apply shr_1_state.
  - replace (k + Zpos p~0) with (k + Zpos p + Zpos p) by lia.
    apply IH; [lia|]. now apply IH.
  - now apply shr_1_state.
Qed.

Lemma round_nearest_even_exact (M n e : Z) :
  0 <= M -> 0 <= n ->
  let mrs := fst (shr (shr_record_of_loc M loc_Exact) e n) in
  nearest_even M n (round_nearest_even (shr_m mrs) (loc_of_shr_record mrs)).
Proof.
  intros HM Hn mrs. unfold nearest_even.
  destruct n as [|p|p]; try lia.
  - (* nothing is cut *)
    cbn [shr fst shr_record_of_loc shr_m loc_of_shr_record round_nearest_even] in *.
    unfold mrs. cbn [shr_m loc_of_shr_record round_nearest_even].
    rewrite Z.div_1_r, Z.mod_1_r. change (2 ^ 0) with 1.
    repeat split; lia.
  - assert (Hst : shr_state M (Zpos p) mrs).
    { unfold mrs. cbn [shr fst].
      replace (Zpos p) with (0 + Zpos p) at 1 by lia.
      apply iter_shr_1_state; [assumption | lia |].
      unfold shr_state. cbn [shr_record_of_loc shr_m shr_r shr_s Z.eqb].
      rewrite Z.div_1_r. auto. }
    destruct Hst as (Hm & Hr & Hs). cbn [Z.eqb] in Hr, Hs.
    set (n := Zpos p) in *.
    assert (Hrem : M mod 2 ^ n
                   = M mod 2 ^ (n - 1) + 2 ^ (n - 1) * ((M / 2 ^ (n - 1)) mod 2)).
    { replace n with ((n - 1) + 1) at 1 by lia. apply mod_pow2_succ. lia. }
    assert (H2n : 2 ^ n = 2 * 2 ^ (n - 1)).
    { replace n with ((n - 1) + 1) at 1 by lia. rewrite Z.pow_add_r by lia. lia. }
    pose proof (Z.mod_pos_bound M (2 ^ (n - 1)) ltac:(apply Z.pow_pos_nonneg; lia)) as Hlow.
    rewrite Zmod_odd in Hrem.
    destruct mrs as [m r s]. cbn [shr_m shr_r shr_s loc_of_shr_record] in *.
    subst m r s.
    set (m1 := M / 2 ^ n) in *.
    destruct (Z.odd (M / 2 ^ (n - 1))); destruct (Z.eqb_spec (M mod 2 ^ (n - 1)) 0) as [E0|E0];
      cbn [negb round_nearest_even].
    + (* a tie *)
      destruct (Z.even m1) eqn:Hev.
      * repeat split; try lia. intros _. assumption.
      * repeat split; try lia. intros _.
        rewrite Z.even_add. rewrite Hev. reflexivity.
    + repeat split; lia.
    + repeat split; lia.
    + repeat split; lia.
Qed.

End Round.

(** ** The real value of a float *)

Section Bpow.
Local Open Scope R_scope.

Lemma bpow_pos (e : Z) : 0 < bpow e.
Proof. apply powerRZ_lt. lra. Qed.

Lemma bpow_add (a b : Z) : bpow (a + b) = bpow a * bpow b.
Proof. apply powerRZ_add. lra. Qed.

Lemma bpow_IZR (k : Z) : (0 <= k)%Z -> bpow k = IZR (2 ^ k).
Proof.
  intros Hk. unfold bpow. destruct k as [|p|p]; [reflexivity | | lia].
  now rewrite <- Zpower_pos_powerRZ.
Qed.

Lemma bpow_le (a b : Z) : (a <= b)%Z -> bpow a <= bpow b.
Proof.
  intros Hab. replace b with (a + (b - a))%Z by lia. rewrite bpow_add.
  rewrite (bpow_IZR (b - a)) by lia.
  assert (1 <= IZR (2 ^ (b - a))).
  { apply IZR_le. assert (0 < 2 ^ (b - a))%Z by (apply Z.pow_pos_nonneg; lia). lia. }
  pose proof (bpow_pos a). nra.
Qed.

Lemma bpow_m52 : bpow (-52) = eps.
Proof. unfold bpow, eps. simpl. lra. Qed.

Lemma value_pos (m : positive) (e : Z) : 0 < value m e.
Proof.
  unfold value. apply Rmult_lt_0_compat; [|apply bpow_pos].
  apply IZR_lt. lia.
Qed.

(** A 53-bit mantissa puts the value in the binade of its exponent. *)
Lemma value_binade (m : positive) (e : Z) :
  (Zpos (digits2_pos m) = 53)%Z -> bpow (e + 52) <= value m e < bpow (e + 53).
Proof.
  intros Hd. pose proof (digits2_pos_bounds m) as [Hlo Hhi]. rewrite Hd in Hlo, Hhi.
  change (53 - 1)%Z with 52%Z in Hlo.
  unfold value. rewrite !bpow_add, (bpow_IZR 52), (bpow_IZR 53) by lia.
  pose proof (bpow_pos e). apply IZR_le in Hlo. apply IZR_lt in Hhi.
  split; nra.
Qed.

End Bpow.

Section Faithful.
Local Open Scope R_scope.

(** Rounding is faithful: when the true value [T] lies in the cell of the
    mantissa [mx] at exponent [ex], the rounded float is within one unit
    in the last place of [T], hence within the relative error [eps]. *)
Lemma round_faithful (mx : positive) (ex : Z) (lx : location) (T : R) :
  let d := Zpos (digits2_pos mx) in
  (53 <= d)%Z -> (-1021 <= d + ex)%Z -> (d + ex <= 1023)%Z ->
  IZR (Zpos mx) * bpow ex <= T < IZR (Zpos mx + 1) * bpow ex ->
  exists (m : positive) (e : Z),
    binary_round_aux prec emax false (Zpos mx) ex lx = S754_finite false m e
    /\ (Zpos (digits2_pos m) = 53)%Z
    /\ (ex + d - 53 <= e <= ex + d - 52)%Z
    /\ T * (1 - eps) <= value m e <= T * (1 + eps)
    /\ (1 <= T -> 1 <= value m e).
Proof.
  intros d Hd Hlo Hhi HT.
  destruct (binary_round_aux_normal mx ex lx Hd Hlo Hhi) as (m & e & Hr & Hdm & Hcell & He).
  fold d in Hcell, He.
  set (n := (d - 53)%Z) in *. set (m1 := (Zpos mx / 2 ^ n)%Z) in *.
  exists m, e. split; [assumption|]. split; [assumption|]. split; [lia|].
  set (B := bpow (ex + n)).
  assert (HB : 0 < B) by apply bpow_pos.
  (* the value of the result on the grid of step B *)
  assert (Hv : value m e = IZR (Zpos m * 2 ^ (e - (ex + n))) * B).
  { unfold value, B. replace e with ((e - (ex + n)) + (ex + n))%Z at 1 by lia.
    rewrite bpow_add, (bpow_IZR (e - (ex + n))) by lia. rewrite mult_IZR. ring. }
  (* the cell of mx on the same grid *)
  assert (Hpow : (0 < 2 ^ n)%Z) by (apply Z.pow_pos_nonneg; lia).
  assert (Hdiv : (2 ^ n * m1 <= Zpos mx < 2 ^ n * (m1 + 1))%Z).
  { unfold m1. pose proof (Z.mul_div_le (Zpos mx) (2 ^ n) Hpow).
    pose proof (Z.mul_succ_div_gt (Zpos mx) (2 ^ n) Hpow). lia. }
  assert (HBn : B = bpow ex * IZR (2 ^ n)).
  { unfold B. rewrite bpow_add, (bpow_IZR n) by lia. reflexivity. }
  assert (Hex : 0 < bpow ex) by apply bpow_pos.
  assert (HTlo : IZR m1 * B <= T).
  { destruct HT as [HT _]. destruct Hdiv as [Hdiv _]. apply IZR_le in Hdiv.
    rewrite mult_IZR in Hdiv. rewrite HBn. nra. }
  assert (HThi : T <= IZR (m1 + 1) * B).
  { destruct HT as [_ HT]. destruct Hdiv as [_ Hdiv].
    assert (Hdiv' : (Zpos mx + 1 <= 2 ^ n * (m1 + 1))%Z) by lia.
    apply IZR_le in Hdiv'. rewrite mult_IZR in Hdiv'. rewrite HBn. nra. }
  assert (Hm1 : IZR (2 ^ 52) <= IZR m1).
  { apply IZR_le. unfold m1. apply Z.div_le_lower_bound; [lia|].
    pose proof (digits2_pos_bounds mx) as [Hmlo _]. fold d in Hmlo.
    rewrite <- Z.pow_add_r by lia. unfold n. replace (d - 53 + 52)%Z with (d - 1)%Z by lia.
    assumption. }
  assert (HThi' : T < IZR (m1 + 1) * B).
  { destruct HT as [_ HT]. destruct Hdiv as [_ Hdiv].
    assert (Hdiv' : (Zpos mx + 1 <= 2 ^ n * (m1 + 1))%Z) by lia.
    apply IZR_le in Hdiv'. rewrite mult_IZR in Hdiv'. rewrite HBn. nra. }
  assert (Hm1' : IZR (m1 + 1) <= IZR (2 ^ 53)).
  { apply IZR_le. unfold m1.
    assert (Zpos mx / 2 ^ n < 2 ^ 53)%Z; [|lia].
    apply Z.div_lt_upper_bound; [lia|].
    pose proof (digits2_pos_bounds mx) as [_ Hmhi]. fold d in Hmhi.
    rewrite <- Z.pow_add_r by lia. unfold n. replace (d - 53 + 53)%Z with d by lia.
    assumption. }
  destruct Hcell as [Hc1 Hc2]. apply IZR_le in Hc1, Hc2.
  rewrite plus_IZR in Hc2, HThi.
  change (IZR (2 ^ 52)) with 4503599627370496 in Hm1.
  change (IZR (2 ^ 53)) with 9007199254740992 in Hm1'.
  rewrite Hv. unfold eps. split; [split|].
  - assert (T - B <= IZR (Zpos m * 2 ^ (e - (ex + n))) * B) by nra.
    assert (B <= T * / 4503599627370496); [|nra].
    assert (4503599627370496 * B <= T) by nra. lra.
  - assert (IZR (Zpos m * 2 ^ (e - (ex + n))) * B <= T + B) by nra.
    assert (B <= T * / 4503599627370496); [|nra].
    assert (4503599627370496 * B <= T) by nra. lra.
  - (* one is a float: no rounding crosses it *)
    intros H1.
    destruct (Z_le_gt_dec (-52) (ex + n)) as [HE|HE].
    + pose proof (bpow_le (-52) (ex + n) HE) as Hb. fold B in Hb.
      rewrite bpow_m52 in Hb. unfold eps in Hb.
      assert (1 <= IZR m1 * B); [|nra].
      assert (4503599627370496 * / 4503599627370496 <= IZR m1 * B); [|lra].
      apply Rmult_le_compat; lra.
    + exfalso.
      pose proof (bpow_le (ex + n) (-52 + -1) ltac:(lia)) as Hb. fold B in Hb.
      rewrite bpow_add, bpow_m52 in Hb. unfold eps in Hb.
      assert (Hhalf : bpow (-1) = / 2) by (unfold bpow; simpl; lra).
      rewrite Hhalf in Hb.
      assert (IZR (m1 + 1) * B <= 9007199254740992 * (/ 4503599627370496 * / 2)).
      { apply Rmult_le_compat; try lra. rewrite plus_IZR. lra. }
      lra.
Qed.

End Faithful.

Section Operations.
Local Open Scope R_scope.

Lemma digits_of_product (mx my : positive) :
  (Zpos (digits2_pos mx) = 53)%Z -> (Zpos (digits2_pos my) = 53)%Z ->
  (105 <= Zpos (digits2_pos (mx * my)) <= 106)%Z.
Proof.
  intros Hx Hy.
  pose proof (digits2_pos_bounds mx) as [Hxl Hxh]. rewrite Hx in Hxl, Hxh.
  pose proof (digits2_pos_bounds my) as [Hyl Hyh]. rewrite Hy in Hyl, Hyh.
  pose proof (digits2_pos_bounds (mx * my)) as [Hl Hh].
  rewrite Pos2Z.inj_mul in Hl, Hh.
  change (53 - 1)%Z with 52%Z in Hxl, Hyl.
  assert (H104 : (2 ^ 104 <= Zpos mx * Zpos my)%Z).
  { change (2 ^ 104)%Z with (2 ^ 52 * 2 ^ 52)%Z. apply Z.mul_le_mono_nonneg; lia. }
  assert (H106 : (Zpos mx * Zpos my < 2 ^ 106)%Z).
  { change (2 ^ 106)%Z with (2 ^ 53 * 2 ^ 53)%Z. apply Z.mul_lt_mono_nonneg; lia. }
  set (d := Zpos (digits2_pos (mx * my))) in *.
  assert (104 < d)%Z by (apply (Z.pow_lt_mono_r_iff 2); lia).
  assert (d - 1 < 106)%Z by (apply (Z.pow_lt_mono_r_iff 2); lia).
  lia.
Qed.

(** The product of two positive normal floats, away from overflow and
    underflow. *)
Lemma mul_normal (x y : float) (mx my : positive) (ex ey : Z) :
  normal x mx ex -> normal y my ey -> (-1100 <= ex + ey <= 900)%Z ->
  exists (m : positive) (e : Z),
    normal (x * y)%float m e
    /\ (ex + ey + 52 <= e <= ex + ey + 54)%Z
    /\ value mx ex * value my ey * (1 - eps) <= value m e
       <= value mx ex * value my ey * (1 + eps).
Proof.
  intros [Hx Hdx] [Hy Hdy] Hrange.
  pose proof (digits_of_product mx my Hdx Hdy) as Hd.
  destruct (round_faithful (mx * my) (ex + ey) loc_Exact (value mx ex * value my ey))
    as (m & e & Hr & Hdm & He & Hv & _); try lia.
  - unfold value. rewrite Pos2Z.inj_mul, bpow_add, plus_IZR, !mult_IZR.
    pose proof (bpow_pos ex). pose proof (bpow_pos ey).
    assert (0 < bpow ex * bpow ey) by nra.
    split; [right; ring | nra].
  - exists m, e. split; [|split; [lia | assumption]].
    split; [|assumption].
    now rewrite FloatAxioms.mul_spec, Hx, Hy.
Qed.

(** The quotient of two positive normal floats, away from overflow and
    underflow. *)
Lemma div_normal (x y : float) (mx my : positive) (ex ey : Z) :
  normal x mx ex -> normal y my ey -> (-900 <= ex - ey <= 900)%Z ->
  exists (m : positive) (e : Z),
    normal (x / y)%float m e
    /\ (ex - ey - 53 <= e <= ex - ey - 51)%Z
    /\ value mx ex / value my ey * (1 - eps) <= value m e
       <= value mx ex / value my ey * (1 + eps)
    /\ (value my ey <= value mx ex -> 1 <= value m e).
Proof.
  intros [Hx Hdx] [Hy Hdy] Hrange.
  pose proof (digits2_pos_bounds mx) as [Hxl Hxh]. rewrite Hdx in Hxl, Hxh.
  pose proof (digits2_pos_bounds my) as [Hyl Hyh]. rewrite Hdy in Hyl, Hyh.
  change (53 - 1)%Z with 52%Z in Hxl, Hyl.
  (* the quotient of the mantissas, 53 more bits in *)
  pose proof (Z_div_mod (Zpos mx * 2 ^ 53) (Zpos my) ltac:(lia)) as Hqr.
  assert (Hcore : SFdiv_core_binary prec emax (Zpos mx) ex (Zpos my) ey
                  = (let '(q, r) := Z.div_eucl (Zpos mx * 2 ^ 53) (Zpos my) in
                     (q, (ex - ey - 53)%Z, new_location (Zpos my) r))).
  { unfold SFdiv_core_binary. cbn [Zdigits2]. rewrite Hdx, Hdy.
    replace (53 + ex - (53 + ey))%Z with (ex - ey)%Z by lia.
    rewrite fexp_normal by lia.
    rewrite Z.min_l by lia.
    replace (ex - ey - (ex - ey - 53))%Z with 53%Z by lia.
    rewrite Z.shiftl_mul_pow2 by lia. reflexivity. }
  destruct (Z.div_eucl (Zpos mx * 2 ^ 53) (Zpos my)) as [q r].
  destruct Hqr as [Hq Hr].
  assert (Hqlo : (2 ^ 52 <= q)%Z) by nia.
  assert (Hqhi : (q < 2 ^ 54)%Z) by nia.
  destruct q as [|q|q]; try lia.
  pose proof (digits2_pos_bounds q) as [Hdl Hdh].
  set (d := Zpos (digits2_pos q)) in *.
  assert (52 < d)%Z by (apply (Z.pow_lt_mono_r_iff 2); lia).
  assert (d - 1 < 54)%Z by (apply (Z.pow_lt_mono_r_iff 2); lia).
  destruct (round_faithful q (ex - ey - 53) (new_location (Zpos my) r)
              (value mx ex / value my ey))
    as (m & e & Hround & Hdm & He & Hv & Hone); fold d; try lia.
  - (* the true quotient lies in the cell of q *)
    set (B := bpow (ex - ey - 53)).
    assert (Hbex : bpow ex = B * (bpow ey * IZR (2 ^ 53))).
    { unfold B. rewrite <- (bpow_IZR 53), <- !bpow_add by lia. f_equal. lia. }
    unfold value. rewrite Hbex.
    pose proof (bpow_pos (ex - ey - 53)) as HB. fold B in HB.
    pose proof (bpow_pos ey) as Hy0.
    assert (Hmy : 0 < IZR (Zpos my)) by (apply IZR_lt; lia).
    replace (IZR (Zpos mx) * (B * (bpow ey * IZR (2 ^ 53)))
             / (IZR (Zpos my) * bpow ey))
      with (IZR (Zpos mx * 2 ^ 53) / IZR (Zpos my) * B)
      by (rewrite mult_IZR; field; lra).
    rewrite Hq, plus_IZR, mult_IZR.
    assert (Hr0 : 0 <= IZR r) by (apply IZR_le; lia).
    assert (Hr1 : IZR r < IZR (Zpos my)) by (apply IZR_lt; lia).
    assert (Hdiv : (IZR (Zpos my) * IZR (Zpos q) + IZR r) / IZR (Zpos my)
                   = IZR (Zpos q) + IZR r / IZR (Zpos my)) by (field; lra).
    rewrite Hdiv.
    assert (Hrho : 0 <= IZR r / IZR (Zpos my) < 1).
    { split.
      - apply Rmult_le_pos; [assumption|]. left. now apply Rinv_0_lt_compat.
      - apply Rmult_lt_reg_r with (IZR (Zpos my)); [assumption|].
        unfold Rdiv. rewrite Rmult_assoc, Rinv_l by lra. lra. }
    rewrite plus_IZR.
    set (rho := IZR r / IZR (Zpos my)) in *.
    destruct Hrho as [Hrho0 Hrho1].
    split.
    + apply Rmult_le_compat_r; lra.
    + apply Rmult_lt_compat_r; lra.
  - exists m, e. split; [|split; [lia | split; [assumption|]]].
    + split; [|assumption].
      rewrite FloatAxioms.div_spec, Hx, Hy. unfold SF64div, SFdiv. rewrite Hcore.
      exact Hround.
    + intros Hle. apply Hone.
      pose proof (value_pos my ey) as Hy0.
      apply Rmult_le_reg_r with (value my ey); [assumption|].
      unfold Rdiv. rewrite Rmult_assoc, Rinv_l by lra. lra.
Qed.

(** The order of two positive normal floats is that of their values. *)
Lemma ltb_normal (x y : float) (mx my : positive) (ex ey : Z) :
  normal x mx ex -> normal y my ey ->
  if (x <? y)%float then value mx ex < value my ey else value my ey <= value mx ex.
Proof.
  intros [Hx Hdx] [Hy Hdy].
  rewrite FloatAxioms.ltb_spec, Hx, Hy. unfold SFltb, SFcompare.
  pose proof (value_binade mx ex Hdx) as [Hxl Hxh].
  pose proof (value_binade my ey Hdy) as [Hyl Hyh].
  destruct (Z.compare_spec ex ey) as [->|Hlt|Hgt]; cbv beta iota.
  - rewrite Pos.compare_cont_spec. cbn [Pos.switch_Eq].
    unfold value. pose proof (bpow_pos ey).
    destruct (Pos.compare_spec mx my) as [->|Hm|Hm]; cbv beta iota delta [Pos.switch_Eq].
    + lra.
    + assert (IZR (Zpos mx) < IZR (Zpos my)) by (apply IZR_lt; lia). nra.
    + assert (IZR (Zpos my) < IZR (Zpos mx)) by (apply IZR_lt; lia). nra.
  - pose proof (bpow_le (ex + 53) (ey + 52) ltac:(lia)). lra.
  - pose proof (bpow_le (ey + 53) (ex + 52) ltac:(lia)). lra.
Qed.

End Operations.


Section Conversions.
Local Open Scope R_scope.

Lemma pos_iter_xO (p k : positive) : (Zpos (Pos.iter xO p k) = Zpos p * 2 ^ Zpos k)%Z.
Proof.
  induction k as [|k IH] using Pos.peano_ind.
  - cbn [Pos.iter]. rewrite (Pos2Z.inj_xO p). change (2 ^ 1)%Z with 2%Z. lia.
  - rewrite Pos.iter_succ, (Pos2Z.inj_xO (Pos.iter xO p k)), IH, Pos2Z.inj_succ.
    rewrite Z.pow_succ_r by lia. lia.
Qed.

(** [float(n)] is exact for [1 <= n < 2 ^ 53]. *)
Lemma float_of_int_normal (n : Z) :
  (1 <= n < 2 ^ 53)%Z ->
  exists (m : positive) (e : Z),
    normal (float_of_int n) m e /\ value m e = IZR n /\ (-52 <= e <= 0)%Z
    /\ (Zpos m * 2 ^ (e + 52) = n * 2 ^ 52)%Z.
Proof.
  intros Hn. unfold float_of_int, normal.
  replace (n <? 0)%Z with false by (symmetry; apply Z.ltb_ge; lia).
  rewrite of_uint63_spec, of_Z_spec.
  rewrite Z.mod_small by (change wB with (2 ^ 63)%Z; split; [lia|];
    apply Z.lt_trans with (2 ^ 53)%Z; [lia | reflexivity]).
  destruct n as [|p|p]; try lia.
  cbn [binary_normalize]. unfold binary_round.
  pose proof (digits2_pos_bounds p) as [Hlo Hhi].
  set (d := Zpos (digits2_pos p)) in *.
  assert (Hd : (1 <= d <= 53)%Z).
  { split; [unfold d; lia|].
    assert (d - 1 < 53)%Z; [|lia]. apply (Z.pow_lt_mono_r_iff 2); lia. }
  replace (d + 0)%Z with d by lia. rewrite fexp_normal by lia.
  assert (Halign : exists mz, shl_align p 0 (d - 53) = (mz, (d - 53)%Z)
                              /\ (Zpos mz = Zpos p * 2 ^ (53 - d))%Z).
  { unfold shl_align. replace (d - 53 - 0)%Z with (d - 53)%Z by lia.
    destruct (d - 53)%Z as [|k|k] eqn:Ek; try lia.
    - exists p. split; [reflexivity|]. replace (53 - d)%Z with 0%Z by lia. lia.
    - exists (Pos.iter xO p k). split; [reflexivity|].
      rewrite pos_iter_xO. f_equal. f_equal. lia. }
  destruct Halign as (mz & -> & Hmz).
  assert (H2d : (2 ^ 53 = 2 ^ (53 - d) * 2 ^ d)%Z)
    by (rewrite <- Z.pow_add_r by lia; f_equal; lia).
  assert (H2d' : (2 ^ 52 = 2 ^ (53 - d) * 2 ^ (d - 1))%Z)
    by (rewrite <- Z.pow_add_r by lia; f_equal; lia).
  assert (Hpow : (0 < 2 ^ (53 - d))%Z) by (apply Z.pow_pos_nonneg; lia).
  assert (Hdz : (Zpos (digits2_pos mz) = 53)%Z).
  { apply digits2_pos_unique. change (53 - 1)%Z with 52%Z. rewrite Hmz, H2d, H2d'. nia. }
  rewrite binary_round_aux_exact by (assumption || lia).
  exists mz, (d - 53)%Z. split; [split; [reflexivity | assumption]|].
  split; [|split; [lia|]].
  - unfold value. rewrite Hmz, mult_IZR, <- (bpow_IZR (53 - d)) by lia.
    rewrite Rmult_assoc, <- bpow_add. replace (53 - d + (d - 53))%Z with 0%Z by lia.
    unfold bpow. simpl. ring.
  - rewrite Hmz. rewrite <- Z.mul_assoc, <- Z.pow_add_r by lia.
    f_equal. f_equal. lia.
Qed.

(** [int(x)] of a positive normal float is the floor of its value. *)
Lemma int_of_float_normal (x : float) (m : positive) (e : Z) :
  normal x m e ->
  exists k : Z, int_of_float x = Ok k /\ IZR k <= value m e < IZR k + 1.
Proof.
  intros [Hx _]. unfold int_of_float. rewrite Hx. unfold value.
  destruct e as [|p|p].
  - exists (Zpos m). split; [reflexivity|]. unfold bpow. simpl. lra.
  - exists (Zpos m * 2 ^ Zpos p)%Z. split.
    + now rewrite Z.shiftl_mul_pow2 by lia.
    + rewrite mult_IZR, <- bpow_IZR by lia. lra.
  - exists (Zpos m / 2 ^ Zpos p)%Z. split.
    + now rewrite Z.shiftr_div_pow2 by lia.
    + assert (Hpow : (0 < 2 ^ Zpos p)%Z) by (apply Z.pow_pos_nonneg; lia).
      pose proof (Z.mul_div_le (Zpos m) (2 ^ Zpos p) Hpow) as Hlo.
      pose proof (Z.mul_succ_div_gt (Zpos m) (2 ^ Zpos p) Hpow) as Hhi.
      apply IZR_le in Hlo. apply IZR_lt in Hhi.
      rewrite mult_IZR in Hlo, Hhi. unfold Z.succ in Hhi. rewrite plus_IZR in Hhi.
      rewrite <- bpow_IZR in Hlo, Hhi by lia.
      assert (Hinv : bpow (Zpos p) * bpow (Zneg p) = 1).
      { rewrite <- bpow_add. replace (Zpos p + Zneg p)%Z with 0%Z by lia. reflexivity. }
      pose proof (bpow_pos (Zpos p)). pose proof (bpow_pos (Zneg p)).
      set (a := bpow (Zpos p)) in *. set (b := bpow (Zneg p)) in *.
      set (k := IZR (Zpos m / 2 ^ Zpos p)) in *. set (M := IZR (Zpos m)) in *.
      split.
      * apply Rmult_le_reg_l with a; [assumption|].
        replace (a * (M * b)) with (M * (a * b)) by ring. rewrite Hinv. lra.
      * apply Rmult_lt_reg_l with a; [assumption|].
        replace (a * (M * b)) with (M * (a * b)) by ring. rewrite Hinv. lra.
Qed.

End Conversions.


Section Scaling.
Local Open Scope R_scope.

Lemma eps_small : 0 < eps < / 4000000000000000.
Proof. unfold eps. split; lra. Qed.

Lemma IZR_pow50 : IZR (2 ^ 50) = 1125899906842624.
Proof. reflexivity. Qed.

(** [a / b] on ints below [2 ^ 53]: a positive normal float within [eps] of
    the quotient. *)
Lemma truediv_normal (a b : Z) :
  (1 <= a < 2 ^ 53)%Z -> (1 <= b < 2 ^ 53)%Z ->
  exists (q : float) (m : positive) (e : Z),
    truediv a b = Ok q /\ normal q m e /\ (-105 <= e <= 1)%Z
    /\ IZR a * (1 - eps) <= value m e * IZR b <= IZR a * (1 + eps).
Proof.
  intros Ha Hb. unfold truediv.
  replace (b =? 0)%Z with false by (symmetry; apply Z.eqb_neq; lia).
  destruct (float_of_int_normal a Ha) as (ma & ea & Hna & Hva & Hea & _).
  destruct (float_of_int_normal b Hb) as (mb & eb & Hnb & Hvb & Heb & _).
  destruct (div_normal _ _ _ _ _ _ Hna Hnb) as (m & e & Hn & He & Hv & _); [lia|].
  exists (float_of_int a / float_of_int b)%float, m, e.
  split; [reflexivity|]. split; [assumption|]. split; [lia|].
  rewrite Hva, Hvb in Hv.
  assert (Hb0 : 0 < IZR b) by (apply IZR_lt; lia).
  assert (Hq : IZR a / IZR b * IZR b = IZR a) by (field; lra).
  destruct Hv as [Hlo Hhi].
  apply (Rmult_le_compat_r (IZR b)) in Hlo; [|lra].
  apply (Rmult_le_compat_r (IZR b)) in Hhi; [|lra].
  replace (IZR a / IZR b * (1 - eps) * IZR b) with (IZR a / IZR b * IZR b * (1 - eps)) in Hlo by ring.
  replace (IZR a / IZR b * (1 + eps) * IZR b) with (IZR a / IZR b * IZR b * (1 + eps)) in Hhi by ring.
  rewrite Hq in Hlo, Hhi. split; assumption.
Qed.

(** The float comparison of two ratios of ints never contradicts the exact
    one. *)
Lemma ratio_compare (w h tw th : Z) :
  (1 <= w < 2 ^ 53)%Z -> (1 <= h < 2 ^ 53)%Z ->
  (1 <= tw < 2 ^ 53)%Z -> (1 <= th < 2 ^ 53)%Z ->
  (w * th < 2 ^ 50)%Z -> (tw * h < 2 ^ 50)%Z ->
  exists target_ratio current_ratio : float,
    truediv tw th = Ok target_ratio /\ truediv w h = Ok current_ratio
    /\ if (target_ratio <? current_ratio)%float
       then (tw * h <= w * th)%Z else (w * th <= tw * h)%Z.
Proof.
  intros Hw Hh Htw Hth Hp1 Hp2.
  destruct (truediv_normal tw th Htw Hth) as (tr & mt & et & Ht & Hnt & _ & Hvt).
  destruct (truediv_normal w h Hw Hh) as (cr & mc & ec & Hc & Hnc & _ & Hvc).
  exists tr, cr. split; [assumption|]. split; [assumption|].
  pose proof (ltb_normal tr cr mt mc et ec Hnt Hnc) as Hcmp.
  pose proof eps_small as [Hu0 Hu1].
  assert (HW : 1 <= IZR w) by (apply IZR_le; lia).
  assert (HH : 1 <= IZR h) by (apply IZR_le; lia).
  assert (HA : 1 <= IZR tw) by (apply IZR_le; lia).
  assert (HB : 1 <= IZR th) by (apply IZR_le; lia).
  assert (HP1 : IZR w * IZR th < 1125899906842624).
  { rewrite <- mult_IZR, <- IZR_pow50. now apply IZR_lt. }
  assert (HP2 : IZR tw * IZR h < 1125899906842624).
  { rewrite <- mult_IZR, <- IZR_pow50. now apply IZR_lt. }
  pose proof (value_pos mt et) as Hvt0. pose proof (value_pos mc ec) as Hvc0.
  set (T := value mt et) in *. set (C := value mc ec) in *.
  destruct (tr <? cr)%float.
  - (* T < C *)
    assert (Hlt : IZR (tw * h) < IZR (w * th) + 1).
    { rewrite !mult_IZR.
      assert (IZR tw * (1 - eps) * IZR h <= T * IZR th * IZR h)
        by (apply Rmult_le_compat_r; lra).
      assert (T * IZR th * IZR h < C * IZR h * IZR th).
      { replace (C * IZR h * IZR th) with (C * IZR th * IZR h) by ring.
        apply Rmult_lt_compat_r; [lra|]. apply Rmult_lt_compat_r; lra. }
      assert (C * IZR h * IZR th <= IZR w * (1 + eps) * IZR th)
        by (apply Rmult_le_compat_r; lra).
      unfold eps in *. nra. }
    rewrite <- plus_IZR in Hlt. apply lt_IZR in Hlt. lia.
  - (* C <= T *)
    assert (Hlt : IZR (w * th) < IZR (tw * h) + 1).
    { rewrite !mult_IZR.
      assert (IZR w * (1 - eps) * IZR th <= C * IZR h * IZR th)
        by (apply Rmult_le_compat_r; lra).
      assert (C * IZR h * IZR th <= T * IZR th * IZR h).
      { replace (C * IZR h * IZR th) with (C * IZR th * IZR h) by ring.
        apply Rmult_le_compat_r; [lra|]. apply Rmult_le_compat_r; lra. }
      assert (T * IZR th * IZR h <= IZR tw * (1 + eps) * IZR h)
        by (apply Rmult_le_compat_r; lra).
      unfold eps in *. nra. }
    rewrite <- plus_IZR in Hlt. apply lt_IZR in Hlt. lia.
Qed.

(** [int(a * (t / b))]: the floor of [a * t / b], or one less when the
    quotient is an integer. *)
Lemma scaled_dimension (a b t : Z) :
  (1 <= a < 2 ^ 53)%Z -> (1 <= b < 2 ^ 53)%Z -> (1 <= t < 2 ^ 53)%Z ->
  (a * t < 2 ^ 50)%Z ->
  exists (scale : float) (k : Z),
    truediv t b = Ok scale
    /\ int_of_float (float_of_int a * scale)%float = Ok k
    /\ (k * b <= a * t <= (k + 1) * b)%Z.
Proof.
  intros Ha Hb Ht Hp.
  destruct (truediv_normal t b Ht Hb) as (s & ms & es & Hs & Hns & Hes & Hvs).
  destruct (float_of_int_normal a Ha) as (ma & ea & Hna & Hva & Hea & _).
  destruct (mul_normal _ _ _ _ _ _ Hna Hns) as (mp & ep & Hnp & Hep & Hvp); [lia|].
  destruct (int_of_float_normal _ _ _ Hnp) as (k & Hk & Hkv).
  exists s, k. split; [assumption|]. split; [assumption|].
  rewrite Hva in Hvp.
  pose proof eps_small as [Hu0 Hu1].
  assert (HA : 1 <= IZR a) by (apply IZR_le; lia).
  assert (HB : 1 <= IZR b) by (apply IZR_le; lia).
  assert (HT : 1 <= IZR t) by (apply IZR_le; lia).
  assert (HP : IZR a * IZR t < 1125899906842624).
  { rewrite <- mult_IZR, <- IZR_pow50. now apply IZR_lt. }
  pose proof (value_pos ms es) as Hs0. pose proof (value_pos mp ep) as Hp0.
  set (Sv := value ms es) in *. set (Pv := value mp ep) in *.
  destruct Hvs as [Hslo Hshi]. destruct Hvp as [Hplo Hphi]. destruct Hkv as [Hklo Hkhi].
  assert (Hlo1 : Pv * IZR b <= IZR a * IZR t * ((1 + eps) * (1 + eps))).
  { assert (Pv * IZR b <= IZR a * Sv * (1 + eps) * IZR b) by nra.
    assert (IZR a * (Sv * IZR b) <= IZR a * (IZR t * (1 + eps))) by nra.
    nra. }
  assert (Hhi1 : IZR a * IZR t * ((1 - eps) * (1 - eps)) <= Pv * IZR b).
  { assert (IZR a * Sv * (1 - eps) * IZR b <= Pv * IZR b) by nra.
    assert (IZR a * (IZR t * (1 - eps)) <= IZR a * (Sv * IZR b)) by nra.
    nra. }
  split.
  - assert (Hlt : IZR (k * b) < IZR (a * t) + 1).
    { rewrite !mult_IZR.
      assert (IZR k * IZR b <= Pv * IZR b) by nra.
      unfold eps in *. nra. }
    rewrite <- plus_IZR in Hlt. apply lt_IZR in Hlt. lia.
  - assert (Hlt : IZR (a * t) < IZR ((k + 1) * b) + 1).
    { rewrite !mult_IZR, plus_IZR.
      assert (Pv * IZR b < (IZR k + 1) * IZR b) by nra.
      unfold eps in *. nra. }
    rewrite <- plus_IZR in Hlt. apply lt_IZR in Hlt. lia.
Qed.

End Scaling.

Section Percent.
Local Open Scope R_scope.


End Percent.

Section Nearest.
Local Open Scope R_scope.

(** No float of 53 bits lies strictly inside a cell of the grid. *)
Lemma grid_cell (m1 E : Z) (g : positive) (eg : Z) :
  (2 ^ 52 <= m1)%Z -> (Zpos (digits2_pos g) = 53)%Z ->
  value g eg <= IZR m1 * bpow E \/ IZR (m1 + 1) * bpow E <= value g eg.
Proof.
  intros Hm1 Hg.
  pose proof (bpow_pos E) as HE.
  destruct (Z_le_gt_dec E eg) as [Hle|Hgt].
  - assert (Hv : value g eg = IZR (Zpos g * 2 ^ (eg - E)) * bpow E).
    { unfold value. replace eg with ((eg - E) + E)%Z at 1 by lia.
      rewrite bpow_add, (bpow_IZR (eg - E)) by lia. rewrite mult_IZR. ring. }
    rewrite Hv.
    destruct (Z_le_gt_dec (Zpos g * 2 ^ (eg - E)) m1) as [H|H].
    + left. apply Rmult_le_compat_r; [lra | now apply IZR_le].
    + right. apply Rmult_le_compat_r; [lra | apply IZR_le; lia].
  - left. pose proof (value_binade g eg Hg) as [_ Hhi].
    pose proof (bpow_le (eg + 53) (52 + E) ltac:(lia)) as Hb.
    rewrite (bpow_add 52 E), (bpow_IZR 52) in Hb by lia.
    apply IZR_le in Hm1.
    assert (IZR (2 ^ 52) * bpow E <= IZR m1 * bpow E)
      by (apply Rmult_le_compat_r; lra).
    lra.
Qed.

(** Rounding an exact mantissa gives a nearest float. *)
Lemma round_nearest (mx : positive) (ex : Z) :
  let d := Zpos (digits2_pos mx) in
  (53 <= d)%Z -> (-1021 <= d + ex)%Z -> (d + ex <= 1023)%Z ->
  exists (m : positive) (e : Z),
    binary_round_aux prec emax false (Zpos mx) ex loc_Exact = S754_finite false m e
    /\ (Zpos (digits2_pos m) = 53)%Z
    /\ (ex + d - 53 <= e <= ex + d - 52)%Z
    /\ nearest m e (IZR (Zpos mx) * bpow ex).
Proof.
  intros d Hd Hlo Hhi.
  destruct (binary_round_aux_cut mx ex loc_Exact Hd Hlo Hhi)
    as (m & e & Hr & Hdm & HK & He).
  fold d in HK, He.
  set (n := (d - 53)%Z) in *.
  pose proof (round_nearest_even_exact (Zpos mx) n ex ltac:(lia) ltac:(lia)) as Hne.
  cbv zeta in Hne.
  set (K := round_nearest_even _ _) in *.
  destruct Hne as (HKc & Hup & Hdown & _).
  set (m1 := (Zpos mx / 2 ^ n)%Z) in *.
  set (rem := (Zpos mx mod 2 ^ n)%Z) in *.
  exists m, e. split; [assumption|]. split; [assumption|]. split; [lia|].
  intros g eg Hg.
  set (B := bpow (ex + n)).
  assert (HB : 0 < B) by apply bpow_pos.
  assert (Hpow : (0 < 2 ^ n)%Z) by (apply Z.pow_pos_nonneg; lia).
  assert (Hv : value m e = IZR K * B).
  { rewrite <- HK. unfold value, B. replace e with ((e - (ex + n)) + (ex + n))%Z at 1 by lia.
    rewrite bpow_add, (bpow_IZR (e - (ex + n))) by lia. rewrite mult_IZR. ring. }
  assert (HBn : B = bpow ex * IZR (2 ^ n)).
  { unfold B. rewrite bpow_add, (bpow_IZR n) by lia. reflexivity. }
  assert (HT : IZR (Zpos mx) * bpow ex = IZR m1 * B + IZR rem * bpow ex).
  { rewrite (Z.div_mod (Zpos mx) (2 ^ n)) at 1 by lia. fold m1 rem.
    rewrite plus_IZR, mult_IZR, HBn. ring. }
  assert (Hm1 : (2 ^ 52 <= m1)%Z).
  { unfold m1. apply Z.div_le_lower_bound; [lia|].
    pose proof (digits2_pos_bounds mx) as [Hmlo _]. fold d in Hmlo.
    rewrite <- Z.pow_add_r by lia. unfold n. replace (d - 53 + 52)%Z with (d - 1)%Z by lia.
    assumption. }
  pose proof (Z.mod_pos_bound (Zpos mx) (2 ^ n) Hpow) as Hrem. fold rem in Hrem.
  assert (Hex : 0 < bpow ex) by apply bpow_pos.
  set (r := IZR rem * bpow ex) in *.
  assert (Hr0 : 0 <= r).
  { unfold r. apply Rmult_le_pos; [apply IZR_le; lia | lra]. }
  assert (Hcase : (K = m1 /\ 2 * r <= B) \/ (K = (m1 + 1)%Z /\ B <= 2 * r)).
  { destruct HKc as [E|E]; [left | right]; (split; [assumption|]).
    - specialize (Hdown E). apply IZR_le in Hdown. rewrite mult_IZR in Hdown.
      unfold r. rewrite HBn. nra.
    - specialize (Hup E). apply IZR_le in Hup. rewrite mult_IZR in Hup.
      unfold r. rewrite HBn. nra. }
  assert (Hr1 : r <= B).
  { unfold r. rewrite HBn. assert (IZR rem <= IZR (2 ^ n)) by (apply IZR_le; lia). nra. }
  rewrite Hv, HT.
  destruct (grid_cell m1 (ex + n) g eg Hm1 Hg) as [Hg1|Hg1]; fold B in Hg1;
    try rewrite plus_IZR in Hg1;
    destruct Hcase as [[-> Hc]|[-> Hc]]; try rewrite plus_IZR;
    unfold Rabs; repeat destruct Rcase_abs; lra.
Qed.

(** Rounding to nearest is monotone. *)
Lemma nearest_monotone (m1 m2 : positive) (e1 e2 : Z) (T1 T2 : R) :
  (Zpos (digits2_pos m1) = 53)%Z -> (Zpos (digits2_pos m2) = 53)%Z ->
  nearest m1 e1 T1 -> nearest m2 e2 T2 -> T1 < T2 ->
  value m1 e1 <= value m2 e2.
Proof.
  intros H1 H2 N1 N2 HT.
  specialize (N1 m2 e2 H2). specialize (N2 m1 e1 H1).
  destruct (Rle_lt_dec (value m1 e1) (value m2 e2)) as [|Hlt]; [assumption|].
  revert N1 N2. unfold Rabs. repeat destruct Rcase_abs; lra.
Qed.

End Nearest.

Section Addition.
Local Open Scope R_scope.
Local Abbreviation fexp := (SpecFloat.fexp prec emax).

Lemma shl_align_fst (m : positive) (e ez : Z) :
  (ez <= e)%Z -> (Zpos (fst (shl_align m e ez)) = Zpos m * 2 ^ (e - ez))%Z.
Proof.
  intros Hle. unfold shl_align.
  destruct (ez - e)%Z as [|p|p] eqn:E; cbn [fst]; try lia.
  - replace (e - ez)%Z with 0%Z by lia. lia.
  - rewrite pos_iter_xO. f_equal. f_equal. lia.
Qed.

(** The digits of the sum of two aligned mantissas of 53 bits. *)
Lemma digits_of_sum (mx my M : positive) (k : Z) :
  (0 <= k)%Z -> (Zpos (digits2_pos mx) = 53)%Z -> (Zpos (digits2_pos my) = 53)%Z ->
  (Zpos M = Zpos mx + Zpos my * 2 ^ k)%Z ->
  (53 + k <= Zpos (digits2_pos M) <= 54 + k)%Z.
Proof.
  intros Hk Hx Hy HM.
  pose proof (digits2_pos_bounds mx) as [Hxl Hxh]. rewrite Hx in Hxl, Hxh.
  pose proof (digits2_pos_bounds my) as [Hyl Hyh]. rewrite Hy in Hyl, Hyh.
  pose proof (digits2_pos_bounds M) as [Hl Hh].
  change (53 - 1)%Z with 52%Z in Hxl, Hyl.
  assert (HP : (1 <= 2 ^ k)%Z) by (apply (Z.pow_le_mono_r 2 0 k); lia).
  assert (Hlo : (2 ^ (52 + k) <= Zpos M)%Z).
  { rewrite Z.pow_add_r by lia. nia. }
  assert (Hhi : (Zpos M < 2 ^ (54 + k))%Z).
  { rewrite Z.pow_add_r by lia. change (2 ^ 54)%Z with (2 * 2 ^ 53)%Z. nia. }
  split.
  - assert (52 + k < Zpos (digits2_pos M))%Z; [|lia].
    apply (Z.pow_lt_mono_r_iff 2); lia.
  - assert (Zpos (digits2_pos M) - 1 < 54 + k)%Z; [|lia].
    apply (Z.pow_lt_mono_r_iff 2); lia.
Qed.

(** The sum of two positive normal floats is the float nearest to the sum
    of their values. *)
Lemma add_normal (x y : float) (mx my : positive) (ex ey : Z) :
  normal x mx ex -> normal y my ey ->
  (-900 <= ex <= 900)%Z -> (-900 <= ey <= 900)%Z ->
  exists (m : positive) (e : Z),
    normal (x + y)%float m e
    /\ (Z.max ex ey <= e <= Z.max ex ey + 2)%Z
    /\ nearest m e (value mx ex + value my ey).
Proof.
  intros [Hx Hdx] [Hy Hdy] Hex Hey.
  set (ez := Z.min ex ey).
  set (M := (fst (shl_align mx ex ez) + fst (shl_align my ey ez))%positive).
  assert (HM : (Zpos M = Zpos mx * 2 ^ (ex - ez) + Zpos my * 2 ^ (ey - ez))%Z).
  { unfold M. rewrite Pos2Z.inj_add, !shl_align_fst by (unfold ez; lia). reflexivity. }
  assert (Hd : (53 + (Z.max ex ey - ez) <= Zpos (digits2_pos M)
                <= 54 + (Z.max ex ey - ez))%Z).
  { destruct (Z.le_ge_cases ex ey) as [Hle|Hge].
    - unfold ez in *. rewrite Z.min_l in HM by lia. rewrite Z.min_l, Z.max_r by lia.
      apply (digits_of_sum mx my); try assumption; [lia|].
      rewrite HM. replace (ex - ex)%Z with 0%Z by lia. lia.
    - unfold ez in *. rewrite Z.min_r in HM by lia. rewrite Z.min_r, Z.max_l by lia.
      apply (digits_of_sum my mx); try assumption; [lia|].
      rewrite HM. replace (ey - ey)%Z with 0%Z by lia. lia. }
  set (d := Zpos (digits2_pos M)) in *.
  assert (Hez : (-900 <= ez <= 900)%Z) by (unfold ez; lia).
  assert (Hmax : (ez <= Z.max ex ey <= 900)%Z) by (unfold ez; lia).
  destruct (round_nearest M ez) as (m & e & Hr & Hdm & He & Hn); fold d; try lia.
  exists m, e. split; [|split].
  - split; [|assumption].
    rewrite FloatAxioms.add_spec, Hx, Hy. unfold SF64add, SFadd.
    fold ez. cbn [cond_Zopp]. rewrite <- Pos2Z.inj_add. fold M. cbn [binary_normalize].
    unfold binary_round. fold d.
    rewrite fexp_normal by lia.
    assert (Hal : shl_align M ez (d + ez - 53) = (M, ez)).
    { unfold shl_align. destruct (d + ez - 53 - ez)%Z eqn:E; try reflexivity. lia. }
    rewrite Hal. exact Hr.
  - lia.
  - replace (value mx ex + value my ey) with (IZR (Zpos M) * bpow ez); [assumption|].
    rewrite HM, plus_IZR, !mult_IZR. unfold value.
    rewrite <- (bpow_IZR (ex - ez)), <- (bpow_IZR (ey - ez)) by (unfold ez; lia).
    replace ex with ((ex - ez) + ez)%Z at 2 by lia.
    replace ey with ((ey - ez) + ez)%Z at 2 by lia.
    rewrite !bpow_add. ring.
Qed.

End Addition.

Section Order.
Local Open Scope R_scope.
Local Abbreviation fexp := (SpecFloat.fexp prec emax).

Lemma leb_normal (x y : float) (mx my : positive) (ex ey : Z) :
  normal x mx ex -> normal y my ey ->
  if (x <=? y)%float then value mx ex <= value my ey else value my ey < value mx ex.
Proof.
  intros [Hx Hdx] [Hy Hdy].
  rewrite FloatAxioms.leb_spec, Hx, Hy. unfold SFleb, SFcompare.
  pose proof (value_binade mx ex Hdx) as [Hxl Hxh].
  pose proof (value_binade my ey Hdy) as [Hyl Hyh].
  destruct (Z.compare_spec ex ey) as [->|Hlt|Hgt]; cbv beta iota.
  - rewrite Pos.compare_cont_spec. cbn [Pos.switch_Eq].
    unfold value. pose proof (bpow_pos ey).
    destruct (Pos.compare_spec mx my) as [->|Hm|Hm]; cbv beta iota delta [Pos.switch_Eq].
    + lra.
    + assert (IZR (Zpos mx) < IZR (Zpos my)) by (apply IZR_lt; lia). nra.
    + assert (IZR (Zpos my) < IZR (Zpos mx)) by (apply IZR_lt; lia). nra.
  - pose proof (bpow_le (ex + 53) (ey + 52) ltac:(lia)). lra.
  - pose proof (bpow_le (ey + 53) (ex + 52) ltac:(lia)). lra.
Qed.

(** A positive normal float is determined by its value. *)
Lemma value_inj (m1 m2 : positive) (e1 e2 : Z) :
  (Zpos (digits2_pos m1) = 53)%Z -> (Zpos (digits2_pos m2) = 53)%Z ->
  value m1 e1 = value m2 e2 -> m1 = m2 /\ e1 = e2.
Proof.
  intros H1 H2 Hv.
  pose proof (value_binade m1 e1 H1) as [Hl1 Hh1].
  pose proof (value_binade m2 e2 H2) as [Hl2 Hh2].
  assert (He : e1 = e2).
  { destruct (Z.lt_trichotomy e1 e2) as [Hlt|[Heq|Hgt]]; [exfalso|assumption|exfalso].
    - pose proof (bpow_le (e1 + 53) (e2 + 52) ltac:(lia)). lra.
    - pose proof (bpow_le (e2 + 53) (e1 + 52) ltac:(lia)). lra. }
  split; [|assumption]. subst e2.
  unfold value in Hv. pose proof (bpow_pos e1) as Hb.
  apply Rmult_eq_reg_r in Hv; [|lra].
  apply eq_IZR in Hv. congruence.
Qed.

(** A float between two positive normal floats is positive and normal. *)
Lemma between_normal (lo hi p : float) (ml mh : positive) (el eh : Z) :
  normal lo ml el -> normal hi mh eh -> (-1021 <= el)%Z ->
  (lo <=? p)%float = true -> (p <=? hi)%float = true ->
  exists (m : positive) (e : Z), normal p m e /\ (el <= e <= eh)%Z.
Proof.
  intros [Hlo _] [Hhi _] Hel H1 H2.
  pose proof (Prim2SF_valid p) as Hvalid.
  rewrite FloatAxioms.leb_spec, Hlo in H1. rewrite FloatAxioms.leb_spec, Hhi in H2.
  unfold SFleb, SFcompare in H1, H2.
  destruct (Prim2SF p) as [s|s| |s m e] eqn:Ep; try discriminate;
    try (destruct s; discriminate).
  destruct s; [discriminate|].
  assert (He1 : (el <= e)%Z).
  { destruct (Z.compare_spec el e); try lia; discriminate. }
  assert (He2 : (e <= eh)%Z).
  { destruct (Z.compare_spec e eh); try lia; discriminate. }
  exists m, e. split; [|lia]. split; [exact Ep|].
  cbn [valid_binary] in Hvalid. unfold bounded, canonical_mantissa in Hvalid.
  apply andb_true_iff in Hvalid as [Hc _]. apply Z.eqb_eq in Hc.
  unfold SpecFloat.fexp, emin, prec, emax in Hc. lia.
Qed.

Lemma normal_in_spec (lo hi : Z) (x : float) :
  normal_in lo hi x = true ->
  exists (m : positive) (e : Z), normal x m e /\ (lo <= e <= hi)%Z.
Proof.
  unfold normal_in. unfold normal.
  destruct (Prim2SF x) as [s|s| |s m e]; try discriminate.
  destruct s; [discriminate|]. intros Hb.
  apply andb_true_iff in Hb as [Hb H3]. apply andb_true_iff in Hb as [H1 H2].
  exists m, e. split; [split; [reflexivity | lia] | lia].
Qed.

Lemma fval_zero : fval 0 = 0.
Proof. reflexivity. Qed.

Lemma fval_normal (x : float) (m : positive) (e : Z) :
  normal x m e -> fval x = value m e.
Proof. intros [Hx _]. unfold fval. now rewrite Hx. Qed.

Lemma zero_or_normal_weaken (b b' : Z) (x : float) :
  (b <= b')%Z -> zero_or_normal b x -> zero_or_normal b' x.
Proof.
  intros Hb [->|(m & e & Hn & He)]; [now left|].
  right. exists m, e. split; [assumption | lia].
Qed.

Lemma mul_zero_or_normal (b : Z) (k x : float) (mk : positive) (ek : Z) :
  normal k mk ek -> (-60 <= ek <= -50)%Z -> (0 <= b <= 800)%Z ->
  zero_or_normal b x -> zero_or_normal (b + 8) (k * x)%float.
Proof.
  intros Hk Hek Hb [->|(m & e & Hn & He)].
  - left. apply Prim2SF_inj. rewrite FloatAxioms.mul_spec.
    destruct Hk as [-> _]. reflexivity.
  - right. destruct (mul_normal k x mk m ek e Hk Hn ltac:(lia)) as (m' & e' & Hn' & He' & _).
    exists m', e'. split; [assumption | lia].
Qed.

Lemma add_zero_or_normal (b : Z) (x y : float) :
  (0 <= b <= 800)%Z ->
  zero_or_normal b x -> zero_or_normal b y -> zero_or_normal (b + 2) (x + y)%float.
Proof.
  intros Hb [->|(mx & ex & Hx & Hex)] [->|(my & ey & Hy & Hey)].
  - left. reflexivity.
  - right. exists my, ey. split; [|lia]. destruct Hy as [Hy Hdy]. split; [|assumption].
    rewrite FloatAxioms.add_spec, Hy. reflexivity.
  - right. exists mx, ex. split; [|lia]. destruct Hx as [Hx Hdx]. split; [|assumption].
    rewrite FloatAxioms.add_spec, Hx. reflexivity.
  - right. destruct (add_normal x y mx my ex ey Hx Hy ltac:(lia) ltac:(lia))
      as (m & e & Hn & He & _).
    exists m, e. split; [assumption | lia].
Qed.

(** Adding a positive normal constant rounds the exact sum to nearest. *)
Lemma add_const_nearest (b : Z) (x c : float) (mc : positive) (ec : Z) :
  (0 <= b <= 800)%Z -> normal c mc ec -> (- b <= ec <= b)%Z ->
  zero_or_normal b x ->
  exists (m : positive) (e : Z),
    normal (x + c)%float m e /\ (- b <= e <= b + 2)%Z
    /\ nearest m e (fval x + value mc ec).
Proof.
  intros Hb Hc Hec [->|(mx & ex & Hx & Hex)].
  - exists mc, ec. split; [|split; [lia|]].
    + destruct Hc as [Hc Hdc]. split; [|assumption].
      rewrite FloatAxioms.add_spec, Hc. reflexivity.
    + intros g eg _. rewrite fval_zero.
      replace (value mc ec - (0 + value mc ec)) with 0 by ring.
      rewrite Rabs_R0. apply Rabs_pos.
  - destruct (add_normal x c mx mc ex ec Hx Hc ltac:(lia) ltac:(lia))
      as (m & e & Hn & He & Hnear).
    exists m, e. split; [assumption|]. split; [lia|].
    now rewrite (fval_normal x mx ex Hx).
Qed.

Lemma ltb_zero_or_normal (b : Z) (x y : float) :
  zero_or_normal b x -> zero_or_normal b y ->
  if (x <? y)%float then fval x < fval y else fval y <= fval x.
Proof.
  intros [->|(mx & ex & Hx & Hex)] [->|(my & ey & Hy & Hey)].
  - replace (0 <? 0)%float with false by reflexivity. lra.
  - rewrite (fval_normal y my ey Hy), fval_zero.
    rewrite FloatAxioms.ltb_spec. destruct Hy as [-> _].
    replace (SFltb (Prim2SF 0) (S754_finite false my ey)) with true by reflexivity.
    apply value_pos.
  - rewrite (fval_normal x mx ex Hx), fval_zero.
    rewrite FloatAxioms.ltb_spec. destruct Hx as [-> _].
    replace (SFltb (S754_finite false mx ex) (Prim2SF 0)) with false by reflexivity.
    left. apply value_pos.
  - rewrite (fval_normal x mx ex Hx), (fval_normal y my ey Hy).
    exact (ltb_normal x y mx my ex ey Hx Hy).
Qed.

Lemma zero_or_normal_inj (b : Z) (x y : float) :
  zero_or_normal b x -> zero_or_normal b y -> fval x = fval y -> x = y.
Proof.
  intros [->|(mx & ex & Hx & Hex)] [->|(my & ey & Hy & Hey)] Hv.
  - reflexivity.
  - rewrite (fval_normal y my ey Hy), fval_zero in Hv.
    pose proof (value_pos my ey). lra.
  - rewrite (fval_normal x mx ex Hx), fval_zero in Hv.
    pose proof (value_pos mx ex). lra.
  - rewrite (fval_normal x mx ex Hx), (fval_normal y my ey Hy) in Hv.
    destruct Hx as [Hx Hdx], Hy as [Hy Hdy].
    destruct (value_inj mx my ex ey Hdx Hdy Hv) as [-> ->].
    apply Prim2SF_inj. congruence.
Qed.

End Order.

Section Symmetry.

Lemma SFcompare_swap (x y : spec_float) :
  SFcompare y x = option_map CompOpp (SFcompare x y).
Proof.
  destruct x as [sx|sx| |sx mx ex], y as [sy|sy| |sy my ey];
    try destruct sx; try destruct sy; try reflexivity;
    cbn [SFcompare option_map]; f_equal;
    rewrite (Z.compare_antisym ex ey); destruct (ex ?= ey); cbn [CompOpp];
    try reflexivity; rewrite (Pos.compare_cont_antisym mx my Eq); reflexivity.
Qed.

Lemma SFcompare_None (x y : spec_float) :
  SFcompare x y = None -> x = S754_nan \/ y = S754_nan.
Proof.
  destruct x as [sx|sx| |sx mx ex], y as [sy|sy| |sy my ey];
    try destruct sx; try destruct sy; try discriminate; auto.
Qed.

Lemma SFcompare_Eq (x y : spec_float) :
  SFcompare x y = Some Eq ->
  x = y \/ exists s s', x = S754_zero s /\ y = S754_zero s'.
Proof.
  destruct x as [sx|sx| |sx mx ex], y as [sy|sy| |sy my ey];
    try destruct sx; try destruct sy; try discriminate; auto;
    try (right; eauto; fail);
    cbn [SFcompare]; intros [= Hc]; left;
    destruct (Z.compare_spec ex ey) as [->|?|?]; try discriminate;
    rewrite Pos.compare_cont_spec in Hc; cbn [Pos.switch_Eq] in Hc;
    destruct (Pos.compare_spec mx my) as [->|?|?]; try discriminate; reflexivity.
Qed.

(** Swapping the two luminances does not change the quotient taken, whatever
    floats they are. *)
Lemma ratio_swap (l1 l2 : float) :
  (if l2 <? l1 then (l1 + 0.05) / (l2 + 0.05) else (l2 + 0.05) / (l1 + 0.05))%float
  = (if l1 <? l2 then (l2 + 0.05) / (l1 + 0.05) else (l1 + 0.05) / (l2 + 0.05))%float.
Proof.
  rewrite !FloatAxioms.ltb_spec. unfold SFltb.
  rewrite (SFcompare_swap (Prim2SF l2) (Prim2SF l1)).
  destruct (SFcompare (Prim2SF l2) (Prim2SF l1)) as [[| |]|] eqn:E;
    cbn [option_map CompOpp]; try reflexivity.
  - destruct (SFcompare_Eq _ _ E) as [Heq|(s & s' & H2 & H1)].
    + apply Prim2SF_inj in Heq. now subst.
    + assert (A1 : (l1 + 0.05 = 0.05)%float).
      { apply Prim2SF_inj. rewrite FloatAxioms.add_spec, H1. reflexivity. }
      assert (A2 : (l2 + 0.05 = 0.05)%float).
      { apply Prim2SF_inj. rewrite FloatAxioms.add_spec, H2. reflexivity. }
      now rewrite A1, A2.
  - apply Prim2SF_inj. rewrite !FloatAxioms.div_spec, !FloatAxioms.add_spec.
    unfold SF64div, SF64add.
    destruct (SFcompare_None _ _ E) as [Hn|Hn]; rewrite Hn; cbn [SFadd].
    + destruct (SFadd prec emax (Prim2SF l1) (Prim2SF 0.05)); reflexivity.
    + destruct (SFadd prec emax (Prim2SF l2) (Prim2SF 0.05)); reflexivity.
Qed.

End Symmetry.

Section Quotient.
Local Open Scope R_scope.

Lemma value_one : value (2 ^ 52) (-52) = 1.
Proof.
  unfold value. rewrite bpow_m52. unfold eps.
  change (IZR (Zpos (2 ^ 52))) with 4503599627370496. lra.
Qed.

(** The quotient of the lighter by the darker term is at least one. *)
Lemma quotient_ge_one (l1 l2 : float) :
  zero_or_normal 82 l1 -> zero_or_normal 82 l2 -> fval l2 <= fval l1 ->
  (1 <=? (l1 + 0.05) / (l2 + 0.05))%float = true.
Proof.
  intros Z1 Z2 Hle.
  destruct (normal_in_spec (-82) 82 0.05 eq_refl) as (mc & ec & Hnc & Hec).
  destruct (add_const_nearest 82 l1 _ mc ec ltac:(lia) Hnc Hec Z1)
    as (m1 & e1 & Hn1 & He1 & Hnear1).
  destruct (add_const_nearest 82 l2 _ mc ec ltac:(lia) Hnc Hec Z2)
    as (m2 & e2 & Hn2 & He2 & Hnear2).
  assert (Hv : value m2 e2 <= value m1 e1).
  { destruct Hle as [Hlt|Heq].
    - apply (nearest_monotone m2 m1 e2 e1 (fval l2 + value mc ec) (fval l1 + value mc ec));
        try assumption; [apply Hn2 | apply Hn1 | lra].
    - apply (zero_or_normal_inj 82 l2 l1 Z2 Z1) in Heq. subst l2.
      destruct Hn1 as [E1 _], Hn2 as [E2 _]. rewrite E1 in E2.
      injection E2 as -> ->. lra. }
  destruct (div_normal _ _ m1 m2 e1 e2 Hn1 Hn2 ltac:(lia)) as (m & e & Hn & _ & _ & Hone).
  specialize (Hone Hv).
  destruct (normal_in_spec (-52) (-52) 1%float eq_refl) as (mo & eo & Hno & Heo).
  pose proof (leb_normal _ _ mo m eo e Hno Hn) as Hcmp.
  destruct (1 <=? (l1 + 0.05) / (l2 + 0.05))%float; [reflexivity|].
  exfalso.
  assert (Hvo : value mo eo = 1).
  { destruct Hno as [E _]. vm_compute in E. injection E as <- <-. exact value_one. }
  lra.
Qed.

End Quotient.

End Binary64Facts.

(** ** The geometry of [resize_for_ratio] *)

Section Geometry.
Context `{Pillow}.
Import Binary64Facts.

Lemma dict_get_cases {V : Type} (d : list (string * V)) (key : string) (default : V) :
  dict_get d key default = default \/ In (dict_get d key default) (List.map snd d).
Proof.
  induction d as [|[k v] d IH]; simpl; [now left|].
  destruct (String.eqb k key); [right; now left|].
  destruct IH as [IH|IH]; [now left | right; now right].
Qed.

(** Every output size, the default included, is between 1080 and 1920 on
    both sides. *)
Lemma output_size_range (ratio : string) :
  1080 <= fst (get_output_size ratio) <= 1920
  /\ 1080 <= snd (get_output_size ratio) <= 1920.
Proof.
  unfold get_output_size.
  pose proof (dict_get_cases OUTPUT_DIMENSIONS ratio (1080, 1080)) as Hcases.
  set (size := dict_get OUTPUT_DIMENSIONS ratio (1080, 1080)) in *.
  destruct Hcases as [Heq|Hin].
  - rewrite Heq. simpl. lia.
  - simpl in Hin. destruct Hin as [<-|[<-|[<-|[<-|[<-|[]]]]]]; simpl; lia.
Qed.

(** The size handed to [resize].  One side is the target side; the other
    is the source side scaled by the same factor, cut to an int: the floor
    of the exact product, or one less when that is an int already.  The
    branch taken agrees with the exact comparison of the two ratios. *)
Lemma scaled_size_spec (w h target_width target_height : Z) :
  1 <= w < 2 ^ 31 -> 1 <= h < 2 ^ 31 ->
  1 <= target_width < 2 ^ 11 -> 1 <= target_height < 2 ^ 11 ->
  exists new_width new_height,
    scaled_size w h target_width target_height = Ok (new_width, new_height)
    /\ ((new_height = target_height
         /\ new_width * h <= w * target_height <= (new_width + 1) * h
         /\ target_width * h <= w * target_height)
        \/ (new_width = target_width
            /\ new_height * w <= h * target_width <= (new_height + 1) * w
            /\ w * target_height <= target_width * h)).
Proof.
  intros Hw Hh Htw Hth.
  assert (H53 : 2 ^ 31 < 2 ^ 53) by reflexivity.
  assert (H11 : 2 ^ 11 < 2 ^ 53) by reflexivity.
  assert (Hprod : forall a t, 1 <= a < 2 ^ 31 -> 1 <= t < 2 ^ 11 -> a * t < 2 ^ 50).
  { intros a t Ha Ht. apply Z.lt_trans with (2 ^ 31 * 2 ^ 11); [nia | reflexivity]. }
  destruct (ratio_compare w h target_width target_height)
    as (target_ratio & current_ratio & Htr & Hcr & Hcmp); try lia.
  { now apply Hprod. }
  { rewrite Z.mul_comm. now apply Hprod. }
  unfold scaled_size. rewrite Htr, Hcr. cbn [bindE].
  destruct (PrimFloat.ltb target_ratio current_ratio).
  - destruct (scaled_dimension w h target_height) as (scale & k & Hs & Hk & Hbounds);
      try lia.
    { now apply Hprod. }
    rewrite Hs. cbn [bindE]. rewrite Hk. cbn [bindE].
    exists k, target_height. split; [reflexivity|]. left. auto.
  - destruct (scaled_dimension h w target_width) as (scale & k & Hs & Hk & Hbounds);
      try lia.
    { now apply Hprod. }
    rewrite Hs. cbn [bindE]. rewrite Hk. cbn [bindE].
    exists target_width, k. split; [reflexivity|]. right. auto.
Qed.

(** C2, as the code has it.  For an image object of positive size (below
    2^31 a side) and any ratio name, [resize_for_ratio] resamples the
    image to the cover-fit size [(new_width, new_height)], which keeps the
    aspect ratio: one side is the target's and the other is within one
    pixel of the exact scaled side, and the size covers the target up to
    that pixel.  When Pillow can create an image of that size, it returns a
    new image object: the centre crop of the resampled image, whose size is
    exactly the output size of the ratio, the input object being left as
    it was.  When Pillow cannot, it raises and changes nothing.  The result
    is a function of the arguments and the world. *)
Theorem resize_for_ratio_size (image : positive) (ratio : string) (w : World) (im : Image) :
  heap w !! image = Some im ->
  1 <= width im < 2 ^ 31 -> 1 <= height im < 2 ^ 31 ->
  exists new_width new_height : Z,
    scaled_size (width im) (height im)
      (fst (get_output_size ratio)) (snd (get_output_size ratio))
    = Ok (new_width, new_height)
    /\ Z.abs (new_width * height im - width im * new_height)
       <= Z.max (width im) (height im)
    /\ fst (get_output_size ratio) - 1 <= new_width
    /\ snd (get_output_size ratio) - 1 <= new_height
    /\ (can_create (new_width, new_height) = true ->
        exists (out : positive) (w' : World) (cropped : Image),
          resize_for_ratio image ratio w = (Ok out, w')
          /\ heap w' !! out = Some cropped
          /\ (width cropped, height cropped) = get_output_size ratio
          /\ mode cropped = mode im
          /\ (let left_ := (new_width - fst (get_output_size ratio)) / 2 in
              let top := (new_height - snd (get_output_size ratio)) / 2 in
              raster cropped
              = crop_raster
                  (lanczos (raster im) (width im, height im) (new_width, new_height))
                  (new_width, new_height)
                  (left_, top, left_ + fst (get_output_size ratio),
                   top + snd (get_output_size ratio)))
          /\ heap w' !! image = Some im)
    /\ (can_create (new_width, new_height) = false ->
        exists e, resize_for_ratio image ratio w = (Raise e, w)).
Proof.
  intros Him Hw Hh.
  pose proof (output_size_range ratio) as [Htw Hth].
  unfold resize_for_ratio.
  destruct (get_output_size ratio) as [target_width target_height]. cbn [fst snd] in *.
  destruct (scaled_size_spec (width im) (height im) target_width target_height)
    as (new_width & new_height & Hsize & Hgeom); try lia.
  assert (Hpos : 1 <= new_width /\ 1 <= new_height
                 /\ target_width - 1 <= new_width /\ target_height - 1 <= new_height
                 /\ Z.abs (new_width * height im - width im * new_height)
                    <= Z.max (width im) (height im)).
  { destruct Hgeom as [(-> & Hb & Hc)|(-> & Hb & Hc)].
    - assert (target_width - 1 <= new_width) by nia.
      repeat split; try lia; apply Z.abs_le; split; nia.
    - assert (target_height - 1 <= new_height) by nia.
      repeat split; try lia; apply Z.abs_le; split; nia. }
  destruct Hpos as (Hnw & Hnh & Hcw & Hch & Haspect).
  exists new_width, new_height.
  split; [exact Hsize|]. split; [exact Haspect|]. split; [exact Hcw|]. split; [exact Hch|].
  split; intros Hcan;
    (unfold bind at 1, deref at 1; rewrite Him;
     unfold bind at 1, lift; rewrite Hsize;
     unfold bind at 1, image_resize, bind at 1, deref at 1; rewrite Him;
     cbn [fst snd];
     replace ((new_width <? 1) || (new_height <? 1)) with false
       by (symmetry; apply orb_false_iff; split; apply Z.ltb_ge; lia);
     rewrite Hcan; cbn [negb]); [|eexists; reflexivity].
  set (resized := {| width := new_width; height := new_height; mode := mode im;
                     raster := lanczos (raster im) (width im, height im)
                                 (new_width, new_height) |}).
  destruct (alloc_frame resized w image im Him) as (Hkeep & r & Hr & Hne & Hnew).
  destruct (alloc resized w) as [res w1]. cbn [fst snd] in *. subst res.
  unfold image_crop, bind at 1, deref at 1. rewrite Hnew.
  set (left_ := (new_width - target_width) `div` 2).
  set (top := (new_height - target_height) `div` 2).
  replace (left_ + target_width <? left_) with false by (symmetry; apply Z.ltb_ge; lia).
  replace (top + target_height <? top) with false by (symmetry; apply Z.ltb_ge; lia).
  set (cropped := {| width := left_ + target_width - left_;
                     height := top + target_height - top;
                     mode := mode resized;
                     raster := crop_raster (raster resized) (width resized, height resized)
                                 (left_, top, left_ + target_width, top + target_height) |}).
  destruct (alloc_frame cropped w1 image im Hkeep) as (Hkeep' & r' & Hr' & Hne' & Hnew').
  destruct (alloc cropped w1) as [res w2]. cbn [fst snd] in *. subst res.
  exists r', w2, cropped.
  split; [reflexivity|]. split; [assumption|]. split.
  { unfold cropped. cbn [width height]. f_equal; lia. }
  split; [reflexivity|]. split; [reflexivity | assumption].
Qed.

(** Pillow cannot create an image with a side beyond a C [int], whatever
    the memory: a source thin enough is refused. *)
Lemma resize_for_ratio_too_thin (image : positive) (ratio : string) (w : World) (im : Image) :
  heap w !! image = Some im ->
  1 <= width im < 2 ^ 31 -> 1 <= height im < 2 ^ 31 ->
  (2 ^ 31 + 1) * width im <= 1080 * height im ->
  exists e, resize_for_ratio image ratio w = (Raise e, w).
Proof.
  intros Him Hw Hh Hthin.
  pose proof (output_size_range ratio) as [Htw Hth].
  unfold resize_for_ratio.
  destruct (get_output_size ratio) as [tw th]. cbn [fst snd] in *.
  destruct (scaled_size_spec (width im) (height im) tw th)
    as (nw & nh & Hsize & Hgeom); try lia.
  assert (Hbig : 1 <= nw /\ 2 ^ 31 <= nh).
  { destruct Hgeom as [(-> & Hb & Hc)|(-> & Hb & Hc)]; [exfalso; nia | split; nia]. }
  assert (Hcan : can_create (nw, nh) = false).
  { destruct (can_create (nw, nh)) eqn:Hcan; [|reflexivity].
    apply can_create_int in Hcan. lia. }
  unfold bind at 1, deref at 1. rewrite Him.
  unfold bind at 1, lift. rewrite Hsize.
  unfold bind at 1, image_resize, bind at 1, deref at 1. rewrite Him.
  cbn [fst snd].
  replace ((nw <? 1) || (nh <? 1)) with false
    by (symmetry; apply orb_false_iff; split; apply Z.ltb_ge; lia).
  rewrite Hcan. eexists. reflexivity.
Qed.

End Geometry.

(** C2 as stated fails on a thin source: a 1 x 3000000 image is to be
    resampled to 1080 x 3240000000 before the crop, a size no [resize]
    takes, so [resize_for_ratio] raises. *)
Lemma resize_for_ratio_thin_image :
  heap Fixture.world5 !! 1%positive = Some Fixture.thin
  /\ (width Fixture.thin, height Fixture.thin) = (1, 3000000)
  /\ scaled_size 1 3000000 1080 1080 = Ok (1080, 3240000000)
  /\ resize_for_ratio (H := Fixture.pillow) 1%positive "1x1" Fixture.world5
     = (Raise "OverflowError: signed integer is greater than maximum", Fixture.world5).
Proof.
  split; [reflexivity|]. split; [reflexivity|]. split; [vm_compute; reflexivity|].
  reflexivity.
Qed.

Lemma resize_for_ratio_size_witness :
  exists out w' cropped,
    resize_for_ratio (H := Fixture.pillow) 1%positive "9x16" Fixture.world2 = (Ok out, w')
    /\ heap w' !! out = Some cropped
    /\ (width cropped, height cropped) = (1080, 1920).
Proof.
  destruct (resize_for_ratio_size (H := Fixture.pillow) 1%positive "9x16"
              Fixture.world2 Fixture.hero)
    as (nw & nh & Hsize & _ & _ & _ & Hrun & _).
  - reflexivity.
  - simpl. lia.
  - simpl. lia.
  - assert (Hnew : (nw, nh) = (3413, 1920)).
    { assert (E : scaled_size 1920 1080 1080 1920 = Ok (3413, 1920)) by (vm_compute; reflexivity).
      change (width Fixture.hero) with 1920 in Hsize.
      change (height Fixture.hero) with 1080 in Hsize.
      change (get_output_size "9x16") with (1080, 1920) in Hsize. cbn [fst snd] in Hsize.
      rewrite E in Hsize. now injection Hsize as <- <-. }
    injection Hnew as -> ->.
    destruct (Hrun eq_refl) as (out & w' & cropped & Hres & Hout & Hdim & _).
    exists out, w', cropped. auto.
Defined.

(** ** The width of the wrapped lines *)

Section WrapBound.
Context `{Pillow}.
Import Binary64Facts.


End WrapBound.


(** ** The contrast ratio *)

Lemma range_check (P : Z -> bool) (lo : Z) (n : nat) :
  forallb P (map (fun i => lo + Z.of_nat i) (seq 0 n)) = true ->
  forall c, lo <= c < lo + Z.of_nat n -> P c = true.
Proof.
  intros Hall c Hc. rewrite forallb_forall in Hall. apply Hall.
  apply in_map_iff. exists (Z.to_nat (c - lo)). split; [lia|].
  apply in_seq. lia.
Qed.

Section ContrastProperties.
Context `{PyFloat}.
Import Binary64Facts.
Local Open Scope float_scope.

(** What is assumed of the platform's [pow]: on the channel values that
    take the power branch the result lies in [2 ^ -10, 1], and
    [pow(1, y)] is [1]. *)
Hypothesis pow_range : forall c : Z, (11 <= c <= 255)%Z ->
  let p := float_pow ((float_of_int c / 255 + 0.055) / 1.055) 2.4 in
  (0.0009765625 <=? p) = true /\ (p <=? 1) = true.
Hypothesis pow_one : float_pow 1 2.4 = 1.

Lemma linearize_zero : linearize 0 = 0.
Proof. vm_compute. reflexivity. Qed.

Lemma linearize_power (c : Z) :
  (11 <= c <= 255)%Z ->
  linearize c = float_pow ((float_of_int c / 255 + 0.055) / 1.055) 2.4.
Proof.
  intros Hc. unfold linearize. cbv zeta.
  assert (Hbr : negb (float_of_int c / 255 <=? 0.03928) = true).
  { apply (range_check (fun c => negb (float_of_int c / 255 <=? 0.03928)) 11 245);
      [vm_compute; reflexivity | lia]. }
  apply negb_true_iff in Hbr. now rewrite Hbr.
Qed.

Lemma linearize_zero_or_normal (c : Z) :
  (0 <= c <= 255)%Z -> zero_or_normal 70 (linearize c).
Proof.
  intros Hc. destruct (Z_le_gt_dec c 10) as [Hlow|Hhigh].
  - destruct (Z.eq_dec c 0%Z) as [->|Hc0]; [left; exact linearize_zero|].
    right. apply normal_in_spec.
    apply (range_check (fun c => normal_in (-70) 70 (linearize c)) 1 10);
      [vm_compute; reflexivity | lia].
  - right. rewrite linearize_power by lia.
    destruct (pow_range c ltac:(lia)) as [Hlo Hhi]. cbv zeta in Hlo, Hhi.
    destruct (normal_in_spec (-62) (-62) 0.0009765625 eq_refl) as (ml & el & Hnl & Hel).
    destruct (normal_in_spec (-52) (-52) 1 eq_refl) as (mh & eh & Hnh & Heh).
    destruct (between_normal _ _ _ ml mh el eh Hnl Hnh ltac:(lia) Hlo Hhi)
      as (m & e & Hn & He).
    exists m, e. split; [assumption | lia].
Qed.

Lemma luminance_zero_or_normal (color : Z * Z * Z) :
  rgb color -> zero_or_normal 82 (luminance color).
Proof.
  destruct color as [[r g] b]. intros (Hr & Hg & Hb). unfold luminance.
  destruct (normal_in_spec (-60) (-50) 0.2126 eq_refl) as (m1 & e1 & Hn1 & He1).
  destruct (normal_in_spec (-60) (-50) 0.7152 eq_refl) as (m2 & e2 & Hn2 & He2).
  destruct (normal_in_spec (-60) (-50) 0.0722 eq_refl) as (m3 & e3 & Hn3 & He3).
  pose proof (mul_zero_or_normal 70 _ _ m1 e1 Hn1 He1 ltac:(lia)
                (linearize_zero_or_normal r Hr)) as Z1.
  pose proof (mul_zero_or_normal 70 _ _ m2 e2 Hn2 He2 ltac:(lia)
                (linearize_zero_or_normal g Hg)) as Z2.
  pose proof (mul_zero_or_normal 70 _ _ m3 e3 Hn3 He3 ltac:(lia)
                (linearize_zero_or_normal b Hb)) as Z3.
  change (70 + 8)%Z with 78%Z in Z1, Z2, Z3.
  pose proof (add_zero_or_normal 78 _ _ ltac:(lia) Z1 Z2) as Z12.
  change (78 + 2)%Z with 80%Z in Z12.
  apply (zero_or_normal_weaken 78 80) in Z3; [|lia].
  exact (add_zero_or_normal 80 _ _ ltac:(lia) Z12 Z3).
Qed.

Lemma contrast_ratio_sym (a b : Z * Z * Z) : contrast_ratio a b = contrast_ratio b a.
Proof. unfold contrast_ratio. cbv zeta. apply ratio_swap. Qed.

Lemma luminance_white : luminance (255, 255, 255)%Z = 1.
Proof.
  assert (Hw : linearize 255 = 1).
  { rewrite linearize_power by lia.
    replace ((float_of_int 255 / 255 + 0.055) / 1.055) with 1
      by (vm_compute; reflexivity).
    exact pow_one. }
  unfold luminance. rewrite Hw. vm_compute. reflexivity.
Qed.

Lemma luminance_black : luminance (0, 0, 0)%Z = 0.
Proof. unfold luminance. rewrite linearize_zero. vm_compute. reflexivity. Qed.

(** The luminance of the code is the WCAG relative luminance: the test
    [c / 255 <= 0.03928] on floats singles out the channel values up to
    10. *)
Lemma linearize_srgb (c : Z) : (0 <= c <= 255)%Z -> linearize c = srgb_linear c.
Proof.
  intros Hc. unfold srgb_linear. destruct (Z.leb_spec c 10) as [Hlow|Hhigh].
  - unfold linearize. cbv zeta.
    assert (Hbr : (float_of_int c / 255 <=? 0.03928) = true).
    { apply (range_check (fun c => float_of_int c / 255 <=? 0.03928) 0 11);
        [vm_compute; reflexivity | lia]. }
    now rewrite Hbr.
  - apply linearize_power. lia.
Qed.

Lemma luminance_relative (color : Z * Z * Z) :
  rgb color -> luminance color = relative_luminance color.
Proof.
  destruct color as [[r g] b]. intros (Hr & Hg & Hb).
  unfold luminance, relative_luminance.
  now rewrite !linearize_srgb by assumption.
Qed.

(** C8: for colours [a] and [b] with channels in [0 .. 255], and a [pow]
    that takes the arguments of the power branch into [2 ^ -10, 1] and [1]
    to [1].  The luminance that [check_text_contrast] computes is the
    sRGB-linearized relative luminance, and the ratio it judges is the WCAG
    ratio [(lighter + 0.05) / (darker + 0.05)] of the two relative
    luminances, the lighter one not below the darker one.  The report
    holds that ratio rounded to two decimals; it passes AA exactly when
    the ratio is at least 4.5 and AAA exactly when it is at least 7.0
    (on the ratio before rounding), and recommends accordingly; the ratio
    is at least 1.  [check_text_contrast] returns the same result for
    [(a, b)] and for [(b, a)], and white on black and black on white give
    the ratio 21, which passes both levels. *)
Theorem contrast_wcag (a b : Z * Z * Z) :
  rgb a -> rgb b ->
  luminance a = relative_luminance a
  /\ luminance b = relative_luminance b
  /\ (exists lighter darker : float,
        ((lighter, darker) = (relative_luminance a, relative_luminance b)
         \/ (lighter, darker) = (relative_luminance b, relative_luminance a))
        /\ (fval darker <= fval lighter)%R
        /\ contrast_ratio a b = wcag_ratio lighter darker
        /\ ratio (check_text_contrast a b) = float_round (wcag_ratio lighter darker) 2
        /\ passes_aa (check_text_contrast a b) = (4.5 <=? wcag_ratio lighter darker)
        /\ passes_aaa (check_text_contrast a b) = (7 <=? wcag_ratio lighter darker)
        /\ recommendation (check_text_contrast a b)
           = (if 4.5 <=? wcag_ratio lighter darker then "Compliant"%string
              else "Increase contrast"%string)
        /\ (1 <=? wcag_ratio lighter darker) = true)
  /\ check_text_contrast a b = check_text_contrast b a
  /\ contrast_ratio a b = contrast_ratio b a
  /\ contrast_ratio (255, 255, 255)%Z (0, 0, 0)%Z = 21
  /\ contrast_ratio (0, 0, 0)%Z (255, 255, 255)%Z = 21
  /\ passes_aa (check_text_contrast (255, 255, 255)%Z (0, 0, 0)%Z) = true
  /\ passes_aaa (check_text_contrast (255, 255, 255)%Z (0, 0, 0)%Z) = true
  /\ ratio (check_text_contrast a b) = float_round (contrast_ratio a b) 2
  /\ passes_aa (check_text_contrast a b) = (4.5 <=? contrast_ratio a b)
  /\ passes_aaa (check_text_contrast a b) = (7 <=? contrast_ratio a b)
  /\ (1 <=? contrast_ratio a b) = true.
Proof.
  intros Ha Hb.
  pose proof (luminance_zero_or_normal a Ha) as Za.
  pose proof (luminance_zero_or_normal b Hb) as Zb.
  pose proof (luminance_relative a Ha) as La.
  pose proof (luminance_relative b Hb) as Lb.
  assert (Hshape : exists lighter darker : float,
            ((lighter, darker) = (luminance a, luminance b)
             \/ (lighter, darker) = (luminance b, luminance a))
            /\ (fval darker <= fval lighter)%R
            /\ contrast_ratio a b = (lighter + 0.05) / (darker + 0.05)).
  { unfold contrast_ratio. cbv zeta.
    pose proof (ltb_zero_or_normal 82 _ _ Zb Za) as Hcmp.
    destruct (luminance b <? luminance a).
    - exists (luminance a), (luminance b). split; [now left|].
      split; [lra | reflexivity].
    - exists (luminance b), (luminance a). split; [now right|].
      split; [assumption | reflexivity]. }
  assert (Hone : (1 <=? contrast_ratio a b) = true).
  { destruct Hshape as (lighter & darker & [E|E] & Hle & ->);
      injection E as -> ->; now apply quotient_ge_one. }
  assert (Hwhite : contrast_ratio (255, 255, 255)%Z (0, 0, 0)%Z = 21).
  { unfold contrast_ratio. rewrite luminance_white, luminance_black.
    vm_compute. reflexivity. }
  split; [exact La|]. split; [exact Lb|]. split.
  { destruct Hshape as (lighter & darker & Hwhich & Hle & Hratio).
    exists lighter, darker. rewrite <- La, <- Lb. split; [exact Hwhich|].
    split; [exact Hle|]. unfold wcag_ratio. rewrite <- Hratio.
    split; [reflexivity|]. split; [reflexivity|]. split; [reflexivity|].
    split; [reflexivity|]. split; [reflexivity | exact Hone]. }
  split; [unfold check_text_contrast; cbv zeta; now rewrite (contrast_ratio_sym a b)|].
  split; [apply contrast_ratio_sym|].
  split; [exact Hwhite|].
  split; [now rewrite contrast_ratio_sym|].
  split; [unfold check_text_contrast; cbv zeta; cbn [passes_aa]; rewrite Hwhite;
          vm_compute; reflexivity|].
  split; [unfold check_text_contrast; cbv zeta; cbn [passes_aaa]; rewrite Hwhite;
          vm_compute; reflexivity|].
  split; [reflexivity|]. split; [reflexivity|]. split; [reflexivity | exact Hone].
Qed.

End ContrastProperties.

Lemma contrast_wcag_witness :
  check_text_contrast (H := Fixture.pyfloat) (118, 118, 118)%Z (255, 255, 255)%Z
  = check_text_contrast (H := Fixture.pyfloat) (255, 255, 255)%Z (118, 118, 118)%Z
  /\ (1 <=? contrast_ratio (H := Fixture.pyfloat) (118, 118, 118)%Z (255, 255, 255)%Z)%float
     = true.
Proof.
  destruct (contrast_wcag (H := Fixture.pyfloat)) with
    (a := (118, 118, 118)%Z) (b := (255, 255, 255)%Z)
    as (_ & _ & _ & Hsym & _ & _ & _ & _ & _ & _ & _ & _ & Hone).
  - intros c Hc. cbv zeta.
    apply andb_true_iff.
    apply (range_check
             (fun c => let p := @float_pow Fixture.pyfloat
                                  ((float_of_int c / 255 + 0.055) / 1.055) 2.4 in
                       (0.0009765625 <=? p) && (p <=? 1))%float 11%Z 245%nat);
      [vm_compute; reflexivity | lia].
  - vm_compute. reflexivity.
  - simpl. lia.
  - simpl. lia.
  - split; assumption.
Defined.

(** * Further properties of the composer and the checker *)

(** ** What the legal check reports *)

(** ** Substrings *)

Lemma prefix_cons (a b : ascii) (s t : string) :
  String.prefix (String a s) (String b t)
  = if ascii_dec a b then String.prefix s t else false.
Proof. reflexivity. Qed.

Lemma prefix_iff (w t : string) :
  String.prefix w t = true <-> exists post, t = w ++ post.
Proof.
  revert t. induction w as [|a w IH]; intros t.
  - split; [intros _; now exists t | intros _; destruct t; reflexivity].
  - destruct t as [|b t].
    + split; [discriminate | intros [post Hp]; discriminate].
    + rewrite prefix_cons. destruct (ascii_dec a b) as [->|Hne].
      * rewrite IH. split; intros [post Hp]; exists post.
        -- simpl. now rewrite Hp.
        -- simpl in Hp. now injection Hp.
      * split; [discriminate|]. intros [post Hp]. simpl in Hp. congruence.
Qed.

Lemma contains_cons (w : string) (c : ascii) (t : string) :
  contains w (String c t) = String.prefix w (String c t) || contains w t.
Proof. reflexivity. Qed.

(** [needle in hay] holds exactly when [hay] is [pre + needle + post]. *)
Lemma contains_iff (w t : string) :
  contains w t = true <-> exists pre post, t = pre ++ w ++ post.
Proof.
  induction t as [|c t IH].
  - change (contains w "") with (String.prefix w "" || false).
    rewrite orb_false_r, prefix_iff. split.
    + intros [post Hp]. now exists "", post.
    + intros (pre & post & Hp). destruct pre; [|discriminate].
      now exists post.
  - rewrite contains_cons, orb_true_iff, prefix_iff, IH. split.
    + intros [[post Hp]|(pre & post & Hp)].
      * now exists "", post.
      * exists (String c pre), post. simpl. now rewrite Hp.
    + intros (pre & post & Hp). destruct pre as [|c' pre].
      * left. now exists post.
      * right. simpl in Hp. injection Hp as _ Hp. now exists pre, post.
Qed.

Lemma contains_trans (a b t : string) :
  contains a b = true -> contains b t = true -> contains a t = true.
Proof.
  rewrite !contains_iff. intros (p & q & ->) (pre & post & ->).
  exists (pre ++ p), (q ++ post). now rewrite !string_app_assoc.
Qed.

Lemma contains_app_l (w x y : string) :
  contains w x = true -> contains w (x ++ y) = true.
Proof.
  rewrite !contains_iff. intros (p & q & ->). exists p, (q ++ y).
  now rewrite !string_app_assoc.
Qed.

Lemma contains_app_r (w x y : string) :
  contains w y = true -> contains w (x ++ y) = true.
Proof.
  rewrite !contains_iff. intros (p & q & ->). exists (x ++ p), q.
  now rewrite !string_app_assoc.
Qed.

Lemma lower_app (a b : string) : lower (a ++ b) = lower a ++ lower b.
Proof. induction a as [|c a IH]; simpl; [reflexivity | now rewrite IH]. Qed.

Lemma In_decide (w : string) (l : list string) :
  existsb (String.eqb w) l = true -> In w l.
Proof.
  intros H. apply existsb_exists in H as (x & Hx & He).
  apply String.eqb_eq in He. now subst.
Qed.

(** The reported terms, as a function of the text. *)
Lemma reported_iff (text w : string) :
  In w (List.map term (violations (check_legal_content text)))
  <-> In w PROHIBITED_WORDS /\ contains w (lower text) = true.
Proof.
  rewrite legal_terms.
  exact (List.filter_In (fun w => contains w (lower text)) w PROHIBITED_WORDS).
Qed.

(** The words of the list are distinct. *)
Lemma prohibited_words_nodup : List.NoDup PROHIBITED_WORDS.
Proof. apply nodup_keys_decide. vm_compute. reflexivity. Qed.

(** X1: the report holds exactly the listed terms that occur in the
    lowercased message, in the order of the list and each once, all with the
    same reason and severity; the message is compliant exactly when none
    occurs. *)
Theorem legal_report_exact (text : string) :
  List.map term (violations (check_legal_content text))
  = List.filter (fun w => contains w (lower text)) PROHIBITED_WORDS
  /\ List.NoDup (List.map term (violations (check_legal_content text)))
  /\ (forall v, In v (violations (check_legal_content text)) ->
        reason v = "Prohibited marketing claim" /\ severity v = "high")
  /\ (compliant (check_legal_content text) = true
      <-> forall w, In w PROHIBITED_WORDS -> contains w (lower text) = false)
  /\ text_checked (check_legal_content text) = text.
Proof.
  pose proof (legal_terms text) as Hterms.
  split; [exact Hterms|]. split.
  { rewrite Hterms. apply List.NoDup_filter, prohibited_words_nodup. }
  split.
  { unfold check_legal_content. cbn [violations].
    generalize (lower text). intros text_lower.
    assert (Hgen : forall words acc,
               (forall v, In v acc ->
                  reason v = "Prohibited marketing claim" /\ severity v = "high") ->
               forall v, In v (scan_words words text_lower acc) ->
                  reason v = "Prohibited marketing claim" /\ severity v = "high").
    { induction words as [|word rest IH]; intros acc Hacc v; cbn [scan_words];
        [apply Hacc|].
      apply IH. intros v'. destruct (contains word text_lower); [|apply Hacc].
      rewrite List.in_app_iff. intros [Hin|[<-|[]]]; [now apply Hacc | now split]. }
    apply Hgen. intros v []. }
  split; [|reflexivity].
  assert (Hlen : compliant (check_legal_content text) = true
                 <-> List.map term (violations (check_legal_content text)) = []).
  { unfold check_legal_content. cbn [compliant violations].
    generalize (scan_words PROHIBITED_WORDS (lower text) []). intros vs.
    destruct vs; cbn; split; congruence. }
  rewrite Hlen, Hterms. split.
  - intros Hnil w Hw. destruct (contains w (lower text)) eqn:Hc; [|reflexivity].
    assert (Hin : In w (List.filter (fun w => contains w (lower text)) PROHIBITED_WORDS))
      by (apply List.filter_In; now split).
    rewrite Hnil in Hin. destruct Hin.
  - intros Hall.
    generalize PROHIBITED_WORDS Hall. intros l Hl.
    induction l as [|x l IH]; [reflexivity|]. cbn [List.filter].
    rewrite (Hl x) by now left. apply IH. intros w Hw. apply Hl. now right.
Qed.

(** X2: the match ignores the case of the message for every term of the list
    that is itself in lower case: a message that holds such a term in any
    casing is reported for it, and is not compliant. *)
Theorem legal_any_casing (text pre u post w : string) :
  In w PROHIBITED_WORDS -> lower u = w -> text = pre ++ u ++ post ->
  In w (List.map term (violations (check_legal_content text)))
  /\ compliant (check_legal_content text) = false.
Proof.
  intros Hw Hu ->.
  assert (Hin : In w (List.map term (violations (check_legal_content (pre ++ u ++ post))))).
  { apply reported_iff. split; [assumption|].
    rewrite !lower_app, Hu. apply contains_iff. now exists (lower pre), (lower post). }
  split; [assumption|].
  revert Hin. unfold check_legal_content. cbn [compliant violations].
  generalize (scan_words PROHIBITED_WORDS (lower (pre ++ u ++ post)) []). intros vs.
  destruct vs; [intros [] | reflexivity].
Qed.

Lemma legal_any_casing_witness :
  In "risk-free"
    (List.map term (violations (check_legal_content "Try it now: 100% RISK-Free!"))).
Proof.
  refine (proj1 (legal_any_casing "Try it now: 100% RISK-Free!" "Try it now: 100% "
                   "RISK-Free" "!" "risk-free" _ _ _)).
  - apply In_decide. reflexivity.
  - reflexivity.
  - reflexivity.
Defined.

(** X3: text added before or after a message never clears a violation. *)
Theorem legal_violations_extend (a b w : string) :
  In w (List.map term (violations (check_legal_content a))) ->
  In w (List.map term (violations (check_legal_content (a ++ b))))
  /\ In w (List.map term (violations (check_legal_content (b ++ a)))).
Proof.
  rewrite !reported_iff, !lower_app. intros [Hw Hc].
  split; (split; [assumption|]).
  - now apply contains_app_l.
  - now apply contains_app_r.
Qed.

Lemma legal_violations_extend_witness :
  In "best" (List.map term (violations (check_legal_content "The best shoes. Shop today"))).
Proof.
  refine (proj1 (legal_violations_extend "The best shoes" ". Shop today" "best" _)).
  vm_compute. auto.
Defined.

Lemma reported_nested (text inner outer : string) :
  In inner PROHIBITED_WORDS -> contains inner outer = true ->
  In outer (List.map term (violations (check_legal_content text))) ->
  In inner (List.map term (violations (check_legal_content text))).
Proof.
  rewrite !reported_iff. intros Hin Hsub [_ Hc]. split; [assumption|].
  now apply (contains_trans inner outer).
Qed.

(** X4: a term that holds another term of the list is never reported
    alone: a report for "guaranteed" comes with one for "guarantee", one for
    "cures" with "cure", one for "risk-free" with "free". *)
Theorem legal_nested_terms (text : string) :
  (In "guaranteed" (List.map term (violations (check_legal_content text))) ->
   In "guarantee" (List.map term (violations (check_legal_content text))))
  /\ (In "cures" (List.map term (violations (check_legal_content text))) ->
      In "cure" (List.map term (violations (check_legal_content text))))
  /\ (In "risk-free" (List.map term (violations (check_legal_content text))) ->
      In "free" (List.map term (violations (check_legal_content text))))
  /\ (In "guaranteed" (List.map term (violations (check_legal_content text)))
      \/ In "cures" (List.map term (violations (check_legal_content text)))
      \/ In "risk-free" (List.map term (violations (check_legal_content text))) ->
      (2 <= List.length (violations (check_legal_content text)))%nat).
Proof.
  pose proof (reported_nested text "guarantee" "guaranteed"
                (In_decide "guarantee" PROHIBITED_WORDS eq_refl) eq_refl) as H1.
  pose proof (reported_nested text "cure" "cures"
                (In_decide "cure" PROHIBITED_WORDS eq_refl) eq_refl) as H2.
  pose proof (reported_nested text "free" "risk-free"
                (In_decide "free" PROHIBITED_WORDS eq_refl) eq_refl) as H3.
  rewrite <- (List.length_map term).
  revert H1 H2 H3.
  generalize (List.map term (violations (check_legal_content text))).
  intros reported H1 H2 H3.
  split; [assumption|]. split; [assumption|]. split; [assumption|].
  assert (Htwo : forall x y, x <> y -> In x reported -> In y reported ->
                 (2 <= List.length reported)%nat).
  { intros x y Hne Hx Hy.
    destruct reported as [|r1 [|r2 rest]]; cbn [List.length]; try lia.
    - destruct Hx.
    - destruct Hx as [<-|[]], Hy as [<-|[]]. contradiction. }
  intros [H|[H|H]].
  - apply (Htwo "guaranteed" "guarantee"); [discriminate | assumption | now apply H1].
  - apply (Htwo "cures" "cure"); [discriminate | assumption | now apply H2].
  - apply (Htwo "risk-free" "free"); [discriminate | assumption | now apply H3].
Qed.

(** ** The shape of the wrapped lines *)

Section WrapShape.
Context `{Pillow}.
Variable font : Font.
Variable max_text_width : Z.

Lemma wrap_step_joined (st : list string * list string) (word : string) :
  Forall joined (fst st) -> Forall is_word (snd st) -> is_word word ->
  Forall joined (fst (wrap_step font max_text_width st word))
  /\ Forall is_word (snd (wrap_step font max_text_width st word)).
Proof.
  destruct st as [lines current_line]. unfold wrap_step. cbn [fst snd].
  intros Hl Hc Hw.
  destruct (_ <=? max_text_width); cbn [fst snd].
  - split; [assumption|]. apply Forall_app. split; [assumption | now constructor].
  - destruct current_line as [|w ws]; cbn [fst snd].
    + split; [|constructor]. apply Forall_app. split; [assumption|].
      constructor; [|constructor]. exists [word].
      split; [discriminate|]. split; [now constructor | reflexivity].
    + split; [|now constructor]. apply Forall_app. split; [assumption|].
      constructor; [|constructor]. exists (w :: ws).
      split; [discriminate|]. split; [assumption | reflexivity].
Qed.

Lemma wrap_fold_joined (words : list string) (st : list string * list string) :
  Forall joined (fst st) -> Forall is_word (snd st) -> Forall is_word words ->
  Forall joined (fst (List.fold_left (wrap_step font max_text_width) words st))
  /\ Forall is_word (snd (List.fold_left (wrap_step font max_text_width) words st)).
Proof.
  revert st. induction words as [|word words IH]; intros st Hl Hc Hws; simpl.
  - now split.
  - apply Forall_cons_iff in Hws as [Hw Hws].
    destruct (wrap_step_joined st word Hl Hc Hw) as [Hl' Hc']. now apply IH.
Qed.

Lemma wrap_text_joined (text : string) :
  Forall joined (wrap_text font max_text_width text).
Proof.
  unfold wrap_text.
  destruct (wrap_fold_joined (split text) ([], [])) as [Hl Hc];
    [constructor | constructor | apply split_words |].
  destruct (List.fold_left _ _ _) as [lines current_line]. cbn [fst snd] in *.
  destruct current_line as [|w ws]; [assumption|].
  apply Forall_app. split; [assumption|].
  constructor; [|constructor]. exists (w :: ws).
  split; [discriminate|]. split; [assumption | reflexivity].
Qed.

Lemma joined_not_empty (line : string) : joined line -> line <> "".
Proof.
  intros (ws & Hne & Hws & ->). destruct ws as [|w ws]; [contradiction|].
  apply Forall_cons_iff in Hws as [[Hw _] _].
  destruct ws as [|w' ws]; cbn [join]; [assumption|].
  destruct w; [contradiction | discriminate].
Qed.

Lemma length_flat_map_ge (lines : list string) :
  Forall (fun line => split line <> []) lines ->
  (List.length lines <= List.length (List.flat_map split lines))%nat.
Proof.
  induction 1 as [|line lines Hline _ IH]; [reflexivity|].
  cbn [List.flat_map List.length]. rewrite List.length_app.
  destruct (split line); [contradiction|]. cbn [List.length]. lia.
Qed.

(** X5: the wrap normalises white space and makes no empty line: every line
    is its own words joined by single spaces, so a line break or a run of
    blanks in the message is not kept; there are at most as many lines as
    words, and a message without a word gives no line. *)
Theorem wrap_text_normalised (text : string) :
  (forall line, In line (wrap_text font max_text_width text) ->
     line <> "" /\ split line <> [] /\ join " " (split line) = line)
  /\ (List.length (wrap_text font max_text_width text) <= List.length (split text))%nat
  /\ (split text = [] -> wrap_text font max_text_width text = []).
Proof.
  pose proof (wrap_text_joined text) as Hall.
  assert (Hline : forall line, In line (wrap_text font max_text_width text) ->
            line <> "" /\ split line <> [] /\ join " " (split line) = line).
  { intros line Hin. rewrite List.Forall_forall in Hall.
    pose proof (Hall line Hin) as Hj. split; [now apply joined_not_empty|].
    destruct Hj as (ws & Hne & Hws & ->). rewrite split_join by assumption. now split. }
  assert (Hwords : List.flat_map split (wrap_text font max_text_width text) = split text).
  { unfold wrap_text.
    destruct (wrap_fold_words font max_text_width (split text) ([], [])) as [Heq Hcur];
      [constructor | apply split_words |].
    destruct (List.fold_left _ _ _) as [lines current_line].
    unfold state_words in Heq. cbn [fst snd] in *.
    destruct current_line as [|w ws].
    - now rewrite List.app_nil_r in Heq.
    - rewrite flat_map_split_snoc, split_join by assumption. exact Heq. }
  assert (Hlen : (List.length (wrap_text font max_text_width text)
                  <= List.length (split text))%nat).
  { rewrite <- Hwords. apply length_flat_map_ge.
    apply List.Forall_forall. intros line Hin. now apply Hline. }
  split; [assumption|]. split; [assumption|].
  intros Hnil. rewrite Hnil in Hlen.
  destruct (wrap_text font max_text_width text); [reflexivity | cbn in Hlen; lia].
Qed.

End WrapShape.

(** ** The layout of the panel *)

Section PanelFit.
Context `{Pillow}.

Lemma max_line_width_In (font : Font) (lines : list string) (acc : Z) (line : string) :
  In line lines ->
  text_width font line <= List.fold_left (fun a l => Z.max a (text_width font l)) lines acc.
Proof.
  revert acc. induction lines as [|l lines IH]; intros acc; [intros []|].
  cbn [List.fold_left]. intros [->|Hin].
  - pose proof (max_line_width_ge font lines (Z.max acc (text_width font line))). lia.
  - now apply IH.
Qed.

(** The widest line is one of the lines, unless none is wider than the
    start value. *)
Lemma max_line_width_attained (font : Font) (lines : list string) (acc : Z) :
  List.fold_left (fun a l => Z.max a (text_width font l)) lines acc = acc
  \/ exists line, In line lines
       /\ List.fold_left (fun a l => Z.max a (text_width font l)) lines acc
          = text_width font line.
Proof.
  revert acc. induction lines as [|l lines IH]; intros acc; cbn [List.fold_left];
    [now left|].
  destruct (IH (Z.max acc (text_width font l))) as [Hacc|(line & Hin & Hline)].
  - rewrite Hacc. destruct (Z.max_spec acc (text_width font l)) as [[_ ->]|[_ ->]].
    + right. exists l. split; [now left | reflexivity].
    + now left.
  - right. exists line. split; [now right | exact Hline].
Qed.

(** X6: the panel is exactly 60px wider than the widest line (30px to
    spare on each side; 60px wide when there is no line, or none of
    positive width), so every line fits with those margins, and it is 50px
    higher than the lines, 25px above and below.  Its corner is never
    nearer than 20px to the left and top edges; and when the panel is at
    most [w - 40] wide and [h - 40] high it is centred horizontally and
    keeps 20px to the right and bottom edges as well. *)
Theorem text_panel_layout (w h : Z) (font : Font) (font_size max_text_width : Z)
    (text position : string) (tb : TextBlock) :
  text_block w h font font_size max_text_width text position = Ok tb ->
  tb_lines tb = wrap_text font max_text_width text
  /\ (forall line, In line (tb_lines tb) -> text_width font line + 60 <= tb_bg_width tb)
  /\ ((exists line, In line (tb_lines tb) /\ tb_bg_width tb = text_width font line + 60)
      \/ (tb_bg_width tb = 60
          /\ forall line, In line (tb_lines tb) -> text_width font line <= 0))
  /\ tb_bg_height tb = Z.of_nat (List.length (tb_lines tb)) * tb_line_height tb + 50
  /\ 20 <= tb_x tb /\ 20 <= tb_y tb
  /\ (tb_bg_width tb <= w - 40 ->
      tb_x tb = (w - tb_bg_width tb) / 2 /\ tb_x tb + tb_bg_width tb <= w - 20)
  /\ (tb_bg_height tb <= h - 40 -> tb_y tb + tb_bg_height tb <= h - 20).
Proof.
  unfold text_block, bindE.
  destruct (int_of_float _) as [line_height|e]; [|discriminate].
  destruct (anchor _ _ _ _ _) as [[x y]|e] eqn:Ha; [|discriminate].
  intros Htb. injection Htb as <-.
  cbn [tb_x tb_y tb_bg_width tb_bg_height tb_lines tb_line_height fst snd].
  assert (Hx : x = (w - (List.fold_left (fun a l => Z.max a (text_width font l))
                           (wrap_text font max_text_width text) 0 + 30 * 2)) / 2).
  { revert Ha. unfold anchor, bindE.
    destruct (truediv w h); [|discriminate].
    destruct (String.eqb position "bottom").
    - destruct (if PrimFloat.ltb _ _ then _ else _); [|discriminate]. congruence.
    - destruct (String.eqb position "top"); congruence. }
  split; [reflexivity|]. split.
  { intros line Hin. pose proof (max_line_width_In font _ 0 line Hin). lia. }
  split.
  { destruct (max_line_width_attained font (wrap_text font max_text_width text) 0)
      as [Hzero|(line & Hin & Hline)].
    - right. rewrite Hzero. split; [reflexivity|].
      intros line Hin. pose proof (max_line_width_In font _ 0 line Hin). lia.
    - left. exists line. split; [exact Hin | lia]. }
  split; [lia|]. split; [lia|]. split; [lia|]. split.
  - intros Hfit. set (bw := _ + 30 * 2) in *.
    assert (20 <= (w - bw) / 2) by (apply Z.div_le_lower_bound; lia).
    assert ((w - bw) / 2 <= w - bw - 20).
    { assert (2 * ((w - bw) / 2) <= w - bw) by (apply Z.mul_div_le; lia). lia. }
    subst x. lia.
  - lia.
Qed.

End PanelFit.

Lemma text_panel_layout_witness :
  exists tb,
    text_block (H := Fixture.pillow) 1080 1080 86 86 918 Fixture.short_message "bottom" = Ok tb
    /\ tb_x tb = (1080 - tb_bg_width tb) / 2
    /\ tb_x tb + tb_bg_width tb <= 1080 - 20.
Proof.
  destruct (text_block (H := Fixture.pillow) 1080 1080 86 86 918 Fixture.short_message "bottom")
    as [tb|e] eqn:Htb; [|vm_compute in Htb; discriminate].
  exists tb. split; [reflexivity|].
  destruct (text_panel_layout (H := Fixture.pillow) _ _ _ _ _ _ _ _ Htb)
    as (_ & _ & _ & _ & _ & _ & Hfit & _).
  vm_compute in Htb. injection Htb as <-.
  apply Hfit. cbn [tb_bg_width]. lia.
Defined.

(** ** What the composer leaves in place *)

Section Effects.
Context `{Pillow}.

Lemma extends_refl (w : World) : extends w w.
Proof. intros r im Hr. exact Hr. Qed.

Lemma extends_fresh (w0 w : World) (r : positive) :
  extends w0 w -> heap w !! r = None -> heap w0 !! r = None.
Proof.
  intros Hext Hr. destruct (heap w0 !! r) as [im|] eqn:E; [|reflexivity].
  apply Hext in E. congruence.
Qed.

Lemma heap_only_unchanged {A : Type} (w0 : World) (c : IO A) :
  (forall w, snd (c w) = w) -> heap_only w0 c.
Proof. intros Hc w Hext. rewrite Hc. now split. Qed.

Lemma heap_only_ret {A : Type} (w0 : World) (a : A) : heap_only w0 (ret a).
Proof. now apply heap_only_unchanged. Qed.

Lemma heap_only_raise {A : Type} (w0 : World) (e : string) : heap_only w0 (raise (A := A) e).
Proof. now apply heap_only_unchanged. Qed.

Lemma heap_only_lift {A : Type} (w0 : World) (c : Exn A) : heap_only w0 (lift c).
Proof. now apply heap_only_unchanged. Qed.

Lemma path_exists_unchanged (p : string) (w : World) : snd (path_exists p w) = w.
Proof.
  unfold path_exists. destruct (disk w !! p); [reflexivity|].
  now destruct (stat_error w p).
Qed.

Lemma heap_only_path_exists (w0 : World) (p : string) : heap_only w0 (path_exists p).
Proof. apply heap_only_unchanged, path_exists_unchanged. Qed.

Lemma deref_unchanged (r : positive) (w : World) : snd (deref r w) = w.
Proof.
  unfold deref. destruct (heap w !! r); [reflexivity|]. now destruct (unloaded w !! r).
Qed.

Lemma image_attrs_unchanged (r : positive) (w : World) : snd (image_attrs r w) = w.
Proof.
  unfold image_attrs. destruct (heap w !! r); [reflexivity|].
  now destruct (unloaded w !! r).
Qed.

Lemma heap_only_image_attrs (w0 : World) (r : positive) : heap_only w0 (image_attrs r).
Proof. apply heap_only_unchanged, image_attrs_unchanged. Qed.

Lemma heap_only_deref (w0 : World) (r : positive) : heap_only w0 (deref r).
Proof. apply heap_only_unchanged, deref_unchanged. Qed.

Lemma deref_ok (r : positive) (w w' : World) (im : Image) :
  deref r w = (Ok im, w') -> w' = w /\ heap w !! r = Some im.
Proof.
  unfold deref. destruct (heap w !! r); intros E;
    [|destruct (unloaded w !! r); discriminate].
  injection E as <- <-. now split.
Qed.

Lemma alloc_ok (im : Image) (w w' : World) (r : positive) :
  alloc im w = (Ok r, w') ->
  heap w !! r = None /\ heap w' = <[r := im]> (heap w) /\ disk w' = disk w.
Proof.
  unfold alloc. intros E. injection E as <- <-. split; [|now split].
  apply fresh_not_live.
Qed.

Lemma heap_only_alloc (w0 : World) (im : Image) : heap_only w0 (alloc im).
Proof.
  intros w Hext. destruct (alloc im w) as [[r|e] w'] eqn:E; [|discriminate].
  apply alloc_ok in E as (Hfresh & Hheap & Hdisk). cbn [snd].
  split; [|assumption]. intros r0 im0 Hr0. rewrite Hheap.
  rewrite lookup_insert_ne; [now apply Hext|].
  intros ->. apply Hext in Hr0. congruence.
Qed.

Lemma heap_only_bind {A B : Type} (w0 : World) (c : IO A) (k : A -> IO B) :
  heap_only w0 c ->
  (forall a w w', extends w0 w -> c w = (Ok a, w') -> heap_only w0 (k a)) ->
  heap_only w0 (bind c k).
Proof.
  intros Hc Hk w Hext. unfold bind.
  destruct (Hc w Hext) as [Hext' Hdisk].
  destruct (c w) as [[a|e] w'] eqn:E; cbn [snd] in *; [|now split].
  destruct (Hk a w w' Hext E w' Hext') as [Hext'' Hdisk'].
  split; [assumption | congruence].
Qed.

Lemma heap_only_try {A : Type} (w0 : World) (body : IO A) (handler : string -> IO A) :
  heap_only w0 body -> (forall e, heap_only w0 (handler e)) ->
  heap_only w0 (try_except body handler).
Proof.
  intros Hb Hh w Hext. unfold try_except.
  destruct (Hb w Hext) as [Hext' Hdisk].
  destruct (body w) as [[a|e] w'] eqn:E; cbn [snd] in *; [now split|].
  destruct (Hh e w' Hext') as [Hext'' Hdisk'].
  split; [assumption | congruence].
Qed.

(** Writing to an object that [w0] does not hold. *)
Lemma heap_only_set_raster (w0 : World) (r : positive) (px : Raster) :
  heap w0 !! r = None -> heap_only w0 (set_raster r px).
Proof.
  intros Hr w Hext. unfold set_raster.
  destruct (heap w !! r) as [im|]; cbn [snd]; [|now split].
  split; [|reflexivity]. intros r0 im0 Hr0. cbn [heap set_heap].
  rewrite lookup_insert_ne; [now apply Hext|]. intros ->. congruence.
Qed.

Lemma set_raster_ok (r : positive) (px : Raster) (w w' : World) :
  set_raster r px w = (Ok tt, w') ->
  exists im, heap w !! r = Some im
    /\ heap w' = <[r := {| width := width im; height := height im;
                          mode := mode im; raster := px |}]> (heap w)
    /\ disk w' = disk w.
Proof.
  unfold set_raster. destruct (heap w !! r) as [im|]; intros E; [|discriminate].
  injection E as <-. exists im. now split.
Qed.

Lemma allocates_alloc (im : Image) : allocates (alloc im).
Proof. intros w w' r E. now apply alloc_ok in E. Qed.

Lemma allocates_after_deref (image : positive) (k : Image -> IO positive) :
  (forall im, allocates (k im)) -> allocates (bind (deref image) k).
Proof.
  intros Hk w w' r E. apply bind_ok in E as (im & w1 & Hd & E).
  apply deref_ok in Hd as [Hw1 _]. subst w1. now apply (Hk im) in E.
Qed.

Lemma allocates_image_copy (image : positive) : allocates (image_copy image).
Proof. apply allocates_after_deref. intros im. apply allocates_alloc. Qed.

Lemma allocates_image_convert (image : positive) (m : string) :
  allocates (image_convert image m).
Proof. apply allocates_after_deref. intros im. apply allocates_alloc. Qed.

Lemma allocates_image_resize (image : positive) (size : Z * Z) :
  allocates (image_resize image size).
Proof.
  apply allocates_after_deref. intros im.
  destruct (_ || _); [intros w w' r E; discriminate|].
  destruct (negb _); [intros w w' r E; discriminate | apply allocates_alloc].
Qed.

Lemma allocates_image_crop (image : positive) (box : Z * Z * Z * Z) :
  allocates (image_crop image box).
Proof.
  apply allocates_after_deref. intros im. destruct box as [[[x0 y0] x1] y1].
  destruct (x1 <? x0); [intros w w' r E; discriminate|].
  destruct (y1 <? y0); [intros w w' r E; discriminate | apply allocates_alloc].
Qed.

Lemma allocates_image_open (p : string) : allocates (image_open p).
Proof.
  intros w w' r E. now apply image_open_ok in E as (f & _ & _ & Hfresh & _).
Qed.

Lemma heap_only_image_open (w0 : World) (p : string) : heap_only w0 (image_open p).
Proof.
  intros w Hext. unfold image_open.
  destruct (disk w !! p) as [f|]; [|now split].
  destruct (file_image f); [now apply heap_only_alloc|].
  destruct (file_header f); now split.
Qed.

Lemma heap_only_image_copy (w0 : World) (image : positive) :
  heap_only w0 (image_copy image).
Proof.
  apply heap_only_bind; [apply heap_only_deref|]. intros. apply heap_only_alloc.
Qed.

Lemma heap_only_image_convert (w0 : World) (image : positive) (m : string) :
  heap_only w0 (image_convert image m).
Proof.
  apply heap_only_bind; [apply heap_only_deref|]. intros. apply heap_only_alloc.
Qed.

Lemma heap_only_image_resize (w0 : World) (image : positive) (size : Z * Z) :
  heap_only w0 (image_resize image size).
Proof.
  apply heap_only_bind; [apply heap_only_deref|]. intros.
  destruct (_ || _); [apply heap_only_raise|].
  destruct (negb _); [apply heap_only_raise | apply heap_only_alloc].
Qed.

Lemma heap_only_image_crop (w0 : World) (image : positive) (box : Z * Z * Z * Z) :
  heap_only w0 (image_crop image box).
Proof.
  apply heap_only_bind; [apply heap_only_deref|]. intros.
  destruct box as [[[x0 y0] x1] y1].
  destruct (x1 <? x0); [apply heap_only_raise|].
  destruct (y1 <? y0); [apply heap_only_raise | apply heap_only_alloc].
Qed.

Lemma heap_only_draw_new (w0 : World) (image : positive) : heap_only w0 (draw_new image).
Proof.
  apply heap_only_bind; [apply heap_only_deref|]. intros.
  destruct (_ || _); [apply heap_only_ret | apply heap_only_raise].
Qed.

Lemma heap_only_draw_rectangle (w0 : World) (image : positive) box fill :
  heap w0 !! image = None -> heap_only w0 (draw_rectangle image box fill).
Proof.
  intros Hr. apply heap_only_bind; [apply heap_only_deref|]. intros.
  destruct (negb _); [apply heap_only_raise | now apply heap_only_set_raster].
Qed.

Lemma heap_only_draw_text (w0 : World) (image : positive) pos text font fill :
  heap w0 !! image = None -> heap_only w0 (draw_text image pos text font fill).
Proof.
  intros Hr. apply heap_only_bind; [apply heap_only_deref|]. intros.
  destruct (negb _); [apply heap_only_raise | now apply heap_only_set_raster].
Qed.

Lemma heap_only_image_paste (w0 : World) (dest src : positive) pos :
  heap w0 !! dest = None -> heap_only w0 (image_paste dest src pos).
Proof.
  intros Hr. apply heap_only_bind; [apply heap_only_deref|]. intros.
  apply heap_only_bind; [apply heap_only_deref|]. intros.
  now apply heap_only_set_raster.
Qed.

Lemma heap_only_stamp (w0 : World) (image : positive) at_ offsets line font fill :
  heap w0 !! image = None -> heap_only w0 (stamp image at_ offsets line font fill).
Proof.
  intros Hr. induction offsets as [|[ox oy] rest IH]; cbn [stamp].
  - apply heap_only_ret.
  - apply heap_only_bind; [now apply heap_only_draw_text|]. intros. exact IH.
Qed.

Lemma heap_only_draw_lines (w0 : World) (image : positive) font lines x bg_width
    text_y line_height text_color :
  heap w0 !! image = None ->
  heap_only w0 (draw_lines image font lines x bg_width text_y line_height text_color).
Proof.
  intros Hr. revert text_y. induction lines as [|line rest IH]; intros text_y; cbn [draw_lines].
  - apply heap_only_ret.
  - cbv zeta.
    apply heap_only_bind; [now apply heap_only_draw_text|]. intros.
    apply heap_only_bind; [now apply heap_only_stamp|]. intros.
    apply heap_only_bind; [now apply heap_only_draw_text|]. intros.
    apply IH.
Qed.

Lemma heap_only_first_font (w0 : World) (paths : list string) (font_size : Z) :
  heap_only w0 (first_font paths font_size).
Proof.
  induction paths as [|p rest IH]; cbn [first_font]; [apply heap_only_ret|].
  apply heap_only_bind; [apply heap_only_path_exists|]. intros found w w' _ _.
  destruct found; [|exact IH].
  apply heap_only_bind; [apply heap_only_lift|]. intros. apply heap_only_ret.
Qed.

Lemma heap_only_load_font (w0 : World) (font_size : Z) : heap_only w0 (load_font font_size).
Proof.
  apply heap_only_try.
  - apply heap_only_bind; [apply heap_only_first_font|]. intros [f|] w w' _ _;
      [apply heap_only_ret | apply heap_only_lift].
  - intros e. apply heap_only_lift.
Qed.

Lemma heap_only_resize_for_ratio (w0 : World) (image : positive) (ratio : string) :
  heap_only w0 (resize_for_ratio image ratio).
Proof.
  unfold resize_for_ratio. destruct (get_output_size ratio) as [tw th].
  apply heap_only_bind; [apply heap_only_deref|]. intros im w w' _ _.
  apply heap_only_bind; [apply heap_only_lift|]. intros [nw nh] w1 w1' _ _.
  apply heap_only_bind; [apply heap_only_image_resize|]. intros.
  apply heap_only_image_crop.
Qed.

Lemma allocates_resize_for_ratio (image : positive) (ratio : string) :
  allocates (resize_for_ratio image ratio).
Proof.
  intros w w' r. unfold resize_for_ratio. destruct (get_output_size ratio) as [tw th].
  intros E. apply bind_ok in E as (im & w1 & Hd & E).
  apply bind_ok in E as ([nw nh] & w2 & Hs & E).
  apply bind_ok in E as (resized & w3 & Hr & E).
  apply deref_ok in Hd as [Hw1 _]. subst w1.
  unfold lift in Hs. injection Hs as _ Hw2. subst w2.
  pose proof (allocates_image_crop _ _ _ _ _ E) as Hfresh.
  destruct (heap w !! r) as [im0|] eqn:E0; [|reflexivity].
  destruct (heap_only_image_resize w image (nw, nh) w (extends_refl w)) as [Hext _].
  rewrite Hr in Hext. cbn [snd] in Hext. apply Hext in E0. congruence.
Qed.

Lemma heap_only_add_text_overlay (w0 : World) (self : Composer) (image : positive)
    (text position : string) :
  heap_only w0 (add_text_overlay self image text position).
Proof.
  unfold add_text_overlay.
  apply heap_only_bind; [apply heap_only_image_copy|]. intros r w w' Hext Hcopy.
  assert (Hr : heap w0 !! r = None).
  { apply (extends_fresh w0 w); [assumption|]. now apply (allocates_image_copy image w w'). }
  apply heap_only_bind; [apply heap_only_draw_new|]. intros.
  apply heap_only_bind; [apply heap_only_deref|]. intros.
  apply heap_only_bind; [apply heap_only_lift|]. intros.
  apply heap_only_bind; [apply heap_only_lift|]. intros.
  apply heap_only_bind; [apply heap_only_load_font|]. intros.
  apply heap_only_bind; [apply heap_only_lift|]. intros.
  apply heap_only_bind; [now apply heap_only_draw_rectangle|]. intros.
  apply heap_only_bind; [now apply heap_only_draw_lines|]. intros.
  apply heap_only_ret.
Qed.

Lemma heap_only_add_logo_overlay (w0 : World) (self : Composer) (image : positive)
    (position : string) :
  heap_only w0 (add_logo_overlay self image position).
Proof.
  unfold add_logo_overlay. destruct (logo self) as [logo_|]; [|apply heap_only_ret].
  apply heap_only_bind; [apply heap_only_image_copy|]. intros r w w' Hext Hcopy.
  assert (Hr : heap w0 !! r = None).
  { apply (extends_fresh w0 w); [assumption|]. now apply (allocates_image_copy image w w'). }
  apply heap_only_bind; [apply heap_only_deref|]. intros.
  apply heap_only_bind; [apply heap_only_deref|]. intros.
  apply heap_only_bind; [now apply heap_only_image_paste|]. intros.
  apply heap_only_ret.
Qed.

Lemma heap_only_keeps {A : Type} (w0 : World) (c : IO A) :
  heap_only w0 c -> heap_keeps w0 c.
Proof. intros Hc w Hext. now apply Hc. Qed.

Lemma heap_keeps_bind {A B : Type} (w0 : World) (c : IO A) (k : A -> IO B) :
  heap_keeps w0 c ->
  (forall a w w', extends w0 w -> c w = (Ok a, w') -> heap_keeps w0 (k a)) ->
  heap_keeps w0 (bind c k).
Proof.
  intros Hc Hk w Hext. unfold bind.
  pose proof (Hc w Hext) as Hext'.
  destruct (c w) as [[a|e] w'] eqn:E; cbn [snd] in *; [|assumption].
  exact (Hk a w w' Hext E w' Hext').
Qed.

Lemma heap_keeps_try {A : Type} (w0 : World) (body : IO A) (handler : string -> IO A) :
  heap_keeps w0 body -> (forall e, heap_keeps w0 (handler e)) ->
  heap_keeps w0 (try_except body handler).
Proof.
  intros Hb Hh w Hext. unfold try_except.
  pose proof (Hb w Hext) as Hext'.
  destruct (body w) as [[a|e] w'] eqn:E; cbn [snd] in *; [assumption|].
  exact (Hh e w' Hext').
Qed.

(** [os.mkdir] changes nothing but the disk, where it adds one folder at
    most, at its path. *)
Lemma os_mkdir_spec (p : string) (w : World) :
  set_disk (disk w) (snd (os_mkdir p w)) = w
  /\ forall q, q <> p -> disk (snd (os_mkdir p w)) !! q = disk w !! q.
Proof.
  unfold os_mkdir. destruct w as [h u d c ro se]. cbn [disk].
  destruct (present _ p); [now split|].
  destruct (create_error _ p); [now split|].
  cbn [snd set_disk heap unloaded disk clock read_only stat_error]. split; [reflexivity|].
  intros q Hq. now apply lookup_insert_ne.
Qed.

Lemma mkdir_exist_ok_spec (p : string) (w : World) :
  set_disk (disk w) (snd (mkdir_exist_ok p w)) = w
  /\ forall q, q <> p -> disk (snd (mkdir_exist_ok p w)) !! q = disk w !! q.
Proof.
  unfold mkdir_exist_ok. pose proof (os_mkdir_spec p w) as Hos.
  destruct (os_mkdir p w) as [[[]|e] w']; cbn [snd] in *; [exact Hos|].
  destruct (String.eqb e "FileNotFoundError"); [exact Hos|].
  destruct (is_dir w' p); exact Hos.
Qed.

Lemma set_disk_trans (w0 w1 w2 : World) :
  set_disk (disk w0) w1 = w0 -> set_disk (disk w1) w2 = w1 -> set_disk (disk w0) w2 = w0.
Proof.
  unfold set_disk. destruct w0, w1, w2.
  cbn [heap unloaded disk clock read_only stat_error]. congruence.
Qed.

(** [mkdir] changes nothing but the disk, and there only the folder and
    its parents. *)
Lemma mkdir_parents_spec (levels : nat) (p : string) (w : World) :
  set_disk (disk w) (snd (mkdir_parents levels p w)) = w
  /\ forall q, ~ ancestor_of levels p q -> disk (snd (mkdir_parents levels p w)) !! q = disk w !! q.
Proof.
  revert p w. induction levels as [|levels IH]; intros p w; cbn [mkdir_parents ancestor_of].
  - pose proof (os_mkdir_spec p w) as [Hsame Hframe].
    destruct (os_mkdir p w) as [[[]|e] w']; cbn [snd] in *.
    + split; [exact Hsame|]. intros q Hq. apply Hframe. tauto.
    + destruct (String.eqb e "FileNotFoundError");
        [|destruct (is_dir w' p)]; (split; [exact Hsame|]; intros q Hq; apply Hframe; tauto).
  - pose proof (os_mkdir_spec p w) as [Hsame Hframe].
    destruct (os_mkdir p w) as [[[]|e] w']; cbn [snd] in *.
    + split; [exact Hsame|]. intros q Hq. apply Hframe. tauto.
    + destruct (String.eqb e "FileNotFoundError").
      2:{ destruct (is_dir w' p); (split; [exact Hsame|]; intros q Hq; apply Hframe; tauto). }
      destruct (String.eqb (path_parent p) p).
      { split; [exact Hsame|]. intros q Hq. apply Hframe. tauto. }
      unfold bind.
      destruct (IH (path_parent p) w') as [Hsame1 Hframe1].
      destruct (mkdir_parents levels (path_parent p) w') as [[[]|e1] w1]; cbn [snd] in *.
      * pose proof (mkdir_exist_ok_spec p w1) as [Hsame2 Hframe2].
        split.
        -- exact (set_disk_trans _ _ _ Hsame (set_disk_trans _ _ _ Hsame1 Hsame2)).
        -- intros q Hq. rewrite Hframe2 by tauto. rewrite Hframe1 by tauto.
           apply Hframe. tauto.
      * split.
        -- exact (set_disk_trans _ _ _ Hsame Hsame1).
        -- intros q Hq. rewrite Hframe1 by tauto. apply Hframe. tauto.
Qed.

Lemma mkdir_heap (p : string) (w : World) : heap (snd (mkdir p w)) = heap w.
Proof.
  unfold mkdir.
  destruct (mkdir_parents_spec (List.length (path_parts_from "" p)) p w) as [Hsame _].
  now apply (f_equal heap) in Hsame.
Qed.

Lemma heap_keeps_mkdir (w0 : World) (p : string) : heap_keeps w0 (mkdir p).
Proof. intros w Hext r im Hr. rewrite mkdir_heap. now apply Hext. Qed.

Lemma image_save_heap (image : positive) (p : string) (w : World) :
  heap (snd (image_save image p w)) = heap w.
Proof.
  unfold image_save, bind. pose proof (deref_unchanged image w) as Hd.
  destruct (deref image w) as [[im|e] w1]; cbn [snd] in *; subst w1; [|reflexivity].
  destruct (read_only w p); [reflexivity|].
  destruct (disk w !! p) as [f|]; [now destruct (file_is_dir f)|].
  destruct (is_anchor p); [now idtac|]. now destruct (create_error w p).
Qed.

Lemma heap_keeps_image_save (w0 : World) (image : positive) (p : string) :
  heap_keeps w0 (image_save image p).
Proof. intros w Hext r im Hr. rewrite image_save_heap. now apply Hext. Qed.

Lemma heap_keeps_variations_loop (w0 : World) (self : Composer) (hero_image : positive)
    (campaign_message product_folder : string) (ratios generated_paths : list string) :
  heap_keeps w0 (variations_loop self hero_image campaign_message product_folder ratios
                   generated_paths).
Proof.
  revert generated_paths. induction ratios as [|ratio rest IH]; intros generated_paths;
    cbn [variations_loop].
  - apply heap_only_keeps, heap_only_ret.
  - apply heap_keeps_bind; [apply heap_only_keeps, heap_only_image_copy|]. intros.
    apply heap_keeps_bind; [apply heap_only_keeps, heap_only_resize_for_ratio|]. intros.
    apply heap_keeps_bind; [apply heap_only_keeps, heap_only_add_text_overlay|]. intros.
    apply heap_keeps_bind.
    { destruct (logo self); apply heap_only_keeps;
        [apply heap_only_add_logo_overlay | apply heap_only_ret]. }
    intros. cbv zeta.
    apply heap_keeps_bind; [apply heap_keeps_image_save|]. intros. apply IH.
Qed.

Lemma heap_keeps_create_variations (w0 : World) (self : Composer)
    (hero_image_path campaign_message product_id output_folder : string)
    (ratios : option (list string)) :
  heap_keeps w0 (create_variations self hero_image_path campaign_message product_id
                   output_folder ratios).
Proof.
  unfold create_variations. apply heap_keeps_try.
  - apply heap_keeps_bind; [apply heap_only_keeps, heap_only_image_open|]. intros.
    apply heap_keeps_bind; [apply heap_only_keeps, heap_only_image_attrs|]. intros.
    apply heap_keeps_bind.
    { destruct (negb _); apply heap_only_keeps;
        [apply heap_only_image_convert | apply heap_only_ret]. }
    intros. cbv zeta.
    apply heap_keeps_bind; [apply heap_keeps_mkdir|]. intros.
    apply heap_keeps_variations_loop.
  - intros e. apply heap_only_keeps, heap_only_raise.
Qed.

(** X7: whatever its outcome, [create_variations] leaves every image object
    that was live before the call as it was, the logo of the composer and
    the objects of other jobs among them: it writes only to the copies it
    makes. *)
Theorem create_variations_keeps_objects (self : Composer)
    (hero_image_path campaign_message product_id output_folder : string)
    (ratios : option (list string)) (w : World) (r : positive) (im : Image) :
  heap w !! r = Some im ->
  heap (snd (create_variations self hero_image_path campaign_message product_id
               output_folder ratios w)) !! r = Some im.
Proof.
  intros Hr.
  exact (heap_keeps_create_variations w self _ _ _ _ ratios w (extends_refl w) r im Hr).
Qed.

End Effects.

Lemma create_variations_keeps_objects_witness :
  heap (snd (create_variations Fixture.composer0 "assets/hero.png" Fixture.short_message
               "prod1" "outputs/camp" (Some ["1x1"; "16x9"]) Fixture.world2))
    !! 1%positive = Some Fixture.hero.
Proof.
  apply (create_variations_keeps_objects (H := Fixture.pillow)).
  reflexivity.
Defined.

(** ** What the composer makes *)

Section Shapes.
Context `{Pillow}.

Lemma same_shape_refl (im : Image) : same_shape im im.
Proof. now split. Qed.

Lemma same_shape_trans (a b c : Image) : same_shape a b -> same_shape b c -> same_shape a c.
Proof. unfold same_shape. intuition congruence. Qed.

Lemma paints_ret (r : positive) : paints r (ret tt).
Proof.
  intros w w' im E Hr. injection E as <-. exists im. split; [assumption | apply same_shape_refl].
Qed.

Lemma paints_seq (r : positive) (c k : IO unit) :
  paints r c -> paints r k -> paints r (bind c (fun _ => k)).
Proof.
  intros Hc Hk w w' im E Hr. apply bind_ok in E as ([] & w1 & E1 & E2).
  destruct (Hc w w1 im E1 Hr) as (im1 & Hr1 & Hs1).
  destruct (Hk w1 w' im1 E2 Hr1) as (im2 & Hr2 & Hs2).
  exists im2. split; [assumption | now apply (same_shape_trans _ im1)].
Qed.

Lemma paints_set_raster (r : positive) (px : Raster) : paints r (set_raster r px).
Proof.
  intros w w' im E Hr. apply set_raster_ok in E as (im0 & Hr0 & Hheap & _).
  rewrite Hr in Hr0. injection Hr0 as <-.
  eexists. rewrite Hheap, lookup_insert_eq. split; [reflexivity | now split].
Qed.

Lemma paints_after_deref (r image : positive) (k : Image -> IO unit) :
  (forall im, paints r (k im)) -> paints r (bind (deref image) k).
Proof.
  intros Hk w w' im E Hr. apply bind_ok in E as (im0 & w1 & Hd & E).
  apply deref_ok in Hd as [Hw1 _]. subst w1. exact (Hk im0 w w' im E Hr).
Qed.

Lemma paints_draw_rectangle (r : positive) box fill : paints r (draw_rectangle r box fill).
Proof.
  apply paints_after_deref. intros.
  destruct (negb _); [intros w w' im0 E; discriminate E | apply paints_set_raster].
Qed.

Lemma paints_draw_text (r : positive) pos text font fill :
  paints r (draw_text r pos text font fill).
Proof.
  apply paints_after_deref. intros.
  destruct (negb _); [intros w w' im0 E; discriminate E | apply paints_set_raster].
Qed.

Lemma draw_new_unchanged (r : positive) (w : World) : snd (draw_new r w) = w.
Proof.
  unfold draw_new, bind. pose proof (deref_unchanged r w) as Hd.
  destruct (deref r w) as [[im|e] w1]; cbn [snd] in *; subst w1; [|reflexivity].
  now destruct (_ || _).
Qed.

Lemma paints_image_paste (r src : positive) pos : paints r (image_paste r src pos).
Proof.
  apply paints_after_deref. intros. apply paints_after_deref. intros.
  apply paints_set_raster.
Qed.

Lemma paints_stamp (r : positive) at_ offsets line font fill :
  paints r (stamp r at_ offsets line font fill).
Proof.
  induction offsets as [|[ox oy] rest IH]; cbn [stamp]; [apply paints_ret|].
  apply paints_seq; [apply paints_draw_text | exact IH].
Qed.

Lemma paints_draw_lines (r : positive) font lines x bg_width text_y line_height text_color :
  paints r (draw_lines r font lines x bg_width text_y line_height text_color).
Proof.
  revert text_y. induction lines as [|line rest IH]; intros text_y; cbn [draw_lines];
    [apply paints_ret|].
  cbv zeta. apply paints_seq; [apply paints_draw_text|].
  apply paints_seq; [apply paints_stamp|].
  apply paints_seq; [apply paints_draw_text | apply IH].
Qed.

(** What a successful copy gives. *)
Lemma image_copy_ok (image r : positive) (w w' : World) :
  image_copy image w = (Ok r, w') ->
  exists im, heap w !! image = Some im /\ heap w !! r = None
    /\ heap w' = <[r := im]> (heap w) /\ disk w' = disk w.
Proof.
  intros E. unfold image_copy in E. apply bind_ok in E as (im & w1 & Hd & E).
  apply deref_ok in Hd as [Hw1 Him]. subst w1.
  apply alloc_ok in E as (Hf & Hh & Hd). exists im. now repeat split.
Qed.

Lemma unchanged_ok {A : Type} (c : IO A) (w w' : World) (a : A) :
  (forall w, snd (c w) = w) -> c w = (Ok a, w') -> w' = w.
Proof. intros Hc E. specialize (Hc w). rewrite E in Hc. exact Hc. Qed.

Lemma load_font_ok (font_size : Z) (w w' : World) (f : Font) :
  load_font font_size w = (Ok f, w') ->
  (forall r im, heap w !! r = Some im -> heap w' !! r = Some im) /\ disk w' = disk w.
Proof.
  intros E. destruct (heap_only_load_font w font_size w (extends_refl w)) as [Hext Hdisk].
  rewrite E in Hext, Hdisk. now split.
Qed.

(** What a successful text overlay gives: a new object of the size and mode
    of the image, which is left as it was. *)
Lemma add_text_overlay_ok (self : Composer) (image out : positive) (text position : string)
    (w w' : World) :
  add_text_overlay self image text position w = (Ok out, w') ->
  exists im im',
    heap w !! image = Some im /\ heap w !! out = None
    /\ heap w' !! out = Some im' /\ same_shape im' im
    /\ disk w' = disk w.
Proof.
  intros E.
  assert (Hdisk : disk w' = disk w).
  { destruct (heap_only_add_text_overlay w self image text position w (extends_refl w))
      as [_ Hd]. now rewrite E in Hd. }
  unfold add_text_overlay in E.
  apply bind_ok in E as (r & w1 & Hcopy & E).
  apply image_copy_ok in Hcopy as (im & Him & Hfresh & Hheap1 & _).
  apply bind_ok in E as ([] & w2 & Hdraw & E).
  apply (unchanged_ok (draw_new _)) in Hdraw; [subst w2 | apply draw_new_unchanged].
  apply bind_ok in E as (im0 & w2 & Hd & E).
  apply deref_ok in Hd as [Hw2 _]. subst w2.
  apply bind_ok in E as (mtw & w2 & Hl & E).
  apply (unchanged_ok (lift _)) in Hl; [subst w2 | reflexivity].
  apply bind_ok in E as (fs & w2 & Hl & E).
  apply (unchanged_ok (lift _)) in Hl; [subst w2 | reflexivity].
  apply bind_ok in E as (font & w2 & Hfont & E).
  apply load_font_ok in Hfont as [Hext2 _].
  apply bind_ok in E as (tb & w3 & Hl & E).
  apply (unchanged_ok (lift _)) in Hl; [subst w3 | reflexivity].
  apply bind_ok in E as ([] & w3 & Hrect & E).
  apply bind_ok in E as ([] & w4 & Hlines & E).
  injection E as <- <-.
  assert (Hr1 : heap w1 !! r = Some im) by (rewrite Hheap1; apply lookup_insert_eq).
  apply Hext2 in Hr1.
  destruct (paints_draw_rectangle r _ _ w2 w3 im Hrect Hr1) as (im3 & Hr3 & Hs3).
  destruct (paints_draw_lines r _ _ _ _ _ _ _ w3 w4 im3 Hlines Hr3) as (im4 & Hr4 & Hs4).
  exists im, im4. split; [assumption|]. split; [assumption|]. split; [assumption|].
  split; [now apply (same_shape_trans _ im3) | assumption].
Qed.

Lemma add_logo_overlay_ok (self : Composer) (image out : positive) (position : string)
    (w w' : World) (im : Image) :
  add_logo_overlay self image position w = (Ok out, w') -> heap w !! image = Some im ->
  exists im', heap w' !! out = Some im' /\ same_shape im' im /\ disk w' = disk w.
Proof.
  intros E Him.
  assert (Hdisk : disk w' = disk w).
  { destruct (heap_only_add_logo_overlay w self image position w (extends_refl w))
      as [_ Hd]. now rewrite E in Hd. }
  unfold add_logo_overlay in E. destruct (logo self) as [logo_|].
  - apply bind_ok in E as (r & w1 & Hcopy & E).
    apply image_copy_ok in Hcopy as (im0 & Him0 & Hfresh & Hheap1 & _).
    rewrite Him in Him0. injection Him0 as <-.
    apply bind_ok in E as (im1 & w2 & Hd & E).
    apply deref_ok in Hd as [Hw2 _]. subst w2.
    apply bind_ok in E as (lg & w2 & Hd & E).
    apply deref_ok in Hd as [Hw2 _]. subst w2.
    apply bind_ok in E as ([] & w2 & Hpaste & E).
    injection E as <- <-.
    assert (Hr1 : heap w1 !! r = Some im) by (rewrite Hheap1; apply lookup_insert_eq).
    destruct (paints_image_paste r logo_ _ w1 w2 im Hpaste Hr1) as (im2 & Hr2 & Hs2).
    exists im2. split; [assumption|]. split; assumption.
  - injection E as <- <-. exists im. split; [assumption|]. split; [apply same_shape_refl | assumption].
Qed.

Lemma resize_for_ratio_ok (image out : positive) (ratio : string) (w w' : World) :
  resize_for_ratio image ratio w = (Ok out, w') ->
  exists im', heap w' !! out = Some im'
    /\ (width im', height im') = get_output_size ratio
    /\ disk w' = disk w.
Proof.
  intros E.
  assert (Hdisk : disk w' = disk w).
  { destruct (heap_only_resize_for_ratio w image ratio w (extends_refl w)) as [_ Hd].
    now rewrite E in Hd. }
  unfold resize_for_ratio in E. destruct (get_output_size ratio) as [tw th].
  apply bind_ok in E as (im & w1 & Hd & E).
  apply bind_ok in E as ([nw nh] & w2 & Hs & E).
  apply bind_ok in E as (resized & w3 & Hr & E).
  unfold image_crop in E. apply bind_ok in E as (im3 & w4 & Hd3 & E).
  destruct (_ <? _); [discriminate|]. destruct (_ <? _); [discriminate|].
  apply alloc_ok in E as (_ & Hheap & _).
  eexists. rewrite Hheap, lookup_insert_eq. split; [reflexivity|].
  split; [|assumption]. cbn [width height]. f_equal; lia.
Qed.

Lemma image_save_ok (image : positive) (p : string) (w w' : World) :
  image_save image p w = (Ok tt, w') ->
  exists im, heap w !! image = Some im
    /\ disk w' = <[p := {| file_image := Some im; file_header := None; file_is_dir := false;
                          st_mtime := clock w |}]> (disk w).
Proof.
  intros E. unfold image_save in E. apply bind_ok in E as (im & w1 & Hd & E).
  apply deref_ok in Hd as [-> Him]. exists im. split; [exact Him|].
  destruct (read_only w p); [discriminate|].
  destruct (disk w !! p) as [f|].
  - destruct (file_is_dir f); [discriminate|]. now injection E as <-.
  - destruct (is_anchor p); [discriminate|].
    destruct (create_error w p); [discriminate|]. now injection E as <-.
Qed.

Lemma variations_loop_disk (self : Composer) (hero_image : positive)
    (campaign_message product_folder : string) (ratios generated_paths paths : list string)
    (w w' : World) :
  variations_loop self hero_image campaign_message product_folder ratios generated_paths w
  = (Ok paths, w') ->
  let path_of := fun ratio => path_div product_folder (ratio ++ ".png") in
  (forall p, ~ In p (List.map path_of ratios) -> disk w' !! p = disk w !! p)
  /\ (List.NoDup (List.map path_of ratios) ->
      forall ratio, In ratio ratios -> holds_variation (disk w') (path_of ratio) ratio).
Proof.
  intros E path_of. revert generated_paths w E.
  induction ratios as [|ratio rest IH]; intros generated_paths w E; cbn [variations_loop] in E.
  - injection E as _ <-. split; [reflexivity | intros _ ratio []].
  - apply bind_ok in E as (copied & w1 & Hcopy & E).
    apply bind_ok in E as (resized & w2 & Hres & E).
    apply bind_ok in E as (with_text & w3 & Htext & E).
    apply bind_ok in E as (final & w4 & Hlogo & E).
    cbv zeta in E. apply bind_ok in E as ([] & w5 & Hsave & E).
    apply image_copy_ok in Hcopy as (_ & _ & _ & _ & Hd1).
    apply resize_for_ratio_ok in Hres as (im2 & Hr2 & Hsize & Hd2).
    apply add_text_overlay_ok in Htext as (im2' & im3 & Hr2' & _ & Hr3 & Hs3 & Hd3).
    rewrite Hr2 in Hr2'. injection Hr2' as <-.
    assert (Hfinal : exists im4, heap w4 !! final = Some im4 /\ same_shape im4 im3
                                 /\ disk w4 = disk w3).
    { destruct (logo self).
      - exact (add_logo_overlay_ok _ _ _ _ _ _ _ Hlogo Hr3).
      - injection Hlogo as <- <-. exists im3. split; [assumption|].
        split; [apply same_shape_refl | reflexivity]. }
    destruct Hfinal as (im4 & Hr4 & Hs4 & Hd4).
    apply image_save_ok in Hsave as (im4' & Hr4' & Hd5).
    rewrite Hr4 in Hr4'. injection Hr4' as <-.
    assert (Hd : disk w5 = <[path_of ratio := {| file_image := Some im4; file_header := None; file_is_dir := false;
                                                  st_mtime := clock w4 |}]> (disk w)).
    { rewrite Hd5. unfold path_of. congruence. }
    destruct (IH _ _ E) as [Hframe Hfiles].
    cbn [List.map]. split.
    + intros p Hp. rewrite Hframe by (intros Hin; apply Hp; now right).
      rewrite Hd. apply lookup_insert_ne. intros Heq. apply Hp. now left.
    + intros Hnd ratio' Hin. apply List.NoDup_cons_iff in Hnd as [Hnotin Hnd].
      destruct Hin as [<-|Hin].
      * unfold holds_variation. rewrite Hframe by assumption.
        rewrite Hd, lookup_insert_eq. eexists _, im4.
        split; [reflexivity|]. split; [reflexivity|]. split; [reflexivity|].
        destruct Hs4 as (Hw4 & Hh4 & _), Hs3 as (Hw3 & Hh3 & _).
        rewrite <- Hsize. f_equal; congruence.
      * now apply Hfiles.
Qed.

End Shapes.

(** ** The batch of products *)

Section BatchProperties.
Context `{Pillow}.

Lemma dict_set_keys_new {V : Type} (d : list (string * V)) (key : string) (v : V) :
  ~ In key (dict_keys d) -> dict_keys (dict_set d key v) = (dict_keys d ++ [key])%list.
Proof.
  induction d as [|[k v'] d IH]; intros Hn; cbn [dict_set]; [reflexivity|].
  destruct (String.eqb_spec k key) as [->|Hne].
  - exfalso. apply Hn. now left.
  - unfold dict_keys in *. cbn [List.map fst app]. f_equal. apply IH.
    intros Hin. apply Hn. now right.
Qed.

Lemma dict_set_In {V : Type} (d : list (string * V)) (key : string) (v : V) (k : string)
    (x : V) :
  In (k, x) (dict_set d key v) -> In (k, x) d \/ (k = key /\ x = v).
Proof.
  induction d as [|[k0 v0] d IH]; cbn [dict_set].
  - intros [E|[]]. injection E as <- <-. now right.
  - destruct (String.eqb_spec k0 key) as [->|Hne].
    + intros [E|Hin]; [injection E as <- <-; now right | left; now right].
    + intros [E|Hin]; [left; now left|].
      destruct (IH Hin) as [Hd|Hk]; [left; now right | now right].
Qed.

Lemma batch_loop_spec (self : Composer) (items : list (string * string))
    (campaign_message output_folder : string) (ratios : option (list string))
    (results : list (string * list string)) (w : World) :
  exists out w',
    batch_loop self items campaign_message output_folder ratios results w = (Ok out, w')
    /\ (List.NoDup (dict_keys results ++ dict_keys items) ->
        dict_keys out = (dict_keys results ++ dict_keys items)%list)
    /\ (forall product_id paths, In (product_id, paths) out ->
          In (product_id, paths) results
          \/ (In product_id (dict_keys items)
              /\ (paths = [] \/ paths = variation_paths output_folder product_id ratios))).
Proof.
  revert results w. induction items as [|[product_id hero_path] rest IH]; intros results w;
    cbn [batch_loop].
  - exists results, w. split; [reflexivity|]. split.
    + intros _. unfold dict_keys. cbn [List.map]. now rewrite List.app_nil_r.
    + intros pid paths Hin. now left.
  - unfold bind at 1, try_except.
    destruct (create_variations self hero_path campaign_message product_id output_folder
                ratios w) as [[paths|e] w1] eqn:Hrun.
    + destruct (IH (dict_set results product_id paths) w1) as (out & w' & Hloop & Hkeys & Hin).
      exists out, w'. split; [exact Hloop|]. split.
      * intros Hnd.
        change (dict_keys ((product_id, hero_path) :: rest))
          with (product_id :: dict_keys rest) in *.
        assert (Hnew : ~ In product_id (dict_keys results)).
        { intros Hr. apply List.NoDup_remove_2 in Hnd. apply Hnd.
          apply List.in_or_app. now left. }
        rewrite Hkeys; rewrite (dict_set_keys_new results product_id paths Hnew);
          rewrite <- List.app_assoc; [reflexivity | exact Hnd].
      * intros pid ps Hp. destruct (Hin pid ps Hp) as [Hr|[Hk Hv]].
        -- apply dict_set_In in Hr as [Hr|[-> ->]]; [now left|].
           right. split; [now left|]. right.
           unfold create_variations in Hrun. apply try_reraise_ok in Hrun.
           do 4 io_inv Hrun. apply variations_loop_paths in Hrun. exact Hrun.
        -- right. split; [now right | assumption].
    + cbn [ret].
      destruct (IH (dict_set results product_id []) w1) as (out & w' & Hloop & Hkeys & Hin).
      exists out, w'. split; [exact Hloop|]. split.
      * intros Hnd.
        change (dict_keys ((product_id, hero_path) :: rest))
          with (product_id :: dict_keys rest) in *.
        assert (Hnew : ~ In product_id (dict_keys results)).
        { intros Hr. apply List.NoDup_remove_2 in Hnd. apply Hnd.
          apply List.in_or_app. now left. }
        rewrite Hkeys; rewrite (dict_set_keys_new results product_id [] Hnew);
          rewrite <- List.app_assoc; [reflexivity | exact Hnd].
      * intros pid ps Hp. destruct (Hin pid ps Hp) as [Hr|[Hk Hv]].
        -- apply dict_set_In in Hr as [Hr|[-> ->]]; [now left|].
           right. split; [now left | now left].
        -- right. split; [now right | assumption].
Qed.

Lemma dict_lookup_set_same {V : Type} (d : list (string * V)) (key : string) (v : V) :
  dict_lookup (dict_set d key v) key = Some v.
Proof.
  induction d as [|[k v'] d IH]; cbn [dict_set dict_lookup].
  - now rewrite String.eqb_refl.
  - destruct (String.eqb k key) eqn:E; cbn [dict_lookup]; now rewrite E.
Qed.

Lemma dict_lookup_set_other {V : Type} (d : list (string * V)) (key k : string) (v : V) :
  k <> key -> dict_lookup (dict_set d key v) k = dict_lookup d k.
Proof.
  intros Hne. induction d as [|[k0 v0] d IH]; cbn [dict_set dict_lookup].
  - destruct (String.eqb_spec key k) as [->|_]; [contradiction | reflexivity].
  - destruct (String.eqb_spec k0 key) as [->|Hk0]; cbn [dict_lookup].
    + destruct (String.eqb_spec key k) as [->|_]; [contradiction | reflexivity].
    + destruct (String.eqb k0 k); [reflexivity | exact IH].
Qed.

(** The loop on a dict in two parts: the second part goes on from the
    results and the world of the first. *)
Lemma batch_loop_app (self : Composer) (pre post : list (string * string))
    (campaign_message output_folder : string) (ratios : option (list string))
    (results : list (string * list string)) (w : World) :
  batch_loop self (pre ++ post) campaign_message output_folder ratios results w
  = match batch_loop self pre campaign_message output_folder ratios results w with
    | (Ok results1, w1) =>
        batch_loop self post campaign_message output_folder ratios results1 w1
    | (Raise e, w1) => (Raise e, w1)
    end.
Proof.
  revert results w. induction pre as [|[product_id hero_path] pre IH]; intros results w;
    cbn [app batch_loop]; [reflexivity|].
  unfold bind.
  destruct (try_except _ _ w) as [[paths|e] w1]; [apply IH | reflexivity].
Qed.

(** The entries of the products that are not in the dict stay. *)
Lemma batch_loop_other (self : Composer) (items : list (string * string))
    (campaign_message output_folder : string) (ratios : option (list string))
    (results out : list (string * list string)) (w w' : World) (key : string) :
  ~ In key (dict_keys items) ->
  batch_loop self items campaign_message output_folder ratios results w = (Ok out, w') ->
  dict_lookup out key = dict_lookup results key.
Proof.
  revert results w. induction items as [|[product_id hero_path] rest IH];
    intros results w Hkey; cbn [batch_loop].
  - intros E. now injection E as <- _.
  - intros E. apply bind_ok in E as (paths & w1 & _ & E).
    rewrite (IH _ _ (fun Hin => Hkey (or_intror Hin)) E).
    apply dict_lookup_set_other. intros ->. apply Hkey. now left.
Qed.

(** X8: [batch_create_variations] never raises, and a product that fails
    does not stop the others.  For a dict of hero images it returns a dict
    with the same product ids in the same order.  The entry of a product
    is what its own call of [create_variations] gives in the world that
    the products before it have left: the list of the paths when the call
    returns (one per ratio), the empty list when it raises.  The image
    objects that were live before stay as they were. *)
Theorem batch_create_variations_total (self : Composer) (hero_images : list (string * string))
    (campaign_message output_folder : string) (ratios : option (list string)) (w : World) :
  List.NoDup (dict_keys hero_images) ->
  exists results w',
    batch_create_variations self hero_images campaign_message output_folder ratios w
    = (Ok results, w')
    /\ dict_keys results = dict_keys hero_images
    /\ (forall pre product_id hero_path post,
          hero_images = (pre ++ (product_id, hero_path) :: post)%list ->
          exists results0 w0,
            batch_create_variations self pre campaign_message output_folder ratios w
            = (Ok results0, w0)
            /\ dict_lookup results product_id
               = Some (match fst (create_variations self hero_path campaign_message
                                    product_id output_folder ratios w0) with
                       | Ok paths => paths
                       | Raise _ => []
                       end))
    /\ (forall product_id paths, In (product_id, paths) results ->
          paths = [] \/ paths = variation_paths output_folder product_id ratios)
    /\ (forall r im, heap w !! r = Some im -> heap w' !! r = Some im).
Proof.
  intros Hnd. unfold batch_create_variations.
  destruct (batch_loop_spec self hero_images campaign_message output_folder ratios [] w)
    as (out & w' & Hloop & Hkeys & Hin).
  exists out, w'. split; [exact Hloop|]. split; [now apply Hkeys|]. split; [|split].
  - intros pre product_id hero_path post Heq. subst hero_images.
    destruct (batch_loop_spec self pre campaign_message output_folder ratios [] w)
      as (results0 & w0 & Hpre & _ & _).
    exists results0, w0. split; [exact Hpre|].
    rewrite batch_loop_app, Hpre in Hloop. cbn [batch_loop] in Hloop.
    apply bind_ok in Hloop as (paths & w1 & Hcall & Hloop).
    assert (Hlater : ~ In product_id (dict_keys post)).
    { unfold dict_keys in Hnd. rewrite List.map_app in Hnd. cbn [List.map fst] in Hnd.
      apply List.NoDup_remove_2 in Hnd. intros Hl. apply Hnd.
      apply List.in_or_app. now right. }
    rewrite (batch_loop_other _ _ _ _ _ _ _ _ _ _ Hlater Hloop), dict_lookup_set_same.
    f_equal. unfold try_except in Hcall.
    destruct (create_variations self hero_path campaign_message product_id output_folder
                ratios w0) as [[ps|e] w2]; cbn [fst]; now injection Hcall as <- _.
  - intros pid paths Hp. destruct (Hin pid paths Hp) as [[]|[_ Hv]]. exact Hv.
  - assert (Hkeep : forall items results w0,
              heap_keeps w0 (batch_loop self items campaign_message output_folder ratios
                               results)).
    { induction items as [|[product_id hero_path] rest IH]; intros results w0;
        cbn [batch_loop].
      - apply heap_only_keeps, heap_only_ret.
      - apply heap_keeps_bind; [|intros; apply IH].
        apply heap_keeps_try; [apply heap_keeps_create_variations|].
        intros e. apply heap_only_keeps, heap_only_ret. }
    pose proof (Hkeep hero_images [] w w (extends_refl w)) as Hext.
    rewrite Hloop in Hext. exact Hext.
Qed.

End BatchProperties.

Lemma batch_create_variations_total_witness :
  exists results w',
    batch_create_variations (H := Fixture.pillow) Fixture.composer0
      [("prod1", "assets/hero.png"); ("prod2", "assets/none.png")]
      Fixture.short_message "outputs/camp" (Some ["1x1"]) Fixture.world0
    = (Ok results, w')
    /\ dict_keys results = ["prod1"; "prod2"].
Proof.
  destruct (batch_create_variations_total (H := Fixture.pillow) Fixture.composer0
              [("prod1", "assets/hero.png"); ("prod2", "assets/none.png")]
              Fixture.short_message "outputs/camp" (Some ["1x1"]) Fixture.world0)
    as (results & w' & Hrun & Hkeys & _).
  - apply nodup_keys_decide. reflexivity.
  - exists results, w'. split; [exact Hrun | exact Hkeys].
Defined.

(** ** The files of the variations *)

Section Files.
Context `{Pillow}.



(** The system calls of [mkdir] do not look at the objects. *)
Lemma os_mkdir_unloaded (p : string) (u : gmap positive Header) (w : World) :
  os_mkdir p (set_unloaded u w)
  = (fst (os_mkdir p w), set_unloaded u (snd (os_mkdir p w))).
Proof.
  unfold os_mkdir.
  change (present (set_unloaded u w) p) with (present w p).
  change (create_error (set_unloaded u w) p) with (create_error w p).
  destruct (present w p); [reflexivity|]. destruct (create_error w p); reflexivity.
Qed.

Lemma mkdir_exist_ok_unloaded (p : string) (u : gmap positive Header) (w : World) :
  mkdir_exist_ok p (set_unloaded u w)
  = (fst (mkdir_exist_ok p w), set_unloaded u (snd (mkdir_exist_ok p w))).
Proof.
  unfold mkdir_exist_ok. rewrite os_mkdir_unloaded.
  destruct (os_mkdir p w) as [[[]|e] w']; cbn [fst snd]; [reflexivity|].
  destruct (String.eqb e "FileNotFoundError"); [reflexivity|].
  change (is_dir (set_unloaded u w') p) with (is_dir w' p).
  destruct (is_dir w' p); reflexivity.
Qed.

Lemma mkdir_parents_unloaded (levels : nat) (p : string) (u : gmap positive Header)
    (w : World) :
  mkdir_parents levels p (set_unloaded u w)
  = (fst (mkdir_parents levels p w), set_unloaded u (snd (mkdir_parents levels p w))).
Proof.
  revert p w. induction levels as [|levels IH]; intros p w; cbn [mkdir_parents];
    rewrite os_mkdir_unloaded;
    destruct (os_mkdir p w) as [[[]|e] w']; cbn [fst snd]; try reflexivity.
  - destruct (String.eqb e "FileNotFoundError"); [reflexivity|].
    change (is_dir (set_unloaded u w') p) with (is_dir w' p).
    destruct (is_dir w' p); reflexivity.
  - destruct (String.eqb e "FileNotFoundError").
    + destruct (String.eqb (path_parent p) p); [reflexivity|].
      unfold bind. rewrite IH.
      destruct (mkdir_parents levels (path_parent p) w') as [[[]|e1] w1]; cbn [fst snd];
        [apply mkdir_exist_ok_unloaded | reflexivity].
    + change (is_dir (set_unloaded u w') p) with (is_dir w' p).
      destruct (is_dir w' p); reflexivity.
Qed.

(** X10: a hero image that cannot be read makes [create_variations] raise.
    A file that is missing, or that [Image.open] does not identify, raises
    there, before anything is made: no folder, no file, no object.  A file
    that is identified by its header but whose pixels do not load is
    opened, and raises where the pixels are first read: at the conversion
    to RGB when its mode is not RGB, with no folder made; at the first
    [copy()] when its mode is RGB, after the folder of the product has been
    made.  With an empty list of ratios nothing is copied, and the call
    returns the empty list.  No image object is made in any of the cases. *)
Theorem create_variations_unopenable (self : Composer)
    (hero_image_path campaign_message product_id output_folder : string)
    (ratios : option (list string)) (w : World) :
  let run :=
    create_variations self hero_image_path campaign_message product_id output_folder
      ratios w in
  let made := mkdir (path_div output_folder product_id) w in
  (disk w !! hero_image_path = None -> run = (Raise (missing w hero_image_path), w))
  /\ (forall f, disk w !! hero_image_path = Some f ->
        file_image f = None -> file_header f = None ->
        run = (Raise (if file_is_dir f then "IsADirectoryError"
                      else "UnidentifiedImageError"), w))
  /\ (forall f header, disk w !! hero_image_path = Some f ->
        file_image f = None -> file_header f = Some header ->
        header_mode header <> "RGB" ->
        exists w', run = (Raise "OSError: image file is truncated", w')
                   /\ heap w' = heap w /\ disk w' = disk w)
  /\ (forall f header, disk w !! hero_image_path = Some f ->
        file_image f = None -> file_header f = Some header ->
        header_mode header = "RGB" ->
        exists w', heap w' = heap w /\ disk w' = disk (snd made)
          /\ run = (match fst made with
                    | Raise e => Raise e
                    | Ok _ =>
                        match ratios with
                        | Some [] => Ok []
                        | _ => Raise "OSError: image file is truncated"
                        end
                    end, w')).
Proof.
  cbv zeta.
  split; [|split; [|split]]; unfold create_variations, try_except, bind at 1, image_open.
  - intros ->. reflexivity.
  - intros f -> -> ->. reflexivity.
  - intros f header -> -> -> Hmode. unfold alloc_unloaded.
    destruct (fresh_not_live w) as [Hfresh _].
    set (r := fresh (dom (heap w) ∪ dom (unloaded w))) in *.
    set (w1 := set_unloaded (<[r := header]> (unloaded w)) w).
    assert (Hattrs : image_attrs r w1 = (Ok header, w1)).
    { unfold image_attrs. change (heap w1) with (heap w). rewrite Hfresh.
      change (unloaded w1) with (<[r := header]> (unloaded w)).
      now rewrite lookup_insert_eq. }
    unfold bind at 1. rewrite Hattrs. unfold bind at 1.
    destruct (String.eqb_spec (header_mode header) "RGB") as [E|_]; [contradiction|].
    cbn [negb]. unfold image_convert, bind at 1, deref.
    change (heap w1) with (heap w). rewrite Hfresh.
    change (unloaded w1) with (<[r := header]> (unloaded w)).
    rewrite lookup_insert_eq. exists w1. now split.
  - intros f header -> -> -> Hmode. unfold alloc_unloaded.
    destruct (fresh_not_live w) as [Hfresh _].
    set (r := fresh (dom (heap w) ∪ dom (unloaded w))) in *.
    set (w1 := set_unloaded (<[r := header]> (unloaded w)) w).
    assert (Hattrs : image_attrs r w1 = (Ok header, w1)).
    { unfold image_attrs. change (heap w1) with (heap w). rewrite Hfresh.
      change (unloaded w1) with (<[r := header]> (unloaded w)).
      now rewrite lookup_insert_eq. }
    unfold bind at 1. rewrite Hattrs. unfold bind at 1.
    rewrite Hmode. cbn [String.eqb Ascii.eqb Bool.eqb negb]. unfold ret at 1.
    unfold bind at 1, mkdir. subst w1. rewrite mkdir_parents_unloaded.
    pose proof (mkdir_heap (path_div output_folder product_id) w) as Hheap.
    unfold mkdir in Hheap.
    destruct (mkdir_parents _ (path_div output_folder product_id) w) as [[[]|e] w2];
      cbn [fst snd] in *.
    2:{ eexists. split; [|split; [|reflexivity]]; [exact Hheap | reflexivity]. }
    set (w3 := set_unloaded (<[r := header]> (unloaded w)) w2).
    assert (Hcopy : forall (l : list string) (ratio : string) acc,
              variations_loop self r campaign_message (path_div output_folder product_id)
                (ratio :: l) acc w3 = (Raise "OSError: image file is truncated", w3)).
    { intros l ratio acc. cbn [variations_loop]. unfold bind at 1, image_copy, bind at 1, deref.
      change (heap w3) with (heap w2). rewrite Hheap, Hfresh.
      change (unloaded w3) with (<[r := header]> (unloaded w)).
      now rewrite lookup_insert_eq. }
    exists w3. split; [exact Hheap|]. split; [reflexivity|].
    destruct ratios as [[|ratio l]|].
    + reflexivity.
    + now rewrite Hcopy.
    + change AspectRatios.all_formats with ["1x1"; "9x16"; "16x9"; "4x5"; "2x3"].
      now rewrite Hcopy.
Qed.

(** X11: [add_text_overlay] draws on a copy.  Whatever its outcome, the image
    it was given stays as it was; when it returns, the result is another
    object, of the same size and mode, and the disk is as before. *)
Theorem text_overlay_on_copy (self : Composer) (image : positive) (text position : string)
    (w : World) (im : Image) :
  heap w !! image = Some im ->
  heap (snd (add_text_overlay self image text position w)) !! image = Some im
  /\ forall out w', add_text_overlay self image text position w = (Ok out, w') ->
       out <> image
       /\ (exists im', heap w' !! out = Some im'
             /\ width im' = width im /\ height im' = height im /\ mode im' = mode im)
       /\ disk w' = disk w.
Proof.
  intros Him. split.
  - destruct (heap_only_add_text_overlay w self image text position w (extends_refl w))
      as [Hext _]. now apply Hext.
  - intros out w' E.
    apply add_text_overlay_ok in E as (im0 & im' & Him0 & Hfresh & Hout & Hs & Hd).
    rewrite Him in Him0. injection Him0 as <-.
    split; [intros ->; congruence|]. split; [|assumption].
    exists im'. destruct Hs as (Hw & Hh & Hm). auto.
Qed.

End Files.


Lemma create_variations_unopenable_witness :
  exists w',
    create_variations Fixture.composer0 "assets/cut.png" Fixture.short_message "prod1"
      "outputs/camp" (Some ["1x1"]) Fixture.world6
    = (Raise "OSError: image file is truncated", w')
    /\ heap w' = heap Fixture.world6
    /\ is_Some (disk w' !! "outputs/camp/prod1").
Proof.
  destruct (proj2 (proj2 (proj2
              (create_variations_unopenable (H := Fixture.pillow) Fixture.composer0
                 "assets/cut.png" Fixture.short_message "prod1" "outputs/camp"
                 (Some ["1x1"]) Fixture.world6)))
              {| file_image := None;
                 file_header := Some {| header_width := 1920; header_height := 1080;
                                        header_mode := "RGB" |};
                 file_is_dir := false; st_mtime := 1700000001 |}
              {| header_width := 1920; header_height := 1080; header_mode := "RGB" |}
              eq_refl eq_refl eq_refl eq_refl) as (w' & Hheap & Hdisk & Hrun).
  exists w'. split; [exact Hrun|]. split; [exact Hheap|].
  rewrite Hdisk. eexists. reflexivity.
Defined.

Lemma text_overlay_on_copy_witness :
  heap (snd (add_text_overlay Fixture.composer0 1%positive Fixture.short_message "bottom"
               Fixture.world1)) !! 1%positive = Some Fixture.square.
Proof.
  apply (text_overlay_on_copy (H := Fixture.pillow)). reflexivity.
Defined.

Import Binary64Facts.

(** ** Products and thresholds on binary64 *)

Section Products.
Local Open Scope R_scope.

(** The product of two positive normal floats is the float nearest to the
    product of their values. *)
Lemma mul_nearest (x y : float) (mx my : positive) (ex ey : Z) :
  normal x mx ex -> normal y my ey -> (-1100 <= ex + ey <= 900)%Z ->
  exists (m : positive) (e : Z),
    normal (x * y)%float m e /\ nearest m e (value mx ex * value my ey).
Proof.
  intros [Hx Hdx] [Hy Hdy] Hrange.
  pose proof (digits_of_product mx my Hdx Hdy) as Hd.
  destruct (round_nearest (mx * my) (ex + ey)) as (m & e & Hr & Hdm & _ & Hn); try lia.
  exists m, e. split.
  - split; [|assumption]. now rewrite FloatAxioms.mul_spec, Hx, Hy.
  - replace (value mx ex * value my ey) with (IZR (Zpos (mx * my)) * bpow (ex + ey));
      [assumption|].
    unfold value. rewrite Pos2Z.inj_mul, mult_IZR, bpow_add. ring.
Qed.

(** A nearest float is not on the other side of a float. *)
Lemma nearest_above (m g : positive) (e eg : Z) (T : R) :
  nearest m e T -> (Zpos (digits2_pos g) = 53)%Z -> value g eg <= T ->
  value g eg <= value m e.
Proof.
  intros Hn Hg Hle. specialize (Hn g eg Hg).
  destruct (Rle_lt_dec (value g eg) (value m e)) as [|Hlt]; [assumption|].
  revert Hn. unfold Rabs. repeat destruct Rcase_abs; lra.
Qed.

Lemma nearest_below (m g : positive) (e eg : Z) (T : R) :
  nearest m e T -> (Zpos (digits2_pos g) = 53)%Z -> T <= value g eg ->
  value m e <= value g eg.
Proof.
  intros Hn Hg Hle. specialize (Hn g eg Hg).
  destruct (Rle_lt_dec (value m e) (value g eg)) as [|Hlt]; [assumption|].
  revert Hn. unfold Rabs. repeat destruct Rcase_abs; lra.
Qed.

(** [n * c] for an int [n] from 0 and a positive float constant [c]
    converts back to an int. *)
Lemma scaled_int_ok (n : Z) (c : float) (mc : positive) (ec : Z) :
  (0 <= n < 2 ^ 53)%Z -> normal c mc ec -> (-1000 <= ec <= 800)%Z ->
  exists k : Z, int_of_float (float_of_int n * c)%float = Ok k /\ (0 <= k)%Z.
Proof.
  intros Hn Hc Hec. destruct (Z.eq_dec n 0%Z) as [->|Hn0].
  - exists 0%Z. split; [|lia]. unfold int_of_float.
    rewrite FloatAxioms.mul_spec. destruct Hc as [-> _]. reflexivity.
  - destruct (float_of_int_normal n) as (mn & en & Hnn & _ & Hen & _); [lia|].
    destruct (mul_normal _ _ _ _ _ _ Hnn Hc) as (mp & ep & Hnp & _ & _); [lia|].
    destruct (int_of_float_normal _ _ _ Hnp) as (k & Hk & Hklo & Hkhi).
    exists k. split; [assumption|].
    pose proof (value_pos mp ep). assert (-1 < k)%Z; [|lia]. apply lt_IZR. lra.
Qed.

End Products.

Section Thresholds.
Local Open Scope R_scope.

Lemma bpow_opp (k : Z) : (0 <= k)%Z -> bpow (- k) = / IZR (2 ^ k).
Proof.
  intros Hk. pose proof (bpow_add (- k) k) as Hadd.
  replace (- k + k)%Z with 0%Z in Hadd by lia.
  rewrite (bpow_IZR k Hk) in Hadd.
  assert (H0 : bpow 0 = 1) by reflexivity. rewrite H0 in Hadd.
  assert (Hpos : 0 < IZR (2 ^ k)) by (apply IZR_lt, Z.pow_pos_nonneg; lia).
  apply Rmult_eq_reg_r with (IZR (2 ^ k)); [|lra].
  rewrite Rinv_l by lra. lra.
Qed.

(** [logo.width >= image.width * 0.3] holds exactly when the logo is at
    least three tenths of the image wide. *)
Lemma logo_width_test (iw lw : Z) :
  (1 <= iw < 2 ^ 31)%Z -> (1 <= lw < 2 ^ 31)%Z ->
  PrimFloat.leb (float_of_int iw * 0.3)%float (float_of_int lw) = (3 * iw <=? 10 * lw)%Z.
Proof.
  intros Hiw Hlw.
  assert (H31 : (2 ^ 31 < 2 ^ 53)%Z) by reflexivity.
  destruct (float_of_int_normal iw) as (mi & ei & Hni & Hvi & Hei & _); [lia|].
  destruct (float_of_int_normal lw) as (ml & el & Hnl & Hvl & Hel & _); [lia|].
  assert (Hnc : normal 0.3 5404319552844595 (-54)) by (split; reflexivity).
  destruct (mul_nearest _ _ _ _ _ _ Hni Hnc) as (mp & ep & Hnp & Hnear); [lia|].
  destruct (mul_normal _ _ _ _ _ _ Hni Hnc) as (mp' & ep' & Hnp' & _ & Hlo & _); [lia|].
  assert (Hsame : mp' = mp /\ ep' = ep).
  { destruct Hnp as [E1 _], Hnp' as [E2 _]. rewrite E1 in E2. now injection E2. }
  destruct Hsame as [-> ->].
  pose proof (leb_normal _ _ _ _ _ _ Hnp Hnl) as Hcmp.
  assert (Hc : value 5404319552844595 (-54) = 3 / 10 - / 5 * / 18014398509481984).
  { unfold value. pose proof (bpow_opp 54 ltac:(lia)) as Hb.
    change (- (54))%Z with (-54)%Z in Hb. rewrite Hb.
    change (IZR (2 ^ 54)) with 18014398509481984. lra. }
  rewrite Hvi, Hc in *. rewrite Hvl in Hcmp.
  assert (HW1 : 1 <= IZR iw) by (apply IZR_le; lia).
  assert (HW2 : IZR iw <= 2147483648).
  { change 2147483648 with (IZR (2 ^ 31)). apply IZR_le. lia. }
  pose proof eps_small as [He0 He1].
  destruct (Z.leb_spec (3 * iw) (10 * lw)) as [Hle|Hgt].
  - (* the product is below the width of the logo, which is a float *)
    destruct Hnl as [Hl Hdl].
    assert (Hb : value mp ep <= value ml el).
    { apply (nearest_below mp ml ep el _ Hnear Hdl). rewrite Hvl.
      apply IZR_le in Hle. rewrite !mult_IZR in Hle. nra. }
    destruct (PrimFloat.leb _ _); [reflexivity|]. rewrite Hvl in Hb. lra.
  - destruct (PrimFloat.leb _ _); [|reflexivity]. exfalso.
    assert (Hge : (10 * lw + 1 <= 3 * iw)%Z) by lia.
    apply IZR_le in Hge. rewrite plus_IZR, !mult_IZR in Hge.
    assert (IZR iw * eps <= 2147483648 * / 4000000000000000)
      by (apply Rmult_le_compat; lra).
    nra.
Qed.

End Thresholds.

(** More than half: [m / n > 0.5] on floats, for the at most ten sampled
    colours. *)
Lemma majority_test (n m : Z) :
  1 <= n <= 10 -> 0 <= m <= n ->
  truediv m n = Ok (float_of_int m / float_of_int n)%float
  /\ PrimFloat.ltb 0.5 (float_of_int m / float_of_int n)%float = (n <? 2 * m).
Proof.
  intros Hn Hm.
  assert (Hall : forallb (fun n => forallb (fun m =>
             Bool.eqb (PrimFloat.ltb 0.5 (float_of_int m / float_of_int n)%float)
                      (n <? 2 * m))
           (List.map (fun i => 0 + Z.of_nat i) (seq 0 11)))
         (List.map (fun i => 1 + Z.of_nat i) (seq 0 10)) = true)
    by (vm_compute; reflexivity).
  split.
  - unfold truediv. replace (n =? 0) with false by (symmetry; apply Z.eqb_neq; lia).
    reflexivity.
  - apply Bool.eqb_prop.
    apply (range_check (fun m => Bool.eqb (PrimFloat.ltb 0.5
                                  (float_of_int m / float_of_int n)%float) (n <? 2 * m))
             0 11); [|lia].
    apply (range_check (fun n => forallb (fun m =>
             Bool.eqb (PrimFloat.ltb 0.5 (float_of_int m / float_of_int n)%float)
                      (n <? 2 * m))
           (List.map (fun i => 0 + Z.of_nat i) (seq 0 11))) 1 10); [exact Hall | lia].
Qed.

(** ** The verdict on the logo *)

Section Allocation.
Context `{Pillow}.

Lemma alloc_run (im : Image) (w : World) :
  exists r w', alloc im w = (Ok r, w') /\ heap w' !! r = Some im
    /\ extends w w' /\ disk w' = disk w.
Proof.
  destruct (alloc im w) as [[r|e] w'] eqn:E; [|discriminate].
  exists r, w'. split; [reflexivity|].
  pose proof (heap_only_alloc w im w (extends_refl w)) as [Hext Hd]. rewrite E in Hext, Hd.
  apply alloc_ok in E as (_ & Hheap & _).
  split; [rewrite Hheap; apply lookup_insert_eq | now split].
Qed.

Lemma image_open_run (p : string) (w : World) (f : File) (im : Image) :
  disk w !! p = Some f -> file_image f = Some im ->
  exists r w', image_open p w = (Ok r, w') /\ heap w' !! r = Some im
    /\ extends w w' /\ disk w' = disk w.
Proof. intros Hf Him. unfold image_open. rewrite Hf, Him. apply alloc_run. Qed.

Lemma image_convert_run (r : positive) (m : string) (w : World) (im : Image) :
  heap w !! r = Some im ->
  exists r' w', image_convert r m w = (Ok r', w')
    /\ heap w' !! r' = Some {| width := width im; height := height im; mode := m;
                               raster := convert_raster (raster im) (mode im) m |}
    /\ extends w w' /\ disk w' = disk w.
Proof.
  intros Hr. unfold image_convert, bind, deref. rewrite Hr. apply alloc_run.
Qed.

End Allocation.

Section LogoPresence.
Context `{NumPy}.

Lemma count_matches_bounds (image : Image) (colors : list (Z * Z * Z)) (acc m : Z) :
  count_matches image colors acc = Ok m -> acc <= m <= acc + Z.of_nat (List.length colors).
Proof.
  revert acc. induction colors as [|color rest IH]; intros acc; cbn [count_matches].
  - intros E. injection E as <-. cbn. lia.
  - unfold bindE. destruct (near_row image color 50) as [found|e]; [|discriminate].
    intros E. apply IH in E. cbn [List.length]. destruct found; lia.
Qed.

Lemma check_logo_presence_run (brand : BrandConfig) (image_path : string)
    (logo_path : option string) (w : World) (p : string) (f1 f2 : File) (im lg : Image) :
  match logo_path with Some q => Some q | None => cfg_logo_path brand end = Some p ->
  p <> "" -> is_Some (disk w !! Path p) ->
  disk w !! image_path = Some f1 -> file_image f1 = Some im ->
  disk w !! p = Some f2 -> file_image f2 = Some lg ->
  1 <= width im < 2 ^ 31 -> 1 <= width lg < 2 ^ 31 ->
  exists w', check_logo_presence brand image_path logo_path w = (Ok (logo_verdict im lg), w').
Proof.
  intros Hp Hne Hex Hf1 Him Hf2 Hlg Hwi Hwl.
  unfold check_logo_presence.
  replace (match logo_path with Some p0 => Some p0 | None => cfg_logo_path brand end)
    with (Some p)
    by (symmetry; destruct logo_path; exact Hp).
  destruct p as [|c s]; [contradiction|].
  unfold bind at 1. rewrite (path_exists_present _ _ Hex). cbn [negb].
  unfold try_except.
  destruct (image_open_run image_path w f1 im Hf1 Him) as (r1 & w1 & E1 & Hr1 & Hx1 & Hd1).
  unfold bind at 1. rewrite E1.
  destruct (image_convert_run r1 "RGB" w1 im Hr1) as (r2 & w2 & E2 & Hr2 & Hx2 & Hd2).
  unfold bind at 1. rewrite E2.
  assert (Hf2' : disk w2 !! String c s = Some f2) by (rewrite Hd2, Hd1; exact Hf2).
  destruct (image_open_run _ w2 f2 lg Hf2' Hlg) as (r3 & w3 & E3 & Hr3 & Hx3 & Hd3).
  unfold bind at 1. rewrite E3.
  destruct (image_convert_run r3 "RGB" w3 lg Hr3) as (r4 & w4 & E4 & Hr4 & Hx4 & Hd4).
  unfold bind at 1. rewrite E4.
  assert (Hr2' : heap w4 !! r2 = Some (as_rgb im)) by (apply Hx4, Hx3; exact Hr2).
  unfold bind at 1, deref at 1. rewrite Hr2'.
  unfold bind at 1, deref at 1. rewrite Hr4.
  change {| width := width lg; height := height lg; mode := "RGB";
            raster := convert_raster (raster lg) (mode lg) "RGB" |} with (as_rgb lg).
  cbn [width as_rgb].
  rewrite (logo_width_test (width im) (width lg) Hwi Hwl).
  unfold logo_verdict.
  destruct (3 * width im <=? 10 * width lg); [eexists; reflexivity|].
  unfold bind at 1, lift at 1.
  destruct (count_matches (as_rgb im) (List.firstn 10 (unique_colors (as_rgb lg))) 0)
    as [m|e] eqn:Hcount; [|eexists; reflexivity].
  apply count_matches_bounds in Hcount.
  rewrite List.length_firstn in Hcount.
  set (n := Z.min 10 (Z.of_nat (List.length (unique_colors (as_rgb lg))))) in *.
  assert (Hn : 0 <= n <= 10 /\ m <= n) by (unfold n; lia).
  unfold bind at 1, lift at 1.
  destruct (Z.eqb_spec n 0) as [Hn0|Hn0].
  - unfold truediv. rewrite Hn0. cbn [Z.eqb]. eexists. reflexivity.
  - destruct (majority_test n m) as [Hdiv Hmaj]; [lia | lia |].
    rewrite Hdiv. unfold ret. rewrite Hmaj. eexists. reflexivity.
Qed.

(** X12: with both files decoded, [check_logo_presence] declares the logo
    template too large exactly when it is at least three tenths of the image
    wide. *)
Theorem logo_too_large_rule (brand : BrandConfig) (image_path : string)
    (logo_path : option string) (w : World) (p : string) (f1 f2 : File) (im lg : Image) :
  match logo_path with Some q => Some q | None => cfg_logo_path brand end = Some p ->
  p <> "" -> is_Some (disk w !! Path p) ->
  disk w !! image_path = Some f1 -> file_image f1 = Some im ->
  disk w !! p = Some f2 -> file_image f2 = Some lg ->
  1 <= width im < 2 ^ 31 -> 1 <= width lg < 2 ^ 31 ->
  exists r w',
    check_logo_presence brand image_path logo_path w = (Ok r, w')
    /\ (logo_message r = "Logo template too large for detection"
        <-> 3 * width im <= 10 * width lg)
    /\ (3 * width im <= 10 * width lg -> detected r = None).
Proof.
  intros Hp Hne Hex Hf1 Him Hf2 Hlg Hwi Hwl.
  destruct (check_logo_presence_run brand image_path logo_path w p f1 f2 im lg)
    as (w' & Hrun); try assumption.
  exists (logo_verdict im lg), w'. split; [exact Hrun|].
  unfold logo_verdict.
  destruct (Z.leb_spec (3 * width im) (10 * width lg)) as [Hle|Hgt].
  - cbn [logo_message detected]. split; [tauto | reflexivity].
  - split; [|lia]. split; [|lia]. intros Hmsg. exfalso. revert Hmsg.
    destruct (count_matches _ _ _); [|discriminate].
    destruct (_ =? 0); [discriminate|]. cbn [logo_message].
    destruct (_ <? _); discriminate.
Qed.

(** X13: when the template is small enough and every colour comparison
    answers, the verdict is [True] exactly when more than half of the
    sampled colours of the logo (its first ten distinct colours at most)
    are found in the image. *)
Theorem logo_verdict_majority (brand : BrandConfig) (image_path : string)
    (logo_path : option string) (w : World) (p : string) (f1 f2 : File) (im lg : Image)
    (m : Z) :
  match logo_path with Some q => Some q | None => cfg_logo_path brand end = Some p ->
  p <> "" -> is_Some (disk w !! Path p) ->
  disk w !! image_path = Some f1 -> file_image f1 = Some im ->
  disk w !! p = Some f2 -> file_image f2 = Some lg ->
  1 <= width im < 2 ^ 31 -> 1 <= width lg < 2 ^ 31 ->
  10 * width lg < 3 * width im ->
  unique_colors (as_rgb lg) <> [] ->
  count_matches (as_rgb im) (List.firstn 10 (unique_colors (as_rgb lg))) 0 = Ok m ->
  exists r w',
    check_logo_presence brand image_path logo_path w = (Ok r, w')
    /\ 0 <= m <= Z.min 10 (Z.of_nat (List.length (unique_colors (as_rgb lg))))
    /\ detected r
       = Some (Z.min 10 (Z.of_nat (List.length (unique_colors (as_rgb lg)))) <? 2 * m).
Proof.
  intros Hp Hne Hex Hf1 Him Hf2 Hlg Hwi Hwl Hsmall Hcolors Hcount.
  destruct (check_logo_presence_run brand image_path logo_path w p f1 f2 im lg)
    as (w' & Hrun); try assumption.
  exists (logo_verdict im lg), w'. split; [exact Hrun|].
  pose proof (count_matches_bounds _ _ _ _ Hcount) as Hb.
  rewrite List.length_firstn in Hb.
  split; [lia|].
  unfold logo_verdict.
  replace (3 * width im <=? 10 * width lg) with false by (symmetry; apply Z.leb_gt; lia).
  rewrite Hcount.
  replace (Z.min 10 (Z.of_nat (List.length (unique_colors (as_rgb lg)))) =? 0) with false.
  - reflexivity.
  - symmetry. apply Z.eqb_neq. destruct (unique_colors (as_rgb lg)); [contradiction|].
    cbn [List.length]. lia.
Qed.

End LogoPresence.

Lemma logo_too_large_rule_witness :
  exists r w',
    check_logo_presence (H0 := Fixture.numpy) Fixture.brand_logo "assets/hero.png"
      (Some "assets/banner.png") Fixture.world3 = (Ok r, w')
    /\ logo_message r = "Logo template too large for detection".
Proof.
  destruct (@logo_too_large_rule Fixture.pillow Fixture.numpy Fixture.brand_logo
              "assets/hero.png" (Some "assets/banner.png") Fixture.world3
              "assets/banner.png"
              {| file_image := Some Fixture.hero; file_header := None; file_is_dir := false;
                 st_mtime := 1700000000 |}
              {| file_image := Some Fixture.banner_image; file_header := None; file_is_dir := false;
                 st_mtime := 1650000001 |}
              Fixture.hero Fixture.banner_image)
    as (r & w' & Hrun & Hmsg & _).
  - reflexivity.
  - discriminate.
  - exists {| file_image := Some Fixture.banner_image; file_header := None; file_is_dir := false;
              st_mtime := 1650000001 |}.
    reflexivity.
  - reflexivity.
  - reflexivity.
  - reflexivity.
  - reflexivity.
  - cbn [width Fixture.hero]. lia.
  - cbn [width Fixture.banner_image]. lia.
  - exists r, w'. split; [exact Hrun|]. apply Hmsg. cbn [width Fixture.hero Fixture.banner_image].
    lia.
Defined.

Lemma logo_verdict_majority_witness :
  exists r w',
    check_logo_presence (H0 := Fixture.numpy) Fixture.brand_logo "assets/hero.png" None
      Fixture.world3 = (Ok r, w')
    /\ detected r = Some true.
Proof.
  destruct (@logo_verdict_majority Fixture.pillow Fixture.numpy Fixture.brand_logo
              "assets/hero.png" None Fixture.world3 "assets/logo.png"
              {| file_image := Some Fixture.hero; file_header := None; file_is_dir := false;
                 st_mtime := 1700000000 |}
              {| file_image := Some Fixture.logo_image; file_header := None; file_is_dir := false;
                 st_mtime := 1650000000 |}
              Fixture.hero Fixture.logo_image 2)
    as (r & w' & Hrun & _ & Hdet).
  - reflexivity.
  - discriminate.
  - exists {| file_image := Some Fixture.logo_image; file_header := None; file_is_dir := false;
              st_mtime := 1650000000 |}.
    reflexivity.
  - reflexivity.
  - reflexivity.
  - reflexivity.
  - reflexivity.
  - cbn [width Fixture.hero]. lia.
  - cbn [width Fixture.logo_image]. lia.
  - cbn [width Fixture.hero Fixture.logo_image]. lia.
  - discriminate.
  - reflexivity.
  - exists r, w'. split; [exact Hrun | exact Hdet].
Defined.

(** ** What the checks read, and the verdict on the colours *)

Section CheckerEffects.
Context `{NumPy}.

Lemma heap_only_check_logo_presence (w0 : World) (brand : BrandConfig) (image_path : string)
    (logo_path : option string) :
  heap_only w0 (check_logo_presence brand image_path logo_path).
Proof.
  unfold check_logo_presence.
  destruct (match logo_path with Some p => Some p | None => cfg_logo_path brand end)
    as [[|c s]|]; try apply heap_only_ret.
  apply heap_only_bind; [apply heap_only_path_exists|]. intros found ? ? _ _.
  destruct found; cbn [negb]; [|apply heap_only_ret].
  apply heap_only_try; [|intros e; apply heap_only_ret].
  apply heap_only_bind; [apply heap_only_image_open|]. intros image0 ? ? _ _.
  apply heap_only_bind; [apply heap_only_image_convert|]. intros image ? ? _ _.
  apply heap_only_bind; [apply heap_only_image_open|]. intros logo0 ? ? _ _.
  apply heap_only_bind; [apply heap_only_image_convert|]. intros logo ? ? _ _.
  apply heap_only_bind; [apply heap_only_deref|]. intros im ? ? _ _.
  apply heap_only_bind; [apply heap_only_deref|]. intros lg ? ? _ _.
  destruct (PrimFloat.leb _ _); [apply heap_only_ret|].
  apply heap_only_bind; [apply heap_only_lift|]. intros m ? ? _ _.
  apply heap_only_bind; [apply heap_only_lift|]. intros conf ? ? _ _.
  apply heap_only_ret.
Qed.

Lemma heap_only_validate_brand_colors (w0 : World) (brand : BrandConfig) (image_path : string)
    (colors : option (list string)) :
  heap_only w0 (validate_brand_colors brand image_path colors).
Proof.
  unfold validate_brand_colors.
  destruct (match colors with
            | Some l => l
            | None => truthy [cfg_primary_color brand; cfg_secondary_color brand]
            end) as [|c cs]; [apply heap_only_ret|].
  apply heap_only_try; [|intros e; apply heap_only_ret].
  apply heap_only_bind; [apply heap_only_image_open|]. intros image0 ? ? _ _.
  apply heap_only_bind; [apply heap_only_image_convert|]. intros image ? ? _ _.
  apply heap_only_bind; [apply heap_only_deref|]. intros im ? ? _ _.
  apply heap_only_bind; [apply heap_only_lift|]. intros found ? ? _ _.
  apply heap_only_bind; [apply heap_only_lift|]. intros rate ? ? _ _.
  apply heap_only_ret.
Qed.

Lemma heap_only_stat_mtime (w0 : World) (p : string) : heap_only w0 (stat_mtime p).
Proof.
  apply heap_only_unchanged. intros w. unfold stat_mtime. now destruct (disk w !! p).
Qed.

Lemma heap_only_run_full_compliance_check (w0 : World) (brand : BrandConfig)
    (image_path campaign_message : string) :
  heap_only w0 (run_full_compliance_check brand image_path campaign_message).
Proof.
  unfold run_full_compliance_check.
  apply heap_only_bind; [apply heap_only_stat_mtime|]. intros mtime ? ? _ _.
  apply heap_only_bind; [apply heap_only_check_logo_presence|]. intros logo_check ? ? _ _.
  apply heap_only_bind; [apply heap_only_validate_brand_colors|]. intros colors_check ? ? _ _.
  apply heap_only_ret.
Qed.

(** X14: the three image checks and the full check only read: whatever they
    return, no file is created, changed or removed, and every image object
    that was live before is still there, unchanged. *)
Theorem compliance_checks_read_only (brand : BrandConfig) (image_path campaign_message : string)
    (logo_path : option string) (colors : option (list string)) (w : World) :
  let unchanged := fun w' : World => disk w' = disk w /\ extends w w' in
  unchanged (snd (check_logo_presence brand image_path logo_path w))
  /\ unchanged (snd (validate_brand_colors brand image_path colors w))
  /\ unchanged (snd (run_full_compliance_check brand image_path campaign_message w)).
Proof.
  cbv zeta.
  pose proof (heap_only_check_logo_presence w brand image_path logo_path w (extends_refl w)).
  pose proof (heap_only_validate_brand_colors w brand image_path colors w (extends_refl w)).
  pose proof (heap_only_run_full_compliance_check w brand image_path campaign_message w
                (extends_refl w)).
  tauto.
Qed.

(** Opening a file that does not decode and converting it raises, and
    leaves no loaded object behind. *)
Lemma open_convert_undecodable {A : Type} (p m : string) (k : positive -> IO A) (w : World)
    (f : File) :
  disk w !! p = Some f -> file_image f = None ->
  exists e w',
    bind (image_open p) (fun image0 => bind (image_convert image0 m) k) w = (Raise e, w')
    /\ heap w' = heap w /\ disk w' = disk w.
Proof.
  intros Hf Him. unfold bind at 1.
  destruct (image_open p w) as [[r|e] w1] eqn:Hopen.
  - apply image_open_ok in Hopen as (f' & Hf' & Hdisk & Hfresh & Hshape).
    rewrite Hf in Hf'. injection Hf' as <-. rewrite Him in Hshape.
    destruct Hshape as (header & _ & Hheap & _).
    assert (Hr : heap w1 !! r = None) by now rewrite Hheap.
    destruct (deref_not_loaded r w1 Hr) as (e & Hraise).
    unfold bind at 1, image_convert, bind at 1. rewrite Hraise.
    now exists e, w1.
  - unfold image_open in Hopen. rewrite Hf, Him in Hopen.
    destruct (file_header f); [discriminate|]. injection Hopen as _ <-.
    now exists e, w.
Qed.

Lemma check_logo_presence_undecodable (brand : BrandConfig) (image_path : string)
    (w : World) (f : File) :
  disk w !! image_path = Some f -> file_image f = None ->
  (forall e, ~ logo_refused brand w e) ->
  exists r w', check_logo_presence brand image_path None w = (Ok r, w')
    /\ detected r = None /\ heap w' = heap w /\ disk w' = disk w.
Proof.
  intros Hf Him Hok.
  pose proof (check_logo_presence_outcome brand image_path w) as Hout.
  unfold check_logo_presence in *.
  destruct (cfg_logo_path brand) as [[|c s]|]; try (now eexists _, w).
  unfold bind at 1 in Hout. unfold bind at 1.
  destruct (path_exists (Path (String c s)) w) as [[found|e] w1] eqn:Hex.
  2:{ destruct Hout as [_ Href]. now destruct (Hok e). }
  apply path_exists_ok in Hex as [-> _].
  destruct found; cbn [negb]; [|now eexists _, w].
  unfold try_except.
  destruct (open_convert_undecodable image_path "RGB"
              (fun image => bind (image_open (String c s)) (fun logo0 =>
                 bind (image_convert logo0 "RGB") (fun logo =>
                 bind (deref image) (fun im => bind (deref logo) (fun lg =>
                   if PrimFloat.leb (PrimFloat.mul (float_of_int (width im)) 0.3%float)
                        (float_of_int (width lg))
                   then ret {| detected := None; confidence := 0%float;
                               logo_message := "Logo template too large for detection" |}
                   else
                     bind (lift (count_matches im (List.firstn 10 (unique_colors lg)) 0))
                       (fun color_matches =>
                     bind (lift (truediv color_matches
                                   (Z.min 10 (Z.of_nat (List.length (unique_colors lg))))))
                       (fun conf =>
                     ret {| detected := Some (PrimFloat.ltb 0.5%float conf);
                            confidence := conf;
                            logo_message := if PrimFloat.ltb 0.5%float conf
                                            then "Logo likely present"
                                            else "Logo may not be present" |})))))))
              w f Hf Him) as (e & w' & Hbody & Hheap & Hdisk).
  rewrite Hbody. cbn [ret]. now eexists _, w'.
Qed.

Lemma validate_brand_colors_undecodable (brand : BrandConfig) (image_path : string)
    (colors : option (list string)) (w : World) (f : File) :
  disk w !! image_path = Some f -> file_image f = None ->
  exists r w', validate_brand_colors brand image_path colors w = (Ok r, w')
    /\ colors_compliant r = None /\ heap w' = heap w /\ disk w' = disk w.
Proof.
  intros Hf Him. unfold validate_brand_colors.
  destruct (match colors with
            | Some l => l
            | None => truthy [cfg_primary_color brand; cfg_secondary_color brand]
            end) as [|c cs]; [now eexists _, w|].
  unfold try_except.
  destruct (open_convert_undecodable image_path "RGB"
              (fun image => bind (deref image) (fun im =>
                 bind (lift (find_colors im (c :: cs) [])) (fun colors_found =>
                 bind (lift (truediv (Z.of_nat (List.length colors_found))
                               (Z.of_nat (List.length (c :: cs))))) (fun rate =>
                 ret {| colors_compliant := Some (0 <? Z.of_nat (List.length colors_found));
                        brand_colors_checked := c :: cs;
                        colors_detected := colors_found;
                        detection_rate := rate;
                        colors_message := "" |}))))
              w f Hf Him) as (e & w' & Hbody & Hheap & Hdisk).
  rewrite Hbody. cbn [ret]. now eexists _, w'.
Qed.

(** X15: the full check of a path that is not on the disk raises the error
    of [stat()], [FileNotFoundError] for an absent file (the modification
    time is read outside every [try]).  The full check of a file that does
    not decode as an image returns, unless [exists()] raises on the logo
    path, a report in which the logo and colour verdicts are [None], so
    that the overall verdict is the one of the legal check of the message
    alone; no file changes and no image is loaded. *)
Theorem full_check_unreadable_image (brand : BrandConfig)
    (image_path campaign_message : string) (w : World) :
  (disk w !! image_path = None ->
   run_full_compliance_check brand image_path campaign_message w
   = (Raise (missing w image_path), w)
   /\ (stat_error w image_path = None -> missing w image_path = "FileNotFoundError"))
  /\ (forall f, disk w !! image_path = Some f -> file_image f = None ->
      (forall e, ~ logo_refused brand w e) ->
      exists r w',
        run_full_compliance_check brand image_path campaign_message w = (Ok r, w')
        /\ timestamp r = st_mtime f
        /\ detected (logo_presence r) = None
        /\ colors_compliant (brand_colors r) = None
        /\ overall_compliant r = compliant (check_legal_content campaign_message)
        /\ heap w' = heap w /\ disk w' = disk w)
  /\ (forall f e, disk w !! image_path = Some f -> logo_refused brand w e ->
      run_full_compliance_check brand image_path campaign_message w = (Raise e, w)).
Proof.
  split; [|split].
  - intros Hnone. split.
    + unfold run_full_compliance_check, bind at 1, stat_mtime. now rewrite Hnone.
    + intros Hse. unfold missing. now rewrite Hse.
  - intros f Hf Him Hok.
    destruct (check_logo_presence_undecodable brand image_path w f Hf Him Hok)
      as (lr & w1 & Hl & Hld & Hh1 & Hd1).
    assert (Hf1 : disk w1 !! image_path = Some f) by now rewrite Hd1.
    destruct (validate_brand_colors_undecodable brand image_path None w1 f Hf1 Him)
      as (cr & w2 & Hc & Hcd & Hh2 & Hd2).
    unfold run_full_compliance_check, bind at 1, stat_mtime. rewrite Hf.
    unfold bind at 1. rewrite Hl. unfold bind at 1. rewrite Hc.
    eexists _, w2. split; [reflexivity|].
    cbn [timestamp logo_presence brand_colors overall_compliant].
    rewrite Hld, Hcd. cbn [is_not_False].
    split; [reflexivity|]. split; [reflexivity|]. split; [reflexivity|].
    split; [now rewrite !andb_true_r|]. split; congruence.
  - intros f e Hf Href.
    pose proof (full_check_outcome brand image_path campaign_message w) as Hout.
    destruct (run_full_compliance_check brand image_path campaign_message w)
      as [[r|e'] w'] eqn:Hrun.
    + destruct Hout as [_ Hok]. now destruct (Hok e).
    + destruct Hout as [-> [[Hnone _]|[_ Href']]]; [congruence|].
      destruct Href as (c & p & Hp & _ & He), Href' as (c' & p' & Hp' & _ & He').
      rewrite Hp in Hp'. injection Hp' as <- <-. congruence.
Qed.

Lemma find_colors_spec (image : Image) (colors acc found : list string) :
  find_colors image colors acc = Ok found ->
  exists l, found = (acc ++ l)%list
    /\ sublist l (List.map lstrip_hash colors)
    /\ Forall (fun c => exists r g b,
                 int_base16 (slice (lstrip_hash c) 0 2) = Ok r
                 /\ int_base16 (slice (lstrip_hash c) 2 4) = Ok g
                 /\ int_base16 (slice (lstrip_hash c) 4 6) = Ok b) colors.
Proof.
  revert acc. induction colors as [|c rest IH]; intros acc; cbn [find_colors].
  - intros E. injection E as <-. exists []. rewrite app_nil_r.
    split; [reflexivity|]. split; [constructor | constructor].
  - unfold bindE.
    destruct (int_base16 (slice (lstrip_hash c) 0 2)) as [r|] eqn:Er; [|discriminate].
    destruct (int_base16 (slice (lstrip_hash c) 2 4)) as [g|] eqn:Eg; [|discriminate].
    destruct (int_base16 (slice (lstrip_hash c) 4 6)) as [b|] eqn:Eb; [|discriminate].
    destruct (near_tuple image (r, g, b) 80) as [near|]; [|discriminate].
    intros E. apply IH in E as (l & -> & Hsub & Hall).
    assert (Hc : exists r g b,
               int_base16 (slice (lstrip_hash c) 0 2) = Ok r
               /\ int_base16 (slice (lstrip_hash c) 2 4) = Ok g
               /\ int_base16 (slice (lstrip_hash c) 4 6) = Ok b)
      by (exists r, g, b; auto).
    destruct near.
    + exists (lstrip_hash c :: l). rewrite <- app_assoc. split; [reflexivity|].
      split; [cbn [List.map]; now constructor | now constructor].
    + exists l. split; [reflexivity|].
      split; [cbn [List.map]; now constructor | now constructor].
Qed.

(** X16: when [validate_brand_colors] gives a verdict, the image was decoded,
    every colour checked parsed as three hexadecimal bytes after its leading
    [#]s, the colours reported as detected are some of the checked ones in
    their order, without their [#]s, and the verdict is [True] exactly when
    at least one colour was detected. *)
Theorem brand_colors_verdict (brand : BrandConfig) (image_path : string)
    (colors : option (list string)) (w w' : World) (r : ColorResult) (b : bool) :
  validate_brand_colors brand image_path colors w = (Ok r, w') ->
  colors_compliant r = Some b ->
  let checked := match colors with
                 | Some l => l
                 | None => truthy [cfg_primary_color brand; cfg_secondary_color brand]
                 end in
  checked <> []
  /\ brand_colors_checked r = checked
  /\ sublist (colors_detected r) (List.map lstrip_hash checked)
  /\ (b = true <-> colors_detected r <> [])
  /\ Forall (fun c => exists x y z,
               int_base16 (slice (lstrip_hash c) 0 2) = Ok x
               /\ int_base16 (slice (lstrip_hash c) 2 4) = Ok y
               /\ int_base16 (slice (lstrip_hash c) 4 6) = Ok z) checked
  /\ (exists f im, disk w !! image_path = Some f /\ file_image f = Some im).
Proof.
  intros Hrun Hb. cbv zeta. unfold validate_brand_colors in Hrun.
  destruct (match colors with
            | Some l => l
            | None => truthy [cfg_primary_color brand; cfg_secondary_color brand]
            end) as [|c cs] eqn:Ecs.
  { injection Hrun as <- _. discriminate. }
  unfold try_except in Hrun.
  match type of Hrun with
  | match ?body w with _ => _ end = _ => destruct (body w) as [[r0|e] w0] eqn:Hbody
  end.
  2:{ injection Hrun as <- _. discriminate. }
  injection Hrun as -> ->.
  unfold bind at 1 in Hbody.
  destruct (image_open image_path w) as [[image0|] w1] eqn:Hopen; [|discriminate].
  unfold bind at 1 in Hbody.
  destruct (image_convert image0 "RGB" w1) as [[image|] w2] eqn:Hconv; [|discriminate].
  unfold bind at 1 in Hbody.
  destruct (deref image w2) as [[im|] w3]; [|discriminate].
  unfold bind at 1, lift at 1 in Hbody.
  destruct (find_colors im (c :: cs) []) as [found|] eqn:Hfind; [|discriminate].
  unfold bind at 1, lift at 1 in Hbody.
  destruct (truediv _ _) as [rate|]; [|discriminate].
  injection Hbody as <- _.
  cbn [colors_compliant brand_colors_checked colors_detected] in *.
  apply find_colors_spec in Hfind as (l & -> & Hsub & Hall). cbn [app] in *.
  split; [discriminate|]. split; [reflexivity|]. split; [exact Hsub|].
  split.
  - injection Hb as <-. destruct l as [|x l]; cbn [List.length].
    + split; [discriminate | congruence].
    + split; [discriminate | intros _; apply Z.ltb_lt; lia].
  - split; [exact Hall|].
    apply image_open_ok in Hopen as (f & Hf & _ & Hfresh & Hshape).
    destruct (file_image f) as [im0|] eqn:Him0; [now exists f, im0|].
    exfalso. destruct Hshape as (header & _ & Hheap & _).
    assert (Hr : heap w1 !! image0 = None) by now rewrite Hheap.
    destruct (deref_not_loaded image0 w1 Hr) as (e & Hraise).
    unfold image_convert, bind in Hconv. rewrite Hraise in Hconv. discriminate Hconv.
Qed.

End CheckerEffects.

Lemma full_check_unreadable_image_witness :
  exists r w',
    run_full_compliance_check (H0 := Fixture.numpy) Fixture.brand_logo "assets/notes.txt"
      Fixture.short_message Fixture.world3 = (Ok r, w')
    /\ detected (logo_presence r) = None
    /\ colors_compliant (brand_colors r) = None.
Proof.
  destruct (proj1 (proj2 (@full_check_unreadable_image Fixture.pillow Fixture.numpy
                            Fixture.brand_logo "assets/notes.txt" Fixture.short_message
                            Fixture.world3))
              {| file_image := None; file_header := None; file_is_dir := false;
                 st_mtime := 1650000002 |})
    as (r & w' & Hrun & _ & Hlogo & Hcolors & _).
  - reflexivity.
  - reflexivity.
  - intros e (c & p & Hp & Hd & _). injection Hp as <- <-.
    match type of Hd with
    | ?l = None => assert (Hs : is_Some l) by (eexists; reflexivity)
    end.
    rewrite Hd in Hs. destruct Hs as [f Hs]. discriminate Hs.
  - exists r, w'. split; [exact Hrun|]. split; [exact Hlogo | exact Hcolors].
Defined.

Lemma brand_colors_verdict_witness :
  exists r w',
    validate_brand_colors (H0 := Fixture.numpy) Fixture.brand_logo "assets/hero.png" None
      Fixture.world3 = (Ok r, w')
    /\ brand_colors_checked r = ["#FF5733"; "3498DB"]
    /\ colors_detected r = [].
Proof.
  destruct (validate_brand_colors (H0 := Fixture.numpy) Fixture.brand_logo "assets/hero.png"
              None Fixture.world3) as [[r|e] w'] eqn:Hrun.
  - exists r, w'. split; [reflexivity|].
    assert (Hb : colors_compliant r = Some false).
    { assert (Hc : match fst (validate_brand_colors (H0 := Fixture.numpy) Fixture.brand_logo
                                "assets/hero.png" None Fixture.world3) with
                   | Ok r0 => colors_compliant r0
                   | Raise _ => None
                   end = Some false) by reflexivity.
      rewrite Hrun in Hc. exact Hc. }
    destruct (@brand_colors_verdict Fixture.pillow Fixture.numpy _ _ _ _ _ _ _ Hrun Hb)
      as (_ & Hchecked & _ & Hiff & _).
    split; [exact Hchecked|].
    destruct (colors_detected r) as [|c l]; [reflexivity|].
    exfalso. destruct Hiff as [_ Hne]. specialize (Hne ltac:(discriminate)). discriminate.
  - exfalso.
    assert (Hc : match fst (validate_brand_colors (H0 := Fixture.numpy) Fixture.brand_logo
                              "assets/hero.png" None Fixture.world3) with
                 | Ok _ => true
                 | Raise _ => false
                 end = true) by reflexivity.
    rewrite Hrun in Hc. discriminate Hc.
Defined.

(** ** The size of the logo and the crop box *)

(** The two sides of the logo after the scaling of [_load_logo]: both are
    scaled by [150 / L], [L] the longer side, and cut to an int. *)
Lemma logo_scale (w h : Z) :
  1 <= w < 2 ^ 31 -> 1 <= h < 2 ^ 31 ->
  exists (rw rh : float) (nw nh : Z),
    truediv 150 w = Ok rw /\ truediv 150 h = Ok rh
    /\ int_of_float (PrimFloat.mul (float_of_int w) (float_min rw rh)) = Ok nw
    /\ int_of_float (PrimFloat.mul (float_of_int h) (float_min rw rh)) = Ok nh
    /\ nw * Z.max w h <= 150 * w <= (nw + 1) * Z.max w h
    /\ nh * Z.max w h <= 150 * h <= (nh + 1) * Z.max w h.
Proof.
  intros Hw Hh.
  assert (H53 : 2 ^ 31 < 2 ^ 53) by reflexivity.
  assert (H50 : 2 ^ 31 * 150 < 2 ^ 50) by reflexivity.
  destruct (ratio_compare 150 w 150 h) as (rh & rw & Erh & Erw & Hcmp); try lia.
  exists rw, rh. unfold float_min.
  destruct (PrimFloat.ltb rh rw).
  - destruct (scaled_dimension w h 150) as (s1 & nw & Es1 & Enw & Hnw); try lia.
    destruct (scaled_dimension h h 150) as (s2 & nh & Es2 & Enh & Hnh); try lia.
    assert (s1 = rh) by congruence. assert (s2 = rh) by congruence. subst s1 s2.
    exists nw, nh. replace (Z.max w h) with h by lia.
    repeat split; try assumption; lia.
  - destruct (scaled_dimension w w 150) as (s1 & nw & Es1 & Enw & Hnw); try lia.
    destruct (scaled_dimension h w 150) as (s2 & nh & Es2 & Enh & Hnh); try lia.
    assert (s1 = rw) by congruence. assert (s2 = rw) by congruence. subst s1 s2.
    exists nw, nh. replace (Z.max w h) with w by lia.
    repeat split; try assumption; lia.
Qed.

Section LogoLoading.
Context `{Pillow}.

Lemma image_resize_run (r : positive) (size : Z * Z) (w : World) (im : Image) :
  heap w !! r = Some im -> 1 <= fst size -> 1 <= snd size ->
  can_create (fst size, snd size) = true ->
  exists r' w', image_resize r size w = (Ok r', w')
    /\ heap w' !! r' = Some {| width := fst size; height := snd size; mode := mode im;
                               raster := lanczos (raster im) (width im, height im) size |}
    /\ extends w w' /\ disk w' = disk w.
Proof.
  intros Hr Hw Hh Hcan. unfold image_resize, bind, deref. rewrite Hr.
  replace ((fst size <? 1) || (snd size <? 1)) with false
    by (symmetry; apply orb_false_iff; split; apply Z.ltb_ge; lia).
  rewrite Hcan. apply alloc_run.
Qed.

(** X17: a logo file that decodes is loaded as an RGBA object scaled so that
    its longer side is 149 or 150 pixels, whatever its size was (a smaller
    logo is enlarged), with its proportions kept up to the cut to whole
    pixels; a logo more than 150 times longer than wide, or wider than
    long, is not loaded at all. *)
Theorem load_logo_size (cfg : BrandConfig) (w : World) (p : string) (f : File) (lg : Image) :
  cfg_logo_path cfg = Some p ->
  disk w !! Path p = Some f -> file_image f = Some lg ->
  1 <= width lg < 2 ^ 31 -> 1 <= height lg < 2 ^ 31 ->
  (Z.max (width lg) (height lg) < 150 * Z.min (width lg) (height lg) ->
   exists r w' out,
     _load_logo cfg w = (Ok (Some r), w')
     /\ heap w' !! r = Some out
     /\ mode out = "RGBA"
     /\ 1 <= width out <= 150 /\ 1 <= height out <= 150
     /\ 149 <= Z.max (width out) (height out)
     /\ Z.abs (width out * height lg - width lg * height out)
        <= Z.max (width lg) (height lg))
  /\ (150 * Z.min (width lg) (height lg) < Z.max (width lg) (height lg) ->
      exists w', _load_logo cfg w = (Ok None, w')).
Proof.
  intros Hp Hf Him Hw Hh.
  destruct (logo_scale (width lg) (height lg) Hw Hh)
    as (rw & rh & nw & nh & Erw & Erh & Enw & Enh & Hnw & Hnh).
  assert (Hopen : exists r w1 lg1,
             bind (image_open (Path p))
               (fun opened => bind (image_attrs opened) (fun lg0 =>
                  if negb (String.eqb (header_mode lg0) "RGBA")
                  then image_convert opened "RGBA" else ret opened)) w = (Ok r, w1)
             /\ heap w1 !! r = Some lg1
             /\ width lg1 = width lg /\ height lg1 = height lg /\ mode lg1 = "RGBA").
  { destruct (image_open_run (Path p) w f lg Hf Him) as (r1 & w1 & E1 & Hr1 & _).
    unfold bind at 1. rewrite E1. unfold bind at 1, image_attrs at 1. rewrite Hr1.
    cbn [header_mode].
    destruct (String.eqb_spec (mode lg) "RGBA") as [Hm|Hm]; cbn [negb].
    - exists r1, w1, lg. now repeat split.
    - destruct (image_convert_run r1 "RGBA" w1 lg Hr1) as (r2 & w2 & E2 & Hr2 & _).
      eexists r2, w2, _. split; [exact E2|]. split; [exact Hr2|]. now repeat split. }
  destruct Hopen as (r & w1 & lg1 & Hrun & Hr & Hw1 & Hh1 & Hm1).
  assert (Hbody : forall k : positive -> IO (option positive),
             bind (image_open (Path p))
               (fun opened => bind (image_attrs opened) (fun lg0 =>
                  bind (if negb (String.eqb (header_mode lg0) "RGBA")
                        then image_convert opened "RGBA" else ret opened) k)) w
             = k r w1).
  { intros k. revert Hrun. unfold bind.
    destruct (image_open (Path p) w) as [[o|] wo]; [|discriminate].
    destruct (image_attrs o wo) as [[l0|] wd]; [|discriminate].
    intros ->. reflexivity. }
  assert (Hload : _load_logo cfg w
                  = match image_resize r (nw, nh) w1 with
                    | (Ok resized, w') => (Ok (Some resized), w')
                    | (Raise _, w') => (Ok None, w')
                    end).
  { unfold _load_logo, try_except. rewrite Hp.
    unfold bind at 1. rewrite (path_exists_present (Path p) w) by (now exists f).
    cbn [negb].
    rewrite Hbody.
    unfold bind at 1, image_attrs at 1. rewrite Hr.
    cbn [header_width header_height]. rewrite Hw1, Hh1.
    unfold bind at 1, lift at 1. rewrite Erw.
    unfold bind at 1, lift at 1. rewrite Erh.
    unfold bind at 1, lift at 1. rewrite Enw.
    unfold bind at 1, lift at 1. rewrite Enh.
    unfold bind at 1.
    destruct (image_resize r (nw, nh) w1) as [[resized|e] w']; reflexivity. }
  rewrite Hload. split.
  - intros Hshape.
    assert (Hpos : 1 <= nw /\ 1 <= nh) by nia.
    destruct (image_resize_run r (nw, nh) w1 lg1 Hr) as (r' & w' & E & Hr' & _);
      cbn [fst snd]; try lia.
    { apply can_create_output; nia. }
    rewrite E.
    eexists r', w', _. split; [reflexivity|]. split; [exact Hr'|].
    cbn [width height mode fst snd].
    split; [assumption|].
    split; [nia|]. split; [nia|]. split; [nia|].
    apply Z.abs_le. split; nia.
  - intros Hsliver.
    assert (Hzero : nw < 1 \/ nh < 1) by nia.
    unfold image_resize, bind at 1, deref at 1. rewrite Hr. cbn [fst snd].
    replace ((nw <? 1) || (nh <? 1)) with true
      by (symmetry; apply orb_true_iff; destruct Hzero; [left | right]; apply Z.ltb_lt; lia).
    eexists. reflexivity.
Qed.

End LogoLoading.

(** X18: when the source and the target differ in aspect ratio, the size
    handed to [resize] covers the target: the side that fits is the
    target's, the other is at least the target's, and the centred crop box
    lies inside the resized image with margins that differ by at most one
    pixel. *)
Theorem cover_fit_crop_box (w h : Z) (ratio : string) :
  1 <= w < 2 ^ 31 -> 1 <= h < 2 ^ 31 ->
  w * snd (get_output_size ratio) <> fst (get_output_size ratio) * h ->
  exists new_width new_height,
    scaled_size w h (fst (get_output_size ratio)) (snd (get_output_size ratio))
    = Ok (new_width, new_height)
    /\ (if fst (get_output_size ratio) * h <? w * snd (get_output_size ratio)
        then new_height = snd (get_output_size ratio)
        else new_width = fst (get_output_size ratio))
    /\ let left_ := (new_width - fst (get_output_size ratio)) / 2 in
       let top := (new_height - snd (get_output_size ratio)) / 2 in
       0 <= left_ /\ left_ + fst (get_output_size ratio) <= new_width
       /\ 0 <= top /\ top + snd (get_output_size ratio) <= new_height
       /\ 0 <= new_width - (left_ + fst (get_output_size ratio)) - left_ <= 1
       /\ 0 <= new_height - (top + snd (get_output_size ratio)) - top <= 1.
Proof.
  intros Hw Hh.
  pose proof (output_size_range ratio) as [Htw Hth].
  destruct (get_output_size ratio) as [tw th]. cbn [fst snd] in *. intros Hne.
  destruct (scaled_size_spec w h tw th) as (nw & nh & Hsize & Hgeom); try lia.
  exists nw, nh. split; [assumption|]. cbv zeta.
  destruct Hgeom as [(-> & Hb & Hc)|(-> & Hb & Hc)].
  - assert (tw <= nw) by nia.
    replace (tw * h <? w * th) with true by (symmetry; apply Z.ltb_lt; lia).
    split; [reflexivity|].
    replace (th - th) with 0 by lia. change (0 / 2) with 0.
    pose proof (Z.div_mod (nw - tw) 2 ltac:(lia)).
    pose proof (Z.mod_pos_bound (nw - tw) 2 ltac:(lia)).
    assert (0 <= (nw - tw) / 2) by (apply Z.div_pos; lia).
    repeat split; lia.
  - assert (th <= nh) by nia.
    replace (tw * h <? w * th) with false by (symmetry; apply Z.ltb_ge; lia).
    split; [reflexivity|].
    replace (tw - tw) with 0 by lia. change (0 / 2) with 0.
    pose proof (Z.div_mod (nh - th) 2 ltac:(lia)).
    pose proof (Z.mod_pos_bound (nh - th) 2 ltac:(lia)).
    assert (0 <= (nh - th) / 2) by (apply Z.div_pos; lia).
    repeat split; lia.
Qed.

Lemma load_logo_size_witness :
  exists r w' out,
    _load_logo (H := Fixture.pillow) Fixture.brand_logo Fixture.world3 = (Ok (Some r), w')
    /\ heap w' !! r = Some out
    /\ mode out = "RGBA"
    /\ 149 <= Z.max (width out) (height out).
Proof.
  destruct (@load_logo_size Fixture.pillow Fixture.brand_logo Fixture.world3
              "assets/logo.png"
              {| file_image := Some Fixture.logo_image; file_header := None; file_is_dir := false;
                 st_mtime := 1650000000 |}
              Fixture.logo_image) as [Hload _].
  - reflexivity.
  - reflexivity.
  - reflexivity.
  - cbn [width Fixture.logo_image]. lia.
  - cbn [height Fixture.logo_image]. lia.
  - destruct Hload as (r & w' & out & Hrun & Hout & Hmode & _ & _ & Hmax & _).
    + cbn [width height Fixture.logo_image]. lia.
    + exists r, w', out. now repeat split.
Defined.

Lemma cover_fit_crop_box_witness :
  exists new_width new_height,
    scaled_size 1920 1080 (fst (get_output_size "1x1")) (snd (get_output_size "1x1"))
    = Ok (new_width, new_height)
    /\ new_height = 1080 /\ 1080 <= new_width.
Proof.
  destruct (cover_fit_crop_box 1920 1080 "1x1") as (nw & nh & Hsize & Hside & Hbox).
  - lia.
  - lia.
  - intros Hc. vm_compute in Hc. discriminate Hc.
  - exists nw, nh. split; [exact Hsize|].
    change (get_output_size "1x1") with (1080, 1080) in Hside, Hbox.
    cbn [fst snd] in Hside, Hbox. cbv zeta in Hbox.
    change (1080 * 1080 <? 1920 * 1080) with true in Hside.
    split; [exact Hside | lia].
Defined.

(** ** When the composer succeeds *)

Section Fractions.
Local Open Scope R_scope.

(** [int(n * c)] for a constant [c] of at most one half is an int from 0
    to [n]. *)
Lemma scaled_int_le (n : Z) (c : float) (mc : positive) (ec : Z) :
  (0 <= n < 2 ^ 53)%Z -> normal c mc ec -> (-1000 <= ec <= 800)%Z ->
  value mc ec <= / 2 ->
  exists k : Z, int_of_float (float_of_int n * c)%float = Ok k /\ (0 <= k <= n)%Z.
Proof.
  intros Hn Hc Hec Hhalf. destruct (Z.eq_dec n 0%Z) as [->|Hn0].
  - exists 0%Z. split; [|lia]. unfold int_of_float.
    rewrite FloatAxioms.mul_spec. destruct Hc as [-> _]. reflexivity.
  - destruct (float_of_int_normal n) as (mn & en & Hnn & Hvn & Hen & _); [lia|].
    destruct (mul_normal _ _ _ _ _ _ Hnn Hc) as (mp & ep & Hnp & _ & _ & Hhi); [lia|].
    destruct (int_of_float_normal _ _ _ Hnp) as (k & Hk & Hklo & Hkhi).
    exists k. split; [assumption|].
    pose proof (value_pos mp ep). pose proof (value_pos mc ec).
    pose proof eps_small as [He0 He1].
    assert (HN : 1 <= IZR n) by (apply IZR_le; lia).
    rewrite Hvn in Hhi.
    split.
    + assert (-1 < k)%Z; [|lia]. apply lt_IZR. lra.
    + assert (k < n + 1)%Z; [|lia]. apply lt_IZR. rewrite plus_IZR.
      assert (IZR n * value mc ec <= IZR n * / 2) by (apply Rmult_le_compat_l; lra).
      assert (IZR n * value mc ec * (1 + eps) <= IZR n * / 2 * (1 + eps))
        by (apply Rmult_le_compat_r; lra).
      nra.
Qed.

Lemma value_008 : value 5764607523034235 (-56) <= / 2.
Proof.
  unfold value. pose proof (bpow_opp 56 ltac:(lia)) as Hb.
  change (- (56))%Z with (-56)%Z in Hb. rewrite Hb.
  change (IZR (2 ^ 56)) with 72057594037927936. lra.
Qed.

End Fractions.

Section Success.
Context `{Pillow}.

Lemma keeps_policy_bind {A B : Type} (c : IO A) (k : A -> IO B) :
  keeps_policy c -> (forall a, keeps_policy (k a)) -> keeps_policy (bind c k).
Proof.
  intros Hc Hk w. unfold bind. specialize (Hc w).
  destruct (c w) as [[a|e] w1]; cbn [snd] in *; [|assumption].
  destruct (Hk a w1) as [Hro Hse], Hc as [Hro1 Hse1]. split; congruence.
Qed.

Lemma keeps_policy_try {A : Type} (body : IO A) (handler : string -> IO A) :
  keeps_policy body -> (forall e, keeps_policy (handler e)) ->
  keeps_policy (try_except body handler).
Proof.
  intros Hb Hh w. unfold try_except. specialize (Hb w).
  destruct (body w) as [[a|e] w1]; cbn [snd] in *; [assumption|].
  destruct (Hh e w1) as [Hro Hse], Hb as [Hro1 Hse1]. split; congruence.
Qed.

Lemma keeps_policy_unchanged {A : Type} (c : IO A) :
  (forall w, snd (c w) = w) -> keeps_policy c.
Proof. intros Hc w. now rewrite Hc. Qed.

Lemma keeps_policy_alloc (im : Image) : keeps_policy (alloc im).
Proof. intros w. now split. Qed.

Lemma keeps_policy_deref (r : positive) : keeps_policy (deref r).
Proof. apply keeps_policy_unchanged, deref_unchanged. Qed.

Lemma keeps_policy_set_raster (r : positive) (px : Raster) : keeps_policy (set_raster r px).
Proof. intros w. unfold set_raster. now destruct (heap w !! r). Qed.

Lemma keeps_policy_mkdir (p : string) : keeps_policy (mkdir p).
Proof.
  intros w. unfold mkdir.
  destruct (mkdir_parents_spec (List.length (path_parts_from "" p)) p w) as [Hsame _].
  split; [now apply (f_equal read_only) in Hsame | now apply (f_equal stat_error) in Hsame].
Qed.

Lemma keeps_policy_image_save (image : positive) (p : string) :
  keeps_policy (image_save image p).
Proof.
  intros w. unfold image_save, bind. pose proof (deref_unchanged image w) as Hd.
  destruct (deref image w) as [[im|e] w1]; cbn [snd] in *; subst w1; [|now split].
  destruct (read_only w p); [now split|].
  destruct (disk w !! p) as [f|]; [now destruct (file_is_dir f)|].
  destruct (is_anchor p); [now idtac|]. now destruct (create_error w p).
Qed.

Lemma keeps_policy_image_open (p : string) : keeps_policy (image_open p).
Proof.
  intros w. unfold image_open. destruct (disk w !! p) as [f|]; [|now split].
  destruct (file_image f); [now split|]. now destruct (file_header f).
Qed.

Ltac policy :=
  repeat first
    [ apply keeps_policy_alloc | apply keeps_policy_deref | apply keeps_policy_set_raster
    | apply keeps_policy_image_open
    | apply keeps_policy_unchanged; reflexivity
    | apply keeps_policy_bind; [|intros ?]
    | apply keeps_policy_try; [|intros ?]
    | match goal with
      | |- keeps_policy (if ?b then _ else _) => destruct b
      | |- keeps_policy (match ?x with _ => _ end) => destruct x
      end ].

Lemma keeps_policy_image_copy (image : positive) : keeps_policy (image_copy image).
Proof. unfold image_copy. policy. Qed.

Lemma keeps_policy_image_convert (image : positive) (m : string) :
  keeps_policy (image_convert image m).
Proof. unfold image_convert. policy. Qed.

Lemma keeps_policy_resize_for_ratio (image : positive) (ratio : string) :
  keeps_policy (resize_for_ratio image ratio).
Proof. unfold resize_for_ratio, image_resize, image_crop. policy. Qed.

Lemma keeps_policy_stamp (image : positive) at_ offsets line font fill :
  keeps_policy (stamp image at_ offsets line font fill).
Proof.
  induction offsets as [|[ox oy] rest IH]; cbn [stamp]; [policy|].
  apply keeps_policy_bind; [unfold draw_text; policy | intros _; exact IH].
Qed.

Lemma keeps_policy_draw_lines (image : positive) font lines x bg_width text_y line_height
    text_color :
  keeps_policy (draw_lines image font lines x bg_width text_y line_height text_color).
Proof.
  revert text_y. induction lines as [|line rest IH]; intros text_y; cbn [draw_lines]; [policy|].
  cbv zeta.
  apply keeps_policy_bind; [unfold draw_text; policy | intros _].
  apply keeps_policy_bind; [apply keeps_policy_stamp | intros _].
  apply keeps_policy_bind; [unfold draw_text; policy | intros _]. apply IH.
Qed.

Lemma first_font_unchanged (paths : list string) (font_size : Z) (w : World) :
  snd (first_font paths font_size w) = w.
Proof.
  induction paths as [|p rest IH]; cbn [first_font]; [reflexivity|].
  unfold bind at 1. pose proof (path_exists_unchanged (Path p) w) as Hex.
  destruct (path_exists (Path p) w) as [[found|e] w1]; cbn [snd] in *; subst w1;
    [|reflexivity].
  destruct found; [|exact IH].
  unfold bind, lift. now destruct (truetype p font_size).
Qed.

Lemma load_font_unchanged (font_size : Z) (w : World) : snd (load_font font_size w) = w.
Proof.
  unfold load_font, try_except, bind.
  pose proof (first_font_unchanged font_paths font_size w) as Hf.
  destruct (first_font font_paths font_size w) as [[[f|]|e] w1]; cbn [snd] in Hf; subst w1;
    unfold ret, lift; destruct load_default; reflexivity.
Qed.

Lemma load_font_run (font_size : Z) (w : World) (f0 : Font) :
  load_default = Ok f0 -> exists font, load_font font_size w = (Ok font, w).
Proof.
  intros Hdef. unfold load_font, try_except, bind.
  pose proof (first_font_unchanged font_paths font_size w) as Hf.
  destruct (first_font font_paths font_size w) as [[[f|]|e] w1]; cbn [snd] in Hf; subst w1;
    unfold ret, lift; rewrite ?Hdef; eexists; reflexivity.
Qed.

Lemma keeps_policy_add_text_overlay (self : Composer) (image : positive)
    (text position : string) :
  keeps_policy (add_text_overlay self image text position).
Proof.
  unfold add_text_overlay.
  apply keeps_policy_bind; [apply keeps_policy_image_copy | intros c].
  apply keeps_policy_bind; [apply keeps_policy_unchanged, draw_new_unchanged | intros _].
  apply keeps_policy_bind; [policy | intros im].
  apply keeps_policy_bind; [policy | intros mtw].
  apply keeps_policy_bind; [policy | intros fs].
  apply keeps_policy_bind; [apply keeps_policy_unchanged, load_font_unchanged | intros font].
  apply keeps_policy_bind; [policy | intros tb].
  apply keeps_policy_bind; [unfold draw_rectangle; policy | intros _].
  apply keeps_policy_bind; [apply keeps_policy_draw_lines | intros _]. policy.
Qed.

Lemma keeps_policy_add_logo_overlay (self : Composer) (image : positive) (position : string) :
  keeps_policy (add_logo_overlay self image position).
Proof.
  unfold add_logo_overlay. destruct (logo self) as [lg|]; [|policy].
  apply keeps_policy_bind; [apply keeps_policy_image_copy | intros c].
  apply keeps_policy_bind; [policy | intros im].
  apply keeps_policy_bind; [policy | intros l].
  apply keeps_policy_bind; [unfold image_paste; policy | intros _]. policy.
Qed.

Lemma draws_ret (r : positive) : draws r (ret tt).
Proof. intros w Hr. now exists w. Qed.

Lemma draws_seq (r : positive) (c k : IO unit) :
  draws r c -> draws r k -> draws r (bind c (fun _ => k)).
Proof.
  intros Hc Hk w Hr. destruct (Hc w Hr) as (w1 & E1 & Hr1).
  destruct (Hk w1 Hr1) as (w2 & E2 & Hr2).
  exists w2. unfold bind. rewrite E1. now split.
Qed.

Lemma draws_update (r : positive) (px : Image -> Raster) :
  draws r (bind (deref r) (fun im => set_raster r (px im))).
Proof.
  intros w [im Hr]. unfold bind, deref. rewrite Hr. unfold set_raster. rewrite Hr.
  eexists. split; [reflexivity|]. cbn [heap set_heap]. rewrite lookup_insert_eq. now eexists.
Qed.

Lemma draws_draw_rectangle (r : positive) box fill :
  ink fill = true -> draws r (draw_rectangle r box fill).
Proof.
  intros Hink w Hr. unfold draw_rectangle. rewrite Hink. exact (draws_update r _ w Hr).
Qed.

Lemma draws_draw_text (r : positive) pos text font fill :
  ink fill = true -> draws r (draw_text r pos text font fill).
Proof.
  intros Hink w Hr. unfold draw_text. rewrite Hink. exact (draws_update r _ w Hr).
Qed.

Lemma draws_stamp (r : positive) at_ offsets line font fill :
  ink fill = true -> draws r (stamp r at_ offsets line font fill).
Proof.
  intros Hink. induction offsets as [|[ox oy] rest IH]; cbn [stamp]; [apply draws_ret|].
  apply draws_seq; [now apply draws_draw_text | exact IH].
Qed.

Lemma draws_draw_lines (r : positive) font lines x bg_width text_y line_height text_color :
  ink text_color = true ->
  draws r (draw_lines r font lines x bg_width text_y line_height text_color).
Proof.
  intros Hink. revert text_y.
  induction lines as [|line rest IH]; intros text_y; cbn [draw_lines]; [apply draws_ret|].
  cbv zeta.
  apply draws_seq; [now apply draws_draw_text|].
  apply draws_seq; [now apply draws_stamp|].
  apply draws_seq; [now apply draws_draw_text | apply IH].
Qed.

Lemma image_copy_run (r : positive) (w : World) (im : Image) :
  heap w !! r = Some im ->
  exists r' w', image_copy r w = (Ok r', w') /\ heap w' !! r' = Some im /\ extends w w'.
Proof.
  intros Hr. unfold image_copy, bind, deref. rewrite Hr.
  destruct (alloc_run im w) as (r' & w' & E & Hr' & Hext & _). now exists r', w'.
Qed.

Lemma text_block_run (w h : Z) (font : Font) (font_size max_text_width : Z)
    (text position : string) :
  1 <= w < 2 ^ 31 -> 1 <= h < 2 ^ 31 -> 0 <= font_size < 2 ^ 53 ->
  exists tb, text_block w h font font_size max_text_width text position = Ok tb.
Proof.
  intros Hw Hh Hfs.
  assert (H53 : 2 ^ 31 < 2 ^ 53) by reflexivity.
  assert (Hc13 : normal 1.3 5854679515581645 (-52)) by (split; reflexivity).
  assert (Hc005 : normal 0.05 7205759403792794 (-57)) by (split; reflexivity).
  destruct (scaled_int_ok font_size _ _ _ Hfs Hc13) as (lh & Elh & _); [lia|].
  destruct (scaled_int_ok h _ _ _ ltac:(lia) Hc005) as (bm & Ebm & _); [lia|].
  destruct (truediv_normal w h) as (q & _ & _ & Eq & _); [lia | lia |].
  unfold text_block, bindE. rewrite Elh.
  unfold anchor, bindE. rewrite Eq.
  destruct (String.eqb position "bottom").
  - destruct (PrimFloat.ltb q 0.7); [rewrite Ebm|]; eexists; reflexivity.
  - destruct (String.eqb position "top"); eexists; reflexivity.
Qed.

Lemma paintable_ink (self : Composer) :
  paintable self ->
  ink (color_or (primary_color self) [255; 87; 51; 200] [200]) = true
  /\ ink (color_or (font_color self) [255; 255; 255] []) = true.
Proof.
  intros [Hprimary Hfont]. unfold color_or, ink. split.
  - destruct (getrgb (primary_color self)) as [color|]; [|reflexivity].
    rewrite List.length_app, (Hprimary color eq_refl). reflexivity.
  - destruct (getrgb (font_color self)) as [color|]; [|reflexivity].
    rewrite List.app_nil_r. now destruct (Hfont color eq_refl) as [-> | ->].
Qed.

Lemma add_text_overlay_run (self : Composer) (image : positive) (text position : string)
    (w : World) (im : Image) (f0 : Font) :
  heap w !! image = Some im ->
  1 <= width im < 2 ^ 31 -> 1 <= height im < 2 ^ 31 ->
  mode im = "RGB" \/ mode im = "RGBA" ->
  load_default = Ok f0 ->
  paintable self ->
  exists out w', add_text_overlay self image text position w = (Ok out, w').
Proof.
  intros Him Hw Hh Hmode Hdef Hpaint.
  destruct (paintable_ink self Hpaint) as [Hink1 Hink2].
  assert (H53 : 2 ^ 31 < 2 ^ 53) by reflexivity.
  assert (Hc085 : normal 0.85 7656119366529843 (-53)) by (split; reflexivity).
  assert (Hc008 : normal 0.08 5764607523034235 (-56)) by (split; reflexivity).
  destruct (scaled_int_ok (width im) _ _ _ ltac:(lia) Hc085) as (mtw & Emtw & _); [lia|].
  destruct (scaled_int_le (Z.min (width im) (height im)) _ _ _ ltac:(lia) Hc008)
    as (fs & Efs & Hfs); [lia | apply value_008 |].
  destruct (image_copy_run image w im Him) as (c & w1 & Ecopy & Hc & Hext).
  destruct (load_font_run fs w1 f0 Hdef) as (font & Efont).
  destruct (text_block_run (width im) (height im) font fs mtw text position)
    as (tb & Etb); try lia.
  unfold add_text_overlay.
  unfold bind at 1. rewrite Ecopy.
  assert (Edraw : draw_new c w1 = (Ok tt, w1)).
  { unfold draw_new, bind, deref. rewrite Hc. now destruct Hmode as [-> | ->]. }
  unfold bind at 1. rewrite Edraw.
  unfold bind at 1, deref at 1. rewrite (Hext image im Him).
  unfold bind at 1, lift at 1. rewrite Emtw.
  unfold bind at 1, lift at 1. rewrite Efs.
  unfold bind at 1. rewrite Efont.
  unfold bind at 1, lift at 1. rewrite Etb.
  cbv zeta.
  destruct (draws_draw_rectangle c
              (tb_x tb, tb_y tb, tb_x tb + tb_bg_width tb, tb_y tb + tb_bg_height tb)
              (color_or (primary_color self) [255; 87; 51; 200] [200]) Hink1 w1)
    as (w2 & E2 & Hc2); [now exists im|].
  unfold bind at 1. rewrite E2.
  destruct (draws_draw_lines c font (tb_lines tb) (tb_x tb) (tb_bg_width tb)
              (tb_y tb + 25) (tb_line_height tb)
              (color_or (font_color self) [255; 255; 255] []) Hink2 w2 Hc2)
    as (w3 & E3 & Hc3).
  unfold bind at 1. rewrite E3. now eexists _, _.
Qed.

End Success.

Section Success2.
Context `{Pillow}.

(** What a step that only touches the heap leaves in place. *)
Lemma heap_step {A : Type} (c : IO A) (w0 w w' : World) (a : A) :
  heap_only w0 c -> keeps_policy c -> extends w0 w -> c w = (Ok a, w') ->
  extends w0 w' /\ disk w' = disk w
  /\ read_only w' = read_only w /\ stat_error w' = stat_error w.
Proof.
  intros Hc Hp Hext E. destruct (Hc w Hext) as [Hext' Hdisk]. specialize (Hp w).
  rewrite E in Hext', Hdisk, Hp. cbn [snd] in Hp. destruct Hp. now repeat split.
Qed.

Lemma image_crop_run (r : positive) (x0 y0 x1 y1 : Z) (w : World) :
  is_Some (heap w !! r) -> x0 <= x1 -> y0 <= y1 ->
  exists r' w', image_crop r (x0, y0, x1, y1) w = (Ok r', w').
Proof.
  intros [im Hr] Hx Hy. unfold image_crop, bind, deref. rewrite Hr.
  replace (x1 <? x0) with false by (symmetry; apply Z.ltb_ge; lia).
  replace (y1 <? y0) with false by (symmetry; apply Z.ltb_ge; lia).
  destruct (alloc_run {| width := x1 - x0; height := y1 - y0; mode := mode im;
                         raster := crop_raster (raster im) (width im, height im)
                                     (x0, y0, x1, y1) |} w) as (r' & w' & E & _).
  now exists r', w'.
Qed.

Lemma resize_for_ratio_run (image : positive) (ratio : string) (w : World) (im : Image) :
  heap w !! image = Some im ->
  1 <= width im < 2 ^ 31 -> 1 <= height im < 2 ^ 31 ->
  resizable (width im) (height im) ratio ->
  exists out w', resize_for_ratio image ratio w = (Ok out, w').
Proof.
  intros Him Hw Hh Hcan.
  pose proof (output_size_range ratio) as [Htw Hth].
  unfold resize_for_ratio, resizable in *.
  destruct (get_output_size ratio) as [tw th]. cbn [fst snd] in *.
  destruct (scaled_size_spec (width im) (height im) tw th)
    as (nw & nh & Hsize & Hgeom); try lia.
  assert (Hpos : 1 <= nw /\ 1 <= nh)
    by (destruct Hgeom as [(-> & Hb & Hc)|(-> & Hb & Hc)]; split; nia).
  unfold bind at 1, deref at 1. rewrite Him.
  unfold bind at 1, lift. rewrite Hsize.
  destruct (image_resize_run image (nw, nh) w im Him) as (r & w1 & E & Hr & _);
    cbn [fst snd]; try lia.
  { now apply Hcan. }
  unfold bind at 1. rewrite E.
  apply image_crop_run; [eexists; exact Hr | lia | lia].
Qed.

Lemma add_logo_overlay_run (self : Composer) (image : positive) (position : string)
    (w : World) :
  is_Some (heap w !! image) ->
  (forall lg, logo self = Some lg -> is_Some (heap w !! lg)) ->
  exists out w', add_logo_overlay self image position w = (Ok out, w').
Proof.
  intros [im Him] Hlogo. unfold add_logo_overlay.
  destruct (logo self) as [lg|]; [|now eexists _, _].
  destruct (Hlogo lg eq_refl) as [l Hl].
  destruct (image_copy_run image w im Him) as (c & w1 & Ecopy & Hc & Hext).
  unfold bind at 1. rewrite Ecopy.
  unfold bind at 1, deref at 1. rewrite (Hext image im Him).
  unfold bind at 1, deref at 1. rewrite (Hext lg l Hl).
  unfold bind at 1, image_paste.
  unfold bind at 1, deref at 1. rewrite Hc.
  unfold bind at 1, deref at 1. rewrite (Hext lg l Hl).
  unfold set_raster. rewrite Hc. now eexists _, _.
Qed.

(** The file system calls of [mkdir] look at the files only. *)
Lemma same_files_refl (w : World) : same_files w w.
Proof. now repeat split. Qed.

Lemma same_files_trans (a b c : World) : same_files a b -> same_files b c -> same_files a c.
Proof.
  intros (Hd & Hc & Hr & Hs) (Hd' & Hc' & Hr' & Hs'). repeat split; congruence.
Qed.

Lemma alloc_same_files (im : Image) (w w' : World) (r : positive) :
  alloc im w = (Ok r, w') -> same_files w' w.
Proof. unfold alloc. intros E. injection E as _ <-. now repeat split. Qed.

Lemma same_files_present (a w : World) (p : string) :
  same_files a w -> present a p = present w p /\ is_dir a p = is_dir w p.
Proof. intros (Hd & _). unfold present, is_dir. now rewrite Hd. Qed.

Lemma same_files_create_error (a w : World) (p : string) :
  same_files a w -> create_error a p = create_error w p.
Proof.
  intros Hs. destruct (same_files_present a w (path_parent p) Hs) as [Hp Hi].
  destruct Hs as (_ & _ & Hr & Hs). unfold create_error. now rewrite Hp, Hi, Hr, Hs.
Qed.

Lemma os_mkdir_same (p : string) (a w : World) :
  same_files a w ->
  fst (os_mkdir p a) = fst (os_mkdir p w)
  /\ same_files (snd (os_mkdir p a)) (snd (os_mkdir p w)).
Proof.
  intros Hs. unfold os_mkdir.
  rewrite (proj1 (same_files_present a w p Hs)), (same_files_create_error a w p Hs).
  destruct (present w p); [now split|]. destruct (create_error w p); [now split|].
  cbn [fst snd]. split; [reflexivity|]. destruct Hs as (Hd & Hc & Hr & Hs).
  unfold same_files, set_disk. cbn [disk clock read_only stat_error].
  rewrite Hd, Hc. now repeat split.
Qed.

Lemma mkdir_exist_ok_same (p : string) (a w : World) :
  same_files a w ->
  fst (mkdir_exist_ok p a) = fst (mkdir_exist_ok p w)
  /\ same_files (snd (mkdir_exist_ok p a)) (snd (mkdir_exist_ok p w)).
Proof.
  intros Hs. unfold mkdir_exist_ok. destruct (os_mkdir_same p a w Hs) as [Hf Hsame].
  destruct (os_mkdir p a) as [[[]|e] a'], (os_mkdir p w) as [[[]|e'] w'];
    cbn [fst snd] in *; try discriminate; [now split|].
  injection Hf as ->. destruct (String.eqb e' "FileNotFoundError"); [now split|].
  rewrite (proj2 (same_files_present a' w' p Hsame)). now destruct (is_dir w' p).
Qed.

Lemma mkdir_parents_same (levels : nat) (p : string) (a w : World) :
  same_files a w ->
  fst (mkdir_parents levels p a) = fst (mkdir_parents levels p w)
  /\ same_files (snd (mkdir_parents levels p a)) (snd (mkdir_parents levels p w)).
Proof.
  revert p a w. induction levels as [|levels IH]; intros p a w Hs; cbn [mkdir_parents];
    destruct (os_mkdir_same p a w Hs) as [Hf Hsame];
    destruct (os_mkdir p a) as [[[]|e] a'], (os_mkdir p w) as [[[]|e'] w'];
    cbn [fst snd] in *; try discriminate; try (now split); injection Hf as ->.
  - destruct (String.eqb e' "FileNotFoundError"); [now split|].
    rewrite (proj2 (same_files_present a' w' p Hsame)). now destruct (is_dir w' p).
  - destruct (String.eqb e' "FileNotFoundError").
    + destruct (String.eqb (path_parent p) p); [now split|].
      unfold bind. destruct (IH (path_parent p) a' w' Hsame) as [Hf1 Hsame1].
      destruct (mkdir_parents levels (path_parent p) a') as [[[]|e1] a1],
        (mkdir_parents levels (path_parent p) w') as [[[]|e1'] w1];
        cbn [fst snd] in *; try discriminate.
      * now apply mkdir_exist_ok_same.
      * injection Hf1 as ->. now split.
    + rewrite (proj2 (same_files_present a' w' p Hsame)). now destruct (is_dir w' p).
Qed.

Lemma writable_same (a w : World) (p : string) :
  disk a = disk w -> read_only a = read_only w -> stat_error a = stat_error w ->
  writable w p -> writable a p.
Proof.
  intros Hd Hr Hs (Hro & Hanchor & Hfile). unfold writable, is_dir in *.
  rewrite Hd, Hr, Hs. now repeat split.
Qed.

(** Saving one image leaves every other path as writable as it was: a
    path that takes a file is the folder of none. *)
Lemma writable_after_save (w w' : World) (p1 p : string) (file : File) :
  writable w p1 -> writable w p -> file_is_dir file = false ->
  disk w' = <[p1 := file]> (disk w) ->
  read_only w' = read_only w -> stat_error w' = stat_error w ->
  writable w' p.
Proof.
  intros (_ & Hanchor1 & Hfile1) (Hro & Hanchor & Hfile) Hnodir Hd Hr Hs.
  unfold writable, is_dir in *. rewrite Hd, Hr, Hs.
  split; [assumption|]. split; [assumption|].
  destruct (decide (p1 = p)) as [->|Hne]; [now rewrite lookup_insert_eq|].
  rewrite lookup_insert_ne by assumption.
  destruct (disk w !! p) as [f|]; [assumption|]. destruct Hfile as [Hse Hparent].
  split; [assumption|].
  destruct (decide (p1 = path_parent p)) as [Heq|Hne'].
  - exfalso. rewrite <- Heq in Hparent.
    destruct (disk w !! p1) as [f1|]; congruence.
  - now rewrite lookup_insert_ne by assumption.
Qed.

Lemma image_save_run (image : positive) (p : string) (w : World) :
  is_Some (heap w !! image) -> writable w p ->
  exists w', image_save image p w = (Ok tt, w').
Proof.
  intros [im Him] (Hro & Hanchor & Hfile). unfold image_save, bind, deref.
  rewrite Him, Hro. destruct (disk w !! p) as [f|].
  - rewrite Hfile. now eexists.
  - rewrite Hanchor. destruct Hfile as [Hse Hparent].
    unfold create_error. rewrite Hse, Hro.
    assert (Hpresent : present w (path_parent p) = true).
    { unfold present, is_dir in *. now destruct (disk w !! path_parent p). }
    rewrite Hpresent, Hparent. now eexists.
Qed.

(** [resize_for_ratio] keeps the mode of the image. *)
Lemma resize_for_ratio_mode (image out : positive) (ratio : string) (w w' : World)
    (im : Image) :
  resize_for_ratio image ratio w = (Ok out, w') -> heap w !! image = Some im ->
  exists im', heap w' !! out = Some im'
    /\ (width im', height im') = get_output_size ratio /\ mode im' = mode im.
Proof.
  intros E Him. unfold resize_for_ratio in E. destruct (get_output_size ratio) as [tw th].
  apply bind_ok in E as (im0 & w1 & Hd & E). apply deref_ok in Hd as [-> Him0].
  rewrite Him in Him0. injection Him0 as <-.
  apply bind_ok in E as ([nw nh] & w2 & Hs & E). apply lift_ok in Hs as [-> _].
  apply bind_ok in E as (resized & w3 & Hr & E).
  unfold image_resize in Hr. apply bind_ok in Hr as (im1 & w4 & Hd & Hr).
  apply deref_ok in Hd as [-> Him1]. rewrite Him in Him1. injection Him1 as <-.
  destruct (_ || _); [discriminate|]. destruct (negb _); [discriminate|].
  apply alloc_ok in Hr as (_ & Hheap3 & _).
  unfold image_crop in E. apply bind_ok in E as (im3 & w4 & Hd3 & E).
  apply deref_ok in Hd3 as [-> Him3]. rewrite Hheap3, lookup_insert_eq in Him3.
  injection Him3 as <-.
  destruct (_ <? _); [discriminate|]. destruct (_ <? _); [discriminate|].
  apply alloc_ok in E as (_ & Hheap & _).
  eexists. rewrite Hheap, lookup_insert_eq. split; [reflexivity|].
  cbn [width height mode]. split; [f_equal; lia | reflexivity].
Qed.

Lemma variations_loop_run (self : Composer) (hero_image : positive)
    (campaign_message product_folder : string) (ratios generated_paths : list string)
    (w : World) (hero : Image) (f0 : Font) :
  heap w !! hero_image = Some hero ->
  1 <= width hero < 2 ^ 31 -> 1 <= height hero < 2 ^ 31 -> mode hero = "RGB" ->
  (forall ratio, In ratio ratios -> resizable (width hero) (height hero) ratio) ->
  load_default = Ok f0 ->
  paintable self ->
  (forall lg, logo self = Some lg -> is_Some (heap w !! lg)) ->
  (forall ratio, In ratio ratios -> writable w (path_div product_folder (ratio ++ ".png"))) ->
  exists w',
    variations_loop self hero_image campaign_message product_folder ratios generated_paths w
    = (Ok (generated_paths
           ++ List.map (fun ratio => path_div product_folder (ratio ++ ".png")) ratios)%list,
       w').
Proof.
  intros Hhero Hw Hh Hmode Hres Hdef Hpaint. revert Hres generated_paths w Hhero.
  induction ratios as [|ratio rest IH]; intros Hres generated_paths w Hhero Hlogo Hpaths;
    cbn [variations_loop List.map].
  - rewrite app_nil_r. now eexists.
  - destruct (image_copy_run hero_image w hero Hhero) as (copied & w1 & E1 & Hc1 & Hx1).
    destruct (heap_step _ w w w1 copied (heap_only_image_copy w hero_image)
                (keeps_policy_image_copy hero_image) (extends_refl w) E1)
      as (_ & Hd1 & Hp1 & Hs1).
    unfold bind at 1. rewrite E1.
    destruct (resize_for_ratio_run copied ratio w1 hero Hc1 Hw Hh
                (Hres ratio (or_introl eq_refl))) as (resized & w2 & E2).
    destruct (heap_step _ w w1 w2 resized (heap_only_resize_for_ratio w copied ratio)
                (keeps_policy_resize_for_ratio copied ratio) Hx1 E2)
      as (Hx2 & Hd2 & Hp2 & Hs2).
    unfold bind at 1. rewrite E2.
    destruct (resize_for_ratio_mode _ _ _ _ _ hero E2 Hc1) as (im2 & Hr2 & Hsize2 & Hmode2).
    pose proof (output_size_range ratio) as [Htw Hth].
    rewrite <- Hsize2 in Htw, Hth. cbn [fst snd] in Htw, Hth.
    destruct (add_text_overlay_run self resized campaign_message "bottom" w2 im2 f0 Hr2)
      as (with_text & w3 & E3); try assumption; try lia.
    { left. congruence. }
    destruct (heap_step _ w w2 w3 with_text
                (heap_only_add_text_overlay w self resized campaign_message "bottom")
                (keeps_policy_add_text_overlay self resized campaign_message "bottom") Hx2 E3)
      as (Hx3 & Hd3 & Hp3 & Hs3).
    unfold bind at 1. rewrite E3.
    destruct (add_text_overlay_ok _ _ _ _ _ _ _ E3) as (_ & im3 & _ & _ & Hr3 & _).
    assert (Hfinal : exists final w4,
               match logo self with
               | Some _ => add_logo_overlay self with_text "top-right"
               | None => ret with_text
               end w3 = (Ok final, w4)
               /\ is_Some (heap w4 !! final)
               /\ extends w w4 /\ disk w4 = disk w3
               /\ read_only w4 = read_only w3 /\ stat_error w4 = stat_error w3).
    { destruct (logo self) as [lg|] eqn:Elg.
      - destruct (add_logo_overlay_run self with_text "top-right" w3) as (final & w4 & E4).
        { now exists im3. }
        { intros lg' Hlg'. rewrite Elg in Hlg'. destruct (Hlogo lg' Hlg') as [l Hl].
          exists l. now apply Hx3. }
        destruct (heap_step _ w w3 w4 final
                    (heap_only_add_logo_overlay w self with_text "top-right")
                    (keeps_policy_add_logo_overlay self with_text "top-right") Hx3 E4)
          as (Hx4 & Hd4 & Hp4 & Hs4).
        destruct (add_logo_overlay_ok _ _ _ _ _ _ im3 E4 Hr3) as (im4 & Hr4 & _).
        exists final, w4. split; [assumption|]. split; [now exists im4|]. now repeat split.
      - exists with_text, w3. split; [reflexivity|]. split; [now exists im3|].
        now repeat split. }
    destruct Hfinal as (final & w4 & E4 & Hr4 & Hx4 & Hd4 & Hp4 & Hs4).
    unfold bind at 1. rewrite E4. cbv zeta.
    set (output_path := path_div product_folder (ratio ++ ".png")) in *.
    assert (Hkeep : forall p, writable w p -> writable w4 p).
    { intros p. apply writable_same; congruence. }
    destruct (image_save_run final output_path w4 Hr4
                (Hkeep _ (Hpaths ratio (or_introl eq_refl)))) as (w5 & E5).
    unfold bind at 1. rewrite E5.
    pose proof (image_save_heap final output_path w4) as Hheap5.
    pose proof (keeps_policy_image_save final output_path w4) as [Hp5 Hs5].
    rewrite E5 in Hheap5, Hp5, Hs5. cbn [snd] in Hheap5, Hp5, Hs5.
    destruct (image_save_ok _ _ _ _ E5) as (im5 & _ & Hd5).
    destruct (IH (fun r Hin => Hres r (or_intror Hin))
                (generated_paths ++ [output_path])%list w5) as (w' & E).
    + rewrite Hheap5. now apply Hx4.
    + intros lg Hlg. destruct (Hlogo lg Hlg) as [l Hl]. exists l.
      rewrite Hheap5. now apply Hx4.
    + intros ratio' Hin.
      refine (writable_after_save w4 w5 output_path _ _
                (Hkeep _ (Hpaths ratio (or_introl eq_refl)))
                (Hkeep _ (Hpaths ratio' (or_intror Hin))) _ Hd5 Hp5 Hs5).
      reflexivity.
    + exists w'. rewrite E. now rewrite <- app_assoc.
Qed.

(** X19: [create_variations] returns the path of every variation, in the
    order of the ratios, when nothing on its way fails: the hero image
    decodes, in one of the common modes, with each side from 1 to below
    [2 ^ 31]; Pillow can create the image that each ratio resamples it to;
    the built-in font loads; the primary colour has no alpha of its own
    and the font colour three or four channels, where they parse; the logo
    of the composer, if any, is a live RGBA object; [mkdir] makes the
    folder of the product or finds it; and, once it is there, each output
    path may be written: it is an existing file that is no folder, or a
    new entry of a folder that exists. *)
Theorem create_variations_succeeds (self : Composer)
    (hero_image_path campaign_message product_id output_folder : string)
    (ratios : option (list string)) (w : World) (f : File) (hero : Image) (f0 : Font) :
  let made := mkdir (path_div output_folder product_id) w in
  disk w !! hero_image_path = Some f -> file_image f = Some hero ->
  In (mode hero) ["RGB"; "RGBA"; "L"; "LA"; "P"; "1"; "CMYK"] ->
  1 <= width hero < 2 ^ 31 -> 1 <= height hero < 2 ^ 31 ->
  (forall ratio, In ratio (match ratios with None => all_formats | Some l => l end) ->
     resizable (width hero) (height hero) ratio) ->
  load_default = Ok f0 ->
  paintable self ->
  (forall lg, logo self = Some lg ->
     exists l, heap w !! lg = Some l /\ mode l = "RGBA") ->
  fst made = Ok tt ->
  (forall p, In p (variation_paths output_folder product_id ratios) ->
     writable (snd made) p) ->
  exists w',
    create_variations self hero_image_path campaign_message product_id output_folder ratios w
    = (Ok (variation_paths output_folder product_id ratios), w').
Proof.
  intros made Hf Him _ Hw Hh Hres Hdef Hpaint Hlogo Hmade Hpaths.
  unfold create_variations, try_except.
  destruct (image_open_run hero_image_path w f hero Hf Him)
    as (opened & w1 & E1 & Hr1 & Hx1 & Hd1).
  assert (Hsf1 : same_files w1 w).
  { unfold image_open in E1. rewrite Hf, Him in E1. exact (alloc_same_files _ _ _ _ E1). }
  unfold bind at 1. rewrite E1.
  unfold bind at 1, image_attrs at 1. rewrite Hr1. cbn [header_mode].
  assert (Hconv : exists hero_image w2 hero2,
             (if negb (String.eqb (mode hero) "RGB")
              then image_convert opened "RGB" else ret opened) w1 = (Ok hero_image, w2)
             /\ heap w2 !! hero_image = Some hero2
             /\ width hero2 = width hero /\ height hero2 = height hero
             /\ mode hero2 = "RGB"
             /\ extends w1 w2 /\ same_files w2 w1).
  { destruct (String.eqb_spec (mode hero) "RGB") as [Hrgb|_]; cbn [negb].
    - exists opened, w1, hero. split; [reflexivity|]. split; [assumption|].
      repeat split; try assumption; try reflexivity. apply extends_refl.
    - destruct (image_convert_run opened "RGB" w1 hero Hr1)
        as (r2 & w2 & E2 & Hr2 & Hx2 & Hd2).
      eexists r2, w2, _. split; [exact E2|]. split; [exact Hr2|].
      split; [reflexivity|]. split; [reflexivity|]. split; [reflexivity|].
      split; [assumption|].
      unfold image_convert, bind, deref in E2. rewrite Hr1 in E2.
      exact (alloc_same_files _ _ _ _ E2). }
  destruct Hconv as (hero_image & w2 & hero2 & E2 & Hr2 & Hw2 & Hh2 & Hm2 & Hx2 & Hsf2).
  unfold bind at 1. rewrite E2. cbv zeta.
  set (product_folder := path_div output_folder product_id) in *.
  pose proof (same_files_trans _ _ _ Hsf2 Hsf1) as Hsf.
  destruct (mkdir_parents_same (List.length (path_parts_from "" product_folder))
              product_folder w2 w Hsf) as [Hfst Hsame3].
  fold (mkdir product_folder) in Hfst, Hsame3. fold made in Hfst, Hsame3.
  pose proof (mkdir_heap product_folder w2) as Hheap3.
  destruct (mkdir product_folder w2) as [r3 w3] eqn:E3. cbn [fst snd] in *.
  rewrite Hmade in Hfst. subst r3.
  unfold bind at 1. rewrite E3.
  destruct Hsame3 as (Hd3 & _ & Hp3 & Hs3).
  destruct (variations_loop_run self hero_image campaign_message product_folder
              (match ratios with None => all_formats | Some l => l end) [] w3 hero2 f0)
    as (w4 & E4); try lia; try assumption.
  - now rewrite Hheap3.
  - now rewrite Hw2, Hh2.
  - intros lg Hlg. destruct (Hlogo lg Hlg) as (l & Hl & _). exists l.
    rewrite Hheap3. now apply Hx2, Hx1.
  - intros ratio Hin. apply (writable_same w3 (snd made)); try assumption.
    apply Hpaths. unfold variation_paths. apply in_map_iff. now exists ratio.
  - rewrite E4. cbn [app]. now exists w4.
Qed.

End Success2.

Lemma create_variations_succeeds_witness :
  exists w',
    create_variations (H := Fixture.pillow) Fixture.composer0 "assets/hero.png"
      Fixture.short_message "prod1" "outputs/camp" (Some ["1x1"; "16x9"]) Fixture.world0
    = (Ok ["outputs/camp/prod1/1x1.png"; "outputs/camp/prod1/16x9.png"], w').
Proof.
  destruct (@create_variations_succeeds Fixture.pillow Fixture.composer0 "assets/hero.png"
              Fixture.short_message "prod1" "outputs/camp" (Some ["1x1"; "16x9"])
              Fixture.world0
              {| file_image := Some Fixture.hero; file_header := None; file_is_dir := false;
                 st_mtime := 1700000000 |}
              Fixture.hero 10) as (w' & Hrun).
  - reflexivity.
  - reflexivity.
  - left. reflexivity.
  - cbn [width Fixture.hero]. lia.
  - cbn [height Fixture.hero]. lia.
  - intros ratio Hin new_width new_height Hsize.
    destruct Hin as [<-|[<-|[]]]; vm_compute in Hsize; injection Hsize as <- <-;
      reflexivity.
  - reflexivity.
  - split; intros color Hcolor; vm_compute in Hcolor; injection Hcolor as <-;
      [reflexivity | left; reflexivity].
  - intros lg Hlg. discriminate Hlg.
  - reflexivity.
  - intros p Hin. vm_compute in Hin.
    destruct Hin as [<-|[<-|[]]];
      (split; [reflexivity|]; split; [reflexivity|];
       match goal with
       | |- match ?l with _ => _ end =>
           assert (Hn : l = None) by reflexivity; rewrite Hn
       end; split; reflexivity).
  - exists w'. exact Hrun.
Defined.

(** ** The levels of the contrast check *)

Section ContrastLevels.
Context `{PyFloat}.
Local Open Scope float_scope.

Hypothesis pow_range : forall c : Z, (11 <= c <= 255)%Z ->
  let p := float_pow ((float_of_int c / 255 + 0.055) / 1.055) 2.4 in
  (0.0009765625 <=? p) = true /\ (p <=? 1) = true.

(** The ratio is a positive normal number: the quotient of two sums that
    are at least [0.05]. *)
Lemma contrast_ratio_normal (a b : Z * Z * Z) :
  rgb a -> rgb b ->
  exists (m1 m2 m : positive) (e1 e2 e : Z),
    normal (contrast_ratio a b) m e
    /\ (value m e <= value m1 e1 / value m2 e2 * (1 + eps))%R
    /\ ((normal (luminance a + 0.05) m1 e1 /\ normal (luminance b + 0.05) m2 e2)
        \/ (normal (luminance b + 0.05) m1 e1 /\ normal (luminance a + 0.05) m2 e2)).
Proof.
  intros Ha Hb.
  pose proof (luminance_zero_or_normal pow_range a Ha) as Za.
  pose proof (luminance_zero_or_normal pow_range b Hb) as Zb.
  destruct (normal_in_spec (-82) 82 0.05 eq_refl) as (mc & ec & Hnc & Hec).
  destruct (add_const_nearest 82 (luminance a) _ mc ec ltac:(lia) Hnc Hec Za)
    as (ma & ea & Hna & Hea & _).
  destruct (add_const_nearest 82 (luminance b) _ mc ec ltac:(lia) Hnc Hec Zb)
    as (mb & eb & Hnb & Heb & _).
  unfold contrast_ratio. cbv zeta.
  destruct (luminance b <? luminance a).
  - destruct (div_normal _ _ ma mb ea eb Hna Hnb ltac:(lia)) as (m & e & Hn & _ & [_ Hhi] & _).
    exists ma, mb, m, ea, eb, e. split; [assumption|]. split; [assumption|]. now left.
  - destruct (div_normal _ _ mb ma eb ea Hnb Hna ltac:(lia)) as (m & e & Hn & _ & [_ Hhi] & _).
    exists mb, ma, m, eb, ea, e. split; [assumption|]. split; [assumption|]. now right.
Qed.

(** X20: for colours with channels in [0 .. 255], a pair that passes AAA
    passes AA; the recommendation is "Compliant" exactly when AA passes;
    and two colours of the same luminance, a colour and itself among them,
    pass neither level. *)
Theorem contrast_levels (a b : Z * Z * Z) :
  rgb a -> rgb b ->
  (passes_aaa (check_text_contrast a b) = true -> passes_aa (check_text_contrast a b) = true)
  /\ (recommendation (check_text_contrast a b) = "Compliant"
      <-> passes_aa (check_text_contrast a b) = true)
  /\ (luminance a = luminance b ->
      passes_aa (check_text_contrast a b) = false
      /\ passes_aaa (check_text_contrast a b) = false
      /\ recommendation (check_text_contrast a b) = "Increase contrast").
Proof.
  intros Ha Hb.
  destruct (contrast_ratio_normal a b Ha Hb) as (m1 & m2 & m & e1 & e2 & e & Hn & Hhi & Hsides).
  destruct (normal_in_spec (-60) (-40) 4.5 eq_refl) as (m45 & e45 & Hn45 & He45).
  destruct (normal_in_spec (-60) (-40) 7 eq_refl) as (m7 & e7 & Hn7 & He7).
  assert (Hv45 : value m45 e45 = 4.5%R).
  { destruct Hn45 as [E _]. vm_compute in E. injection E as <- <-.
    unfold value. pose proof (bpow_opp 50 ltac:(lia)) as Hb50.
    change (- (50))%Z with (-50)%Z in Hb50. rewrite Hb50.
    change (IZR (2 ^ 50)) with 1125899906842624%R. lra. }
  assert (Hv7 : value m7 e7 = 7%R).
  { destruct Hn7 as [E _]. vm_compute in E. injection E as <- <-.
    unfold value. pose proof (bpow_opp 50 ltac:(lia)) as Hb50.
    change (- (50))%Z with (-50)%Z in Hb50. rewrite Hb50.
    change (IZR (2 ^ 50)) with 1125899906842624%R. lra. }
  pose proof (leb_normal _ _ m45 m e45 e Hn45 Hn) as H45.
  pose proof (leb_normal _ _ m7 m e7 e Hn7 Hn) as H7.
  rewrite Hv45 in H45. rewrite Hv7 in H7.
  unfold check_text_contrast. cbv zeta.
  cbn [passes_aa passes_aaa recommendation].
  destruct (4.5 <=? contrast_ratio a b) eqn:E45;
    destruct (7 <=? contrast_ratio a b) eqn:E7.
  - split; [reflexivity|]. split; [tauto|]. intros Hl. exfalso.
    rewrite Hl in Hsides.
    assert (Hsame : m1 = m2 /\ e1 = e2).
    { destruct Hsides as [[[E1 _] [E2 _]]|[[E1 _] [E2 _]]]; rewrite E1 in E2;
        now injection E2. }
    destruct Hsame as [-> ->]. pose proof (value_pos m2 e2). pose proof eps_small.
    replace (value m2 e2 / value m2 e2)%R with 1%R in Hhi by (field; lra). lra.
  - split; [discriminate|]. split; [tauto|]. intros Hl. exfalso.
    rewrite Hl in Hsides.
    assert (Hsame : m1 = m2 /\ e1 = e2).
    { destruct Hsides as [[[E1 _] [E2 _]]|[[E1 _] [E2 _]]]; rewrite E1 in E2;
        now injection E2. }
    destruct Hsame as [-> ->]. pose proof (value_pos m2 e2). pose proof eps_small.
    replace (value m2 e2 / value m2 e2)%R with 1%R in Hhi by (field; lra). lra.
  - exfalso. lra.
  - split; [discriminate|]. split; [split; discriminate|]. intros _. now repeat split.
Qed.

End ContrastLevels.

Lemma contrast_levels_witness :
  passes_aa (check_text_contrast (H := Fixture.pyfloat) (90, 90, 90)%Z (90, 90, 90)%Z) = false.
Proof.
  destruct (contrast_levels (H := Fixture.pyfloat)) with
    (a := (90, 90, 90)%Z) (b := (90, 90, 90)%Z) as (_ & _ & Hsame).
  - intros c Hc. cbv zeta.
    apply andb_true_iff.
    apply (range_check
             (fun c => let p := @float_pow Fixture.pyfloat
                                  ((float_of_int c / 255 + 0.055) / 1.055) 2.4 in
                       (0.0009765625 <=? p) && (p <=? 1))%float 11%Z 245%nat);
      [vm_compute; reflexivity | lia].
  - simpl. lia.
  - simpl. lia.
  - destruct (Hsame eq_refl) as [Haa _]. exact Haa.
Defined.

(** ** Where the logo goes *)

Section LogoPlacement.
Context `{Pillow}.

(** X21: with a logo, [add_logo_overlay] returns a new object: the image with
    the logo pasted through its own alpha, 30px from the two edges that the
    position names ("top-right", "top-left", "bottom-right"; any other
    string means bottom-left).  The image and the logo stay as they were,
    and when the image is at least 60px wider and higher than the logo the
    logo lies inside the image, 30px from every edge or more. *)
Theorem logo_placement (self : Composer) (image logo_ : positive) (position : string)
    (w : World) (im lg : Image) :
  logo self = Some logo_ ->
  heap w !! image = Some im -> heap w !! logo_ = Some lg ->
  exists (out : positive) (w' : World) (x y : Z),
    add_logo_overlay self image position w = (Ok out, w')
    /\ heap w !! out = None
    /\ heap w' !! out
       = Some {| width := width im; height := height im; mode := mode im;
                 raster := paste_raster (raster im) (width im, height im) (mode im)
                             (raster lg) (width lg, height lg) (mode lg) (x, y) |}
    /\ heap w' !! image = Some im /\ heap w' !! logo_ = Some lg
    /\ x = (if String.eqb position "top-right" || String.eqb position "bottom-right"
            then width im - width lg - 30 else 30)
    /\ y = (if String.eqb position "top-right" || String.eqb position "top-left"
            then 30 else height im - height lg - 30)
    /\ (width lg + 60 <= width im -> 30 <= x /\ x + width lg <= width im - 30)
    /\ (height lg + 60 <= height im -> 30 <= y /\ y + height lg <= height im - 30).
Proof.
  intros Hlogo Him Hlg. unfold add_logo_overlay. rewrite Hlogo.
  destruct (image_copy image w) as [res w1] eqn:Ecopy.
  assert (Hcopy : exists c, res = Ok c /\ heap w !! c = None
                            /\ heap w1 = <[c := im]> (heap w)).
  { unfold image_copy, bind, deref in Ecopy. rewrite Him in Ecopy.
    destruct (alloc im w) as [res' w1'] eqn:Ealloc. injection Ecopy as <- <-.
    destruct res' as [c|e]; [|discriminate].
    apply alloc_ok in Ealloc as (Hf & Hh & _). now exists c. }
  destruct Hcopy as (c & -> & Hfresh & Hheap1).
  assert (Hc_image : c <> image) by (intros ->; congruence).
  assert (Hc_logo : c <> logo_) by (intros ->; congruence).
  assert (Him1 : heap w1 !! image = Some im)
    by (rewrite Hheap1, lookup_insert_ne by assumption; exact Him).
  assert (Hlg1 : heap w1 !! logo_ = Some lg)
    by (rewrite Hheap1, lookup_insert_ne by assumption; exact Hlg).
  assert (Hc1 : heap w1 !! c = Some im) by (rewrite Hheap1; apply lookup_insert_eq).
  set (xy := if String.eqb position "top-right" then (width im - width lg - 30, 30)
             else if String.eqb position "top-left" then (30, 30)
             else if String.eqb position "bottom-right"
                  then (width im - width lg - 30, height im - height lg - 30)
                  else (30, height im - height lg - 30)).
  exists c, (set_heap (<[c := {| width := width im; height := height im; mode := mode im;
                                raster := paste_raster (raster im) (width im, height im)
                                            (mode im) (raster lg) (width lg, height lg)
                                            (mode lg) xy |}]> (heap w1)) w1),
    (fst xy), (snd xy).
  split.
  { unfold bind at 1. rewrite Ecopy.
    unfold bind at 1, deref at 1. rewrite Him1.
    unfold bind at 1, deref at 1. rewrite Hlg1.
    unfold bind at 1, image_paste.
    unfold bind at 1, deref at 1. rewrite Hc1.
    unfold bind at 1, deref at 1. rewrite Hlg1.
    unfold set_raster. rewrite Hc1. unfold ret. fold xy. reflexivity. }
  split; [exact Hfresh|].
  cbn [heap set_heap].
  split; [rewrite lookup_insert_eq; now rewrite <- surjective_pairing|].
  split; [rewrite lookup_insert_ne by assumption; exact Him1|].
  split; [rewrite lookup_insert_ne by assumption; exact Hlg1|].
  unfold xy.
  destruct (String.eqb_spec position "top-right") as [->|Htr]; cbn [orb fst snd].
  { repeat split; lia. }
  destruct (String.eqb_spec position "top-left") as [->|Htl]; cbn [orb fst snd].
  { repeat split; lia. }
  destruct (String.eqb position "bottom-right"); cbn [fst snd]; repeat split; lia.
Qed.

End LogoPlacement.

Lemma logo_placement_witness :
  exists out w',
    add_logo_overlay (H := Fixture.pillow) Fixture.composer_logo 1%positive "top-right"
      Fixture.world4 = (Ok out, w')
    /\ heap w' !! 1%positive = Some Fixture.square.
Proof.
  destruct (@logo_placement Fixture.pillow Fixture.composer_logo 1%positive 2%positive
              "top-right" Fixture.world4 Fixture.square Fixture.small_logo)
    as (out & w' & x & y & Hrun & _ & _ & Himage & _).
  - reflexivity.
  - reflexivity.
  - reflexivity.
  - exists out, w'. split; [exact Hrun | exact Himage].
Defined.

(** ** From the composer to the checker *)

Section Handover.
Context `{NumPy}.

Lemma variations_loop_exists (self : Composer) (hero_image : positive)
    (campaign_message product_folder : string) (ratios generated_paths paths : list string)
    (w w' : World) :
  variations_loop self hero_image campaign_message product_folder ratios generated_paths w
  = (Ok paths, w') ->
  forall ratio, In ratio ratios ->
  exists f im, disk w' !! path_div product_folder (ratio ++ ".png") = Some f
               /\ file_image f = Some im /\ file_is_dir f = false.
Proof.
  revert generated_paths w.
  induction ratios as [|ratio rest IH]; intros generated_paths w E ratio' Hin; [destruct Hin|].
  cbn [variations_loop] in E.
  apply bind_ok in E as (copied & w1 & _ & E).
  apply bind_ok in E as (resized & w2 & _ & E).
  apply bind_ok in E as (with_text & w3 & _ & E).
  apply bind_ok in E as (final & w4 & _ & E).
  cbv zeta in E. apply bind_ok in E as ([] & w5 & Hsave & E).
  apply image_save_ok in Hsave as (im & _ & Hd5).
  destruct Hin as [<-|Hin]; [|exact (IH _ _ E ratio' Hin)].
  destruct (in_dec String.string_dec (path_div product_folder (ratio ++ ".png"))
              (List.map (fun r => path_div product_folder (r ++ ".png")) rest))
    as [Hlater|Hlast].
  - apply in_map_iff in Hlater as (ratio'' & Heq & Hin'').
    rewrite <- Heq. exact (IH _ _ E ratio'' Hin'').
  - destruct (variations_loop_disk _ _ _ _ _ _ _ _ _ E) as [Hframe _].
    rewrite (Hframe _ Hlast), Hd5, lookup_insert_eq.
    eexists _, im. split; [reflexivity|]. split; reflexivity.
Qed.

(** X22: every path that [create_variations] returns can be handed to the
    compliance check, as the pipeline does: the file is there and holds an
    image, so [run_full_compliance_check] returns a report for it, for the
    path it was given and stamped with the modification time of the file,
    and leaves the files as they are.  It raises in one case only: when
    [exists()] raises on the logo path of the brand. *)
Theorem variations_can_be_checked (self : Composer) (brand : BrandConfig)
    (hero_image_path campaign_message product_id output_folder : string)
    (ratios : option (list string)) (w w' : World) (paths : list string) (p : string) :
  create_variations self hero_image_path campaign_message product_id output_folder ratios w
  = (Ok paths, w') ->
  In p paths ->
  exists f im,
    disk w' !! p = Some f /\ file_image f = Some im /\ file_is_dir f = false
    /\ ((forall e, ~ logo_refused brand w' e) ->
        exists report w'',
          run_full_compliance_check brand p campaign_message w' = (Ok report, w'')
          /\ report_image report = p /\ timestamp report = st_mtime f
          /\ legal_content report = check_legal_content campaign_message
          /\ disk w'' = disk w')
    /\ (forall e, logo_refused brand w' e ->
        run_full_compliance_check brand p campaign_message w' = (Raise e, w')).
Proof.
  intros Hrun Hin.
  assert (Hfile : exists f im, disk w' !! p = Some f /\ file_image f = Some im
                               /\ file_is_dir f = false).
  { unfold create_variations in Hrun. apply try_reraise_ok in Hrun.
    apply bind_ok in Hrun as (opened & w1 & _ & Hrun).
    apply bind_ok in Hrun as (hi & w2 & _ & Hrun).
    apply bind_ok in Hrun as (hero_image & w3 & _ & Hrun).
    cbv zeta in Hrun. apply bind_ok in Hrun as ([] & w4 & _ & Hrun).
    pose proof (variations_loop_paths _ _ _ _ _ _ _ _ _ Hrun) as Hpaths.
    cbn [app] in Hpaths. subst paths.
    apply in_map_iff in Hin as (ratio & <- & Hratio).
    exact (variations_loop_exists _ _ _ _ _ _ _ _ _ Hrun ratio Hratio). }
  destruct Hfile as (f & im & Hf & Him & Hdir).
  exists f, im.
  split; [exact Hf|]. split; [exact Him|]. split; [exact Hdir|]. split.
  - intros Hok.
    destruct (check_logo_presence_returns brand p w' Hok) as (lr & w1 & Hl).
    destruct (validate_brand_colors_returns brand p None w1) as (cr & w2 & Hc).
    eexists _, w2. split.
    { unfold run_full_compliance_check, bind at 1, stat_mtime. rewrite Hf.
      unfold bind at 1. rewrite Hl. unfold bind at 1. rewrite Hc. reflexivity. }
    cbn [report_image timestamp legal_content].
    split; [reflexivity|]. split; [reflexivity|]. split; [reflexivity|].
    destruct (heap_only_check_logo_presence w' brand p None w' (extends_refl w')) as [_ Hd1].
    destruct (heap_only_validate_brand_colors w1 brand p None w1 (extends_refl w1)) as [_ Hd2].
    rewrite Hl in Hd1. rewrite Hc in Hd2. cbn [snd] in Hd1, Hd2. congruence.
  - intros e Href.
    pose proof (full_check_outcome brand p campaign_message w') as Hout.
    destruct (run_full_compliance_check brand p campaign_message w') as [[r|e'] w2].
    + destruct Hout as [_ Hok]. now destruct (Hok e).
    + destruct Hout as [-> [[Hnone _]|[_ Href']]]; [congruence|].
      destruct Href as (c & q & Hq & _ & He), Href' as (c' & q' & Hq' & _ & He').
      rewrite Hq in Hq'. injection Hq' as <- <-. congruence.
Qed.

End Handover.

Lemma variations_can_be_checked_witness :
  exists w' report w'',
    snd (create_variations (H := Fixture.pillow) Fixture.composer0 "assets/hero.png"
           Fixture.short_message "prod1" "outputs/camp" (Some ["1x1"]) Fixture.world0) = w'
    /\ run_full_compliance_check (H0 := Fixture.numpy) Fixture.brand0
         "outputs/camp/prod1/1x1.png" Fixture.short_message w' = (Ok report, w'')
    /\ report_image report = "outputs/camp/prod1/1x1.png".
Proof.
  destruct (create_variations (H := Fixture.pillow) Fixture.composer0 "assets/hero.png"
              Fixture.short_message "prod1" "outputs/camp" (Some ["1x1"]) Fixture.world0)
    as [res w'] eqn:Hrun.
  assert (Hres : res = Ok ["outputs/camp/prod1/1x1.png"]).
  { change res with (fst (res, w')). rewrite <- Hrun. reflexivity. }
  subst res.
  destruct (@variations_can_be_checked Fixture.pillow Fixture.numpy _ Fixture.brand0
              _ _ _ _ _ _ _ _ "outputs/camp/prod1/1x1.png" Hrun (or_introl eq_refl))
    as (f & im & _ & _ & _ & Hcheck & _).
  destruct Hcheck as (report & w'' & Hcheck & Himage & _).
  - intros e (c & q & Hq & _). discriminate Hq.
  - exists w', report, w''. split; [reflexivity|]. split; [exact Hcheck | exact Himage].
Defined.

(** ** The assets of the products *)

Section AssetProperties.
Context `{Assets.Verifier}.
Import Assets.

Lemma image_open_attrs (p : string) (w : World) (f : File) (size : Header) :
  disk w !! p = Some f -> file_attrs f = Some size ->
  exists r w1, image_open p w = (Ok r, w1) /\ image_attrs r w1 = (Ok size, w1)
    /\ disk w1 = disk w.
Proof.
  intros Hf Ha. unfold image_open, file_attrs in *. rewrite Hf.
  destruct (fresh_not_live w) as [Hfh Hfu].
  destruct (file_image f) as [im|].
  - injection Ha as <-. eexists _, _. split; [reflexivity|]. split; [|reflexivity].
    unfold image_attrs. cbn [heap set_heap]. now rewrite lookup_insert_eq.
  - rewrite Ha. eexists _, _. split; [reflexivity|]. split; [|reflexivity].
    unfold image_attrs. cbn [heap unloaded set_unloaded]. rewrite Hfh.
    now rewrite lookup_insert_eq.
Qed.

Lemma image_verify_unchanged (img : positive) (p : string) (w : World) :
  snd (image_verify img p w) = w.
Proof.
  unfold image_verify, bind. pose proof (image_attrs_unchanged img w) as Ha.
  destruct (image_attrs img w) as [[a|e] w1]; cbn [snd] in *; subst w1; [|reflexivity].
  now destruct (disk w !! p).
Qed.

Lemma heap_only_validate_image (w0 : World) (self : AssetManager) (image_path : string) :
  heap_only w0 (validate_image self image_path).
Proof.
  unfold validate_image.
  apply heap_only_try; [|intros e; apply heap_only_ret].
  apply heap_only_bind; [apply heap_only_image_open|]. intros img ? ? _ _.
  apply heap_only_bind; [apply heap_only_unchanged, image_verify_unchanged|].
  intros u ? ? _ _.
  apply heap_only_bind; [apply heap_only_image_open|]. intros img2 ? ? _ _.
  apply heap_only_bind; [apply heap_only_image_attrs|]. intros size ? ? _ _.
  cbv zeta. destruct (_ || _); [apply heap_only_ret|].
  destruct (_ || _); apply heap_only_ret.
Qed.

Lemma keeps_policy_validate_image (self : AssetManager) (image_path : string) :
  keeps_policy (validate_image self image_path).
Proof.
  unfold validate_image.
  apply keeps_policy_try; [|intros e; now apply keeps_policy_unchanged].
  apply keeps_policy_bind; [apply keeps_policy_image_open | intros img].
  apply keeps_policy_bind; [apply keeps_policy_unchanged, image_verify_unchanged | intros _].
  apply keeps_policy_bind; [apply keeps_policy_image_open | intros img2].
  apply keeps_policy_bind; [apply keeps_policy_unchanged, image_attrs_unchanged | intros size].
  cbv zeta. destruct (_ || _); [now apply keeps_policy_unchanged|].
  destruct (_ || _); now apply keeps_policy_unchanged.
Qed.

(** What [validate_image] answers, read off the disk. *)
Lemma validate_image_value (self : AssetManager) (image_path : string) (w : World) :
  exists b, fst (validate_image self image_path w) = Ok b
            /\ (b = true <-> valid_asset (disk w) image_path).
Proof.
  unfold validate_image, try_except, valid_asset.
  destruct (disk w !! image_path) as [f|] eqn:Hf.
  2:{ exists false. split.
      - unfold bind at 1, image_open. now rewrite Hf.
      - split; [discriminate|]. intros (f & size & Hf' & _). discriminate. }
  destruct (file_attrs f) as [size|] eqn:Ha.
  2:{ exists false. split.
      - unfold bind at 1, image_open. rewrite Hf. unfold file_attrs in Ha.
        destruct (file_image f); [discriminate|]. now rewrite Ha.
      - split; [discriminate|]. intros (f' & size & Hf' & Ha' & _). congruence. }
  destruct (image_open_attrs image_path w f size Hf Ha) as (r1 & w1 & E1 & A1 & Hd1).
  unfold bind at 1. rewrite E1.
  unfold bind at 1, image_verify, bind at 1. rewrite A1, Hd1, Hf.
  destruct (verify f) as [[]|e] eqn:Hv.
  2:{ exists false. split; [reflexivity|]. split; [discriminate|].
      intros (f' & size' & Hf' & _ & Hv' & _). congruence. }
  assert (Hf1 : disk w1 !! image_path = Some f) by now rewrite Hd1.
  destruct (image_open_attrs image_path w1 f size Hf1 Ha) as (r2 & w2 & E2 & A2 & Hd2).
  unfold bind at 1. rewrite E2. unfold bind at 1. rewrite A2. cbv zeta.
  destruct (Z.ltb_spec (header_width size) 100) as [Hw1|Hw1];
    destruct (Z.ltb_spec (header_height size) 100) as [Hh1|Hh1]; cbn [orb];
    try (exists false; split; [reflexivity|]; split; [discriminate|];
         intros (f' & size' & Hf' & Ha' & _ & Hw' & Hh');
         assert (size' = size) by congruence; subst size'; lia).
  destruct (Z.ltb_spec 10000 (header_width size)) as [Hw2|Hw2];
    destruct (Z.ltb_spec 10000 (header_height size)) as [Hh2|Hh2]; cbn [orb];
    try (exists false; split; [reflexivity|]; split; [discriminate|];
         intros (f' & size' & Hf' & Ha' & _ & Hw' & Hh');
         assert (size' = size) by congruence; subst size'; lia).
  exists true. split; [reflexivity|]. split; [|reflexivity].
  intros _. exists f, size. repeat split; (assumption || lia).
Qed.

Lemma validate_image_run (self : AssetManager) (image_path : string) (w : World) :
  exists b w', validate_image self image_path w = (Ok b, w')
    /\ disk w' = disk w /\ extends w w' /\ stat_error w' = stat_error w
    /\ (b = true <-> valid_asset (disk w) image_path).
Proof.
  destruct (validate_image_value self image_path w) as (b & Hb & Hiff).
  destruct (heap_only_validate_image w self image_path w (extends_refl w)) as [Hext Hd].
  destruct (keeps_policy_validate_image self image_path w) as [_ Hse].
  destruct (validate_image self image_path w) as [res w']. cbn [fst snd] in *. subst res.
  now exists b, w'.
Qed.

(** X23: [validate_image] never raises and only reads: it answers [True]
    exactly when the file is identified as an image, passes Pillow's
    integrity check, and both its sides are from 100 to 10000 pixels; a
    missing file, a file that is no image and an image of 99 or 10001
    pixels give [False].  No pixel is decoded: a file with a sound header
    and truncated pixel data is accepted when the integrity check lets it
    through. *)
Theorem validate_image_accepts (self : AssetManager) (image_path : string) (w : World) :
  exists b w',
    validate_image self image_path w = (Ok b, w')
    /\ disk w' = disk w
    /\ (forall r im, heap w !! r = Some im -> heap w' !! r = Some im)
    /\ (b = true <->
        exists f size, disk w !! image_path = Some f /\ file_attrs f = Some size
          /\ verify f = Ok tt
          /\ 100 <= header_width size <= 10000 /\ 100 <= header_height size <= 10000)
    /\ (forall f header,
          disk w !! image_path = Some f ->
          file_image f = None -> file_header f = Some header -> verify f = Ok tt ->
          100 <= header_width header <= 10000 -> 100 <= header_height header <= 10000 ->
          b = true).
Proof.
  destruct (validate_image_run self image_path w) as (b & w' & E & Hd & Hx & _ & Hiff).
  exists b, w'. split; [exact E|]. split; [exact Hd|]. split; [exact Hx|].
  split; [exact Hiff|].
  intros f header Hf Him Hh Hv Hw Hht. apply Hiff. exists f, header.
  split; [exact Hf|]. split; [|now repeat split].
  unfold file_attrs. now rewrite Him.
Qed.

Lemma find_asset_run (self : AssetManager) (product_id : string) (exts : list string)
    (w : World) :
  (forall ext, In ext exts -> reachable w (asset_at self product_id ext)) ->
  exists found w', find_asset self product_id exts w = (Ok found, w')
    /\ disk w' = disk w /\ extends w w' /\ stat_error w' = stat_error w
    /\ match found with
       | Some p => first_valid (disk w) self product_id exts p
       | None => none_valid (disk w) self product_id exts
       end.
Proof.
  revert w. induction exts as [|ext rest IH]; intros w Hreach; cbn [find_asset].
  - exists None, w. split; [reflexivity|]. split; [reflexivity|].
    split; [apply extends_refl|]. split; [reflexivity|]. intros e [].
  - cbv zeta. fold (asset_at self product_id ext).
    assert (Hcons : forall w1, disk w1 = disk w -> extends w w1 ->
              stat_error w1 = stat_error w ->
              ~ valid_asset (disk w) (asset_at self product_id ext) ->
              exists found w', find_asset self product_id rest w1 = (Ok found, w')
                /\ disk w' = disk w /\ extends w w' /\ stat_error w' = stat_error w
                /\ match found with
                   | Some p => first_valid (disk w) self product_id (ext :: rest) p
                   | None => none_valid (disk w) self product_id (ext :: rest)
                   end).
    { intros w1 Hd1 Hx1 Hs1 Hbad.
      destruct (IH w1) as (found & w' & E & Hd & Hx & Hs & Hres).
      { intros e Hin. unfold reachable. rewrite Hd1, Hs1. apply Hreach. now right. }
      exists found, w'. split; [exact E|]. split; [congruence|].
      split; [intros r im Hr; apply Hx, Hx1, Hr|]. split; [congruence|].
      rewrite Hd1 in Hres. destruct found as [p|].
      - destruct Hres as (pre & e & post & -> & Hp & Hv & Hpre).
        exists (ext :: pre), e, post. split; [reflexivity|]. split; [assumption|].
        split; [assumption|]. intros e' [<-|Hin]; [assumption | now apply Hpre].
      - intros e' [<-|Hin]; [assumption | now apply Hres]. }
    unfold bind at 1.
    destruct (path_exists (asset_at self product_id ext) w) as [[found|e] w0] eqn:Hex.
    2:{ exfalso. unfold path_exists in Hex.
        destruct (disk w !! asset_at self product_id ext) eqn:Hd; [discriminate|].
        rewrite (Hreach ext (or_introl eq_refl) Hd) in Hex. discriminate. }
    apply path_exists_ok in Hex as [-> Hfound]. destruct found.
    + destruct (validate_image_run self (asset_at self product_id ext) w)
        as (b & w1 & Ev & Hd1 & Hx1 & Hs1 & Hiff).
      unfold bind at 1. rewrite Ev. destruct b.
      * exists (Some (asset_at self product_id ext)), w1.
        split; [reflexivity|]. split; [assumption|]. split; [assumption|].
        split; [assumption|].
        exists [], ext, rest. split; [reflexivity|]. split; [reflexivity|].
        split; [now apply Hiff | intros e []].
      * apply Hcons; [assumption | assumption | assumption |].
        intros Hv. apply Hiff in Hv. discriminate.
    + apply Hcons; [reflexivity | apply extends_refl | reflexivity |].
      intros (f & size & Hf & _). destruct Hfound as [Hnone _]. congruence.
Qed.

Lemma first_valid_not_none (d : gmap string File) (self : AssetManager)
    (product_id : string) (exts : list string) (p : string) :
  first_valid d self product_id exts p -> none_valid d self product_id exts -> False.
Proof.
  intros (pre & ext & post & -> & -> & Hv & _) Hnone.
  apply (Hnone ext); [|assumption]. apply in_or_app. right. now left.
Qed.

Lemma first_valid_unique (d : gmap string File) (self : AssetManager)
    (product_id : string) (exts : list string) (p q : string) :
  first_valid d self product_id exts p -> first_valid d self product_id exts q -> p = q.
Proof.
  revert p q. induction exts as [|e rest IH]; intros p q Hp Hq.
  - destruct Hp as ([|? ?] & ? & ? & Heq & _); discriminate.
  - destruct Hp as (pre1 & e1 & post1 & Heq1 & -> & Hv1 & Hpre1).
    destruct Hq as (pre2 & e2 & post2 & Heq2 & -> & Hv2 & Hpre2).
    destruct pre1 as [|a1 pre1], pre2 as [|a2 pre2]; cbn [app] in Heq1, Heq2.
    + congruence.
    + injection Heq1 as <- _. injection Heq2 as <- _.
      exfalso. apply (Hpre2 e); [now left | assumption].
    + injection Heq1 as <- _. injection Heq2 as <- _.
      exfalso. apply (Hpre1 e); [now left | assumption].
    + injection Heq1 as <- ->. injection Heq2 as <- Heq2.
      apply IH.
      * exists pre1, e1, post1. split; [reflexivity|]. split; [reflexivity|].
        split; [assumption|]. intros x Hx. apply Hpre1. now right.
      * exists pre2, e2, post2. split; [assumption|]. split; [reflexivity|].
        split; [assumption|]. intros x Hx. apply Hpre2. now right.
Qed.

Lemma dict_set_keys_old {V : Type} (d : list (string * V)) (key : string) (v : V) :
  In key (dict_keys d) -> dict_keys (dict_set d key v) = dict_keys d.
Proof.
  induction d as [|[k v'] d IH]; cbn [dict_keys List.map dict_set fst]; [intros []|].
  destruct (String.eqb_spec k key) as [->|Hne]; [reflexivity|].
  intros [Heq|Hin]; [contradiction|]. cbn [List.map fst]. f_equal. now apply IH.
Qed.

Lemma dict_set_keys_cases {V : Type} (d : list (string * V)) (key : string) (v : V) :
  forall k, In k (dict_keys (dict_set d key v)) <-> In k (dict_keys d) \/ k = key.
Proof.
  intros k. destruct (in_dec String.string_dec key (dict_keys d)) as [Hin|Hnotin].
  - rewrite dict_set_keys_old by assumption. split; [now left|].
    intros [Hk| ->]; assumption.
  - rewrite dict_set_keys_new by assumption. rewrite in_app_iff. cbn [In].
    split; [intros [Hk|[<-|[]]]; [now left | now right]
           | intros [Hk| ->]; [now left | right; now left]].
Qed.

Lemma nodup_snoc {A : Type} (l : list A) (x : A) :
  List.NoDup l -> ~ In x l -> List.NoDup (l ++ [x]).
Proof.
  induction l as [|a l IH]; cbn [app]; intros Hnd Hx.
  - constructor; [intros [] | constructor].
  - apply List.NoDup_cons_iff in Hnd as [Ha Hnd]. constructor.
    + rewrite in_app_iff. intros [Hin|[<-|[]]]; [contradiction|]. apply Hx. now left.
    + apply IH; [assumption|]. intros Hin. apply Hx. now right.
Qed.

Lemma dict_set_nodup {V : Type} (d : list (string * V)) (key : string) (v : V) :
  List.NoDup (dict_keys d) -> List.NoDup (dict_keys (dict_set d key v)).
Proof.
  intros Hnd. destruct (in_dec String.string_dec key (dict_keys d)) as [Hin|Hnotin].
  - now rewrite dict_set_keys_old.
  - rewrite dict_set_keys_new by assumption. now apply nodup_snoc.
Qed.

(** What the loop over the products leaves in the dict and the list. *)
Lemma check_loop_run (self : AssetManager) (products : list Product)
    (existing : list (string * string)) (missing : list Product) (w : World) :
  (forall product pid ext, In product products -> product_id_of product = Some pid ->
     In ext extensions -> reachable w (asset_at self pid ext)) ->
  exists existing' added w',
    check_loop self products existing missing w = (Ok (existing', (missing ++ added)%list), w')
    /\ disk w' = disk w /\ extends w w' /\ stat_error w' = stat_error w
    /\ sublist added products
    /\ (forall product, In product added <->
          In product products
          /\ exists pid, product_id_of product = Some pid
                         /\ none_valid (disk w) self pid extensions)
    /\ (forall pid, In pid (dict_keys existing') <->
          In pid (dict_keys existing)
          \/ exists product, In product products /\ product_id_of product = Some pid
                             /\ exists p, first_valid (disk w) self pid extensions p)
    /\ (forall pid p, In (pid, p) existing' ->
          In (pid, p) existing \/ first_valid (disk w) self pid extensions p)
    /\ (List.NoDup (dict_keys existing) -> List.NoDup (dict_keys existing')).
Proof.
  revert existing missing w.
  induction products as [|product rest IH]; intros existing missing w Hreach;
    cbn [check_loop].
  - exists existing, [], w. rewrite app_nil_r. split; [reflexivity|].
    split; [reflexivity|]. split; [apply extends_refl|]. split; [reflexivity|].
    split; [constructor|].
    split; [intros product; split; [intros [] | intros [[] _]]|].
    split; [intros pid; split; [now left | intros [Hin|(product & [] & _)]; assumption]|].
    split; [intros pid p Hin; now left | auto].
  - assert (Hskip : product_id_of product = None ->
              exists existing' added w',
                check_loop self rest existing missing w
                = (Ok (existing', (missing ++ added)%list), w')
                /\ disk w' = disk w /\ extends w w' /\ stat_error w' = stat_error w
                /\ sublist added (product :: rest)
                /\ (forall product0, In product0 added <->
                      In product0 (product :: rest)
                      /\ exists pid, product_id_of product0 = Some pid
                                     /\ none_valid (disk w) self pid extensions)
                /\ (forall pid, In pid (dict_keys existing') <->
                      In pid (dict_keys existing)
                      \/ exists product0, In product0 (product :: rest)
                           /\ product_id_of product0 = Some pid
                           /\ exists p, first_valid (disk w) self pid extensions p)
                /\ (forall pid p, In (pid, p) existing' ->
                      In (pid, p) existing \/ first_valid (disk w) self pid extensions p)
                /\ (List.NoDup (dict_keys existing) -> List.NoDup (dict_keys existing'))).
    { intros Hnoid.
      destruct (IH existing missing w)
        as (existing' & added & w' & E & Hd & Hx & Hs & Hsub & Hmiss & Hkeys & Hvals & Hnd).
      { intros product0 pid ext Hin. apply Hreach. now right. }
      exists existing', added, w'. split; [exact E|]. split; [assumption|].
      split; [assumption|]. split; [assumption|]. split; [now constructor|].
      split.
      { intros product0. rewrite Hmiss. split.
        - intros [Hin Hlack]. split; [now right | assumption].
        - intros [[<-|Hin] (pid & Hpid & Hlack)]; [congruence|].
          split; [assumption | now exists pid]. }
      split.
      { intros pid. rewrite Hkeys. split.
        - intros [Hin|(product0 & Hin & Hrest)]; [now left|].
          right. exists product0. split; [now right | assumption].
        - intros [Hin|(product0 & [<-|Hin] & Hpid & Hrest)]; [now left | congruence |].
          right. now exists product0. }
      split; assumption. }
    unfold product_id_of in Hskip.
    destruct (dict_lookup product "id") as [[|c s]|] eqn:Hid; try (apply Hskip; reflexivity).
    clear Hskip.
    assert (Hpid : product_id_of product = Some (String c s))
      by (unfold product_id_of; now rewrite Hid).
    destruct (find_asset_run self (String c s) extensions w)
      as (found & w1 & Efind & Hd1 & Hx1 & Hs1 & Hfound).
    { intros ext Hin. exact (Hreach product _ ext (or_introl eq_refl) Hpid Hin). }
    assert (Hreach1 : forall product0 pid ext, In product0 rest ->
              product_id_of product0 = Some pid -> In ext extensions ->
              reachable w1 (asset_at self pid ext)).
    { intros product0 pid ext Hin Hp0 He. unfold reachable. rewrite Hd1, Hs1.
      apply (Hreach product0); [now right | assumption | assumption]. }
    unfold bind at 1. rewrite Efind.
    destruct found as [asset_path|].
    + destruct (IH (dict_set existing (String c s) asset_path) missing w1 Hreach1)
        as (existing' & added & w' & E & Hd & Hx & Hs & Hsub & Hmiss & Hkeys & Hvals & Hnd).
      rewrite Hd1 in Hmiss, Hkeys, Hvals.
      exists existing', added, w'. split; [exact E|]. split; [congruence|].
      split; [intros r im Hr; apply Hx, Hx1, Hr|]. split; [congruence|].
      split; [now constructor|].
      split.
      { intros product0. rewrite Hmiss. split.
        - intros [Hin Hlack]. split; [now right | assumption].
        - intros [[<-|Hin] (pid & Hpid0 & Hlack)].
          + exfalso. rewrite Hpid in Hpid0. injection Hpid0 as <-.
            exact (first_valid_not_none _ _ _ _ _ Hfound Hlack).
          + split; [assumption | now exists pid]. }
      split.
      { intros pid. rewrite Hkeys, dict_set_keys_cases. split.
        - intros [[Hin| ->]|(product0 & Hin & Hrest)].
          + now left.
          + right. exists product. split; [now left|]. split; [assumption|].
            now exists asset_path.
          + right. exists product0. split; [now right | assumption].
        - intros [Hin|(product0 & [<-|Hin] & Hpid0 & Hrest)].
          + left. now left.
          + rewrite Hpid in Hpid0. injection Hpid0 as <-. left. now right.
          + right. now exists product0. }
      split.
      { intros pid p Hin. destruct (Hvals pid p Hin) as [Hold|Hnew]; [|now right].
        apply dict_set_In in Hold as [Hold|[-> ->]]; [now left | now right]. }
      intros Hnd0. apply Hnd. now apply dict_set_nodup.
    + destruct (IH existing (missing ++ [product])%list w1 Hreach1)
        as (existing' & added & w' & E & Hd & Hx & Hs & Hsub & Hmiss & Hkeys & Hvals & Hnd).
      rewrite Hd1 in Hmiss, Hkeys, Hvals.
      exists existing', (product :: added), w'.
      split; [rewrite E, <- app_assoc; reflexivity|]. split; [congruence|].
      split; [intros r im Hr; apply Hx, Hx1, Hr|]. split; [congruence|].
      split; [now constructor|].
      split.
      { intros product0. cbn [In]. rewrite Hmiss. split.
        - intros [<-|[Hin Hlack]].
          + split; [now left | now exists (String c s)].
          + split; [now right | assumption].
        - intros [[<-|Hin] Hlack]; [now left | right; now split]. }
      split.
      { intros pid. rewrite Hkeys. split.
        - intros [Hin|(product0 & Hin & Hrest)]; [now left|].
          right. exists product0. split; [now right | assumption].
        - intros [Hin|(product0 & [<-|Hin] & Hpid0 & p & Hp)]; [now left | |].
          + exfalso. rewrite Hpid in Hpid0. injection Hpid0 as <-.
            exact (first_valid_not_none _ _ _ _ _ Hp Hfound).
          + right. exists product0. split; [assumption|]. split; [assumption|].
            now exists p. }
      split; assumption.
Qed.

(** A refused path met before any valid asset makes the search raise. *)
Lemma find_asset_refused (self : AssetManager) (product_id ext : string) (rest : list string)
    (w : World) (e : string) :
  disk w !! asset_at self product_id ext = None ->
  stat_error w (asset_at self product_id ext) = Some e ->
  find_asset self product_id (ext :: rest) w = (Raise e, w).
Proof.
  intros Hd He. cbn [find_asset]. cbv zeta. fold (asset_at self product_id ext).
  unfold bind at 1, path_exists. now rewrite Hd, He.
Qed.

(** X24: [check_existing_assets] only reads the disk, and returns unless
    [exists()] raises on an asset path that the operating system refuses
    (as it does on the [.png] path of the first product, then with that
    error).  It sorts the products that have a non-empty id: [missing]
    lists, in the order of the brief, those without a valid file under any
    of the four extensions, and [existing] maps the id of every other one
    to its asset, the first of [.png], [.jpg], [.jpeg], [.webp] that holds
    a valid file, each id once.  No product is in both, and a product
    without an id is in neither. *)
Theorem check_existing_assets_partition (self : AssetManager) (products : list Product)
    (w : World) :
  ((forall product pid ext, In product products -> product_id_of product = Some pid ->
      In ext extensions -> reachable w (asset_at self pid ext)) ->
   exists existing missing w',
     check_existing_assets self products w = (Ok (existing, missing), w')
     /\ disk w' = disk w
     /\ sublist missing products
     /\ (forall product, In product missing <->
           In product products
           /\ exists pid, product_id_of product = Some pid
                          /\ none_valid (disk w) self pid extensions)
     /\ List.NoDup (dict_keys existing)
     /\ (forall pid p, In (pid, p) existing <->
           (exists product, In product products /\ product_id_of product = Some pid)
           /\ first_valid (disk w) self pid extensions p)
     /\ (forall product pid, In product products -> product_id_of product = Some pid ->
           (In pid (dict_keys existing) /\ ~ In product missing)
           \/ (In product missing /\ ~ In pid (dict_keys existing)))
     /\ (forall product, In product products -> product_id_of product = None ->
           ~ In product missing))
  /\ (forall product rest pid e,
        products = product :: rest -> product_id_of product = Some pid ->
        disk w !! asset_at self pid ".png" = None ->
        stat_error w (asset_at self pid ".png") = Some e ->
        check_existing_assets self products w = (Raise e, w)).
Proof.
  split.
  2:{ intros product rest pid e -> Hpid Hd He.
      unfold check_existing_assets. cbn [check_loop].
      unfold product_id_of in Hpid.
      destruct (dict_lookup product "id") as [[|c s]|]; try discriminate.
      injection Hpid as <-. unfold bind at 1.
      change extensions with (".png" :: [".jpg"; ".jpeg"; ".webp"]).
      now rewrite (find_asset_refused self (String c s) ".png" _ w e Hd He). }
  intros Hreach.
  destruct (check_loop_run self products [] [] w Hreach)
    as (existing & missing & w' & E & Hd & _ & _ & Hsub & Hmiss & Hkeys & Hvals & Hnd).
  cbn [app] in E.
  assert (Hkeys' : forall pid, In pid (dict_keys existing) <->
            exists product, In product products /\ product_id_of product = Some pid
              /\ exists p, first_valid (disk w) self pid extensions p).
  { intros pid. rewrite Hkeys. cbn [dict_keys List.map In]. tauto. }
  exists existing, missing, w'. split; [exact E|]. split; [assumption|].
  split; [assumption|]. split; [assumption|].
  split; [apply Hnd; constructor|].
  split.
  { intros pid p. split.
    - intros Hin. destruct (Hvals pid p Hin) as [[]|Hp]. split; [|assumption].
      assert (Hk : In pid (dict_keys existing))
        by (apply in_map_iff; now exists (pid, p)).
      apply Hkeys' in Hk as (product & Hin' & Hpid & _). now exists product.
    - intros [(product & Hin & Hpid) Hp].
      assert (Hk : In pid (dict_keys existing)).
      { apply Hkeys'. exists product. split; [assumption|]. split; [assumption|].
        now exists p. }
      apply in_map_iff in Hk as ([pid' p'] & Heq & Hin'). cbn [fst] in Heq. subst pid'.
      destruct (Hvals pid p' Hin') as [[]|Hp'].
      now rewrite (first_valid_unique _ _ _ _ _ _ Hp Hp'). }
  split.
  { intros product pid Hin Hpid.
    destruct (find_asset_run self pid extensions w)
      as ([p|] & w1 & _ & _ & _ & _ & Hfound).
    { intros ext He. exact (Hreach product pid ext Hin Hpid He). }
    - left. split.
      + apply Hkeys'. exists product. split; [assumption|]. split; [assumption|].
        now exists p.
      + intros Hm. apply Hmiss in Hm as (_ & pid' & Hpid' & Hnone).
        rewrite Hpid in Hpid'. injection Hpid' as <-.
        exact (first_valid_not_none _ _ _ _ _ Hfound Hnone).
    - right. split.
      + apply Hmiss. split; [assumption | now exists pid].
      + intros Hk. apply Hkeys' in Hk as (_ & _ & _ & p & Hp).
        exact (first_valid_not_none _ _ _ _ _ Hp Hfound). }
  intros product Hin Hnoid Hm. apply Hmiss in Hm as (_ & pid & Hpid & _). congruence.
Qed.

(** The loop of [get_asset_path] stops at the first path that is there, or
    on the first path that is refused. *)
Lemma first_existing_run (self : AssetManager) (product_id : string) (exts : list string)
    (w : World) :
  let absent := fun e => disk w !! asset_at self product_id e = None
                         /\ stat_error w (asset_at self product_id e) = None in
  match first_existing self product_id exts w with
  | (Ok found, w') =>
      w' = w
      /\ match found with
         | Some p =>
             exists pre ext post, exts = (pre ++ ext :: post)%list
               /\ p = asset_at self product_id ext /\ is_Some (disk w !! p)
               /\ forall e, In e pre -> absent e
         | None => forall e, In e exts -> absent e
         end
  | (Raise err, w') =>
      w' = w
      /\ exists pre ext post, exts = (pre ++ ext :: post)%list
           /\ disk w !! asset_at self product_id ext = None
           /\ stat_error w (asset_at self product_id ext) = Some err
           /\ forall e, In e pre -> absent e
  end.
Proof.
  cbv zeta. induction exts as [|ext rest IH]; cbn [first_existing].
  - split; [reflexivity | intros e []].
  - cbv zeta. fold (asset_at self product_id ext). unfold bind at 1, path_exists.
    destruct (disk w !! asset_at self product_id ext) as [f|] eqn:Hd.
    + cbn [ret]. split; [reflexivity|].
      exists [], ext, rest. split; [reflexivity|]. split; [reflexivity|].
      split; [rewrite Hd; now exists f | intros e []].
    + destruct (stat_error w (asset_at self product_id ext)) as [err|] eqn:He.
      * split; [reflexivity|]. exists [], ext, rest.
        split; [reflexivity|]. split; [assumption|]. split; [assumption | intros e []].
      * destruct (first_existing self product_id rest w) as [[[p|]|err] w'].
        -- destruct IH as (-> & pre & e & post & -> & Hp & Hsome & Hpre).
           split; [reflexivity|].
           exists (ext :: pre), e, post. split; [reflexivity|]. split; [assumption|].
           split; [assumption|]. intros e' [<-|Hin]; [now split | now apply Hpre].
        -- destruct IH as (-> & Hnone). split; [reflexivity|].
           intros e' [<-|Hin]; [now split | now apply Hnone].
        -- destruct IH as (-> & pre & e & post & -> & Hdn & Hse & Hpre).
           split; [reflexivity|].
           exists (ext :: pre), e, post. split; [reflexivity|]. split; [assumption|].
           split; [assumption|]. intros e' [<-|Hin]; [now split | now apply Hpre].
Qed.

(** X25: [get_asset_path] changes nothing.  It returns the asset of the
    first of the four extensions that has a file, valid or not, and the
    [.png] path when none has one; it raises only when [exists()] does, on
    a path that the operating system refuses and that comes before any
    file.  So when [check_existing_assets] has an asset for the product
    and [get_asset_path] returns, it returns a file that exists: the same
    file when that one is valid, and otherwise a different file, one that
    [validate_image] rejects. *)
Theorem get_asset_path_first_existing (self : AssetManager) (product_id : string)
    (w : World) :
  let absent := fun e => disk w !! asset_at self product_id e = None
                         /\ stat_error w (asset_at self product_id e) = None in
  match get_asset_path self product_id w with
  | (Ok p, w') =>
      w' = w
      /\ ((exists pre ext post, extensions = (pre ++ ext :: post)%list
             /\ p = asset_at self product_id ext /\ is_Some (disk w !! p)
             /\ forall e, In e pre -> absent e)
          \/ (p = asset_at self product_id ".png"
              /\ forall e, In e extensions -> absent e))
      /\ (forall q, first_valid (disk w) self product_id extensions q ->
            is_Some (disk w !! p)
            /\ (valid_asset (disk w) p -> p = q)
            /\ (~ valid_asset (disk w) p -> p <> q))
  | (Raise err, w') =>
      w' = w
      /\ exists pre ext post, extensions = (pre ++ ext :: post)%list
           /\ disk w !! asset_at self product_id ext = None
           /\ stat_error w (asset_at self product_id ext) = Some err
           /\ forall e, In e pre -> absent e
  end.
Proof.
  cbv zeta.
  pose proof (first_existing_run self product_id extensions w) as Hrun. cbv zeta in Hrun.
  unfold get_asset_path, bind.
  destruct (first_existing self product_id extensions w) as [[[p|]|err] w'].
  - destruct Hrun as (-> & pre & ext & post & Hexts & Hp & Hsome & Hpre).
    cbn [ret]. split; [reflexivity|]. split.
    { left. now exists pre, ext, post. }
    intros q Hq. split; [assumption|]. split.
    + intros Hv. apply (first_valid_unique (disk w) self product_id extensions); [|assumption].
      exists pre, ext, post. split; [assumption|]. split; [assumption|].
      split; [assumption|]. intros e Hin (f & size & Hf & _).
      rewrite (proj1 (Hpre e Hin)) in Hf. discriminate.
    + intros Hbad ->. apply Hbad. now destruct Hq as (_ & _ & _ & _ & _ & Hv & _).
  - destruct Hrun as (-> & Hnone). cbn [ret]. split; [reflexivity|].
    split; [right; now split|].
    intros q (pre & ext & post & Hexts & -> & (f & size & Hf & _) & _). exfalso.
    rewrite (proj1 (Hnone ext ltac:(rewrite Hexts; apply in_or_app; right; now left))) in Hf.
    discriminate.
  - exact Hrun.
Qed.

End AssetProperties.

Lemma check_existing_assets_partition_witness :
  exists existing missing w',
    Assets.check_existing_assets (H0 := Fixture.verifier) Fixture.manager
      [[("id", "hero"); ("name", "Hero")]; [("name", "No id")]; [("id", "ghost")]]
      Fixture.world0
    = (Ok (existing, missing), w')
    /\ disk w' = disk Fixture.world0
    /\ List.NoDup (dict_keys existing).
Proof.
  destruct (proj1 (check_existing_assets_partition (H0 := Fixture.verifier) Fixture.manager
                     [[("id", "hero"); ("name", "Hero")]; [("name", "No id")];
                      [("id", "ghost")]]
                     Fixture.world0))
    as (existing & missing & w' & Hrun & Hdisk & _ & _ & Hnodup & _).
  - intros product pid ext _ _ _ _. reflexivity.
  - exists existing, missing, w'. split; [exact Hrun|]. split; [exact Hdisk | exact Hnodup].
Defined.

Example check_existing_assets_fixture :
  fst (Assets.check_existing_assets (H0 := Fixture.verifier) Fixture.manager
         [[("id", "hero"); ("name", "Hero")]; [("name", "No id")]; [("id", "ghost")]]
         Fixture.world0)
  = Ok ([("hero", "assets/hero.png")], [[("id", "ghost")]]).
Proof. reflexivity. Qed.

(** ** The request for an image *)

Section Presets.
Import Generation.
Local Open Scope R_scope.

Lemma value_09 : value 8106479329266893 (-53) = 9 / 10 + / 5 * / 9007199254740992.
Proof.
  unfold value. pose proof (bpow_opp 53 ltac:(lia)) as Hb.
  change (- (53))%Z with (-53)%Z in Hb. rewrite Hb.
  change (IZR (2 ^ 53)) with 9007199254740992. lra.
Qed.

Lemma value_11 : value 4953959590107546 (-52) = 11 / 10 + 2 / 5 * / 4503599627370496.
Proof.
  unfold value. pose proof (bpow_opp 52 ltac:(lia)) as Hb.
  change (- (52))%Z with (-52)%Z in Hb. rewrite Hb.
  change (IZR (2 ^ 52)) with 4503599627370496. lra.
Qed.

Lemma value_15 : value 6755399441055744 (-52) = 3 / 2.
Proof.
  unfold value. pose proof (bpow_opp 52 ltac:(lia)) as Hb.
  change (- (52))%Z with (-52)%Z in Hb. rewrite Hb.
  change (IZR (2 ^ 52)) with 4503599627370496. lra.
Qed.

Lemma value_07 : value 6305039478318694 (-53) = 7 / 10 - 2 / 5 * / 9007199254740992.
Proof.
  unfold value. pose proof (bpow_opp 53 ltac:(lia)) as Hb.
  change (- (53))%Z with (-53)%Z in Hb. rewrite Hb.
  change (IZR (2 ^ 53)) with 9007199254740992. lra.
Qed.

(** A quotient of mantissas that is exact is rounded to the float nearest
    to the quotient of the values. *)
Lemma div_exact (x y : float) (mx my : positive) (ex ey : Z) :
  normal x mx ex -> normal y my ey -> (-900 <= ex - ey <= 900)%Z ->
  ((Zpos mx * 2 ^ 53) mod Zpos my = 0)%Z ->
  exists (m : positive) (e : Z),
    normal (x / y)%float m e /\ nearest m e (value mx ex / value my ey).
Proof.
  intros [Hx Hdx] [Hy Hdy] Hrange Hmod.
  pose proof (digits2_pos_bounds mx) as [Hxl Hxh]. rewrite Hdx in Hxl, Hxh.
  pose proof (digits2_pos_bounds my) as [Hyl Hyh]. rewrite Hdy in Hyl, Hyh.
  change (53 - 1)%Z with 52%Z in Hxl, Hyl.
  pose proof (Z_div_mod (Zpos mx * 2 ^ 53) (Zpos my) ltac:(lia)) as Hqr.
  assert (Hcore : SFdiv_core_binary prec emax (Zpos mx) ex (Zpos my) ey
                  = (let '(q, r) := Z.div_eucl (Zpos mx * 2 ^ 53) (Zpos my) in
                     (q, (ex - ey - 53)%Z, new_location (Zpos my) r))).
  { unfold SFdiv_core_binary. cbn [Zdigits2]. rewrite Hdx, Hdy.
    replace (53 + ex - (53 + ey))%Z with (ex - ey)%Z by lia.
    rewrite fexp_normal by lia.
    rewrite Z.min_l by lia.
    replace (ex - ey - (ex - ey - 53))%Z with 53%Z by lia.
    rewrite Z.shiftl_mul_pow2 by lia. reflexivity. }
  unfold Z.modulo in Hmod.
  destruct (Z.div_eucl (Zpos mx * 2 ^ 53) (Zpos my)) as [q r].
  subst r. destruct Hqr as [Hq _]. rewrite Z.add_0_r in Hq.
  assert (Hqlo : (2 ^ 52 <= q)%Z) by nia.
  assert (Hqhi : (q < 2 ^ 54)%Z) by nia.
  destruct q as [|q|q]; try lia.
  pose proof (digits2_pos_bounds q) as [Hdl Hdh].
  set (d := Zpos (digits2_pos q)) in *.
  assert (52 < d)%Z by (apply (Z.pow_lt_mono_r_iff 2); lia).
  assert (d - 1 < 54)%Z by (apply (Z.pow_lt_mono_r_iff 2); lia).
  destruct (round_nearest q (ex - ey - 53)) as (m & e & Hround & Hdm & _ & Hnear);
    fold d; try lia.
  exists m, e. split.
  - split; [|assumption].
    rewrite FloatAxioms.div_spec, Hx, Hy. unfold SF64div, SFdiv. rewrite Hcore.
    assert (Hloc : new_location (Zpos my) 0 = loc_Exact)
      by (unfold new_location, new_location_even, new_location_odd;
          destruct (Z.even (Zpos my)); reflexivity).
    rewrite Hloc. exact Hround.
  - replace (value mx ex / value my ey) with (IZR (Zpos q) * bpow (ex - ey - 53));
      [assumption|].
    unfold value.
    assert (Hbex : bpow ex = bpow (ex - ey - 53) * (bpow ey * IZR (2 ^ 53))).
    { rewrite <- (bpow_IZR 53), <- !bpow_add by lia. f_equal. lia. }
    rewrite Hbex.
    pose proof (bpow_pos (ex - ey - 53)). pose proof (bpow_pos ey).
    assert (Hmy : 0 < IZR (Zpos my)) by (apply IZR_lt; lia).
    apply (f_equal IZR) in Hq. rewrite !mult_IZR in Hq.
    assert (Hp53 : 0 < IZR (2 ^ 53)) by (apply IZR_lt; reflexivity).
    set (Q := IZR (Zpos q)) in *. set (MX := IZR (Zpos mx)) in *.
    set (MY := IZR (Zpos my)) in *. set (B := bpow (ex - ey - 53)) in *.
    set (BY := bpow ey) in *. set (P := IZR (2 ^ 53)) in *.
    replace (MX * (B * (BY * P))) with ((MX * P) * (B * BY)) by ring.
    rewrite Hq. field. lra.
Qed.

Lemma cross_exponents (mw mh c a b : Z) :
  (0 < c)%Z -> (c <= mw < 2 * c)%Z -> (c <= mh < 2 * c)%Z -> (0 <= a)%Z -> (0 <= b)%Z ->
  (mw * 2 ^ (b + 1) = 3 * mh * 2 ^ a)%Z -> (a <= b <= a + 1)%Z.
Proof.
  intros Hc Hmw Hmh Ha Hb Hcross. split.
  - destruct (Z_lt_le_dec b a) as [Hlt|]; [|assumption]. exfalso.
    assert (Hs : (2 ^ a = 2 ^ (a - b - 1) * 2 ^ (b + 1))%Z)
      by (rewrite <- Z.pow_add_r by lia; f_equal; lia).
    assert (HP : (0 < 2 ^ (b + 1))%Z) by (apply Z.pow_pos_nonneg; lia).
    assert (Hk : (1 <= 2 ^ (a - b - 1))%Z) by (apply (Z.pow_le_mono_r 2 0); lia).
    rewrite Hs in Hcross. set (k := (2 ^ (a - b - 1))%Z) in *.
    set (P := (2 ^ (b + 1))%Z) in *.
    assert (Heq : (mw = 3 * mh * k)%Z).
    { apply (Z.mul_cancel_r _ _ P); [lia|]. rewrite Hcross. ring. }
    assert (mh <= mh * k)%Z by nia. lia.
  - destruct (Z_lt_le_dec (a + 1) b) as [Hlt|]; [|lia]. exfalso.
    assert (Hs : (2 ^ (b + 1) = 2 ^ (b - a - 1) * (4 * 2 ^ a))%Z).
    { change 4%Z with (2 ^ 2)%Z. rewrite <- !Z.pow_add_r by lia. f_equal. lia. }
    assert (HP : (0 < 2 ^ a)%Z) by (apply Z.pow_pos_nonneg; lia).
    assert (Hk : (2 <= 2 ^ (b - a - 1))%Z) by (apply (Z.pow_le_mono_r 2 1); lia).
    rewrite Hs in Hcross. set (k := (2 ^ (b - a - 1))%Z) in *.
    set (P := (2 ^ a)%Z) in *.
    assert (Heq : (mw * k * 4 = 3 * mh)%Z).
    { apply (Z.mul_cancel_r _ _ P); [lia|]. rewrite <- Hcross. ring. }
    assert (2 * mw <= mw * k)%Z by nia. lia.
Qed.

(** Three halves: the quotient of two sides in the ratio 3:2 is [1.5]. *)
Lemma truediv_three_halves (w h : Z) :
  (1 <= w < 2 ^ 53)%Z -> (1 <= h < 2 ^ 53)%Z -> (2 * w = 3 * h)%Z ->
  truediv w h = Ok 1.5%float.
Proof.
  intros Hw Hh Hratio. unfold truediv.
  replace (h =? 0)%Z with false by (symmetry; apply Z.eqb_neq; lia).
  f_equal.
  destruct (float_of_int_normal w Hw) as (mw & ew & Hnw & Hvw & Hew & Hmw).
  destruct (float_of_int_normal h Hh) as (mh & eh & Hnh & Hvh & Heh & Hmh).
  pose proof (digits2_pos_bounds mw) as [Hwl Hwh].
  pose proof (digits2_pos_bounds mh) as [Hhl Hhh].
  destruct Hnw as [Hxw Hdw]. destruct Hnh as [Hxh Hdh].
  rewrite Hdw in Hwl, Hwh. rewrite Hdh in Hhl, Hhh.
  change (53 - 1)%Z with 52%Z in Hwl, Hhl.
  (* the sides from their mantissas *)
  set (a := (- ew)%Z). set (b := (- eh)%Z).
  assert (Ha : (0 <= a <= 52)%Z) by (unfold a; lia).
  assert (Hb : (0 <= b <= 52)%Z) by (unfold b; lia).
  assert (Hmw' : (Zpos mw = w * 2 ^ a)%Z).
  { replace (ew + 52)%Z with (52 - a)%Z in Hmw by (unfold a; lia).
    assert (Hsplit : (2 ^ 52 = 2 ^ (52 - a) * 2 ^ a)%Z)
      by (rewrite <- Z.pow_add_r by lia; f_equal; lia).
    rewrite Hsplit in Hmw.
    assert (0 < 2 ^ (52 - a))%Z by (apply Z.pow_pos_nonneg; lia). nia. }
  assert (Hmh' : (Zpos mh = h * 2 ^ b)%Z).
  { replace (eh + 52)%Z with (52 - b)%Z in Hmh by (unfold b; lia).
    assert (Hsplit : (2 ^ 52 = 2 ^ (52 - b) * 2 ^ b)%Z)
      by (rewrite <- Z.pow_add_r by lia; f_equal; lia).
    rewrite Hsplit in Hmh.
    assert (0 < 2 ^ (52 - b))%Z by (apply Z.pow_pos_nonneg; lia). nia. }
  assert (Hpa : (0 < 2 ^ a)%Z) by (apply Z.pow_pos_nonneg; lia).
  assert (Hpb : (0 < 2 ^ b)%Z) by (apply Z.pow_pos_nonneg; lia).
  assert (Hcross : (Zpos mw * 2 ^ (b + 1) = 3 * Zpos mh * 2 ^ a)%Z).
  { rewrite Z.pow_add_r by lia. change (2 ^ 1)%Z with 2%Z. rewrite Hmw', Hmh'. nia. }
  assert (Hab : (a <= b <= a + 1)%Z)
    by (apply (cross_exponents (Zpos mw) (Zpos mh) (2 ^ 52)); (assumption || lia)).
  assert (Hdiv : ((Zpos mw * 2 ^ 53) mod Zpos mh = 0)%Z).
  { assert (Hs : (2 ^ 53 = 2 ^ (b + 1) * 2 ^ (52 - b))%Z)
      by (rewrite <- Z.pow_add_r by lia; f_equal; lia).
    assert (Hs2 : (2 ^ a * 2 ^ (52 - b) = 2 ^ (52 + a - b))%Z)
      by (rewrite <- Z.pow_add_r by lia; f_equal; lia).
    replace (Zpos mw * 2 ^ 53)%Z with (3 * 2 ^ (52 + a - b) * Zpos mh)%Z.
    - apply Z.mod_mul. lia.
    - rewrite Hs, <- Hs2. nia. }
  destruct (div_exact _ _ mw mh ew eh (conj Hxw Hdw) (conj Hxh Hdh) ltac:(lia) Hdiv)
    as (m & e & [Hq Hdq] & Hnear).
  assert (Hquot : value mw ew / value mh eh = 3 / 2).
  { rewrite Hvw, Hvh. apply IZR_eq in Hratio. rewrite !mult_IZR in Hratio.
    assert (0 < IZR h) by (apply IZR_lt; lia). field_simplify_eq; lra. }
  rewrite Hquot in Hnear.
  assert (Hv : value m e = value 6755399441055744 (-52)).
  { specialize (Hnear 6755399441055744%positive (-52)%Z eq_refl).
    rewrite value_15 in *.
    replace (3 / 2 - 3 / 2) with 0 in Hnear by lra. rewrite Rabs_R0 in Hnear.
    pose proof (Rabs_pos (value m e - 3 / 2)) as Hpos.
    assert (Hz : Rabs (value m e - 3 / 2) = 0) by lra.
    destruct (Req_dec (value m e - 3 / 2) 0) as [E|E]; [lra|].
    apply Rabs_no_R0 in E. contradiction. }
  destruct (value_inj m 6755399441055744 e (-52) Hdq eq_refl Hv) as [-> ->].
  apply Prim2SF_inj. rewrite Hq. reflexivity.
Qed.

(** The four tests of the fallback, for two sides that are not exactly in
    the ratio 9:10, 11:10 or 7:10. *)
Lemma aspect_tests (w h : Z) :
  (1 <= w < 2 ^ 31)%Z -> (1 <= h < 2 ^ 31)%Z ->
  (10 * w <> 9 * h)%Z -> (10 * w <> 11 * h)%Z -> (10 * w <> 7 * h)%Z ->
  exists q, truediv w h = Ok q
    /\ PrimFloat.leb 0.9 q = (9 * h <=? 10 * w)%Z
    /\ PrimFloat.leb q 1.1 = (10 * w <=? 11 * h)%Z
    /\ PrimFloat.ltb 1.5 q = (3 * h <? 2 * w)%Z
    /\ PrimFloat.ltb q 0.7 = (10 * w <? 7 * h)%Z.
Proof.
  intros Hw Hh H09 H11 H07.
  assert (H53 : (2 ^ 31 < 2 ^ 53)%Z) by reflexivity.
  destruct (Z.eq_dec (2 * w)%Z (3 * h)%Z) as [H15|H15].
  { exists 1.5%float. split; [apply truediv_three_halves; lia|].
    replace (9 * h <=? 10 * w)%Z with true by (symmetry; apply Z.leb_le; lia).
    replace (10 * w <=? 11 * h)%Z with false by (symmetry; apply Z.leb_gt; lia).
    replace (3 * h <? 2 * w)%Z with false by (symmetry; apply Z.ltb_ge; lia).
    replace (10 * w <? 7 * h)%Z with false by (symmetry; apply Z.ltb_ge; lia).
    repeat split; vm_compute; reflexivity. }
  destruct (truediv_normal w h) as (q & m & e & Hq & Hn & _ & Hlo & Hhi); [lia | lia |].
  exists q. split; [assumption|].
  assert (Hn09 : normal 0.9 8106479329266893 (-53)) by (split; reflexivity).
  assert (Hn11 : normal 1.1 4953959590107546 (-52)) by (split; reflexivity).
  assert (Hn15 : normal 1.5 6755399441055744 (-52)) by (split; reflexivity).
  assert (Hn07 : normal 0.7 6305039478318694 (-53)) by (split; reflexivity).
  pose proof (leb_normal _ _ _ _ _ _ Hn09 Hn) as C09. rewrite value_09 in C09.
  pose proof (leb_normal _ _ _ _ _ _ Hn Hn11) as C11. rewrite value_11 in C11.
  pose proof (ltb_normal _ _ _ _ _ _ Hn15 Hn) as C15. rewrite value_15 in C15.
  pose proof (ltb_normal _ _ _ _ _ _ Hn Hn07) as C07. rewrite value_07 in C07.
  pose proof eps_small as [He0 He1].
  assert (HW1 : 1 <= IZR w) by (apply IZR_le; lia).
  assert (HW2 : IZR w <= 2147483648)
    by (change 2147483648 with (IZR (2 ^ 31)); apply IZR_le; lia).
  assert (HH1 : 1 <= IZR h) by (apply IZR_le; lia).
  assert (HH2 : IZR h <= 2147483648)
    by (change 2147483648 with (IZR (2 ^ 31)); apply IZR_le; lia).
  assert (HWe : IZR w * eps <= 2147483648 * / 4000000000000000)
    by (apply Rmult_le_compat; lra).
  set (v := value m e) in *.
  assert (Hv1 : IZR w - 2147483648 * / 4000000000000000 <= v * IZR h) by lra.
  assert (Hv2 : v * IZR h <= IZR w + 2147483648 * / 4000000000000000) by lra.
  clear Hlo Hhi HWe.
  assert (Hd9 : 0 <= / 5 * / 9007199254740992 * IZR h <= / 1000) by lra.
  assert (Hd11 : 0 <= 2 / 5 * / 4503599627370496 * IZR h <= / 1000) by lra.
  repeat split.
  - destruct (Z.leb_spec (9 * h) (10 * w)) as [Hc|Hc].
    + assert (Hi : (9 * h + 1 <= 10 * w)%Z) by lia.
      apply IZR_le in Hi. rewrite plus_IZR, !mult_IZR in Hi.
      destruct (PrimFloat.leb 0.9 q); [reflexivity|]. exfalso. nra.
    + assert (Hi : (10 * w + 1 <= 9 * h)%Z) by lia.
      apply IZR_le in Hi. rewrite plus_IZR, !mult_IZR in Hi.
      destruct (PrimFloat.leb 0.9 q); [|reflexivity]. exfalso. nra.
  - destruct (Z.leb_spec (10 * w) (11 * h)) as [Hc|Hc].
    + assert (Hi : (10 * w + 1 <= 11 * h)%Z) by lia.
      apply IZR_le in Hi. rewrite plus_IZR, !mult_IZR in Hi.
      destruct (PrimFloat.leb q 1.1); [reflexivity|]. exfalso. nra.
    + assert (Hi : (11 * h + 1 <= 10 * w)%Z) by lia.
      apply IZR_le in Hi. rewrite plus_IZR, !mult_IZR in Hi.
      destruct (PrimFloat.leb q 1.1); [|reflexivity]. exfalso. nra.
  - destruct (Z.ltb_spec (3 * h) (2 * w)) as [Hc|Hc].
    + assert (Hi : (3 * h + 1 <= 2 * w)%Z) by lia.
      apply IZR_le in Hi. rewrite plus_IZR, !mult_IZR in Hi.
      destruct (PrimFloat.ltb 1.5 q); [reflexivity|]. exfalso. nra.
    + assert (Hi : (2 * w + 1 <= 3 * h)%Z) by lia.
      apply IZR_le in Hi. rewrite plus_IZR, !mult_IZR in Hi.
      destruct (PrimFloat.ltb 1.5 q); [|reflexivity]. exfalso. nra.
  - destruct (Z.ltb_spec (10 * w) (7 * h)) as [Hc|Hc].
    + assert (Hi : (10 * w + 1 <= 7 * h)%Z) by lia.
      apply IZR_le in Hi. rewrite plus_IZR, !mult_IZR in Hi.
      destruct (PrimFloat.ltb q 0.7); [reflexivity|]. exfalso. nra.
    + assert (Hi : (7 * h + 1 <= 10 * w)%Z) by lia.
      apply IZR_le in Hi. rewrite plus_IZR, !mult_IZR in Hi.
      destruct (PrimFloat.ltb q 0.7); [|reflexivity]. exfalso. nra.
Qed.

End Presets.

Section Requests.
Import Generation.

(** X26: the preset that [FluxProvider.generate_image] sends.  A non-empty
    [image_size] argument is sent as it is, whatever the dimensions; without
    one (or with an empty one) a height of zero raises [ZeroDivisionError],
    and for sides from 1 to below [2 ^ 31] that are not exactly in the ratio
    9:10, 11:10 or 7:10 the preset is the one of the exact ratio: "square"
    from 0.9 to 1.1, "landscape_16_9" above 1.5, "portrait_16_9" below 0.7,
    and "square" again in between, for 4:3 and 3:2 pictures among others. *)
Theorem flux_fallback_preset (width height : Z) :
  (forall c s, flux_image_size (Some (String c s)) width height = Ok (String c s))
  /\ flux_image_size (Some "") width height = flux_image_size None width height
  /\ flux_image_size None width 0 = Raise "ZeroDivisionError: division by zero"
  /\ (1 <= width < 2 ^ 31 -> 1 <= height < 2 ^ 31 ->
      10 * width <> 9 * height -> 10 * width <> 11 * height -> 10 * width <> 7 * height ->
      flux_image_size None width height
      = Ok (if (9 * height <=? 10 * width) && (10 * width <=? 11 * height) then "square"
            else if 3 * height <? 2 * width then "landscape_16_9"
            else if 10 * width <? 7 * height then "portrait_16_9"
            else "square")).
Proof.
  split; [reflexivity|]. split; [reflexivity|]. split; [reflexivity|].
  intros Hw Hh H09 H11 H07.
  destruct (aspect_tests width height Hw Hh H09 H11 H07) as (q & Hq & T09 & T11 & T15 & T07).
  unfold flux_image_size, bindE. rewrite Hq, T09, T11, T15, T07. reflexivity.
Qed.

(** X27: what [ImageGenerator.generate] asks of the provider, for every
    format name, known or not.  The preset is never empty, so the provider
    sends it as it is and its fallback is not used; the preset and the
    dimensions agree on the orientation; and the fallback, had it been
    used on these dimensions, would give the same preset except for "4x3"
    and "3x4", which it takes for squares. *)
Theorem generate_preset_consistent (image_size : string) :
  let '(width, height, flux_format) := generate_arguments image_size in
  (width, height) = get_generation_size image_size
  /\ flux_format = get_flux_format image_size
  /\ flux_image_size (Some flux_format) width height = Ok flux_format
  /\ (String.prefix "landscape" flux_format = true <-> height < width)
  /\ (String.prefix "portrait" flux_format = true <-> width < height)
  /\ (flux_format = "square" <-> width = height)
  /\ flux_image_size None width height
     = Ok (if String.eqb image_size "4x3" || String.eqb image_size "3x4"
           then "square" else flux_format).
Proof.
  unfold generate_arguments, get_generation_size, get_flux_format,
    GENERATION_DIMENSIONS, FLUX_FORMATS.
  cbn [dict_get].
  destruct (String.eqb_spec "1x1" image_size) as [<-|H1];
    [vm_compute; intuition (discriminate || reflexivity)|].
  destruct (String.eqb_spec "9x16" image_size) as [<-|H2];
    [vm_compute; intuition (discriminate || reflexivity)|].
  destruct (String.eqb_spec "16x9" image_size) as [<-|H3];
    [vm_compute; intuition (discriminate || reflexivity)|].
  destruct (String.eqb_spec "4x3" image_size) as [<-|H4];
    [vm_compute; intuition (discriminate || reflexivity)|].
  destruct (String.eqb_spec "3x4" image_size) as [<-|H5];
    [vm_compute; intuition (discriminate || reflexivity)|].
  replace (String.eqb image_size "4x3") with false
    by (symmetry; apply String.eqb_neq; congruence).
  replace (String.eqb image_size "3x4") with false
    by (symmetry; apply String.eqb_neq; congruence).
  vm_compute; intuition (discriminate || reflexivity).
Qed.

End Requests.

Lemma flux_fallback_preset_witness :
  Generation.flux_image_size None 1536 1024 = Ok "square"
  /\ Generation.flux_image_size None 1920 1080 = Ok "landscape_16_9".
Proof.
  split.
  - destruct (flux_fallback_preset 1536 1024) as (_ & _ & _ & Hclass).
    rewrite Hclass by lia. reflexivity.
  - destruct (flux_fallback_preset 1920 1080) as (_ & _ & _ & Hclass).
    rewrite Hclass by lia. reflexivity.
Defined.

(** ** A colour that does not parse *)

Section MalformedColour.
Context `{NumPy}.

(** X28: one colour that does not parse voids the whole colour check.  If
    any of the colours checked has a red, green or blue field that [int(_,
    16)] rejects (as for a three-digit colour like [#FFF], whose blue field
    is empty), [validate_brand_colors] returns no verdict, and reports no
    colour as checked or detected, whatever the other colours are and
    whether or not they are in the image: the aggregate of the full check
    takes it as a pass. *)
Theorem brand_colors_malformed (brand : BrandConfig) (image_path : string)
    (colors : option (list string)) (w : World) (c e : string) :
  In c (match colors with
        | Some l => l
        | None => truthy [cfg_primary_color brand; cfg_secondary_color brand]
        end) ->
  int_base16 (slice (lstrip_hash c) 0 2) = Raise e
  \/ int_base16 (slice (lstrip_hash c) 2 4) = Raise e
  \/ int_base16 (slice (lstrip_hash c) 4 6) = Raise e ->
  exists r w',
    validate_brand_colors brand image_path colors w = (Ok r, w')
    /\ colors_compliant r = None
    /\ brand_colors_checked r = [] /\ colors_detected r = []
    /\ is_not_False (colors_compliant r) = true.
Proof.
  intros Hin Hbad.
  destruct (validate_brand_colors_returns brand image_path colors w) as (r & w' & Hrun).
  exists r, w'. split; [exact Hrun|].
  unfold validate_brand_colors in Hrun.
  destruct (match colors with
            | Some l => l
            | None => truthy [cfg_primary_color brand; cfg_secondary_color brand]
            end) as [|c0 cs] eqn:Ecs; [destruct Hin|].
  unfold try_except in Hrun.
  match type of Hrun with
  | match ?body w with _ => _ end = _ => destruct (body w) as [[r0|e0] w0] eqn:Hbody
  end.
  2:{ injection Hrun as <- _. now repeat split. }
  exfalso.
  unfold bind at 1 in Hbody.
  destruct (image_open image_path w) as [[image0|] w1]; [|discriminate].
  unfold bind at 1 in Hbody.
  destruct (image_convert image0 "RGB" w1) as [[image|] w2]; [|discriminate].
  unfold bind at 1 in Hbody.
  destruct (deref image w2) as [[im|] w3]; [|discriminate].
  unfold bind at 1, lift at 1 in Hbody.
  destruct (find_colors im (c0 :: cs) []) as [found|] eqn:Hfind; [|discriminate].
  apply find_colors_spec in Hfind as (_ & _ & _ & Hall).
  rewrite List.Forall_forall in Hall. destruct (Hall c Hin) as (x & y & z & Hx & Hy & Hz).
  destruct Hbad as [Hb|[Hb|Hb]]; congruence.
Qed.

End MalformedColour.

Lemma brand_colors_malformed_witness :
  exists r w',
    validate_brand_colors (H0 := Fixture.numpy) Fixture.brand0 "assets/hero.png"
      (Some ["#FF5733"; "#FFF"]) Fixture.world0 = (Ok r, w')
    /\ colors_compliant r = None.
Proof.
  destruct (@brand_colors_malformed Fixture.pillow Fixture.numpy Fixture.brand0
              "assets/hero.png" (Some ["#FF5733"; "#FFF"]) Fixture.world0 "#FFF" "ValueError")
    as (r & w' & Hrun & Hnone & _).
  - right. now left.
  - right. right. reflexivity.
  - exists r, w'. split; [exact Hrun | exact Hnone].
Defined.

(** ** The panel in whole pixels *)

Section WholePixels.
Local Open Scope R_scope.

(** [int(n * c)] for a float constant [c] that is the fraction [p / q]
    rounded up: the floor of [n * p / q]. *)
Lemma scaled_floor (n p q : Z) (c : float) (mc : positive) (ec : Z) :
  (0 <= n < 2 ^ 31)%Z -> (1 <= p <= 2 * q)%Z -> (1 <= q <= 100)%Z ->
  normal c mc ec -> (-1000 <= ec <= 800)%Z ->
  IZR p / IZR q <= value mc ec <= IZR p / IZR q * (1 + eps) ->
  int_of_float (float_of_int n * c)%float = Ok (n * p / q)%Z.
Proof.
  intros Hn Hp Hq Hc Hec [Hclo Hchi].
  destruct (Z.eq_dec n 0%Z) as [->|Hn0].
  { unfold int_of_float. rewrite FloatAxioms.mul_spec. destruct Hc as [-> _]. reflexivity. }
  assert (H53 : (2 ^ 31 < 2 ^ 53)%Z) by reflexivity.
  destruct (float_of_int_normal n) as (mn & en & Hnn & Hvn & Hen & _); [lia|].
  destruct (mul_normal _ _ _ _ _ _ Hnn Hc) as (mp & ep & Hnp & _ & Hlo & Hhi); [lia|].
  destruct (mul_nearest _ _ _ _ _ _ Hnn Hc) as (mp' & ep' & Hnp' & Hnear); [lia|].
  assert (Hsame : mp' = mp /\ ep' = ep).
  { destruct Hnp as [E1 _], Hnp' as [E2 _]. rewrite E1 in E2. now injection E2. }
  destruct Hsame as [-> ->].
  destruct (int_of_float_normal _ _ _ Hnp) as (k & Hk & Hklo & Hkhi).
  rewrite Hk. f_equal.
  rewrite Hvn in Hlo, Hhi, Hnear.
  set (K := (n * p / q)%Z).
  pose proof (Z.div_mod (n * p) q ltac:(lia)) as Hdm. fold K in Hdm.
  pose proof (Z.mod_pos_bound (n * p) q ltac:(lia)) as Hr.
  set (r := ((n * p) mod q)%Z) in *.
  assert (HK0 : (0 <= K)%Z) by (apply Z.div_pos; nia).
  assert (HK1 : (K <= 2 ^ 32)%Z).
  { unfold K. apply Z.div_le_upper_bound; [lia|].
    apply Z.le_trans with (2 ^ 31 * (2 * q))%Z; [nia|].
    change (2 ^ 32)%Z with (2 ^ 31 * 2)%Z. nia. }
  pose proof eps_small as [He0 He1].
  assert (HQ1 : 1 <= IZR q) by (apply IZR_le; lia).
  assert (HQ2 : IZR q <= 100) by (apply IZR_le; lia).
  assert (HKR0 : 0 <= IZR K) by (apply IZR_le; lia).
  assert (HKR1 : IZR K <= 4294967296)
    by (change 4294967296 with (IZR (2 ^ 32)); apply IZR_le; lia).
  assert (HR0 : 0 <= IZR r) by (apply IZR_le; lia).
  assert (HR1 : IZR r <= IZR q - 1)
    by (rewrite <- minus_IZR; apply IZR_le; lia).
  (* the exact fraction, and the product of the floats around it *)
  assert (Hfrac : IZR n * (IZR p / IZR q) = IZR K + IZR r / IZR q).
  { apply (f_equal IZR) in Hdm. rewrite plus_IZR, !mult_IZR in Hdm.
    field_simplify_eq; [|lra]. lra. }
  set (F := IZR n * (IZR p / IZR q)) in *.
  assert (HN1 : 1 <= IZR n) by (apply IZR_le; lia).
  assert (HT : F <= IZR n * value mc ec <= F * (1 + eps)).
  { unfold F. split.
    - apply Rmult_le_compat_l; lra.
    - replace (IZR n * (IZR p / IZR q) * (1 + eps))
        with (IZR n * (IZR p / IZR q * (1 + eps))) by ring.
      apply Rmult_le_compat_l; lra. }
  set (T := IZR n * value mc ec) in *.
  assert (Hrq : 0 <= IZR r / IZR q <= 1 - / IZR q).
  { split.
    - apply Rmult_le_pos; [assumption|]. left. apply Rinv_0_lt_compat. lra.
    - apply Rmult_le_reg_r with (IZR q); [lra|].
      unfold Rdiv. rewrite Rmult_assoc, Rinv_l by lra.
      rewrite Rmult_minus_distr_r, Rinv_l by lra. lra. }
  assert (Hinvq : / 100 <= / IZR q) by (apply Rinv_le_contravar; lra).
  set (v := value mp ep) in *.
  assert (Hupper : v < IZR K + 1).
  { assert (F <= IZR K + 1 - / 100) by lra.
    assert (F * eps <= 4294967297 * / 4000000000000000)
      by (apply Rmult_le_compat; lra).
    assert (T * eps <= (F * (1 + eps)) * eps) by (apply Rmult_le_compat_r; lra).
    nra. }
  assert (Hlower : IZR K <= v).
  { destruct (Z.eq_dec r 0%Z) as [Hr0|Hr0].
    - assert (HKpos : (1 <= K)%Z) by nia.
      destruct (float_of_int_normal K) as (mk & ek & [_ Hdk] & Hvk & _); [lia|].
      rewrite <- Hvk. apply (nearest_above mp mk ep ek T Hnear Hdk).
      rewrite Hvk. rewrite Hr0 in Hfrac. unfold Rdiv in Hfrac.
      rewrite Rmult_0_l, Rplus_0_r in Hfrac. lra.
    - assert (HR2 : 1 <= IZR r) by (apply IZR_le; lia).
      assert (Hstep : / IZR q <= IZR r / IZR q).
      { unfold Rdiv. rewrite <- (Rmult_1_l (/ IZR q)) at 1.
        apply Rmult_le_compat_r; [|assumption]. left. apply Rinv_0_lt_compat. lra. }
      assert (T * eps <= (F * (1 + eps)) * eps) by (apply Rmult_le_compat_r; lra).
      assert (F <= IZR K + 1) by lra.
      assert (F * eps <= 4294967297 * / 4000000000000000)
        by (apply Rmult_le_compat; lra).
      nra. }
  assert (k < K + 1)%Z by (apply lt_IZR; rewrite plus_IZR; lra).
  assert (K < k + 1)%Z by (apply lt_IZR; rewrite plus_IZR; lra).
  lia.
Qed.

Lemma value_13 : 13 / 10 <= value 5854679515581645 (-52) <= 13 / 10 * (1 + eps).
Proof.
  unfold value, eps. pose proof (bpow_opp 52 ltac:(lia)) as Hb.
  change (- (52))%Z with (-52)%Z in Hb. rewrite Hb.
  change (IZR (2 ^ 52)) with 4503599627370496. lra.
Qed.

Lemma value_005 : 1 / 20 <= value 7205759403792794 (-57) <= 1 / 20 * (1 + eps).
Proof.
  unfold value, eps. pose proof (bpow_opp 57 ltac:(lia)) as Hb.
  change (- (57))%Z with (-57)%Z in Hb. rewrite Hb.
  change (IZR (2 ^ 57)) with 144115188075855872. lra.
Qed.

(** [aspect_ratio < 0.7] for two sides that are not exactly in the ratio
    7:10. *)
Lemma portrait_test (w h : Z) :
  (1 <= w < 2 ^ 31)%Z -> (1 <= h < 2 ^ 31)%Z -> (10 * w <> 7 * h)%Z ->
  exists q, truediv w h = Ok q /\ PrimFloat.ltb q 0.7 = (10 * w <? 7 * h)%Z.
Proof.
  intros Hw Hh H07.
  assert (H53 : (2 ^ 31 < 2 ^ 53)%Z) by reflexivity.
  destruct (truediv_normal w h) as (q & m & e & Hq & Hn & _ & Hlo & Hhi); [lia | lia |].
  exists q. split; [assumption|].
  assert (Hn07 : normal 0.7 6305039478318694 (-53)) by (split; reflexivity).
  pose proof (ltb_normal _ _ _ _ _ _ Hn Hn07) as C07. rewrite value_07 in C07.
  pose proof eps_small as [He0 He1].
  assert (HW1 : 1 <= IZR w) by (apply IZR_le; lia).
  assert (HW2 : IZR w <= 2147483648)
    by (change 2147483648 with (IZR (2 ^ 31)); apply IZR_le; lia).
  assert (HH1 : 1 <= IZR h) by (apply IZR_le; lia).
  assert (HH2 : IZR h <= 2147483648)
    by (change 2147483648 with (IZR (2 ^ 31)); apply IZR_le; lia).
  assert (HWe : IZR w * eps <= 2147483648 * / 4000000000000000)
    by (apply Rmult_le_compat; lra).
  set (v := value m e) in *.
  assert (Hv1 : IZR w - 2147483648 * / 4000000000000000 <= v * IZR h) by lra.
  assert (Hv2 : v * IZR h <= IZR w + 2147483648 * / 4000000000000000) by lra.
  clear Hlo Hhi HWe.
  destruct (Z.ltb_spec (10 * w) (7 * h)) as [Hc|Hc].
  - assert (Hi : (10 * w + 1 <= 7 * h)%Z) by lia.
    apply IZR_le in Hi. rewrite plus_IZR, !mult_IZR in Hi.
    destruct (PrimFloat.ltb q 0.7); [reflexivity|]. exfalso. nra.
  - assert (Hi : (7 * h + 1 <= 10 * w)%Z) by lia.
    apply IZR_le in Hi. rewrite plus_IZR, !mult_IZR in Hi.
    destruct (PrimFloat.ltb q 0.7); [|reflexivity]. exfalso. nra.
Qed.

End WholePixels.

Section PanelPixels.
Context `{Pillow}.

(** X29: the panel of [add_text_overlay] in whole pixels, for an image with
    sides from 1 to below [2 ^ 31].  A line is [13 * font_size // 10] high
    and the panel 50px higher than its lines.  Its top edge is the anchor
    of the position, kept between 20 and [h - height - 20]: for "bottom"
    the anchor leaves 50px under the panel, or [h // 20] on an image
    narrower than 7:10; for "top" it is 50; for any other position the
    panel is centred.  So at the bottom of an image that leaves the room,
    the panel ends exactly that margin (20px at least) above the edge. *)
Theorem panel_vertical_position (w h : Z) (font : Font) (font_size max_text_width : Z)
    (text position : string) (tb : TextBlock) :
  1 <= w < 2 ^ 31 -> 1 <= h < 2 ^ 31 -> 0 <= font_size < 2 ^ 31 ->
  (position = "bottom" -> 10 * w <> 7 * h) ->
  text_block w h font font_size max_text_width text position = Ok tb ->
  let margin := if 10 * w <? 7 * h then h / 20 else 50 in
  let anchor_y :=
    if String.eqb position "bottom" then h - tb_bg_height tb - margin
    else if String.eqb position "top" then 50
    else (h - tb_bg_height tb) / 2 in
  tb_line_height tb = 13 * font_size / 10
  /\ tb_bg_height tb = Z.of_nat (List.length (tb_lines tb)) * tb_line_height tb + 50
  /\ tb_y tb = Z.max 20 (Z.min anchor_y (h - tb_bg_height tb - 20))
  /\ (position = "bottom" -> tb_bg_height tb + Z.max 20 margin + 20 <= h ->
      tb_y tb + tb_bg_height tb = h - Z.max 20 margin).
Proof.
  intros Hw Hh Hfs Htie Htb. cbv zeta.
  assert (Hc13 : normal 1.3 5854679515581645 (-52)) by (split; reflexivity).
  assert (Hc005 : normal 0.05 7205759403792794 (-57)) by (split; reflexivity).
  pose proof (scaled_floor font_size 13 10 _ _ _ Hfs ltac:(lia) ltac:(lia) Hc13
                ltac:(lia) value_13) as Hlh.
  pose proof (scaled_floor h 1 20 _ _ _ ltac:(lia) ltac:(lia) ltac:(lia) Hc005
                ltac:(lia) value_005) as Hbm.
  rewrite Z.mul_1_r in Hbm. rewrite (Z.mul_comm font_size 13) in Hlh.
  unfold text_block, bindE in Htb. rewrite Hlh in Htb.
  unfold anchor, bindE in Htb.
  destruct (String.eqb_spec position "bottom") as [Hpos|Hpos].
  - destruct (portrait_test w h Hw Hh (Htie Hpos)) as (q & Hq & Htest).
    rewrite Hq, Htest in Htb.
    destruct (10 * w <? 7 * h).
    + rewrite Hbm in Htb. injection Htb as <-.
      cbn [tb_line_height tb_bg_height tb_lines tb_y fst snd].
      repeat split; lia.
    + injection Htb as <-.
      cbn [tb_line_height tb_bg_height tb_lines tb_y fst snd].
      repeat split; lia.
  - destruct (truediv w h) as [q|]; [|discriminate].
    destruct (String.eqb position "top"); injection Htb as <-;
      cbn [tb_line_height tb_bg_height tb_lines tb_y fst snd];
      (split; [reflexivity|]); (split; [lia|]); (split; [lia|]);
      intros Hp; contradiction.
Qed.

End PanelPixels.

Lemma panel_vertical_position_witness :
  exists tb,
    text_block (H := Fixture.pillow) 1080 1920 86 86 918 Fixture.short_message "bottom" = Ok tb
    /\ tb_y tb + tb_bg_height tb = 1920 - 96.
Proof.
  destruct (text_block (H := Fixture.pillow) 1080 1920 86 86 918 Fixture.short_message
              "bottom") as [tb|e] eqn:Htb.
  - exists tb. split; [reflexivity|].
    destruct (@panel_vertical_position Fixture.pillow 1080 1920 86 86 918
                Fixture.short_message "bottom" tb) as (_ & Hheight & _ & Hbottom);
      try lia; try exact Htb.
    assert (Hbg : tb_bg_height tb = 272).
    { assert (Hc : match text_block (H := Fixture.pillow) 1080 1920 86 86 918
                           Fixture.short_message "bottom" with
                   | Ok t => tb_bg_height t
                   | Raise _ => 0
                   end = 272) by reflexivity.
      rewrite Htb in Hc. exact Hc. }
    rewrite (Hbottom eq_refl).
    + reflexivity.
    + rewrite Hbg. change (10 * 1080 <? 7 * 1920) with true. cbv iota.
      change (1920 / 20) with 96. lia.
  - exfalso.
    assert (Hc : match text_block (H := Fixture.pillow) 1080 1920 86 86 918
                         Fixture.short_message "bottom" with
                 | Ok _ => true
                 | Raise _ => false
                 end = true) by reflexivity.
    rewrite Htb in Hc. discriminate Hc.
Defined.

(** ** The names of the files *)

Section PathNames.

Lemma parts_app_slash (a n cur : string) :
  path_parts_from cur (a ++ String "/" n)
  = (path_parts_from cur a ++ path_parts_from "" n)%list.
Proof.
  revert cur. induction a as [|c a IH]; intros cur.
  - reflexivity.
  - cbn [String.append path_parts_from]. destruct (Ascii.eqb c "/").
    + now rewrite IH, List.app_assoc.
    + apply IH.
Qed.

Lemma parts_slashless (n cur : string) :
  slashless n = true ->
  path_parts_from cur n
  = if String.eqb (cur ++ n) "" || String.eqb (cur ++ n) "." then [] else [cur ++ n].
Proof.
  revert cur. induction n as [|c n IH]; intros cur Hn.
  - cbn [path_parts_from]. now rewrite string_app_nil_r.
  - cbn [slashless] in Hn. apply andb_true_iff in Hn as [Hc Hn].
    cbn [path_parts_from]. apply negb_true_iff in Hc. rewrite Hc.
    rewrite (IH _ Hn). now rewrite string_app_assoc.
Qed.

Lemma ends_with_slash_split (p : string) :
  ends_with_slash p = true -> exists a, p = a ++ "/".
Proof.
  induction p as [|c p IH]; [discriminate|].
  cbn [ends_with_slash]. destruct p as [|c' p'].
  - intros Hc. apply Ascii.eqb_eq in Hc. subst c. now exists "".
  - intros Hp. destruct (IH Hp) as (a & Ha). exists (String c a).
    cbn [String.append]. now rewrite <- Ha.
Qed.

Lemma join_snoc (l : list string) (n : string) : join "/" (l ++ [n]) = slashed l ++ n.
Proof.
  induction l as [|a l IH]; [reflexivity|].
  cbn [app slashed]. rewrite string_app_assoc. cbn [String.append].
  rewrite <- IH.
  destruct (l ++ [n])%list eqn:E; [destruct l; discriminate|].
  reflexivity.
Qed.

Lemma path_root_not_slash (c : ascii) (s : string) :
  Ascii.eqb c "/" = false -> path_root (String c s) = "".
Proof.
  destruct c as [[|] [|] [|] [|] [|] [|] [|] [|]]; try reflexivity. discriminate.
Qed.

(** The root of a path that goes on after a slash does not depend on the
    name that follows. *)
Lemma path_root_before_name (p : string) (c1 c2 : ascii) (s1 s2 : string) :
  Ascii.eqb c1 "/" = false -> Ascii.eqb c2 "/" = false ->
  path_root (p ++ String "/" (String c1 s1)) = path_root (p ++ String "/" (String c2 s2)).
Proof.
  intros H1 H2.
  assert (Hthird : forall c s, Ascii.eqb c "/" = false ->
            path_root (String "/" (String "/" (String c s))) = "//").
  { intros c s Hc.
    destruct c as [[|] [|] [|] [|] [|] [|] [|] [|]]; try reflexivity. discriminate. }
  assert (Hsecond : forall c s, Ascii.eqb c "/" = false ->
            path_root (String "/" (String c s)) = "/").
  { intros c s Hc.
    destruct c as [[|] [|] [|] [|] [|] [|] [|] [|]]; try reflexivity. discriminate. }
  destruct p as [|x p]; cbn [String.append].
  { now rewrite !Hsecond. }
  destruct (Ascii.eqb x "/") eqn:Hx.
  2:{ now rewrite !path_root_not_slash. }
  apply Ascii.eqb_eq in Hx. subst x.
  destruct p as [|y p]; cbn [String.append].
  { now rewrite !Hthird. }
  destruct (Ascii.eqb y "/") eqn:Hy.
  2:{ now rewrite !Hsecond. }
  apply Ascii.eqb_eq in Hy. subst y.
  destruct p as [|z p]; cbn [String.append]; [reflexivity|].
  destruct (Ascii.eqb z "/") eqn:Hz.
  - apply Ascii.eqb_eq in Hz. subst z. reflexivity.
  - now rewrite !Hthird.
Qed.

Lemma string_app_inv_head (a b c : string) : a ++ b = a ++ c -> b = c.
Proof.
  induction a as [|x a IH]; cbn [String.append]; [auto|].
  intros E. injection E as E. now apply IH.
Qed.

Lemma string_length_app (a b : string) :
  String.length (a ++ b) = (String.length a + String.length b)%nat.
Proof. induction a as [|x a IH]; cbn [String.append String.length]; [reflexivity | now rewrite IH]. Qed.

Lemma string_app_inv_tail (a b c : string) : a ++ c = b ++ c -> a = b.
Proof.
  revert b. induction a as [|x a IH]; intros b E.
  - destruct b as [|y b]; [reflexivity|]. exfalso.
    apply (f_equal String.length) in E. cbn [String.append String.length] in E.
    rewrite string_length_app in E. lia.
  - destruct b as [|y b].
    + exfalso. apply (f_equal String.length) in E.
      cbn [String.append String.length] in E. rewrite string_length_app in E. lia.
    + cbn [String.append] in E. injection E as -> E. f_equal. now apply IH.
Qed.

Lemma slashless_app (a b : string) : slashless (a ++ b) = slashless a && slashless b.
Proof.
  induction a as [|c a IH]; cbn [String.append slashless]; [reflexivity|].
  now rewrite IH, andb_assoc.
Qed.

Lemma path_div_relative (p : string) (c : ascii) (s : string) :
  Ascii.eqb c "/" = false ->
  path_div p (String c s)
  = if ends_with_slash p then Path (p ++ String c s) else Path (p ++ "/" ++ String c s).
Proof.
  destruct c as [[|] [|] [|] [|] [|] [|] [|] [|]]; try reflexivity. discriminate.
Qed.

(** Under a folder, the path of a name is the name after a stem that
    depends on the folder only. *)
Lemma path_div_name (p : string) :
  exists stem, forall ratio, slashless ratio = true ->
    path_div p (ratio ++ ".png") = stem ++ ratio ++ ".png".
Proof.
  assert (Hgen : forall p', exists stem, forall c s,
            Ascii.eqb c "/" = false -> slashless s = true -> s <> "" ->
            Path (p' ++ String "/" (String c s)) = stem ++ String c s).
  { intros p'.
    exists (path_root (p' ++ String "/" (String "a" "")) ++ slashed (path_parts_from "" p')).
    intros c s Hc Hs Hne. unfold Path.
    rewrite parts_app_slash.
    rewrite (parts_slashless (String c s) "")
      by (cbn [slashless]; rewrite Hc; exact Hs).
    cbn [String.append].
    replace (String.eqb (String c s) "" || String.eqb (String c s) ".") with false.
    2:{ symmetry. apply orb_false_iff. split; apply String.eqb_neq; [discriminate|].
        intros E. injection E as _ E. contradiction. }
    rewrite join_snoc.
    replace (String.eqb (slashed (path_parts_from "" p') ++ String c s) "") with false.
    2:{ symmetry. apply String.eqb_neq. destruct (slashed _); discriminate. }
    rewrite andb_false_r.
    rewrite (path_root_before_name p' c "a" s "" Hc eq_refl).
    now rewrite string_app_assoc. }
  assert (Hname : forall ratio, slashless ratio = true ->
            exists c s, ratio ++ ".png" = String c s /\ Ascii.eqb c "/" = false
                        /\ slashless s = true /\ s <> "").
  { intros ratio Hr. destruct ratio as [|c r].
    - exists "."%char, "png". repeat split. discriminate.
    - cbn [slashless] in Hr. apply andb_true_iff in Hr as [Hc Hr].
      exists c, (r ++ ".png"). split; [reflexivity|].
      split; [now apply negb_true_iff|]. split.
      + rewrite slashless_app, Hr. reflexivity.
      + destruct r; discriminate. }
  destruct (ends_with_slash p) eqn:Hp.
  - destruct (ends_with_slash_split p Hp) as (a & ->).
    destruct (Hgen a) as (stem & Hstem). exists stem. intros ratio Hr.
    destruct (Hname ratio Hr) as (c & s & -> & Hc & Hs & Hne).
    rewrite (path_div_relative _ _ _ Hc), Hp, string_app_assoc.
    cbn [String.append]. now apply Hstem.
  - destruct (Hgen p) as (stem & Hstem). exists stem. intros ratio Hr.
    destruct (Hname ratio Hr) as (c & s & -> & Hc & Hs & Hne).
    rewrite (path_div_relative _ _ _ Hc), Hp. cbn [String.append]. now apply Hstem.
Qed.

Lemma variation_paths_nodup (output_folder product_id : string) (ratios : list string) :
  List.NoDup ratios -> List.Forall (fun ratio => slashless ratio = true) ratios ->
  List.NoDup (List.map (fun ratio => path_div (path_div output_folder product_id)
                                        (ratio ++ ".png")) ratios).
Proof.
  destruct (path_div_name (path_div output_folder product_id)) as (stem & Hstem).
  induction ratios as [|ratio rest IH]; intros Hnd Hall; cbn [List.map]; [constructor|].
  apply List.NoDup_cons_iff in Hnd as [Hnotin Hnd].
  apply List.Forall_cons_iff in Hall as [Hr Hall].
  constructor; [|now apply IH].
  intros Hin. apply in_map_iff in Hin as (ratio' & Heq & Hin').
  rewrite List.Forall_forall in Hall.
  rewrite (Hstem ratio Hr), (Hstem ratio' (Hall ratio' Hin')) in Heq.
  apply string_app_inv_head, string_app_inv_tail in Heq. subst ratio'. contradiction.
Qed.

End PathNames.

Section DistinctFiles.
Context `{Pillow}.

(** X30: the variations do not overwrite one another.  For ratio names that
    are all different and hold no slash (the default ratios are such),
    [create_variations] returns as many different paths as there are
    ratios, and after it returns each path holds an image file of exactly
    the output size of its own ratio. *)
Theorem variations_distinct_files (self : Composer)
    (hero_image_path campaign_message product_id output_folder : string)
    (ratios : option (list string)) (w w' : World) (paths : list string) :
  create_variations self hero_image_path campaign_message product_id output_folder ratios w
  = (Ok paths, w') ->
  (forall l, ratios = Some l ->
     List.NoDup l /\ List.Forall (fun ratio => slashless ratio = true) l) ->
  List.NoDup paths
  /\ List.length paths
     = List.length (match ratios with None => all_formats | Some l => l end)
  /\ forall ratio, In ratio (match ratios with None => all_formats | Some l => l end) ->
       In (path_div (path_div output_folder product_id) (ratio ++ ".png")) paths
       /\ holds_variation (disk w')
            (path_div (path_div output_folder product_id) (ratio ++ ".png")) ratio.
Proof.
  intros Hrun Hratios.
  assert (Hgood : List.NoDup (match ratios with None => all_formats | Some l => l end)
                  /\ List.Forall (fun ratio => slashless ratio = true)
                       (match ratios with None => all_formats | Some l => l end)).
  { destruct ratios as [l|]; [now apply Hratios|]. split.
    - apply nodup_keys_decide. reflexivity.
    - repeat constructor. }
  destruct Hgood as [Hnd Hall].
  unfold create_variations in Hrun. apply try_reraise_ok in Hrun.
  apply bind_ok in Hrun as (opened & w1 & _ & Hrun).
  apply bind_ok in Hrun as (hi & w2 & _ & Hrun).
  apply bind_ok in Hrun as (hero_image & w3 & _ & Hrun).
  cbv zeta in Hrun. apply bind_ok in Hrun as ([] & w4 & _ & Hrun).
  pose proof (variations_loop_paths _ _ _ _ _ _ _ _ _ Hrun) as Hpaths.
  cbn [app] in Hpaths. subst paths.
  pose proof (variation_paths_nodup output_folder product_id _ Hnd Hall) as Hdistinct.
  destruct (variations_loop_disk _ _ _ _ _ _ _ _ _ Hrun) as [_ Hfiles].
  split; [exact Hdistinct|]. split; [apply List.length_map|].
  intros ratio Hin. split.
  - apply in_map_iff. now exists ratio.
  - exact (Hfiles Hdistinct ratio Hin).
Qed.

End DistinctFiles.

Lemma variations_distinct_files_witness :
  exists w',
    snd (create_variations (H := Fixture.pillow) Fixture.composer0 "assets/hero.png"
           Fixture.short_message "prod1" "outputs/camp" None Fixture.world0) = w'
    /\ holds_variation (disk w') "outputs/camp/prod1/9x16.png" "9x16".
Proof.
  destruct (create_variations (H := Fixture.pillow) Fixture.composer0 "assets/hero.png"
              Fixture.short_message "prod1" "outputs/camp" None Fixture.world0)
    as [res w'] eqn:Hrun.
  exists w'. split; [reflexivity|].
  assert (Hres : exists paths, res = Ok paths).
  { assert (Hc : match fst (create_variations (H := Fixture.pillow) Fixture.composer0
                              "assets/hero.png" Fixture.short_message "prod1"
                              "outputs/camp" None Fixture.world0) with
                 | Ok _ => true
                 | Raise _ => false
                 end = true) by reflexivity.
    rewrite Hrun in Hc. destruct res as [paths|e]; [now exists paths | discriminate Hc]. }
  destruct Hres as (paths & ->).
  destruct (variations_distinct_files _ _ _ _ _ _ _ _ _ Hrun) as (_ & _ & Hfiles).
  - intros l Hl. discriminate Hl.
  - exact (proj2 (Hfiles "9x16" (or_intror (or_introl eq_refl)))).
Defined.

(** ** The parents of a folder *)

Section FolderParents.
Context `{Pillow}.

Lemma parts_components (cur s : string) :
  slashless cur = true -> Forall component (path_parts_from cur s).
Proof.
  revert cur. induction s as [|c s IH]; intros cur Hcur; cbn [path_parts_from].
  - destruct (String.eqb_spec cur ""); cbn [orb]; [constructor|].
    destruct (String.eqb_spec cur "."); constructor; [now repeat split | constructor].
  - destruct (Ascii.eqb c "/") eqn:Hc.
    + apply Forall_app. split; [|now apply IH].
      destruct (String.eqb_spec cur ""); cbn [orb]; [constructor|].
      destruct (String.eqb_spec cur "."); constructor; [now repeat split | constructor].
    + apply IH. rewrite slashless_app, Hcur. cbn [slashless]. now rewrite Hc.
Qed.

Lemma component_head (part : string) :
  component part -> exists c rest, part = String c rest /\ Ascii.eqb c "/" = false.
Proof.
  intros (Hs & Hne & _). destruct part as [|c rest]; [contradiction|].
  exists c, rest. split; [reflexivity|]. cbn [slashless] in Hs.
  apply andb_true_iff in Hs as [Hc _]. now apply negb_true_iff in Hc.
Qed.

Lemma join_head (ps : list string) :
  Forall component ps -> ps <> [] ->
  exists c rest, join "/" ps = String c rest /\ Ascii.eqb c "/" = false.
Proof.
  intros Hps Hne. destruct ps as [|part ps]; [contradiction|].
  apply Forall_cons in Hps as [Hpart _].
  destruct (component_head part Hpart) as (c & rest & -> & Hc).
  destruct ps as [|part' ps]; cbn [join String.append]; eauto.
Qed.

Lemma parts_component (part : string) :
  component part -> path_parts_from "" part = [part].
Proof.
  intros (Hs & Hne & Hdot). rewrite (parts_slashless part "" Hs). cbn [String.append].
  destruct (String.eqb_spec part ""); [contradiction|].
  destruct (String.eqb_spec part "."); [contradiction | reflexivity].
Qed.

Lemma parts_join (ps : list string) :
  Forall component ps -> path_parts_from "" (join "/" ps) = ps.
Proof.
  induction ps as [|part ps IH]; intros Hps; [reflexivity|].
  apply Forall_cons in Hps as [Hpart Hps].
  destruct ps as [|part' ps].
  - now apply parts_component.
  - change (join "/" (part :: part' :: ps))
      with (part ++ String "/" (join "/" (part' :: ps))).
    rewrite parts_app_slash, (parts_component part Hpart), (IH Hps). reflexivity.
Qed.

Lemma path_root_one (c : ascii) (s : string) :
  Ascii.eqb c "/" = false -> path_root (String "/" (String c s)) = "/".
Proof.
  destruct c as [[|] [|] [|] [|] [|] [|] [|] [|]]; try reflexivity. discriminate.
Qed.

Lemma path_root_two (c : ascii) (s : string) :
  Ascii.eqb c "/" = false -> path_root (String "/" (String "/" (String c s))) = "//".
Proof.
  destruct c as [[|] [|] [|] [|] [|] [|] [|] [|]]; try reflexivity. discriminate.
Qed.

Lemma path_root_cases (s : string) :
  path_root s = "" \/ path_root s = "/" \/ path_root s = "//".
Proof.
  destruct s as [|c s]; [now left|].
  destruct (Ascii.eqb c "/") eqn:Hc; [|left; now apply path_root_not_slash].
  apply Ascii.eqb_eq in Hc. subst c. right.
  destruct s as [|c s]; [now left|].
  destruct (Ascii.eqb c "/") eqn:Hc; [|left; now apply path_root_one].
  apply Ascii.eqb_eq in Hc. subst c.
  destruct s as [|c s]; [now right|].
  destruct (Ascii.eqb c "/") eqn:Hc; [|right; now apply path_root_two].
  apply Ascii.eqb_eq in Hc. subst c. now left.
Qed.

(** A path put together from a root and components has that root and
    those components. *)
Lemma parts_rooted (r : string) (ps : list string) :
  r = "" \/ r = "/" \/ r = "//" -> Forall component ps ->
  let s := if String.eqb r "" && String.eqb (join "/" ps) "" then "." else r ++ join "/" ps in
  path_parts_from "" s = ps /\ path_root s = r.
Proof.
  intros Hr Hps. cbv zeta. destruct ps as [|part ps].
  - destruct Hr as [->|[->| ->]]; now split.
  - destruct (join_head (part :: ps) Hps ltac:(discriminate)) as (c & rest & Hjoin & Hc).
    pose proof (parts_join _ Hps) as Hparts. rewrite Hjoin in *.
    replace (String.eqb (String c rest) "") with false by reflexivity.
    rewrite andb_false_r.
    destruct Hr as [->|[->| ->]]; cbn [String.append path_parts_from Ascii.eqb Bool.eqb
                                         String.eqb orb app].
    + split; [exact Hparts | now apply path_root_not_slash].
    + split; [exact Hparts | now apply path_root_one].
    + split; [exact Hparts | now apply path_root_two].
Qed.

Lemma components_removelast (ps : list string) :
  Forall component ps -> Forall component (List.removelast ps).
Proof.
  induction ps as [|part ps IH]; intros Hps; [constructor|].
  apply Forall_cons in Hps as [Hpart Hps]. cbn [List.removelast].
  destruct ps; [constructor|]. constructor; [assumption | now apply IH].
Qed.

Lemma removelast_length (ps : list string) :
  List.length (List.removelast ps) = Nat.pred (List.length ps).
Proof.
  induction ps as [|part ps IH]; [reflexivity|]. cbn [List.removelast].
  destruct ps; [reflexivity|]. cbn [List.length] in *. now rewrite IH.
Qed.

(** [str(Path(s))] is a path in normal form, with the parts of [s]. *)
Lemma Path_parts (s : string) :
  path_parts_from "" (Path s) = path_parts_from "" s
  /\ path_root (Path s) = path_root s
  /\ Path (Path s) = Path s.
Proof.
  destruct (parts_rooted (path_root s) (path_parts_from "" s) (path_root_cases s)
              (parts_components "" s eq_refl)) as [Hparts Hroot].
  cbv zeta in Hparts, Hroot. fold (Path s) in Hparts, Hroot.
  split; [exact Hparts|]. split; [exact Hroot|].
  unfold Path at 1. rewrite Hparts, Hroot. reflexivity.
Qed.

(** The parent of a path is in normal form and has the parts of the path
    but the last. *)
Lemma path_parent_parts (s : string) :
  path_parts_from "" (path_parent s) = List.removelast (path_parts_from "" s)
  /\ Path (path_parent s) = path_parent s.
Proof.
  unfold path_parent.
  destruct (path_parts_from "" s) as [|part ps] eqn:Hs.
  - destruct (Path_parts s) as (Hparts & _ & Hnormal). rewrite Hparts, Hs. now split.
  - pose proof (parts_components "" s eq_refl) as Hps. rewrite Hs in Hps.
    destruct (parts_rooted (path_root s) _ (path_root_cases s)
                (components_removelast _ Hps)) as [Hparts Hroot].
    cbv zeta in *. split; [exact Hparts|].
    unfold Path. rewrite Hparts, Hroot. reflexivity.
Qed.

(** A path that has no part is its own parent. *)
Lemma path_parent_anchor (p : string) :
  Path p = p -> path_parts_from "" p = [] -> path_parent p = p.
Proof. intros Hnormal Hparts. unfold path_parent. now rewrite Hparts. Qed.

(** [mkdir] never runs out of levels: a folder in normal form has no more
    parents to make than it has parts, so that more levels make no
    difference. *)
Lemma mkdir_parents_enough (n extra : nat) (p : string) (w : World) :
  Path p = p -> List.length (path_parts_from "" p) = n ->
  mkdir_parents (n + extra) p w = mkdir_parents n p w.
Proof.
  revert p w. induction n as [|n IH]; intros p w Hnormal Hlen.
  - destruct extra as [|extra]; [reflexivity|]. cbn [Nat.add mkdir_parents].
    destruct (os_mkdir p w) as [[[]|e] w']; [reflexivity|].
    destruct (String.eqb e "FileNotFoundError"); [|reflexivity].
    rewrite (path_parent_anchor p Hnormal) by (now apply List.length_zero_iff_nil).
    now rewrite String.eqb_refl.
  - cbn [Nat.add mkdir_parents].
    destruct (os_mkdir p w) as [[[]|e] w']; [reflexivity|].
    destruct (String.eqb e "FileNotFoundError"); [|reflexivity].
    destruct (String.eqb (path_parent p) p); [reflexivity|].
    destruct (path_parent_parts p) as [Hparts Hparent].
    unfold bind. rewrite (IH (path_parent p) w' Hparent); [reflexivity|].
    rewrite Hparts, removelast_length, Hlen. reflexivity.
Qed.

(** So for the folder of a product, whatever the levels allowed above the
    number of its parts. *)
Lemma mkdir_product_folder (output_folder product_id : string) (extra : nat) (w : World) :
  let product_folder := path_div output_folder product_id in
  mkdir_parents (List.length (path_parts_from "" product_folder) + extra) product_folder w
  = mkdir product_folder w.
Proof.
  cbv zeta. unfold mkdir. apply mkdir_parents_enough; [|reflexivity].
  unfold path_div. destruct product_id as [|c s]; [apply Path_parts|].
  destruct (ends_with_slash output_folder);
    destruct c as [[|] [|] [|] [|] [|] [|] [|] [|]]; apply Path_parts.
Qed.

End FolderParents.
